(* ===== verification/_CoqProject ===== *)
-Q . S2P
Prelude.v
GoStrings.v
Status.v
StatusSpec.v
Xpath.v
XpathSpec.v
Path.v
PathSpec.v
Schema.v
SchemaSpec.v
Aliases.v
Cert.v
CertSpec.v
Target.v
TargetSpec.v
CertClient.v
CertClientSpec.v
Tool.v
ToolSpec.v
SetTxn.v
SetTxnSpec.v
SetLeaf.v
TypeSearch.v
TypeSearchSpec.v
DataSearch.v
DataSearchSpec.v
Gtrie.v
StateSync.v
StateSyncSpec.v
Server.v
ServerSpec.v
Telemetry.v
TelemetrySpec.v
Subscribe.v
SubscribeSpec.v
Runner.v
RunnerSpec.v
Write.v
SetData.v
WriteSpec.v
SetDataSpec.v
SetTree.v
SetTreeSpec.v
Responder.v
Update.v
UpdateSpec.v
Session.v
SessionSpec.v
Access.v
AccessSpec.v
Entity.v
EntitySpec.v
Setup.v
SetupSpec.v
Subsystem.v
SubsystemSpec.v
