(* ===== verification/Prelude.v ===== *)
(** * gNxI: a verification development (root file)

    The repository is a gNMI server: a tree of configuration and state data,
    described by a YANG schema, which clients read (Get), change (Set) and watch
    (Subscribe), and which an external system (the device) keeps in step with
    itself.  Beside it are a gNOI certificate service with its client, a target
    and a command line tool, and a helper that reports interface statistics.

    This file holds what all components share: error messages, the outcome of a
    Go call ([Ok], [Err], [Panic], [Diverge]), iteration over Go maps, loops that
    append, and the tactics and hints of the development.

    ** Components

    For every component X, the file X.v has its data and operations, written
    function by function after the source, and XSpec.v its lemmas and theorems.

    - [GoStrings]: indexing, slicing and the package [strings].
    - [Status]: [utilities/status/status.go], the rich errors every component
      returns.
    - [Xpath], [Path]: [utilities/xpath], the parser of path texts and the
      operations on gNMI paths.
    - [Schema]: the look-ups of [gnmi/model/mo.go] and the path searches of
      [model.go] over the schema tree; a pointer into it is a zipper.
    - [TypeSearch], [DataSearch]: the searches of [gnmi/model/utilities.go] over Go types and over
      the data tree; the search objects that the code overwrites are cells of a
      store.
    - [Write]: the writing half of [utilities.go], in a monad that keeps what was
      written before an error.
    - [SetTxn]: [gnmi/model/set.go] and the Set RPC of [gnmi/server/server.go],
      over the interface [DataStore]; [SetData] implements that interface with
      [DataSearch] and [Write].  [SetLeaf] is what a Set on leaves relies on of a
      data store, with its lemmas; [SetTree] proves that the tree of [SetData]
      keeps it, over laws of the third-party code alone; [SetTreeSpec] has the
      theorems, and a tree with containers, list entries and leaves that has the
      laws.
    - [Update]: the updates the external system makes ([model.go], [mo.go]), over
      [Write], with the events of [Telemetry].
    - [Gtrie], [StateSync]: [gnmi/model/get.go], which data to ask the external
      system for before a read.
    - [Server]: the Get and Capabilities RPCs of [server.go] and the messages of
      [message.go]; [Setup]: the constructors of model and server and the server
      of [gnmid/main.go].
    - [Aliases], [Telemetry], [Subscribe], [Runner]: [gnmi/server/aliases.go],
      [subscribe.go] and [internal.go]: aliases, the registry of subscriptions,
      the handlers of the Subscribe RPC, and the goroutine of a stream
      subscription as a step system; [Responder]: the goroutine of [server.go]
      that sends the responses of a session.
    - [Session]: [gnmi/server/session.go], the table of connections; [Access]:
      [utilities/grpc.go], the login, its interceptors and credentials, and the
      connections of [utilities/netsession].
    - [Cert], [Target], [CertClient], [Tool]: [gnoi/cert] (manager, service and
      client), [gnoi/gnoi.go], [gnoi_target] and [gnoi_cert]; [Entity]:
      [utilities/entity/entity.go].
    - [Subsystem]: [gnmid/subsystem/main.go], the parser of ifconfig.

    ** How they interact

    Set calls the searches and the writes of the tree and reports the difference
    to the external system; the external system answers through [Update], which
    writes the tree again and hands each change to [Telemetry]; the registry
    turns it into events, which the runners of [Runner] report to the client with
    the messages of [Server].  Get and Subscribe first ask [StateSync] what to
    refresh.  A client call of [CertClient] and a handler of [Cert] are joined by
    a stream that may fail at any operation; [Target] adds the locks and the
    restarts.  A Go pointer that matters for a claim is modelled as one: the
    objects of the data search, the subscriptions of a session and the tries of
    the state synchronisation.

    ** What the theorems show

    - Set: the results list every operation once, the calls to the external
      system are the bracketed difference of the two trees ([SetTxnSpec]); on the
      data tree a path without wildcards addresses one node, and every Set ends
      ([SetDataSpec]); on leaves of the data tree a roll back restores every leaf
      that was changed once, but the keys of list entries that the Set created,
      and no Set changes a leaf that it does not name ([SetTreeSpec]).
    - Searches: the search by text and by elements, by type and by schema, on
      overwritten objects and on immutable values agree, and are what their
      relational specification says ([SchemaSpec], [TypeSearchSpec],
      [DataSearchSpec]).
    - Paths: printing and parsing are inverse on well-formed paths ([PathSpec]);
      the parser is total and its loops equal index-free scanners ([XpathSpec]).
    - Subscriptions: a session never touches those of another, every request
      keeps it well formed, events carry exactly the changes that hit a
      subscription, sampled updates are counted ([SubscribeSpec],
      [TelemetrySpec], [RunnerSpec], [UpdateSpec]); the end of a session races
      with its runners ([RunnerSpec]) and with the sending of what it had
      produced ([Responder]).
    - Reads: Get answers exactly the values found; a request for synchronisation
      names live data only ([ServerSpec], [StateSyncSpec]).
    - Certificates: an open rotation holds its lock, and while all certificates
      decode no other lock is held; a client call that succeeds has stored what it
      asked for; the target runs the mode of its credentials while notifications
      run one at a time; and three ways in which the target fails
      ([CertSpec], [CertClientSpec], [TargetSpec], [EntitySpec]).
    - Access: only accepted logins reach a handler; the tables of connections hold
      open connections only, and all of them while no two share an address
      ([AccessSpec]).
    - Start-up and statistics: what a server is made of and has sent, and what is
      read from any text in place of the output of ifconfig ([SetupSpec],
      [SubsystemSpec]).

    Some theorems state what the code does where it is not what it means to do
    (a deadlock, a lost roll back, a panic); their doc comments say so.

    ** Integers, bounds and fuel

    Counters and intervals keep their width: arithmetic modulo 2^32 or 2^64 is
    written out.  Loops over an input carry fuel only where they are not
    structural: the scanners of [Xpath] (length of the text plus one), the type
    searches ([search_fuel], the depth of the type and the length of the path)
    and the data search ([find_fuel], the size of the value and the length of the
    path).  For each a theorem excludes [Diverge] at that fuel.

    ** Code outside of the repository

    Third-party code is a class or an argument, with documented behaviour as
    laws: [YdbTypes], [DataOps], [DataWrite] (ydb and ygot; what a Set on leaves
    needs of them is [TreeLaws]), [Gtrie], [GoRange]
    and [GoSort] (the order of a map iteration, an unstable sort), [ProtoClone],
    crypto/x509 ([Entity]), PEM and DER decoding ([Cert]), JSON and YAML
    decoding.  Every theorem over them has a witness at a concrete instance.

    ** Not modelled

    Generated code ([gnmi/model/gostruct/generated.go], [cert.pb.go]): its schema
    tree and types are parameters.  Command line flags, listening, dialling,
    files, printing and logging.  Time stamps of messages.
    The data tree is a value: that a container found in it is a pointer into it,
    so that what a Set saved of a container changes with it, is not modelled.
    The syslog server, which only forwards.
    Locks are modelled where operations can block each other ([Target],
    [Runner]); elsewhere a mutex makes an operation one step. *)

From Stdlib Require Import ZArith.
From stdpp Require Export base tactics gmap strings list fin_maps.

(** Local notations of the development live in a scope of their own. *)
Declare Scope gnxi_scope.
Delimit Scope gnxi_scope with gnxi.

(** ** Errors

    A Go error message is kept as the call that builds it: the format string
    and its arguments.  [Fmt f [a1; a2]] is [fmt.Sprintf(f, a1, a2)]; an
    argument that is itself a formatted text (the [%v] of an error) is [AMsg]. *)
Inductive msg : Type :=
  | Fmt (format : string) (args : list arg)
with arg : Type :=
  | AStr (s : string)
  | AInt (n : Z)
  | AMsg (m : msg).

(** ** Outcomes of a Go call

    [Ok] is a normal return with a nil error, [Err] a return with a non-nil
    error, [Panic] a run-time panic (index or slice out of range, nil
    dereference), [Diverge] the exhaustion of the fuel of a loop.  Every
    function defined with fuel comes with a theorem that excludes [Diverge]. *)
Inductive outcome (E A : Type) : Type :=
  | Ok (a : A)
  | Err (e : E)
  | Panic
  | Diverge.
Arguments Ok {E A} a.
Arguments Err {E A} e.
Arguments Panic {E A}.
Arguments Diverge {E A}.

#[global] Instance outcome_ret {E} : MRet (outcome E) := λ A a, Ok a.
#[global] Instance outcome_bind {E} : MBind (outcome E) := λ A B k m,
  match m with
  | Ok a => k a
  | Err e => Err e
  | Panic => Panic
  | Diverge => Diverge
  end.
#[global] Instance outcome_fmap {E} : FMap (outcome E) := λ A B f m,
  match m with
  | Ok a => Ok (f a)
  | Err e => Err e
  | Panic => Panic
  | Diverge => Diverge
  end.

(** A call returned: neither a panic nor an unfinished loop. *)
Definition returns {E A} (m : outcome E A) : Prop :=
  match m with Ok _ | Err _ => True | Panic | Diverge => False end.

Definition is_ok {E A} (m : outcome E A) : bool :=
  match m with Ok _ => true | _ => false end.

Section outcome.
Context {E A B : Type}.
Implicit Types (m : outcome E A) (k : A → outcome E B).

Lemma outcome_bind_Ok m k b :
  m ≫= k = Ok b ↔ ∃ a, m = Ok a ∧ k a = Ok b.
Proof. destruct m; cbn; split; try discriminate; naive_solver. Qed.

Lemma outcome_bind_Err m k e :
  m ≫= k = Err e ↔ m = Err e ∨ ∃ a, m = Ok a ∧ k a = Err e.
Proof. destruct m; cbn; naive_solver. Qed.

Lemma outcome_bind_Panic m k :
  m ≫= k = Panic ↔ m = Panic ∨ ∃ a, m = Ok a ∧ k a = Panic.
Proof. destruct m; cbn; naive_solver. Qed.

Lemma returns_bind m k :
  returns m → (∀ a, m = Ok a → returns (k a)) → returns (m ≫= k).
Proof. destruct m; cbn; naive_solver. Qed.

Lemma returns_Ok (a : A) : returns (E:=E) (Ok a).
Proof. exact I. Qed.
Lemma returns_Err (e : E) : returns (A:=A) (Err e).
Proof. exact I. Qed.
End outcome.

(** Left identity, so that a computed first step unfolds by rewriting. *)
Lemma outcome_bind_ret {E A B} (a : A) (k : A → outcome E B) : (Ok a ≫= k) = k a.
Proof. reflexivity. Qed.

Lemma outcome_bind_mret {E A B} (a : A) (k : A → outcome E B) : (mret a ≫= k) = k a.
Proof. reflexivity. Qed.

Create HintDb gnxi.
Create Rewrite HintDb gnxi.
#[export] Hint Resolve returns_Ok returns_Err : gnxi.
#[export] Hint Rewrite @outcome_bind_ret @outcome_bind_mret : gnxi.

(** Inversion of a successful or failed sequence of calls in the context. *)
Ltac simplify_outcome :=
  repeat match goal with
  | H : Ok _ = Ok _ |- _ => injection H as H; subst
  | H : Err _ = Err _ |- _ => injection H as H; subst
  | H : Ok _ = Err _ |- _ => discriminate H
  | H : Err _ = Ok _ |- _ => discriminate H
  | H : Ok _ = Panic |- _ => discriminate H
  | H : Err _ = Panic |- _ => discriminate H
  | H : Panic = Ok _ |- _ => discriminate H
  | H : Panic = Err _ |- _ => discriminate H
  | H : Diverge = _ |- _ => discriminate H
  | H : _ = Diverge |- _ => discriminate H
  | H : _ ≫= _ = Ok _ |- _ =>
      apply outcome_bind_Ok in H;
      let a := fresh "a" in let E := fresh "E" in destruct H as (a & E & H)
  | H : mret _ = _ |- _ => cbv [mret outcome_ret] in H
  end.

(** An equation between closed terms, by evaluation of both sides. *)
Ltac by_vm := match goal with |- _ = ?y => vm_cast_no_check (@eq_refl _ y) end.

(** Witnesses evaluate a boolean: comparing a result that holds maps with
    another would compare the proofs inside the maps. *)
Definition ok_and {E A} (r : outcome E A) (f : A → bool) : bool :=
  match r with Ok x => f x | _ => false end.

Lemma ok_and_true {E A} (r : outcome E A) (f : A → bool) : ok_and r f = true → ∃ x, r = Ok x ∧ f x = true.
Proof. destruct r; cbn; [eauto|discriminate..]. Qed.

Definition some_bool {A} (o : option A) : bool := match o with Some _ => true | None => false end.

Lemma some_bool_default {A} (d : A) (o : option A) : some_bool o = true → o = Some (default d o).
Proof. by destruct o. Qed.

(** ** Iteration over a Go map

    [range m] visits the entries of a map in an order the language leaves
    unspecified.  The order is an argument of the model: every theorem that
    involves a map iteration holds for every choice of [go_range]. *)
Class GoRange := {
  go_range : ∀ {K} `{Countable K} {A}, gmap K A → list (K * A);
  go_range_perm : ∀ {K} `{Countable K} {A} (m : gmap K A),
    go_range m ≡ₚ map_to_list m
}.

(** The order of the map's own representation, for concrete evaluations. *)
Definition canonical_range : GoRange := {|
  go_range := λ K _ _ A m, map_to_list m;
  go_range_perm := λ K _ _ A m, Permutation_refl _
|}.

(** The reverse order: a second admissible oracle. *)
Lemma reverse_range_perm {A} (l : list A) : reverse l ≡ₚ l.
Proof. apply reverse_Permutation. Qed.

Definition reversed_range : GoRange := {|
  go_range := λ K _ _ A m, reverse (map_to_list m);
  go_range_perm := λ K _ _ A m, reverse_range_perm _
|}.

Section go_range.
Context `{GoRange} {K} `{Countable K} {A : Type}.
Implicit Types m : gmap K A.

Lemma elem_of_go_range m k a : (k, a) ∈ go_range m ↔ m !! k = Some a.
Proof. rewrite go_range_perm. apply elem_of_map_to_list. Qed.

Lemma go_range_NoDup m : NoDup (go_range m).*1.
Proof. rewrite go_range_perm. apply NoDup_fst_map_to_list. Qed.

Lemma go_range_to_map m : list_to_map (go_range m) = m.
Proof.
  rewrite <-(list_to_map_to_list m) at 2.
  apply list_to_map_proper; [apply go_range_NoDup | apply go_range_perm].
Qed.

Lemma go_range_empty : go_range (∅ : gmap K A) = [].
Proof. apply Permutation_nil_r. rewrite go_range_perm. by rewrite map_to_list_empty. Qed.

Lemma go_range_length m : length (go_range m) = size m.
Proof. rewrite go_range_perm. apply length_map_to_list. Qed.

Lemma filter_NoDup_key (kvs : list (K * A)) k :
  NoDup kvs.*1 →
  base.filter (λ kv, kv.1 = k) kvs = match list_to_map (M:=gmap K A) kvs !! k with Some a => [(k, a)] | None => [] end.
Proof.
  induction kvs as [|[k' a] kvs IH]; [done|]. rewrite fmap_cons. intros [Hk Hnd]%NoDup_cons.
  rewrite filter_cons. cbn [list_to_map fst snd foldr]. case_decide as Hkk; cbn [fst] in Hkk.
  - subst k'. rewrite lookup_insert_eq, IH by done. by rewrite not_elem_of_list_to_map_1.
  - by rewrite lookup_insert_ne, IH.
Qed.

(** The loop visits a key once, if the map has it. *)
Lemma go_range_filter_key m k :
  base.filter (λ kv, kv.1 = k) (go_range m) = match m !! k with Some a => [(k, a)] | None => [] end.
Proof. rewrite filter_NoDup_key by apply go_range_NoDup. by rewrite go_range_to_map. Qed.

(** A loop that stores pairs with distinct keys builds their map. *)
Lemma foldl_insert (kvs : list (K * A)) m :
  NoDup kvs.*1 → foldl (λ m '(k, a), <[k := a]> m) m kvs = list_to_map kvs ∪ m.
Proof.
  revert m. induction kvs as [|[k a] kvs IH]; intros m; cbn; [by rewrite (left_id_L ∅ (∪))|].
  intros [Hk Hnd]%NoDup_cons. rewrite IH by done.
  rewrite <-insert_union_l. symmetry. apply insert_union_r. by apply not_elem_of_list_to_map_1.
Qed.

(** Storing the pairs of a loop over a map copies the map. *)
Lemma foldl_insert_range m : foldl (λ m '(k, a), <[k := a]> m) ∅ (go_range m) = m.
Proof. rewrite foldl_insert by apply go_range_NoDup. by rewrite go_range_to_map, (right_id_L ∅ (∪)). Qed.

(** The loop visits the entries that satisfy a condition as often as the map
    has such entries. *)
Lemma go_range_filter_length m (P : K * A → Prop) `{∀ kv, Decision (P kv)} :
  length (base.filter P (go_range m)) = size (base.filter P m).
Proof.
  rewrite go_range_perm, <-length_map_to_list. apply Permutation_length, NoDup_Permutation.
  - apply NoDup_filter, NoDup_map_to_list.
  - apply NoDup_map_to_list.
  - intros [k a]. rewrite list_elem_of_filter, !elem_of_map_to_list, map_lookup_filter_Some. naive_solver.
Qed.
End go_range.

(** ** Lists *)
Section lists.
Context {A B : Type}.

Lemma forallb_elem (f : A → bool) l : forallb f l = true ↔ ∀ x, x ∈ l → f x = true.
Proof. rewrite forallb_forall. setoid_rewrite list_elem_of_In. done. Qed.

Lemma existsb_elem (f : A → bool) l : existsb f l = true ↔ ∃ x, x ∈ l ∧ f x = true.
Proof. rewrite existsb_exists. setoid_rewrite list_elem_of_In. done. Qed.

Lemma concat_nonempty (l : list (list A)) : concat l ≠ [] ↔ ∃ x, x ∈ l ∧ x ≠ [].
Proof.
  induction l as [|x l IH]; cbn; [set_solver|].
  destruct x as [|a x]; cbn; [rewrite IH|]; split.
  - intros (y & ? & ?). exists y. set_solver.
  - intros (y & [->|?]%elem_of_cons & ?); [done|]. by exists y.
  - intros _. exists (a :: x). set_solver.
  - done.
Qed.
End lists.

Lemma forallb_perm {A} (f : A → bool) (l1 l2 : list A) :
  l1 ≡ₚ l2 → forallb f l1 = forallb f l2.
Proof.
  intros Hp. apply eq_true_iff_eq. rewrite !forallb_elem. by setoid_rewrite Hp.
Qed.

(** The last element of a slice, replaced in place ([s[len(s)-1].Key = v]). *)
Definition update_last {A} (f : A → A) (l : list A) : list A :=
  match reverse l with [] => [] | a :: r => reverse (f a :: r) end.

Lemma update_last_snoc {A} (f : A → A) l a : update_last f (l ++ [a]) = l ++ [f a].
Proof. unfold update_last. by rewrite reverse_snoc, reverse_cons, reverse_involutive. Qed.

(** An invariant of the steps holds in every reachable state. *)
Lemma rtc_invariant {A} (R : relation A) (P : A → Prop) x y :
  (∀ a b, R a b → P a → P b) → rtc R x y → P x → P y.
Proof. intros Hstep. induction 1; eauto. Qed.

(** ** Loops that append results

    The results of a loop [for _, x := range l { rv = append(rv, f(x)...) }]. *)
Fixpoint append_all {E A B} (f : A → outcome E (list B)) (l : list A) : outcome E (list B) :=
  match l with
  | [] => mret []
  | x :: l => r ← f x; rs ← append_all f l; mret (r ++ rs)
  end.
Section append_all.
Context {E A B : Type}.
Implicit Types (f : A → outcome E (list B)) (l : list A).

Lemma append_all_Ok f l :
  (∀ x, x ∈ l → ∃ r, f x = Ok r) →
  ∃ rs, append_all f l = Ok rs ∧ ∀ y, y ∈ rs ↔ ∃ x r, x ∈ l ∧ f x = Ok r ∧ y ∈ r.
Proof.
  induction l as [|x l IH]; intros Hf.
  { exists []. split; [done|]. set_solver. }
  destruct (Hf x) as [r Hr]; [set_solver|]. destruct IH as (rs & Hrs & Hy); [intros; apply Hf; set_solver|].
  exists (r ++ rs). cbn. rewrite Hr, outcome_bind_ret, Hrs, outcome_bind_ret. split; [done|].
  intros y. rewrite elem_of_app, Hy. setoid_rewrite elem_of_cons. split.
  - intros [?|(x' & r' & ? & ? & ?)]; eauto 10.
  - intros (x' & r' & [->|?] & Hr' & ?); [left|right; eauto 10]. rewrite Hr in Hr'. by simplify_outcome.
Qed.

(** The results of a loop that succeeded come from successful steps. *)
Lemma append_all_inv f l rs y :
  append_all f l = Ok rs → (y ∈ rs ↔ ∃ x r, x ∈ l ∧ f x = Ok r ∧ y ∈ r).
Proof.
  revert rs. induction l as [|x l IH]; intros rs Hr; cbn in Hr; [injection Hr as <-; set_solver|].
  apply outcome_bind_Ok in Hr as (r & Hx & Hr). apply outcome_bind_Ok in Hr as (rs' & Hl & Hr).
  injection Hr as <-. rewrite elem_of_app, (IH _ Hl). setoid_rewrite elem_of_cons. split.
  - intros [?|(x' & r' & ? & ? & ?)]; eauto 10.
  - intros (x' & r' & [->|?] & Hr' & ?); [left; congruence|right; eauto 10].
Qed.

Lemma append_all_steps f l rs x : append_all f l = Ok rs → x ∈ l → ∃ r, f x = Ok r.
Proof.
  revert rs. induction l as [|y l IH]; intros rs Hr; [set_solver|]. cbn in Hr.
  apply outcome_bind_Ok in Hr as (r & Hy & Hr). apply outcome_bind_Ok in Hr as (rs' & Hl & _).
  intros [->|?]%elem_of_cons; eauto.
Qed.

Lemma append_all_one f x : append_all f [x] = f x.
Proof. cbn. destruct (f x); cbn; by rewrite ?(right_id_L [] (++)). Qed.

Lemma append_all_ext f g l : (∀ x, x ∈ l → f x = g x) → append_all f l = append_all g l.
Proof.
  induction l as [|x l IH]; intros Hf; [done|]. cbn. rewrite Hf by set_solver.
  by rewrite IH by (intros; apply Hf; set_solver).
Qed.
End append_all.

(** Outcomes whose results are related; a failed outcome is related to none. *)
Definition ok_related {E A B} (R : A → B → Prop) (m : outcome E A) (n : outcome E B) : Prop :=
  ∃ a b, m = Ok a ∧ n = Ok b ∧ R a b.

Lemma append_all_related {E A B A' B'} (R : A → A' → Prop) (Q : B → B' → Prop)
    (f : A → outcome E (list B)) (g : A' → outcome E (list B')) l l' :
  Forall2 R l l' → (∀ x x', x ∈ l → R x x' → ok_related (Forall2 Q) (f x) (g x')) →
  ok_related (Forall2 Q) (append_all f l) (append_all g l').
Proof.
  induction 1 as [|x x' l l' Hx Hl IH]; intros Hf; [by exists [], []|].
  destruct (Hf x x') as (r & r' & Hr & Hr' & ?); [set_solver|done|].
  destruct IH as (rs & rs' & Hrs & Hrs' & ?); [intros; apply Hf; set_solver|].
  exists (r ++ rs), (r' ++ rs'). cbn. rewrite Hr, Hr', !outcome_bind_ret, Hrs, Hrs', !outcome_bind_ret.
  split; [done|]. split; [done|]. by apply Forall2_app.
Qed.
