(* ===== verification/GoStrings.v ===== *)
(** * Go strings

    A Go string is a sequence of bytes: [string] of the Standard Library, each
    [ascii] one byte.  This file models indexing and slicing (with their
    run-time panics) and the functions of the package [strings] that the source
    calls, with the lemmas on them that the components share. *)

From Stdlib Require Import Ascii.
From S2P Require Export Prelude.

Abbreviation strlen := String.length.

(** ** Lemmas on append *)
Lemma app_nil_l (s : string) : "" +:+ s = s.
Proof. reflexivity. Qed.

Lemma app_cons c (s t : string) : String c s +:+ t = String c (s +:+ t).
Proof. reflexivity. Qed.

Lemma app_nil_r (s : string) : s +:+ "" = s.
Proof. induction s as [|c s IH]; [done|]. by rewrite app_cons, IH. Qed.

Lemma app_assoc (s t u : string) : (s +:+ t) +:+ u = s +:+ t +:+ u.
Proof. induction s as [|c s IH]; [done|]. by rewrite !app_cons, IH. Qed.

Lemma strlen_app (s t : string) : strlen (s +:+ t) = strlen s + strlen t.
Proof. induction s as [|c s IH]; [done|]. rewrite app_cons. cbn. by rewrite IH. Qed.

Lemma app_inj_l (s t u : string) : s +:+ t = s +:+ u → t = u.
Proof. induction s as [|c s IH]; [done|]. rewrite !app_cons. naive_solver. Qed.

Lemma app_inj_r (s t u : string) : s +:+ u = t +:+ u → s = t.
Proof.
  revert t. induction s as [|c s IH]; intros [|d t] Heq; [done| | |].
  - apply (f_equal strlen) in Heq. rewrite !strlen_app in Heq. cbn in Heq. lia.
  - apply (f_equal strlen) in Heq. rewrite !strlen_app in Heq. cbn in Heq. lia.
  - rewrite !app_cons in Heq. injection Heq as -> Heq. f_equal. by apply IH.
Qed.

Lemma app_eq_nil (s t : string) : s +:+ t = "" ↔ s = "" ∧ t = "".
Proof. destruct s; [|rewrite app_cons]; naive_solver. Qed.

#[export] Hint Rewrite app_nil_l app_cons app_nil_r app_assoc strlen_app : gnxi.

(** [s] followed by one byte, the form in which a scanning loop extends a token. *)
Definition snoc (s : string) (c : ascii) : string := s +:+ String c "".

Lemma app_snoc s c t : snoc s c +:+ t = s +:+ String c t.
Proof. unfold snoc. by rewrite app_assoc. Qed.

Lemma strlen_snoc s c : strlen (snoc s c) = S (strlen s).
Proof. unfold snoc. rewrite strlen_app. cbn. lia. Qed.

Lemma snoc_nonempty s c : snoc s c ≠ "".
Proof. unfold snoc. rewrite app_eq_nil. naive_solver. Qed.

(** Induction from the right. *)
Lemma string_rev_ind (P : string → Prop) :
  P "" → (∀ s c, P s → P (snoc s c)) → ∀ s, P s.
Proof.
  intros H0 HS s. remember (strlen s) as n eqn:Hn. revert s Hn.
  induction n as [|n IH]; intros s Hn; [by destruct s|].
  assert (∃ t c, s = snoc t c) as (t & c & ->).
  { destruct s as [|c s]; [done|]. clear. revert c.
    induction s as [|d s IH]; intros c; [by exists "", c|].
    destruct (IH d) as (t & e & ->). exists (String c t), e.
    unfold snoc. by rewrite app_cons. }
  apply HS, IH. rewrite strlen_snoc in Hn. lia.
Qed.

(** ** Indexing and slicing *)

(** [s[i]]: panics out of range. *)
Definition str_index {E} (s : string) (i : nat) : outcome E ascii :=
  match String.get i s with Some c => Ok c | None => Panic end.

(** [s[b:e]]: panics unless [b <= e <= len(s)]. *)
Definition str_slice {E} (s : string) (b e : nat) : outcome E string :=
  if (b <=? e) && (e <=? strlen s) then Ok (String.substring b (e - b) s) else Panic.

Lemma str_index_mid {E} a c t : str_index (E:=E) (a +:+ String c t) (strlen a) = Ok c.
Proof.
  unfold str_index. replace (String.get _ _) with (Some c); [done|].
  induction a as [|d a IH]; [done|]. rewrite app_cons. exact IH.
Qed.

Lemma substring_prefix b c : String.substring 0 (strlen b) (b +:+ c) = b.
Proof. induction b as [|d b IH]; [by destruct c|]. rewrite app_cons. cbn. by rewrite IH. Qed.

Lemma str_slice_mid {E} a b c :
  str_slice (E:=E) (a +:+ b +:+ c) (strlen a) (strlen a + strlen b) = Ok b.
Proof.
  unfold str_slice. rewrite !strlen_app.
  replace (_ && _) with true; [|symmetry; rewrite andb_true_iff, !Nat.leb_le; lia].
  replace (_ + _ - _) with (strlen b) by lia. f_equal.
  induction a as [|d a IH]; [exact (substring_prefix b c)|]. rewrite app_cons. exact IH.
Qed.

Lemma str_slice_to {E} a b : str_slice (E:=E) (a +:+ b) 0 (strlen a) = Ok a.
Proof. apply (str_slice_mid "" a b). Qed.

Lemma str_slice_from {E} a b :
  str_slice (E:=E) (a +:+ b) (strlen a) (strlen (a +:+ b)) = Ok b.
Proof.
  rewrite strlen_app. replace (a +:+ b) with (a +:+ b +:+ "") at 1 by by rewrite app_nil_r.
  apply str_slice_mid.
Qed.

(** ** The package [strings] *)
Definition HasPrefix (s p : string) : bool := String.prefix p s.

(** [strings.Index]: [None] is -1. *)
Fixpoint Index (s sub : string) : option nat :=
  if String.prefix sub s then Some 0
  else match s with
       | "" => None
       | String _ t => S <$> Index t sub
       end.

(** [strings.LastIndex]. *)
Fixpoint LastIndex (s sub : string) : option nat :=
  match s with
  | "" => if String.prefix sub "" then Some 0 else None
  | String _ t =>
      match LastIndex t sub with
      | Some i => Some (S i)
      | None => if String.prefix sub s then Some 0 else None
      end
  end.

Definition Contains (s sub : string) : bool :=
  match Index s sub with Some _ => true | None => false end.

(** [strings.Replace(s, old, new, -1)] for a non-empty [old]: matches are found
    from left to right and do not overlap; [skip] counts the bytes of a match
    still to be dropped. *)
Fixpoint replace_go (old new : string) (skip : nat) (s : string) : string :=
  match s with
  | "" => ""
  | String c t =>
      match skip with
      | S k => replace_go old new k t
      | 0 => if String.prefix old s
             then new +:+ replace_go old new (strlen old - 1) t
             else String c (replace_go old new 0 t)
      end
  end.
Definition ReplaceAll (s old new : string) : string := replace_go old new 0 s.

(** [strings.Split(s, sep)] for a one-byte separator. *)
Fixpoint split_go (sep : ascii) (cur : string) (s : string) : list string :=
  match s with
  | "" => [cur]
  | String c t => if Ascii.eqb c sep then cur :: split_go sep "" t
                  else split_go sep (snoc cur c) t
  end.
Definition Split (s : string) (sep : ascii) : list string := split_go sep "" s.

(** [strings.Join]. *)
Definition Join (l : list string) (sep : string) : string := String.concat sep l.

(** [strings.Trim] with a set of bytes. *)
Fixpoint trim_left (cut : ascii → bool) (s : string) : string :=
  match s with
  | "" => ""
  | String c t => if cut c then trim_left cut t else s
  end.
Fixpoint trim_right (cut : ascii → bool) (s : string) : string :=
  match s with
  | "" => ""
  | String c t =>
      match trim_right cut t with
      | "" => if cut c then "" else String c ""
      | t => String c t
      end
  end.
Definition Trim (cut : ascii → bool) (s : string) : string := trim_right cut (trim_left cut s).

Lemma Join_nil sep : Join [] sep = "".
Proof. done. Qed.
Lemma Join_one s sep : Join [s] sep = s.
Proof. done. Qed.
Lemma Join_cons s t l sep : Join (s :: t :: l) sep = s +:+ sep +:+ Join (t :: l) sep.
Proof. done. Qed.

(** Joining after a leading empty element prefixes every element with [sep]. *)
Lemma Join_lead l sep : Join ("" :: l) sep = foldr (λ s acc, sep +:+ s +:+ acc) "" l.
Proof.
  induction l as [|s l IH]; [done|]. rewrite Join_cons, app_nil_l. cbn [foldr].
  rewrite <-IH. destruct l as [|t l]; [by rewrite app_nil_r|].
  by rewrite !Join_cons, app_nil_l.
Qed.

(** ** Bytes of a string *)
Fixpoint str_forallb (f : ascii → bool) (s : string) : bool :=
  match s with "" => true | String c t => f c && str_forallb f t end.

Lemma str_forallb_app f s t : str_forallb f (s +:+ t) = str_forallb f s && str_forallb f t.
Proof. induction s as [|c s IH]; [done|]. rewrite app_cons. cbn. by rewrite IH, andb_assoc. Qed.

Lemma str_forallb_impl (f g : ascii → bool) s :
  (∀ c, f c = true → g c = true) → str_forallb f s = true → str_forallb g s = true.
Proof. intros Hfg. induction s; cbn; [done|]. rewrite !andb_true_iff. naive_solver. Qed.

(** The last byte, or [d] when the string is empty: what [s[end-1]] reads. *)
Fixpoint last_byte (d : ascii) (s : string) : ascii :=
  match s with "" => d | String c t => last_byte c t end.

Lemma last_byte_snoc d s c : last_byte d (snoc s c) = c.
Proof. revert d. induction s as [|e s IH]; intros d; [done|]. apply IH. Qed.

Lemma last_byte_app d s t : last_byte d (s +:+ t) = last_byte (last_byte d s) t.
Proof. revert d. induction s as [|c s IH]; intros d; [done|]. rewrite app_cons. apply IH. Qed.

(** ** Search lemmas *)
Lemma prefix_one c d t : String.prefix (String c "") (String d t) = Ascii.eqb c d.
Proof.
  cbn. destruct (ascii_dec c d) as [->|Hne].
  - rewrite Ascii.eqb_refl. by destruct t.
  - symmetry. by apply Ascii.eqb_neq.
Qed.

(** [strings.Index(s, "c")] finds the first [c]: the text before it has none. *)
Lemma Index_byte_Some s c i :
  Index s (String c "") = Some i ↔
  ∃ a b, s = a +:+ String c b ∧ strlen a = i ∧ str_forallb (λ d, negb (Ascii.eqb c d)) a = true.
Proof.
  revert i. induction s as [|d s IH]; intros i.
  - cbn. split; [done|]. intros (a & b & Heq & _). symmetry in Heq.
    apply app_eq_nil in Heq. naive_solver.
  - cbn [Index]. rewrite prefix_one. destruct (Ascii.eqb_spec c d) as [->|Hne].
    + split.
      * intros [= <-]. by exists "", s.
      * intros ([|e a] & b & Heq & Hi & Ha); [cbn in Hi; by subst|].
        rewrite app_cons in Heq. injection Heq as <- _. cbn in Ha.
        by rewrite Ascii.eqb_refl in Ha.
    + rewrite fmap_Some. setoid_rewrite IH. split.
      * intros (j & (a & b & -> & Hj & Ha) & ->). exists (String d a), b.
        cbn. rewrite Ha, Hj. apply Ascii.eqb_neq in Hne. by rewrite Hne.
      * intros ([|e a] & b & Heq & Hi & Ha).
        { rewrite app_nil_l in Heq. by injection Heq as -> ->. }
        rewrite app_cons in Heq. injection Heq as <- ->. cbn in Ha, Hi.
        apply andb_true_iff in Ha as [_ Ha]. subst i. eauto 10.
Qed.

Lemma Index_byte_None s c :
  Index s (String c "") = None ↔ str_forallb (λ d, negb (Ascii.eqb c d)) s = true.
Proof.
  induction s as [|d s IH]; [done|]. cbn [Index]. rewrite prefix_one. cbn.
  destruct (Ascii.eqb c d); [done|]. cbn. by rewrite fmap_None, IH.
Qed.

Lemma Index_byte_app a c b :
  str_forallb (λ d, negb (Ascii.eqb c d)) a = true →
  Index (a +:+ String c b) (String c "") = Some (strlen a).
Proof. intros Ha. apply Index_byte_Some. eauto. Qed.

Lemma prefix_app (p s : string) : String.prefix p (p +:+ s) = true.
Proof.
  induction p as [|c p IH]; [by destruct s|]. rewrite app_cons. cbn.
  by destruct (ascii_dec c c).
Qed.

Lemma prefix_spec (p s : string) : String.prefix p s = true ↔ ∃ t, s = p +:+ t.
Proof.
  split; [|intros (t & ->); apply prefix_app].
  revert s. induction p as [|c p IH]; intros s Hp; [by exists s|].
  destruct s as [|d s]; [done|]. cbn in Hp. destruct (ascii_dec c d) as [->|]; [|done].
  destruct (IH s Hp) as (t & ->). by exists t.
Qed.

Lemma Contains_spec (s sub : string) : Contains s sub = true ↔ ∃ a b, s = a +:+ sub +:+ b.
Proof.
  unfold Contains. induction s as [|c s IH].
  - cbn [Index]. destruct (String.prefix sub "") eqn:Hp.
    + apply prefix_spec in Hp as (t & Ht). split; [|intros _; reflexivity]. exists "", t. exact Ht.
    + split; [done|]. intros (a & b & Heq). symmetry in Heq.
      apply app_eq_nil in Heq as [-> Heq]. apply app_eq_nil in Heq as [-> ->].
      discriminate Hp.
  - cbn [Index]. destruct (String.prefix sub (String c s)) eqn:Hp.
    + apply prefix_spec in Hp as (t & Ht). split; [|intros _; reflexivity]. exists "", t. exact Ht.
    + assert (match S <$> Index s sub with Some _ => true | None => false end =
              match Index s sub with Some _ => true | None => false end) as ->
        by by destruct (Index s sub).
      rewrite IH. split.
      * intros (a & b & ->). by exists (String c a), b.
      * intros ([|d a] & b & Heq).
        -- rewrite app_nil_l in Heq. rewrite Heq, prefix_app in Hp. done.
        -- rewrite app_cons in Heq. injection Heq as <- ->. by exists a, b.
Qed.

Lemma Contains_refl s : Contains s s = true.
Proof. apply Contains_spec. exists "", "". by rewrite app_nil_r. Qed.
