(* ===== verification/Status.v ===== *)
(** * Status: rich errors of the gNMI server

    Models [utilities/status/status.go]: the [Status] error, the tags, the
    conversions from and to other errors, and the [gnmi.Error] of an update
    result.

    A Go [error] is an [option error]: [None] is the nil interface.  A nil
    [*Status] stored in an interface is a non-nil error, [Some (ErrStatus None)].
    The functions that write through the pointer they got from [FromError]
    return the error with its status updated, the same object the caller holds. *)

From stdpp Require Import pretty.
From S2P Require Export GoStrings.

(** ** codes.Code (google.golang.org/grpc/codes), a uint32 *)
Module codes.
Definition OK : Z := 0.
Definition Canceled : Z := 1.
Definition Unknown : Z := 2.
Definition InvalidArgument : Z := 3.
Definition DeadlineExceeded : Z := 4.
Definition NotFound : Z := 5.
Definition AlreadyExists : Z := 6.
Definition Aborted : Z := 10.
Definition OutOfRange : Z := 11.
Definition Unimplemented : Z := 12.
Definition Internal : Z := 13.
End codes.

(** ** Error tags *)
Definition ErrorTag : Type := Z.
Definition TagUnknown : ErrorTag := 0%Z.
Definition TagMissingPath : ErrorTag := 1%Z.
Definition TagInvalidPath : ErrorTag := 2%Z.
Definition TagUnknownPath : ErrorTag := 3%Z.
Definition TagInvalidAlias : ErrorTag := 4%Z.
Definition TagDataMissing : ErrorTag := 5%Z.
Definition TagBadData : ErrorTag := 6%Z.
Definition TagNotSupport : ErrorTag := 7%Z.
Definition TagOperationFail : ErrorTag := 8%Z.
Definition TagMalformedMessage : ErrorTag := 9%Z.
Definition TagInvalidConfig : ErrorTag := 10%Z.
Definition TagInvalidSession : ErrorTag := 11%Z.
Definition tagMax : ErrorTag := 12%Z.

Definition tagStr : gmap Z string := list_to_map [
  (TagMissingPath, "missing-path");
  (TagInvalidPath, "invalid-path");
  (TagUnknownPath, "unknown-path");
  (TagInvalidAlias, "invalid-path");
  (TagDataMissing, "data-missing");
  (TagBadData, "bad-data");
  (TagNotSupport, "not-support");
  (TagOperationFail, "operation-fail");
  (TagMalformedMessage, "malformed-message");
  (TagInvalidConfig, "invalid-config");
  (TagInvalidSession, "invalid-session")].

Definition ErrorTag_String (t : ErrorTag) : string :=
  match tagStr !! t with Some s => s | None => "unknown-error" end.

(** ** Status *)

(** The [errdetails] messages the source uses. *)
Inductive detail : Type :=
  | DBadRequest (FieldViolations : list (string * string))
  | DErrorInfo (Reason Domain : string) (Metadata : gmap string string).

Record Status : Type := mkStatus {
  s_Code : Z;
  s_Message : msg;
  s_Tag : ErrorTag;
  s_Reason : string;
  s_Domain : string;
  s_Path : string;
  s_SubError : option (list string);
  s_badRequest : option detail
}.

(** The dynamic types of an [error] the source distinguishes: a plain error
    with its text, a [*Status] (possibly nil), and any other type that has a
    [GRPCStatus] method, with the code and message of that status. *)
Inductive error : Type :=
  | ErrStr (m : msg)
  | ErrStatus (s : option Status)
  | ErrGRPC (code : Z) (m : msg).

(** [fmt.Errorf(format, args...)]. *)
Definition Errorf_plain (format : string) (args : list arg) : error :=
  ErrStr (Fmt format args).

Definition New (c : Z) (tag : ErrorTag) (m : msg) : Status :=
  mkStatus c m tag "" "" "" None None.

Definition Newf (c : Z) (tag : ErrorTag) (format : string) (a : list arg) : Status :=
  New c tag (Fmt format a).

(** [(s *Status) Error()]. *)
Definition Status_Error (s : option Status) : msg :=
  match s with
  | None => Fmt "" []
  | Some s => Fmt "[%s] %s" [AStr (ErrorTag_String (s_Tag s)); AMsg (s_Message s)]
  end.

(** [err.Error()]: the text of any error; for a foreign gRPC error, its message. *)
Definition error_text (e : error) : msg :=
  match e with
  | ErrStr m => m
  | ErrStatus s => Status_Error s
  | ErrGRPC _ m => m
  end.

(** [(s *Status) String()]. *)
Definition Status_String (s : option Status) : msg :=
  match s with
  | None => Fmt "" []
  | Some s =>
      foldl (λ rstr sub, Fmt "%s  - %s\n" [AMsg rstr; AStr sub])
        (Fmt "status: Code: %s Message: %s Reason: %s Domain: %s Path: %s SubError:"
           [AInt (s_Code s); AMsg (s_Message s); AStr (s_Reason s);
            AStr (s_Domain s); AStr (s_Path s)])
        (default [] (s_SubError s))
  end.

(** [FromError]: the result is a pointer, [None] is nil. *)
Definition FromError (err : option error) : option Status :=
  match err with
  | None => None
  | Some (ErrStatus s) => s
  | Some (ErrGRPC c m) => Some (New c TagUnknown m)
  | Some (ErrStr m) => Some (New codes.Unknown TagUnknown m)
  end.

(** [Code]: reads [s.Code] through the pointer, so a nil [*Status] panics. *)
Definition Code (err : option error) : outcome error Z :=
  match err with
  | None => Ok codes.OK
  | Some (ErrStatus (Some s)) => Ok (s_Code s)
  | Some (ErrStatus None) => Panic
  | Some (ErrGRPC c _) => Ok c
  | Some (ErrStr _) => Ok codes.Unknown
  end.

Definition Message (err : option error) : outcome error msg :=
  match err with
  | None => Ok (Fmt "" [])
  | Some (ErrStatus (Some s)) => Ok (s_Message s)
  | Some (ErrStatus None) => Panic
  | Some (ErrGRPC _ m) => Ok m
  | Some (ErrStr m) => Ok m
  end.

Definition set_code (c : Z) (s : Status) : Status :=
  mkStatus c (s_Message s) (s_Tag s) (s_Reason s) (s_Domain s) (s_Path s)
    (s_SubError s) (s_badRequest s).
Definition set_tag (t : ErrorTag) (s : Status) : Status :=
  mkStatus (s_Code s) (s_Message s) t (s_Reason s) (s_Domain s) (s_Path s)
    (s_SubError s) (s_badRequest s).
Definition set_info (r d p : string) (s : Status) : Status :=
  mkStatus (s_Code s) (s_Message s) (s_Tag s) r d p (s_SubError s) (s_badRequest s).

(** [Error(c, err)]: the nil [*Status] is returned as an [error] value. *)
Definition Error (c : Z) (err : option error) : option error :=
  match FromError err with
  | None => Some (ErrStatus None)
  | Some s =>
      Some (ErrStatus (Some
        (if (s_Code s =? codes.Unknown)%Z || (s_Code s =? codes.OK)%Z
         then set_code c s else s)))
  end.

Definition Errorf (c : Z) (format : string) (a : list arg) : error :=
  ErrStatus (Some (New c TagUnknown (Fmt format a))).

Definition TaggedError (c : Z) (tag : ErrorTag) (err : option error) : option error :=
  match FromError err with
  | None => Some (ErrStatus None)
  | Some s =>
      let s := if (s_Code s =? codes.Unknown)%Z || (s_Code s =? codes.OK)%Z
               then set_code c s else s in
      let s := if (tagMax <=? s_Tag s)%Z then set_tag tag s else s in
      Some (ErrStatus (Some s))
  end.

Definition TaggedErrorf (c : Z) (tag : ErrorTag) (format : string) (a : list arg) : error :=
  ErrStatus (Some (New c tag (Fmt format a))).

(** [FromContextError]: the two sentinel errors of the package [context] are
    given by their texts. *)
Inductive context_error : Type :=
  | DeadlineExceeded (m : msg) | Canceled (m : msg) | OtherError (e : error).

Definition FromContextError (err : option context_error) : option error :=
  match err with
  | None => None
  | Some (DeadlineExceeded m) => Some (ErrStatus (Some (New codes.DeadlineExceeded TagUnknown m)))
  | Some (Canceled m) => Some (ErrStatus (Some (New codes.Canceled TagUnknown m)))
  | Some (OtherError e) => Some (ErrStatus (Some (New codes.Unknown TagUnknown (error_text e))))
  end.

(** ** Error details *)

Definition has_info (s : Status) : bool :=
  negb (bool_decide (s_Reason s = "")) || negb (bool_decide (s_Domain s = "")) ||
  negb (bool_decide (s_Path s = "")) || bool_decide (is_Some (s_SubError s)).

Definition error_key (i : nat) : string := "error" +:+ pretty i.

(** The loop [for i := range s.SubError { m["error%d"] = s.SubError[i] }]. *)
Definition add_sub_errors (m : gmap string string) (subs : list string) : gmap string string :=
  foldl (λ m '(i, e), <[error_key i := e]> m) m (zip (seq 0 (length subs)) subs).

Definition error_info (s : Status) : detail :=
  DErrorInfo (s_Reason s) (s_Domain s)
    (add_sub_errors {["Path" := s_Path s]} (default [] (s_SubError s))).

(** [gnmipb.Error]. *)
Record gnmi_Error (any : Type) : Type := mkGnmiError {
  e_Code : Z; e_Message : msg; e_Data : option any
}.
Arguments mkGnmiError {any}.
Arguments e_Code {any}.
Arguments e_Message {any}.
Arguments e_Data {any}.

(** The status of google.golang.org/grpc/status: built by [New] with a code and
    a message; [WithDetails] returns a new status and is a parameter. *)
Record grpc_status : Type := mkGrpcStatus { g_code : Z; g_msg : msg; g_details : list detail }.

Section grpc.
(** Third-party code: [ptypes.MarshalAny] and the [WithDetails] method of a gRPC status. *)
Context {any : Type} (MarshalAny : detail → option any).
Context (WithDetails : grpc_status → detail → option grpc_status).

Definition UpdateResultError (err : option error) : outcome error (option (gnmi_Error any)) :=
  match err with
  | None => Ok None
  | Some _ =>
      match FromError err with
      | None => Panic
      | Some s =>
          Ok (Some (mkGnmiError (s_Code s)
            (Fmt "[%s] %s" [AStr (ErrorTag_String (s_Tag s)); AMsg (s_Message s)])
            (if has_info s then MarshalAny (error_info s) else None)))
      end
  end.

(** [GRPCStatus]: the statuses [WithDetails] returns are dropped. *)
Definition GRPCStatus (s : option Status) : outcome error grpc_status :=
  match s with
  | None => Panic
  | Some s =>
      let ss := mkGrpcStatus (s_Code s)
        (Fmt "[%s] %s" [AStr (ErrorTag_String (s_Tag s)); AMsg (s_Message s)]) [] in
      let _ := match s_badRequest s with Some d => WithDetails ss d | None => None end in
      let _ := if has_info s then WithDetails ss (error_info s) else None in
      Ok ss
  end.

Definition ToProto (err : option error) : outcome error (option grpc_status) :=
  match err with
  | None => Ok None
  | Some _ => Some <$> GRPCStatus (FromError err)
  end.
End grpc.

(** [WithErrorPath], [WithErrorReason], [WithDomain], [WithInfo]: the field is
    written through the pointer [FromError] returns and [err] is returned.  A
    nil pointer panics; the write to a status that [FromError] has just built
    is not visible through [err]. *)
Definition with_status (f : Status → Status) (err : option error) : outcome error (option error) :=
  match err with
  | Some (ErrStatus (Some s)) => Ok (Some (ErrStatus (Some (f s))))
  | Some (ErrStatus None) | None => Panic
  | Some (ErrGRPC _ _) | Some (ErrStr _) => Ok err
  end.

Definition WithErrorPath (err : option error) (Path : string) : outcome error (option error) :=
  with_status (λ s, set_info (s_Reason s) (s_Domain s) Path s) err.
Definition WithErrorReason (err : option error) (Reason : string) : outcome error (option error) :=
  with_status (λ s, set_info Reason (s_Domain s) (s_Path s) s) err.
Definition WithDomain (err : option error) (Domain : string) : outcome error (option error) :=
  with_status (λ s, set_info (s_Reason s) Domain (s_Path s) s) err.
Definition WithInfo (err : option error) (Reason Path Domain : string) : outcome error (option error) :=
  with_status (set_info Reason Domain Path) err.

(** ** Lemmas *)

Lemma error_key_inj i j : error_key i = error_key j → i = j.
Proof. intros H%app_inj_l. by apply (inj pretty). Qed.

Lemma error_key_not_path i : error_key i ≠ "Path".
Proof. unfold error_key. by rewrite app_cons. Qed.

Lemma add_sub_errors_snoc m subs e :
  add_sub_errors m (subs ++ [e]) = <[error_key (length subs) := e]> (add_sub_errors m subs).
Proof.
  unfold add_sub_errors. rewrite length_app, Nat.add_1_r, seq_S.
  rewrite zip_with_app by by rewrite length_seq. by rewrite foldl_app.
Qed.

Lemma add_sub_errors_lookup m subs i :
  m !! error_key i = None → add_sub_errors m subs !! error_key i = subs !! i.
Proof.
  intros Hm. induction subs as [|e subs IH] using rev_ind; [done|].
  rewrite add_sub_errors_snoc, lookup_insert. case_decide as Heq.
  - apply error_key_inj in Heq as <-. by rewrite lookup_app_r, Nat.sub_diag.
  - rewrite IH. destruct (decide (i < length subs)).
    + by rewrite lookup_app_l.
    + rewrite lookup_app_r, lookup_ge_None_2 by lia. symmetry. apply lookup_ge_None_2.
      cbn. assert (i ≠ length subs) by by intros ->. lia.
Qed.

Lemma add_sub_errors_other m subs k :
  (∀ i, error_key i ≠ k) → add_sub_errors m subs !! k = m !! k.
Proof.
  intros Hk. induction subs as [|e subs IH] using rev_ind; [done|].
  by rewrite add_sub_errors_snoc, lookup_insert_ne.
Qed.

Lemma has_info_sub s : is_Some (s_SubError s) → has_info s = true.
Proof. intros H. unfold has_info. rewrite (bool_decide_true (is_Some _)) by done. apply orb_true_r. Qed.

Lemma with_status_ok f s : with_status f (Some (ErrStatus (Some s))) = Ok (Some (ErrStatus (Some (f s)))).
Proof. done. Qed.
