(* ===== verification/StatusSpec.v ===== *)
(** * StatusSpec: the theorems on rich errors *)

From S2P Require Export Status.

(** ** Theorems *)

(** Code and Message, which avoid building a status, agree with the status
    FromError builds for every error that is not a nil [*Status] (on which the
    first two panic and FromError returns nil). *)
Theorem FromError_agrees (err : option error) :
  match FromError err with
  | Some s => Code err = Ok (s_Code s) ∧ Message err = Ok (s_Message s)
  | None => (err = None ∧ Code err = Ok codes.OK ∧ Message err = Ok (Fmt "" [])) ∨
            (err = Some (ErrStatus None) ∧ Code err = Panic ∧ Message err = Panic)
  end.
Proof. destruct err as [[m|[s|]|c m]|]; cbn; auto. Qed.

(** TaggedError replaces the tag only when it is out of the range of the
    declared tags: for every error that is not such a status the given tag is
    dropped, so a plain or foreign error stays "unknown-error". *)
Theorem TaggedError_drops_tag (c : Z) (tag : ErrorTag) (err : option error) (s : Status) :
  FromError err = Some s → (s_Tag s < tagMax)%Z →
  ∃ s', TaggedError c tag err = Some (ErrStatus (Some s')) ∧ s_Tag s' = s_Tag s ∧
        s_Message s' = s_Message s ∧
        (s_Code s' = c ∨ (s_Code s' = s_Code s ∧ s_Code s ≠ codes.Unknown ∧ s_Code s ≠ codes.OK)).
Proof.
  intros Hs Htag. unfold TaggedError. rewrite Hs.
  destruct (_ || _) eqn:Hc; cbn; (destruct (Z.leb_spec tagMax (s_Tag s)); [lia|]); eexists;
    (split; [done|]); (split; [done|]); (split; [done|]); [by left|right].
  apply orb_false_iff in Hc as [?%Z.eqb_neq ?%Z.eqb_neq]. done.
Qed.

Lemma TaggedError_drops_tag_witness :
  let err := Some (ErrStr (Fmt "disk full" [])) in
  ∃ s', TaggedError codes.Internal TagOperationFail err = Some (ErrStatus (Some s')) ∧
        s_Tag s' = TagUnknown ∧ s_Message s' = Fmt "disk full" [] ∧
        (s_Code s' = codes.Internal ∨
         (s_Code s' = codes.Unknown ∧ codes.Unknown ≠ codes.Unknown ∧ codes.Unknown ≠ codes.OK)).
Proof.
  intros err.
  exact (TaggedError_drops_tag codes.Internal TagOperationFail err
           (New codes.Unknown TagUnknown (Fmt "disk full" [])) eq_refl eq_refl).
Defined.

(** Error and TaggedError never return a nil error: on a nil error they
    return an interface that holds a nil [*Status], on which Code, Message,
    UpdateResultError and the With functions panic. *)
Theorem Error_nil_not_nil (c : Z) (tag : ErrorTag) :
  (∀ err, is_Some (Error c err) ∧ is_Some (TaggedError c tag err)) ∧
  Code (Error c None) = Panic ∧ Message (TaggedError c tag None) = Panic ∧
  (∀ any (marshal : detail → option any), UpdateResultError marshal (Error c None) = Panic) ∧
  (∀ p, WithErrorPath (TaggedError c tag None) p = Panic).
Proof.
  repeat split; unfold Error, TaggedError; by case_match.
Qed.

(** The error of an update result carries the code and the tagged message of
    the status, and, when the status has a reason, a domain, a path or sub-errors
    and the details can be marshalled, an ErrorInfo whose metadata holds the path
    under "Path" and the i-th sub-error under "error<i>", and nothing under the
    other "error<i>" keys. *)
Theorem UpdateResultError_details {any} (MarshalAny : detail → option any) (s : Status) :
  ∃ e, UpdateResultError MarshalAny (Some (ErrStatus (Some s))) = Ok (Some e) ∧
       e_Code e = s_Code s ∧ e_Message e = Status_Error (Some s) ∧
       (has_info s = false → e_Data e = None) ∧
       (has_info s = true → ∃ m, e_Data e = MarshalAny (DErrorInfo (s_Reason s) (s_Domain s) m) ∧
          m !! "Path" = Some (s_Path s) ∧
          ∀ i, m !! error_key i = default [] (s_SubError s) !! i).
Proof.
  eexists. split; [done|]. cbn. split; [done|]. split; [done|].
  split; [by intros ->|]. intros ->. unfold error_info. eexists. split; [done|]. split.
  - rewrite add_sub_errors_other; [by rewrite lookup_singleton_eq|]. apply error_key_not_path.
  - intros i. apply add_sub_errors_lookup. apply lookup_singleton_None. by intros Heq%eq_sym%error_key_not_path.
Qed.

(** GRPCStatus sends only the code and the tagged message: the statuses
    returned by WithDetails are dropped, so the reason, domain, path, sub-errors
    and bad-request details of a status never reach the client, whereas
    UpdateResultError does send them. *)
Theorem GRPCStatus_no_details (WithDetails : grpc_status → detail → option grpc_status) (s : Status) :
  GRPCStatus WithDetails (Some s) =
  Ok (mkGrpcStatus (s_Code s) (Status_Error (Some s)) []) ∧
  ToProto WithDetails (Some (ErrStatus (Some s))) =
  Ok (Some (mkGrpcStatus (s_Code s) (Status_Error (Some s)) [])).
Proof. done. Qed.

(** The With functions record their information only on an error that
    already is a status: on a plain or foreign error they return it unchanged,
    on nil they panic. *)
Theorem WithInfo_lost (err : error) (Reason Path Domain : string) :
  match err with
  | ErrStatus (Some s) =>
      ∃ s', WithInfo (Some err) Reason Path Domain = Ok (Some (ErrStatus (Some s'))) ∧
            s_Reason s' = Reason ∧ s_Path s' = Path ∧ s_Domain s' = Domain ∧
            s_Code s' = s_Code s ∧ s_Message s' = s_Message s ∧ s_Tag s' = s_Tag s
  | ErrStatus None => WithInfo (Some err) Reason Path Domain = Panic
  | _ => WithInfo (Some err) Reason Path Domain = Ok (Some err) ∧
         FromError (Some err) ≠ None
  end.
Proof. destruct err as [m|[s|]|c m]; cbn; eauto 10. Qed.
