(* ===== verification/XpathSpec.v ===== *)
(** * XpathSpec: what the xpath scanners compute

    Index-free forms of the loops of [Xpath], their equality with the loops, and
    the grammar of split elements and of key-value pairs. *)

From Stdlib Require Import Ascii.
From S2P Require Export Xpath.

(** ** Scanners on the rest of the input

    [prev] is the byte before the rest ([str[end-1]], a slash at the start),
    [cur] the pending token [str[begin:end]]. *)

Fixpoint split_scan (prev : ascii) (cur : string) (inside : bool) (rest : string)
    : list string * bool :=
  match rest with
  | "" => ([], inside)
  | String c t =>
      if Ascii.eqb c "/" then
        if inside then split_scan c (snoc cur c) inside t
        else let '(es, b) := split_scan c "" false t in
             (if bool_decide (cur = "") then es else cur :: es, b)
      else if Ascii.eqb c "[" then
        split_scan c (snoc cur c) (inside || negb (Ascii.eqb prev "\")) t
      else if Ascii.eqb c "]" then
        split_scan c (snoc cur c) (inside && Ascii.eqb prev "\") t
      else split_scan c (snoc cur c) inside t
  end.

Fixpoint kv_scan (str : string) (prev : ascii) (depth : Z) (cur : string)
    (m : gmap string string) (rest : string) : outcome error (gmap string string * string) :=
  match rest with
  | "" => Ok (m, cur)
  | String c t =>
      let u := negb (Ascii.eqb prev "\") in
      if Ascii.eqb c "[" then
        kv_scan str c (if u then depth + 1 else depth)%Z (snoc cur c) m t
      else if Ascii.eqb c "]" && u then
        if (depth - 1 <=? 0)%Z then
          kv ← parseKeyValue str (snoc cur c);
          kv_scan str c (depth - 1)%Z "" (<[kv.1 := kv.2]> m) t
        else kv_scan str c (depth - 1)%Z (snoc cur c) m t
      else kv_scan str c depth (snoc cur c) m t
  end.

(** ** The loops and the scanners agree *)

Lemma unescaped_mid done cur t :
  unescaped (E:=error) (done +:+ cur +:+ t) (strlen done + strlen cur) =
  Ok (negb (Ascii.eqb (last_byte "/" (done +:+ cur)) "\")).
Proof.
  rewrite <-app_assoc, <-strlen_app. generalize (done +:+ cur) as s. intros s.
  unfold unescaped. induction s as [|s c _] using string_rev_ind; [done|].
  rewrite strlen_snoc, last_byte_snoc. cbn [Nat.eqb]. rewrite Nat.sub_succ, Nat.sub_0_r.
  by rewrite app_snoc, str_index_mid.
Qed.

Section loop_step.
Context (done cur : string) (c : ascii) (t : string).
Let str := done +:+ cur +:+ String c t.

Lemma loop_continues : (strlen done + strlen cur <? strlen str) = true.
Proof. apply Nat.ltb_lt. unfold str. rewrite !strlen_app. cbn. lia. Qed.

Lemma loop_byte : str_index (E:=error) str (strlen done + strlen cur) = Ok c.
Proof. unfold str. rewrite <-app_assoc, <-strlen_app. apply str_index_mid. Qed.

Lemma loop_shift : str = done +:+ snoc cur c +:+ t.
Proof. unfold str. by rewrite app_snoc. Qed.

Lemma loop_reset : str = snoc (done +:+ cur) c +:+ "" +:+ t.
Proof. unfold str. by rewrite app_snoc, app_assoc. Qed.

Lemma loop_end : strlen done + strlen cur + 1 = strlen done + strlen (snoc cur c).
Proof. rewrite strlen_snoc. lia. Qed.

Lemma loop_end_reset : strlen done + strlen cur + 1 = strlen (snoc (done +:+ cur) c).
Proof. rewrite strlen_snoc, strlen_app. lia. Qed.

Lemma loop_prev : last_byte "/" (done +:+ snoc cur c) = c.
Proof. unfold snoc. by rewrite !last_byte_app. Qed.
End loop_step.

Lemma loop_stops done cur : (strlen done + strlen cur <? strlen (done +:+ cur +:+ "")) = false.
Proof. apply Nat.ltb_ge. rewrite !strlen_app. cbn. lia. Qed.

(** One turn of a loop: the current byte is [c], the token grows by it. *)
Ltac loop_turn IH :=
  rewrite loop_continues, loop_byte, ?unescaped_mid; autorewrite with gnxi;
  rewrite ?outcome_bind_ret;
  cbn [mret outcome_ret].

Lemma splitPath_loop_scan rest fuel done cur path inside :
  strlen rest < fuel →
  splitPath_loop fuel (done +:+ cur +:+ rest) path inside
    (strlen done) (strlen done + strlen cur) =
  Ok (path ++ (split_scan (last_byte "/" (done +:+ cur)) cur inside rest).1,
      (split_scan (last_byte "/" (done +:+ cur)) cur inside rest).2).
Proof.
  revert fuel done cur path inside.
  induction rest as [|c t IH]; intros [|fuel] done cur path inside Hfuel; try (cbn in Hfuel; lia).
  { cbn [splitPath_loop]. rewrite loop_stops. cbn. by rewrite List.app_nil_r. }
  cbn in Hfuel. cbn [splitPath_loop split_scan].
  rewrite loop_continues, loop_byte, !unescaped_mid, !outcome_bind_ret.
  assert (∀ path inside,
    splitPath_loop fuel (done +:+ cur +:+ String c t) path inside
      (strlen done) (strlen done + strlen cur + 1) =
    Ok (path ++ (split_scan c (snoc cur c) inside t).1,
        (split_scan c (snoc cur c) inside t).2)) as Hgrow.
  { intros path' inside'. rewrite loop_shift, (loop_end done cur c).
    rewrite IH by lia. by rewrite loop_prev. }
  destruct (Ascii.eqb_spec c "/") as [->|Hs].
  - destruct inside; [apply Hgrow|]. cbn [negb].
    assert (∀ path,
      splitPath_loop fuel (done +:+ cur +:+ String "/" t) path false
        (strlen done + strlen cur + 1) (strlen done + strlen cur + 1) =
      Ok (path ++ (split_scan "/" "" false t).1, (split_scan "/" "" false t).2)) as Hreset.
    { intros path'. rewrite loop_reset, (loop_end_reset done cur "/").
      pose proof (IH fuel (snoc (done +:+ cur) "/") "" path' false) as IH'.
      cbn [strlen] in IH'. rewrite Nat.add_0_r in IH'. rewrite IH' by lia.
      by rewrite app_nil_r, last_byte_snoc. }
    destruct (split_scan "/" "" false t) as [es b] eqn:Hes. cbn [fst snd] in *.
    destruct cur as [|d cur].
    + rewrite (proj2 (Nat.ltb_ge _ _)) by (cbn; lia). apply Hreset.
    + rewrite (proj2 (Nat.ltb_lt _ _)) by (cbn; lia). rewrite str_slice_mid.
      rewrite !outcome_bind_ret. cbv [mret outcome_ret]. rewrite outcome_bind_ret, Hreset.
      cbn. by rewrite <-List.app_assoc.
  - destruct (Ascii.eqb_spec c "[") as [->|]; [rewrite Hgrow; by destruct inside, (Ascii.eqb _ "\")|].
    destruct (Ascii.eqb_spec c "]") as [->|]; [rewrite Hgrow; by destruct inside, (Ascii.eqb _ "\")|].
    apply Hgrow.
Qed.

(** The remaining text at the end is [str[begin:]]: it is empty iff [begin = end]. *)
Definition kv_state (str : string) (r : gmap string string * string)
    : gmap string string * nat * nat :=
  (r.1, strlen str - strlen r.2, strlen str).

Lemma parseKeyValueString_loop_scan rest fuel done cur m depth :
  strlen rest < fuel →
  parseKeyValueString_loop fuel (done +:+ cur +:+ rest) m depth
    (strlen done) (strlen done + strlen cur) =
  kv_state (done +:+ cur +:+ rest) <$>
    kv_scan (done +:+ cur +:+ rest) (last_byte "/" (done +:+ cur)) depth cur m rest.
Proof.
  revert fuel done cur m depth.
  induction rest as [|c t IH]; intros [|fuel] done cur m depth Hfuel; try (cbn in Hfuel; lia).
  { cbn [parseKeyValueString_loop]. rewrite loop_stops. cbv [kv_state]. cbn.
    rewrite !strlen_app. cbn. repeat f_equal; lia. }
  cbn in Hfuel. cbn [parseKeyValueString_loop kv_scan].
  rewrite loop_continues, loop_byte, !unescaped_mid, !outcome_bind_ret.
  set (str := done +:+ cur +:+ String c t) in *.
  assert (∀ m depth,
    parseKeyValueString_loop fuel str m depth (strlen done) (strlen done + strlen cur + 1) =
    kv_state str <$> kv_scan str c depth (snoc cur c) m t) as Hgrow.
  { intros m' depth'. unfold str. rewrite loop_shift, (loop_end done cur c).
    rewrite IH by lia. by rewrite loop_prev. }
  destruct (Ascii.eqb_spec c "[") as [->|Ho]; [apply Hgrow|].
  destruct (Ascii.eqb_spec c "]") as [->|Hc]; [|apply Hgrow].
  destruct (negb _); cbn [andb]; [|apply Hgrow].
  destruct (_ <=? 0)%Z; [|apply Hgrow].
  assert (str_slice (E:=error) str (strlen done) (strlen done + strlen cur + 1) = Ok (snoc cur "]")) as ->.
  { unfold str. rewrite loop_shift, (loop_end done cur "]"). apply str_slice_mid. }
  rewrite outcome_bind_ret.
  destruct (parseKeyValue str (snoc cur "]")) as [[k v]| | |]; [|done..]. cbn [mbind outcome_bind fst snd].
  pose proof (IH fuel (snoc (done +:+ cur) "]") "" (<[k:=v]> m) (depth - 1)%Z) as IH'.
  cbn [strlen] in IH'. rewrite Nat.add_0_r, app_nil_r, last_byte_snoc in IH'.
  unfold str. rewrite loop_reset, (loop_end_reset done cur "]"). apply IH'. lia.
Qed.

Lemma splitPath_scan str :
  splitPath str =
  let '(es, inside) := split_scan "/" "" false (str +:+ "/") in
  if inside : bool then Err (Errorf_plain "missing ] in path string: %s" [AStr (str +:+ "/")])
  else Ok es.
Proof.
  unfold splitPath. pose proof (splitPath_loop_scan (str +:+ "/") (S (strlen (str +:+ "/"))) "" "" [] false) as H.
  rewrite !app_nil_l in H. change (strlen "" + strlen "") with 0 in H. change (strlen "") with 0 in H.
  rewrite H, outcome_bind_ret by lia. cbn [last_byte].
  by destruct (split_scan "/" "" false _) as [es []].
Qed.

Lemma parseKeyValueString_scan str :
  parseKeyValueString str =
  '(m, cur) ← kv_scan str "/" 0 "" ∅ str;
  if bool_decide (cur = "") then Ok m
  else Err (Errorf_plain "malformed List key-value pair string: %s" [AStr str]).
Proof.
  unfold parseKeyValueString.
  pose proof (parseKeyValueString_loop_scan str (S (strlen str)) "" "" ∅ 0) as H.
  rewrite !app_nil_l in H. change (strlen "" + strlen "") with 0 in H. change (strlen "") with 0 in H.
  rewrite H by lia. cbn [last_byte]. clear H.
  assert (∀ rest prev depth cur m r, kv_scan str prev depth cur m rest = Ok r →
            strlen r.2 ≤ strlen cur + strlen rest) as Hlen.
  { clear. induction rest as [|c t IH]; intros prev depth cur m r Hr; cbn in Hr.
    { simplify_outcome. cbn. lia. }
    repeat case_match; simplify_outcome; apply IH in Hr; rewrite ?strlen_snoc in Hr; cbn in *; lia. }
  destruct (kv_scan str "/" 0 "" ∅ str) as [[m cur]| | |] eqn:Hs; [|done..].
  apply Hlen in Hs. cbn [strlen Nat.add fst snd] in Hs. unfold kv_state.
  cbn [fmap outcome_fmap mbind outcome_bind fst snd]. case_bool_decide as Hcur.
  - subst cur. by rewrite Nat.sub_0_r, Nat.ltb_irrefl.
  - rewrite (proj2 (Nat.ltb_lt _ _)); [done|]. destruct cur; [done|]. cbn [strlen] in *. lia.
Qed.

(** ** Split elements *)

(** Scan of one element: [None] at a slash outside brackets, otherwise whether
    the element ends inside brackets. *)
Fixpoint elem_scan (prev : ascii) (inside : bool) (s : string) : option bool :=
  match s with
  | "" => Some inside
  | String c t =>
      if Ascii.eqb c "/" then if inside then elem_scan c inside t else None
      else if Ascii.eqb c "[" then elem_scan c (inside || negb (Ascii.eqb prev "\")) t
      else if Ascii.eqb c "]" then elem_scan c (inside && Ascii.eqb prev "\") t
      else elem_scan c inside t
  end.

(** A split element: not empty, its slashes inside brackets, its brackets closed. *)
Definition wf_elem (e : string) : Prop := e ≠ "" ∧ elem_scan "/" false e = Some false.

#[global] Instance wf_elem_dec e : Decision (wf_elem e).
Proof. unfold wf_elem. apply _. Defined.

Lemma elem_scan_app prev inside s t :
  elem_scan prev inside (s +:+ t) =
  match elem_scan prev inside s with
  | Some i => elem_scan (last_byte prev s) i t
  | None => None
  end.
Proof.
  revert prev inside. induction s as [|c s IH]; intros prev inside; [done|].
  rewrite app_cons. cbn [elem_scan last_byte].
  destruct (Ascii.eqb c "/"); [by destruct inside|].
  destruct (Ascii.eqb c "["); [done|]. by destruct (Ascii.eqb c "]").
Qed.

Lemma split_scan_elem prev cur inside e rest b :
  elem_scan prev inside e = Some b →
  split_scan prev cur inside (e +:+ rest) = split_scan (last_byte prev e) (cur +:+ e) b rest.
Proof.
  revert prev cur inside. induction e as [|c e IH]; intros prev cur inside He.
  - cbn in He. injection He as ->. by rewrite app_nil_l, app_nil_r.
  - rewrite app_cons. cbn in He |- *. rewrite <-app_snoc.
    repeat case_match; try done; by apply IH.
Qed.

(** The head element is cut off at the next slash. *)
Lemma split_scan_cut prev e rest :
  elem_scan prev false e = Some false → e ≠ "" →
  split_scan prev "" false (e +:+ String "/" rest) =
  (e :: (split_scan "/" "" false rest).1, (split_scan "/" "" false rest).2).
Proof.
  intros He Hne. rewrite (split_scan_elem _ _ _ _ _ false) by done. rewrite app_nil_l. cbn.
  destruct (split_scan "/" "" false rest). by rewrite bool_decide_false.
Qed.

Lemma split_scan_slash rest :
  split_scan "/" "" false (String "/" rest) = split_scan "/" "" false rest.
Proof. cbn. by destruct (split_scan "/" "" false rest). Qed.

Lemma split_scan_join es :
  Forall wf_elem es →
  split_scan "/" "" false (Join es "/" +:+ "/") = (es, false).
Proof.
  induction 1 as [|e es [Hne He] Hes IH]; [done|].
  destruct es as [|e' es].
  - rewrite Join_one. by rewrite split_scan_cut.
  - rewrite Join_cons, !app_assoc, app_cons, app_nil_l, split_scan_cut by done.
    by rewrite IH.
Qed.

Lemma split_scan_wf prev cur inside rest :
  elem_scan "/" false cur = Some inside → prev = last_byte "/" cur →
  Forall wf_elem (split_scan prev cur inside rest).1.
Proof.
  revert prev cur inside. induction rest as [|c t IH]; intros prev cur inside Hcur ->; [constructor|].
  assert (∀ b, elem_scan (last_byte "/" cur) inside (String c "") = Some b →
            Forall wf_elem (split_scan c (snoc cur c) b t).1) as Hgrow.
  { intros b Hb. apply IH; [|by rewrite last_byte_snoc].
    unfold snoc. by rewrite elem_scan_app, Hcur. }
  cbn in Hgrow |- *. destruct (Ascii.eqb_spec c "/") as [->|].
  - destruct inside; [by apply Hgrow|].
    pose proof (IH "/"%char "" false eq_refl eq_refl) as Hes.
    destruct (split_scan "/" "" false t) as [es b]. cbn in *. case_bool_decide; [done|].
    by constructor.
  - repeat case_match; by apply Hgrow.
Qed.

(** ** Identifiers and the key-value pattern *)

Lemma id_first_rest c : id_first c = true → id_rest c = true.
Proof. unfold id_first, id_rest. by intros ->. Qed.

Lemma idRe_rest s : idRe_MatchString s = true → str_forallb id_rest s = true.
Proof.
  destruct s as [|c s]; [done|]. cbn. rewrite !andb_true_iff. intros [Hc Hs].
  split; [by apply id_first_rest|done].
Qed.

Lemma idRe_nonempty s : idRe_MatchString s = true → s ≠ "".
Proof. by intros Hs ->. Qed.

(** An identifier holds none of the bytes outside its class. *)
Lemma idRe_without d s :
  id_rest d = false → idRe_MatchString s = true →
  str_forallb (λ c, negb (Ascii.eqb d c)) s = true.
Proof.
  intros Hd Hs%idRe_rest. revert Hs. apply str_forallb_impl. intros c Hc.
  apply negb_true_iff, Ascii.eqb_neq. by intros <-; rewrite Hd in Hc.
Qed.

Lemma last_byte_cons d c s : last_byte d (String c s) = last_byte c s.
Proof. done. Qed.

(** The text [[k=v]]. *)
Definition kv_text (k v : string) : string := "[" +:+ k +:+ "=" +:+ v +:+ "]".

Lemma substring_after a c b :
  String.substring (S (strlen a)) (strlen (a +:+ String c b) - S (strlen a)) (a +:+ String c b) = b.
Proof.
  rewrite strlen_app. cbn [strlen]. replace (_ - _) with (strlen b) by lia.
  induction a as [|d a IH]; rewrite ?app_cons.
  - cbn. rewrite <-(app_nil_r b) at 2. apply substring_prefix.
  - exact IH.
Qed.

Lemma last_is_snoc d s c : s ≠ "" → last_byte d s = c → ∃ t, s = snoc t c.
Proof.
  intros Hs <-. induction s as [|s e _] using string_rev_ind; [done|].
  exists s. by rewrite last_byte_snoc.
Qed.

Lemma kvRe_spec s :
  kvRe_MatchString s = true ↔
  ∃ k v, s = kv_text k v ∧ idRe_MatchString k = true ∧ v ≠ "".
Proof.
  split.
  - destruct s as [|o body]; [done|]. cbn [kvRe_MatchString].
    destruct (Ascii.eqb_spec o "[") as [->|]; [|done]. cbn [andb].
    destruct (Index body "=") as [i|] eqn:Hi; [|done].
    apply Index_byte_Some in Hi as (a & b & -> & <- & _).
    rewrite substring_prefix, substring_after, !andb_true_iff.
    intros (Hk & Hlen & Hlast). apply Nat.leb_le in Hlen. apply Ascii.eqb_eq in Hlast.
    apply last_is_snoc in Hlast as (v & ->); [|by intros ->; cbn in Hlen; lia].
    rewrite strlen_snoc in Hlen. exists a, v. split; [done|]. split; [done|].
    intros ->. cbn in Hlen. lia.
  - intros (k & v & -> & Hk & Hv). unfold kv_text. rewrite app_cons, app_nil_l.
    cbn [kvRe_MatchString]. change ("=" +:+ v +:+ "]") with (String "=" (snoc v "]")).
    rewrite Index_byte_app by by apply idRe_without.
    rewrite substring_prefix, substring_after, Hk, last_byte_snoc, strlen_snoc.
    destruct v; [done|]. done.
Qed.

Definition unescape (v : string) : string := ReplaceAll (ReplaceAll v "\]" "]") "\[" "[".

Lemma parseKeyValue_ok str k v :
  idRe_MatchString k = true → v ≠ "" → parseKeyValue str (kv_text k v) = Ok (k, unescape v).
Proof.
  intros Hk Hv. unfold parseKeyValue. rewrite (proj2 (kvRe_spec _)) by eauto. cbn [negb].
  assert (str_slice (E:=error) (kv_text k v) 1 (strlen (kv_text k v) - 1) = Ok (k +:+ String "=" v)) as ->.
  { unfold kv_text. replace ("[" +:+ k +:+ "=" +:+ v +:+ "]") with ("[" +:+ (k +:+ String "=" v) +:+ "]")
      by (rewrite !app_assoc; done).
    rewrite <-(str_slice_mid "[" (k +:+ String "=" v) "]"). f_equal.
    rewrite !strlen_app. cbn. lia. }
  rewrite outcome_bind_ret, Index_byte_app by by apply idRe_without.
  rewrite str_slice_to, outcome_bind_ret.
  assert (str_slice (E:=error) (k +:+ String "=" v) (strlen k + 1) (strlen (k +:+ String "=" v)) = Ok v) as ->; [|done].
  replace (k +:+ String "=" v) with (snoc k "=" +:+ v) by apply app_snoc.
  rewrite <-(str_slice_from (snoc k "=") v). by rewrite strlen_snoc, Nat.add_1_r.
Qed.

Lemma parseKeyValue_inv str kv r :
  parseKeyValue str kv = Ok r →
  ∃ v, kv = kv_text r.1 v ∧ r.2 = unescape v ∧ idRe_MatchString r.1 = true ∧ v ≠ "".
Proof.
  destruct (kvRe_MatchString kv) eqn:Hre; [|unfold parseKeyValue; by rewrite Hre].
  apply kvRe_spec in Hre as (k & v & -> & Hk & Hv). rewrite parseKeyValue_ok by done.
  intros [= <-]. eauto.
Qed.

Lemma parseKeyValue_returns str kv : returns (parseKeyValue str kv).
Proof.
  destruct (kvRe_MatchString kv) eqn:Hre; [|unfold parseKeyValue; by rewrite Hre].
  apply kvRe_spec in Hre as (k & v & -> & Hk & Hv). by rewrite parseKeyValue_ok.
Qed.

(** ** Escaping *)

(** A backslash before every byte of [p]. *)
Fixpoint escape_set (p : ascii → bool) (v : string) : string :=
  match v with
  | "" => ""
  | String c t => if p c then String "\" (String c (escape_set p t)) else String c (escape_set p t)
  end.

Definition is_bracket (c : ascii) : bool := Ascii.eqb c "[" || Ascii.eqb c "]".

(** The escaped form of a key value. *)
Definition escape (v : string) : string := escape_set is_bracket v.

Lemma escape_set_head p b v :
  p b = true → b ≠ "\"%char → String.prefix (String b "") (escape_set p v) = false.
Proof.
  intros Hb Hbs. destruct v as [|c v]; [done|]. cbn [escape_set].
  destruct (p c) eqn:Hc; rewrite prefix_one; apply Ascii.eqb_neq; [done|].
  by intros ->; rewrite Hb in Hc.
Qed.

(** Removing the escapes of one bracket. *)
Lemma ReplaceAll_escape_set p b v :
  p b = true → p "\"%char = false →
  ReplaceAll (escape_set p v) (String "\" (String b "")) (String b "") =
  escape_set (λ c, p c && negb (Ascii.eqb c b)) v.
Proof.
  intros Hb Hbs. assert (b ≠ "\"%char) as Hne by (intros ->; by rewrite Hb in Hbs).
  unfold ReplaceAll. induction v as [|c v IH]; [done|]. cbn [escape_set].
  destruct (p c) eqn:Hc; cbn [andb].
  - destruct (Ascii.eqb_spec c b) as [->|Hcb]; cbn [negb].
    + cbn [replace_go]. replace (String.prefix _ _) with true; [|symmetry; apply (prefix_app (String "\" (String b "")) _)].
      cbn. by rewrite app_cons, app_nil_l, IH.
    + assert (∀ d t, String.prefix (String "\" (String b "")) (String "\" (String d t)) = Ascii.eqb b d) as Hpre.
      { intros d t. rewrite <-(prefix_one b d t). cbn. by destruct (ascii_dec _ _). }
      cbn [replace_go]. rewrite Hpre, (proj2 (Ascii.eqb_neq b c)) by done.
      f_equal. destruct (String.prefix _ _) eqn:Hp; [|by rewrite IH].
      exfalso. apply prefix_spec in Hp as (t & Ht). rewrite app_cons in Ht.
      injection Ht as -> _. by rewrite Hc in Hbs.
  - cbn [replace_go]. destruct (String.prefix _ _) eqn:Hp; [|by rewrite IH].
    exfalso. apply prefix_spec in Hp as (t & Ht). rewrite !app_cons in Ht.
    injection Ht as -> Ht. pose proof (escape_set_head p b v Hb Hne) as Hh.
    by rewrite Ht, prefix_one, Ascii.eqb_refl in Hh.
Qed.

Lemma escape_set_none p v : (∀ c, p c = false) → escape_set p v = v.
Proof. intros Hp. induction v as [|c v IH]; [done|]. cbn. by rewrite Hp, IH. Qed.

Lemma unescape_escape v : unescape (escape v) = v.
Proof.
  unfold unescape, escape. rewrite ReplaceAll_escape_set by done.
  rewrite ReplaceAll_escape_set by done. apply escape_set_none.
  intros c. unfold is_bracket. by destruct (Ascii.eqb c "["), (Ascii.eqb c "]").
Qed.

Lemma replace_go_nonempty old new s : s ≠ "" → new ≠ "" → ReplaceAll s old new ≠ "".
Proof.
  intros Hs Hnew. destruct s as [|c s]; [done|]. unfold ReplaceAll. cbn [replace_go].
  case_match; [|done]. rewrite app_eq_nil. naive_solver.
Qed.

Lemma unescape_nonempty v : v ≠ "" → unescape v ≠ "".
Proof. intros Hv. by repeat apply replace_go_nonempty. Qed.

(** ** Lists of key-value pairs *)

(** No bracket of the text is read as one: each follows a backslash. *)
Fixpoint quiet (prev : ascii) (w : string) : bool :=
  match w with
  | "" => true
  | String c t => (negb (is_bracket c) || Ascii.eqb prev "\") && quiet c t
  end.

(** A pair whose text is closed by its own bracket. *)
Definition wf_kv (kw : string * string) : Prop :=
  idRe_MatchString kw.1 = true ∧ kw.2 ≠ "" ∧ quiet "=" kw.2 = true ∧ last_byte "=" kw.2 ≠ "\"%char.

#[global] Instance wf_kv_dec kw : Decision (wf_kv kw).
Proof. unfold wf_kv. apply _. Defined.

(** [[k1=w1][k2=w2]...]. *)
Definition kvs_text (l : list (string * string)) : string :=
  foldr (λ kw acc, kv_text kw.1 kw.2 +:+ acc) "" l.

(** The map the pairs denote: later pairs win. *)
Definition kvs_map (m : gmap string string) (l : list (string * string)) : gmap string string :=
  foldl (λ m kw, <[kw.1 := unescape kw.2]> m) m l.

Lemma quiet_kv_scan str prev depth cur m w rest :
  quiet prev w = true →
  kv_scan str prev depth cur m (w +:+ rest) = kv_scan str (last_byte prev w) depth (cur +:+ w) m rest.
Proof.
  revert prev cur. induction w as [|c w IH]; intros prev cur Hw; [by rewrite app_nil_l, app_nil_r|].
  cbn [quiet] in Hw. apply andb_true_iff in Hw as [Hc Hw].
  rewrite app_cons. cbn [kv_scan last_byte]. rewrite <-app_snoc.
  unfold is_bracket in Hc. destruct (Ascii.eqb c "["), (Ascii.eqb c "]"); cbn in Hc;
    rewrite ?Hc; cbn [negb andb]; by apply IH.
Qed.

Lemma quiet_elem_scan prev w : quiet prev w = true → elem_scan prev true w = Some true.
Proof.
  revert prev. induction w as [|c w IH]; intros prev Hw; [done|].
  cbn [quiet] in Hw. apply andb_true_iff in Hw as [Hc Hw]. apply IH in Hw.
  cbn [elem_scan]. unfold is_bracket in Hc. destruct (Ascii.eqb c "/"); [done|].
  destruct (Ascii.eqb c "["), (Ascii.eqb c "]"); cbn in Hc; rewrite ?Hc; done.
Qed.

Lemma quiet_app prev w1 w2 :
  quiet prev (w1 +:+ w2) = quiet prev w1 && quiet (last_byte prev w1) w2.
Proof.
  revert prev. induction w1 as [|c w1 IH]; intros prev; [done|].
  rewrite app_cons. cbn. by rewrite IH, andb_assoc.
Qed.

Lemma id_rest_not_bracket c : id_rest c = true → is_bracket c = false.
Proof.
  intros Hc. unfold is_bracket. apply orb_false_iff.
  split; apply Ascii.eqb_neq; intros ->; discriminate Hc.
Qed.

Lemma id_rest_quiet prev k : str_forallb id_rest k = true → quiet prev k = true.
Proof.
  revert prev. induction k as [|c k IH]; intros prev Hk; [done|]. cbn in Hk |- *.
  apply andb_true_iff in Hk as [Hc Hk]. by rewrite id_rest_not_bracket, IH.
Qed.

(** Inside the brackets of a pair nothing closes it. *)
Lemma wf_body_quiet prev k w :
  idRe_MatchString k = true → quiet "=" w = true → quiet prev (k +:+ "=" +:+ w) = true.
Proof.
  intros Hk Hq. rewrite quiet_app, id_rest_quiet by by apply idRe_rest.
  rewrite app_cons, app_nil_l. cbn. by rewrite Hq.
Qed.

Lemma wf_kv_body_quiet k w :
  wf_kv (k, w) → quiet "[" (k +:+ "=" +:+ w) = true.
Proof. intros (Hk & _ & Hq & _). by apply wf_body_quiet. Qed.

Lemma kv_text_shape k w : kv_text k w = String "[" ((k +:+ "=" +:+ w) +:+ "]").
Proof. unfold kv_text. by rewrite app_cons, app_nil_l, !app_assoc. Qed.

Lemma last_byte_body d k w : last_byte d (k +:+ "=" +:+ w) = last_byte "=" w.
Proof. by rewrite last_byte_app, app_cons, app_nil_l. Qed.

Lemma last_byte_kv_text d k w : last_byte d (kv_text k w) = "]"%char.
Proof. rewrite kv_text_shape, last_byte_cons, last_byte_app. done. Qed.

Lemma kv_scan_pair str prev m k w rest :
  wf_kv (k, w) → prev ≠ "\"%char →
  kv_scan str prev 0 "" m (kv_text k w +:+ rest) =
  kv_scan str "]" 0 "" (<[k := unescape w]> m) rest.
Proof.
  intros Hkw Hprev. rewrite kv_text_shape, app_cons, app_assoc. cbn [kv_scan].
  rewrite (proj2 (Ascii.eqb_neq prev "\")) by done. cbn [negb Ascii.eqb].
  rewrite quiet_kv_scan by by apply wf_kv_body_quiet. rewrite last_byte_body.
  rewrite (app_cons "]" ""), app_nil_l. destruct Hkw as (Hk & Hne & _ & Hlast). cbn in Hk, Hne, Hlast.
  cbn [kv_scan]. rewrite (proj2 (Ascii.eqb_neq (last_byte "=" w) "\")) by done. cbn [negb andb].
  change (snoc "" "[" +:+ k +:+ "=" +:+ w) with (String "[" (k +:+ "=" +:+ w)).
  change (snoc (String "[" (k +:+ "=" +:+ w)) "]") with (String "[" ((k +:+ "=" +:+ w) +:+ "]")).
  rewrite <-kv_text_shape, parseKeyValue_ok by done. done.
Qed.

Lemma kv_scan_pairs str prev m l :
  Forall wf_kv l → prev ≠ "\"%char → kv_scan str prev 0 "" m (kvs_text l) = Ok (kvs_map m l, "").
Proof.
  intros Hl. revert prev m. induction Hl as [|[k w] l Hkw Hl IH]; intros prev m Hprev; [done|].
  cbn [kvs_text foldr fst snd]. rewrite kv_scan_pair by done. by apply IH.
Qed.

Lemma parseKeyValueString_pairs l :
  Forall wf_kv l → parseKeyValueString (kvs_text l) = Ok (kvs_map ∅ l).
Proof. intros Hl. by rewrite parseKeyValueString_scan, kv_scan_pairs. Qed.

Lemma elem_scan_pair prev k w :
  wf_kv (k, w) → prev ≠ "\"%char → elem_scan prev false (kv_text k w) = Some false.
Proof.
  intros Hkw Hprev. rewrite kv_text_shape. cbn [elem_scan].
  rewrite (proj2 (Ascii.eqb_neq prev "\")) by done. cbn [Ascii.eqb negb orb].
  change (elem_scan "[" true ((k +:+ "=" +:+ w) +:+ "]") = Some false).
  rewrite elem_scan_app, quiet_elem_scan by by apply wf_kv_body_quiet.
  rewrite last_byte_body. destruct Hkw as (_ & _ & _ & Hlast). cbn in Hlast.
  cbn [elem_scan]. by rewrite (proj2 (Ascii.eqb_neq (last_byte "=" w) "\")).
Qed.

Lemma elem_scan_pairs prev l :
  Forall wf_kv l → prev ≠ "\"%char → elem_scan prev false (kvs_text l) = Some false.
Proof.
  intros Hl. revert prev. induction Hl as [|[k w] l Hkw Hl IH]; intros prev Hprev; [done|].
  cbn [kvs_text foldr fst snd]. rewrite elem_scan_app, elem_scan_pair by done.
  rewrite last_byte_kv_text. by apply IH.
Qed.

Lemma escape_quiet prev v : quiet prev (escape v) = true.
Proof.
  revert prev. induction v as [|c v IH]; intros prev; [done|]. unfold escape in *. cbn [escape_set].
  destruct (is_bracket c) eqn:Hc; cbn; rewrite ?Hc; cbn; apply IH.
Qed.

Lemma escape_last d v : last_byte d (escape v) = last_byte d v.
Proof.
  revert d. induction v as [|c v IH]; intros d; [done|]. unfold escape in *. cbn [escape_set].
  destruct (is_bracket c); cbn; apply IH.
Qed.

Lemma escape_nonempty v : v ≠ "" → escape v ≠ "".
Proof. destruct v as [|c v]; [done|]. unfold escape. cbn. by destruct (is_bracket c). Qed.

Lemma wf_kv_escape k v :
  idRe_MatchString k = true → v ≠ "" → last_byte "=" v ≠ "\"%char → wf_kv (k, escape v).
Proof.
  intros Hk Hv Hl. split; [done|]. split; [by apply escape_nonempty|].
  split; [apply escape_quiet|]. cbn. by rewrite escape_last.
Qed.

(** ** Parsed elements *)

(** The node names [parseElement] accepts. *)
Definition name_ok (n : string) : bool :=
  idRe_MatchString n || bool_decide (n = ".") || bool_decide (n = "..") ||
  match Index n "=" with Some (S _) => true | _ => false end.

(** A parsed key map: identifiers to non-empty values, at least one. *)
Definition wf_keys (m : gmap string string) : Prop :=
  map_Forall (λ k v, idRe_MatchString k = true ∧ v ≠ "") m.

#[global] Instance wf_keys_dec m : Decision (wf_keys m).
Proof. unfold wf_keys. apply _. Defined.

(** One element of a path: a name, with or without keys. *)
Definition block : Type := string * option (gmap string string).

Definition block_parts (b : block) : list part :=
  match b.2 with None => [PName b.1] | Some m => [PName b.1; PKeys m] end.

Definition wf_block (b : block) : Prop :=
  match b.2 with
  | None => name_ok b.1 = true
  | Some m => idRe_MatchString b.1 = true ∧ wf_keys m ∧ m ≠ ∅
  end.

Lemma idRe_no_bracket n : idRe_MatchString n = true → Index n "[" = None.
Proof. intros Hn. by apply Index_byte_None, idRe_without. Qed.

Lemma parseElement_name n :
  Index n "[" = None → name_ok n = true → parseElement n = Ok [PName n].
Proof.
  intros Hb Hn. unfold parseElement. rewrite Hb. unfold name_ok in Hn.
  destruct (idRe_MatchString n); [done|]. cbn in Hn |- *.
  repeat case_bool_decide; try done. cbn in Hn. by destruct (Index n "=") as [[|i]|].
Qed.

Lemma parseElement_keys n l :
  idRe_MatchString n = true → l ≠ [] → Forall wf_kv l →
  parseElement (n +:+ kvs_text l) = Ok [PName n; PKeys (kvs_map ∅ l)].
Proof.
  intros Hn Hne Hl. unfold parseElement.
  assert (∃ t, kvs_text l = String "[" t) as [t Ht].
  { destruct l as [|[k w] l]; [done|]. cbn [kvs_text foldr fst snd].
    rewrite kv_text_shape, app_cons. eauto. }
  pose proof (parseKeyValueString_pairs l Hl) as Hp.
  rewrite Ht in Hp |- *. rewrite Index_byte_app by by apply idRe_without.
  rewrite str_slice_to, outcome_bind_ret, Hn. cbn [negb].
  by rewrite str_slice_from, outcome_bind_ret, Hp.
Qed.

Lemma kv_scan_returns str prev depth cur m rest : returns (kv_scan str prev depth cur m rest).
Proof.
  revert prev depth cur m. induction rest as [|c t IH]; intros prev depth cur m; [done|]. cbn [kv_scan].
  repeat case_match; auto. apply returns_bind; [apply parseKeyValue_returns|auto].
Qed.

Lemma parseKeyValueString_returns str : returns (parseKeyValueString str).
Proof.
  rewrite parseKeyValueString_scan. apply returns_bind; [apply kv_scan_returns|].
  intros [m cur] _. by case_bool_decide.
Qed.

Lemma kv_scan_wf str prev depth cur m rest m' cur' :
  kv_scan str prev depth cur m rest = Ok (m', cur') →
  wf_keys m → m ≠ ∅ ∨ cur +:+ rest ≠ "" → wf_keys m' ∧ (m' ≠ ∅ ∨ cur' ≠ "").
Proof.
  revert prev depth cur m. induction rest as [|c t IH]; intros prev depth cur m Hs Hm Hne.
  { cbn in Hs. injection Hs as -> ->. by rewrite app_nil_r in Hne. }
  assert (m ≠ ∅ ∨ snoc cur c +:+ t ≠ "") as Hne'.
  { right. rewrite app_eq_nil. intros [? _]. by eapply snoc_nonempty. }
  cbn [kv_scan] in Hs. repeat case_match; eauto. simplify_outcome.
  match goal with E : parseKeyValue _ _ = Ok ?r |- _ =>
    apply parseKeyValue_inv in E as (v & _ & Hv & Hk & Hvn) end.
  apply IH in Hs; [done| |left; apply insert_non_empty].
  apply map_Forall_insert_2; [|done]. rewrite Hv. split; [done|]. by apply unescape_nonempty.
Qed.

Lemma parseKeyValueString_wf str m :
  parseKeyValueString str = Ok m → str ≠ "" → wf_keys m ∧ m ≠ ∅.
Proof.
  rewrite parseKeyValueString_scan. intros Hs Hne. simplify_outcome. destruct a as [m' cur].
  case_bool_decide as Hcur; simplify_outcome.
  apply kv_scan_wf in E as [? [?|?]]; auto; done.
Qed.

Lemma parseElement_returns elem : returns (parseElement elem).
Proof.
  unfold parseElement. destruct (Index elem "[") as [i|] eqn:Hi; [|repeat case_match; done].
  apply Index_byte_Some in Hi as (a & b & -> & <- & _).
  rewrite str_slice_to, outcome_bind_ret. case_match; [done|].
  rewrite str_slice_from, outcome_bind_ret.
  pose proof (parseKeyValueString_returns (String "[" b)). by case_match.
Qed.

Lemma parseElement_inv elem parts :
  parseElement elem = Ok parts → ∃ b, parts = block_parts b ∧ wf_block b.
Proof.
  unfold parseElement. destruct (Index elem "[") as [i|] eqn:Hi.
  - apply Index_byte_Some in Hi as (a & b & -> & <- & _).
    rewrite str_slice_to, outcome_bind_ret.
    destruct (idRe_MatchString a) eqn:Ha; [|done]. cbn [negb].
    rewrite str_slice_from, outcome_bind_ret.
    destruct (parseKeyValueString _) as [m| | |] eqn:Hm; [|done..]. intros [= <-].
    exists (a, Some m). split; [done|]. split; [done|]. by apply parseKeyValueString_wf in Hm.
  - intros Hp. exists (elem, None). split.
    + repeat case_match; cbv [mret outcome_ret] in Hp; by simplify_outcome.
    + unfold wf_block, name_ok. cbn. destruct (idRe_MatchString elem); [done|]. cbn in Hp |- *.
      repeat case_bool_decide; try done. cbn. by destruct (Index elem "=") as [[|j]|].
Qed.

Lemma parseElements_returns s elems path : returns (parseElements s elems path).
Proof.
  revert path. induction elems as [|e elems IH]; intros path; [done|]. cbn.
  pose proof (parseElement_returns e). by case_match.
Qed.

Lemma parseElements_blocks s elems bs path :
  Forall2 (λ e b, parseElement e = Ok (block_parts b)) elems bs →
  parseElements s elems path = Ok (path ++ concat (block_parts <$> bs)).
Proof.
  intros Hf. revert path. induction Hf as [|e b elems bs He Hf IH]; intros path; cbn.
  - by rewrite List.app_nil_r.
  - by rewrite He, IH, <-List.app_assoc.
Qed.

Lemma parseElements_inv s elems path parts :
  parseElements s elems path = Ok parts →
  ∃ bs, parts = path ++ concat (block_parts <$> bs) ∧ Forall wf_block bs.
Proof.
  revert path. induction elems as [|e elems IH]; intros path Hp; cbn in Hp.
  - injection Hp as <-. exists []. by rewrite List.app_nil_r.
  - destruct (parseElement e) as [ps| | |] eqn:He; [|done..].
    apply parseElement_inv in He as (b & -> & Hb). apply IH in Hp as (bs & -> & Hbs).
    exists (b :: bs). cbn. rewrite <-List.app_assoc. auto.
Qed.

Lemma splitPath_returns s : returns (splitPath s).
Proof. rewrite splitPath_scan. destruct (split_scan _ _ _ _) as [es []]; done. Qed.

Lemma ParseStringPath_returns s : returns (ParseStringPath s).
Proof.
  apply returns_bind; [apply splitPath_returns|]. intros es _. apply parseElements_returns.
Qed.

(** A successful parse is a sequence of elements. *)
Lemma ParseStringPath_inv s parts :
  ParseStringPath s = Ok parts →
  ∃ bs, parts = concat (block_parts <$> bs) ∧ Forall wf_block bs.
Proof.
  unfold ParseStringPath. intros Hp. simplify_outcome.
  by apply parseElements_inv in Hp as (bs & -> & Hbs); exists bs.
Qed.

(** Every split element parses: the path parses to the elements in order. *)
Lemma ParseStringPath_blocks es bs :
  Forall wf_elem es → Forall2 (λ e b, parseElement e = Ok (block_parts b)) es bs →
  ParseStringPath (Join ("" :: es) "/") = Ok (concat (block_parts <$> bs)).
Proof.
  intros Hes Hf. unfold ParseStringPath.
  assert (splitPath (Join ("" :: es) "/") = Ok es) as ->.
  { rewrite splitPath_scan. destruct es as [|e es]; [done|].
    rewrite Join_cons, app_nil_l, app_assoc, app_cons, app_nil_l, split_scan_slash.
    by rewrite split_scan_join. }
  rewrite outcome_bind_ret. by rewrite (parseElements_blocks _ _ bs).
Qed.

#[export] Hint Resolve splitPath_returns parseKeyValueString_returns parseElement_returns
  ParseStringPath_returns : gnxi.

(** A second opening bracket leaves the pair open at the end of the text. *)
Lemma open_bracket_scan k v w :
  let t := k +:+ "=" +:+ v +:+ "[" +:+ w +:+ "]" in
  idRe_MatchString k = true →
  quiet "=" v = true → last_byte "=" v ≠ "\"%char → quiet "[" w = true →
  parseKeyValueString (String "[" t) =
  Err (Errorf_plain "malformed List key-value pair string: %s" [AStr (String "[" t)]).
Proof.
  intros t Hk Hv Hlast Hw. rewrite parseKeyValueString_scan.
  assert (∀ str, ∃ cur, cur ≠ "" ∧ kv_scan str "/" 0 "" ∅ (String "[" t) = Ok (∅, cur)) as Hscan.
  { intros str. change (kv_scan str "/" 0 "" ∅ (String "[" t)) with (kv_scan str "[" 1 "[" ∅ t). unfold t.
    replace (k +:+ "=" +:+ v +:+ "[" +:+ w +:+ "]") with ((k +:+ "=" +:+ v) +:+ String "[" (w +:+ "]"))
      by by rewrite !app_assoc.
    rewrite quiet_kv_scan by by apply wf_body_quiet. rewrite last_byte_body. cbn [kv_scan].
    rewrite (proj2 (Ascii.eqb_neq (last_byte "=" v) "\")) by done.
    cbn [Ascii.eqb Bool.eqb negb]. rewrite quiet_kv_scan by done.
    cbn [kv_scan]. eexists. split; [|by destruct (Ascii.eqb (last_byte "[" w) "\")].
    apply snoc_nonempty. }
  destruct (Hscan (String "[" t)) as (cur & Hcur & ->). rewrite outcome_bind_ret.
  by rewrite bool_decide_false.
Qed.

(** ** Theorems *)

(** splitPath never panics and always returns.  It fails exactly when the
    path ends inside a bracket; otherwise its elements are non-empty, have no
    slash outside brackets and close their brackets, and splitting them joined
    by slashes gives the same elements back. *)
Theorem splitPath_canonical (s : string) :
  match splitPath s with
  | Ok es => Forall wf_elem es ∧ splitPath (Join es "/") = Ok es ∧
             (split_scan "/" "" false (s +:+ "/")).2 = false
  | Err _ => (split_scan "/" "" false (s +:+ "/")).2 = true
  | Panic | Diverge => False
  end.
Proof.
  rewrite (splitPath_scan s). pose proof (split_scan_wf "/" "" false (s +:+ "/") eq_refl eq_refl) as Hwf.
  destruct (split_scan "/" "" false (s +:+ "/")) as [es []]; [done|]. cbn in Hwf.
  split; [done|]. split; [|done]. by rewrite splitPath_scan, split_scan_join.
Qed.

(** The index-based loop of splitPath, with fuel for one turn per byte,
    computes exactly what the structural scanner of the rest of the input
    computes, from any state the loop can be in: the processed text, the pending
    token and the rest make up the input. *)
Theorem splitPath_loop_refines (done cur rest : string) (path : list string) (inside : bool) :
  splitPath_loop (S (strlen rest)) (done +:+ cur +:+ rest) path inside
    (strlen done) (strlen done + strlen cur) =
  let r := split_scan (last_byte "/" (done +:+ cur)) cur inside rest in
  Ok (path ++ r.1, r.2).
Proof. cbv zeta. apply splitPath_loop_scan. lia. Qed.

(** Key-value pairs round-trip: for every list of keys that are YANG
    identifiers and non-empty values that do not end in a backslash, parsing
    the pairs with the brackets of the values escaped gives the map of the
    pairs, a later pair replacing an earlier one with the same key. *)
Theorem parseKeyValueString_escape (l : list (string * string)) :
  Forall (λ kv, idRe_MatchString kv.1 = true ∧ kv.2 ≠ "" ∧ last_byte "=" kv.2 ≠ "\"%char) l →
  parseKeyValueString (kvs_text ((λ kv, (kv.1, escape kv.2)) <$> l)) =
  Ok (foldl (λ m kv, <[kv.1 := kv.2]> m) ∅ l).
Proof.
  intros Hl. rewrite parseKeyValueString_pairs.
  - f_equal. unfold kvs_map. generalize (∅ : gmap string string) as m. clear Hl.
    induction l as [|[k v] l IH]; intros m; [done|]. cbn [fmap list_fmap foldl fst snd].
    by rewrite unescape_escape.
  - apply Forall_fmap. eapply Forall_impl; [exact Hl|]. intros [k v] (Hk & Hv & Hlast).
    by apply wf_kv_escape.
Qed.

Lemma parseKeyValueString_escape_witness :
  Forall (λ kv, idRe_MatchString kv.1 = true ∧ kv.2 ≠ "" ∧ last_byte "=" kv.2 ≠ "\"%char)
    [("name", "eth[0]/1"); ("unit", "\]")] ∧
  parseKeyValueString "[name=eth\[0\]/1][unit=\\]]" =
  Ok (<["unit" := "\]"]> (<["name" := "eth[0]/1"]> ∅)).
Proof.
  assert (Forall (λ kv, idRe_MatchString kv.1 = true ∧ kv.2 ≠ "" ∧ last_byte "=" kv.2 ≠ "\"%char)
    [("name", "eth[0]/1"); ("unit", "\]")]) as H by (repeat constructor; done).
  split; [exact H|]. exact (parseKeyValueString_escape _ H).
Defined.

(** The comment of splitPath and a test of parseElement accept an unescaped
    opening bracket inside a key value; parseElement reads it as a nested
    bracket and rejects every list element whose only unescaped bracket inside
    the pair is an opening one. *)
Theorem parseElement_open_bracket (n k v w : string) :
  idRe_MatchString n = true → idRe_MatchString k = true →
  quiet "=" v = true → last_byte "=" v ≠ "\"%char → quiet "[" w = true →
  ∃ e, parseElement (n +:+ "[" +:+ k +:+ "=" +:+ v +:+ "[" +:+ w +:+ "]") = Err e.
Proof.
  intros Hn Hk Hv Hlast Hw. unfold parseElement.
  set (t := k +:+ "=" +:+ v +:+ "[" +:+ w +:+ "]").
  change (n +:+ "[" +:+ t) with (n +:+ String "[" t).
  rewrite Index_byte_app by by apply idRe_without.
  rewrite str_slice_to, outcome_bind_ret, Hn. cbn [negb].
  rewrite str_slice_from, outcome_bind_ret. unfold t. rewrite open_bracket_scan by done. by eexists.
Qed.

Lemma parseElement_open_bracket_witness :
  (idRe_MatchString "a" = true ∧ idRe_MatchString "k1" = true ∧ quiet "=" "v" = true ∧
   last_byte "=" "v" ≠ "\"%char ∧ quiet "[" "1" = true) ∧
  ∃ e, parseElement "a[k1=v[1]" = Err e.
Proof.
  split; [done|].
  exact (parseElement_open_bracket "a" "k1" "v" "1" eq_refl eq_refl eq_refl ltac:(done) eq_refl).
Defined.
