(* ===== verification/Path.v ===== *)
(** * Path: gNMI paths

    Models [utilities/xpath/path.go].  A slice or a map is an [option]: [None]
    is nil, which the code distinguishes from an empty one; a [*gnmipb.Path] is
    an [option Path].  The elements of a repeated field are never nil (a decoded
    message has none), so they are plain records. *)

From Stdlib Require Import Ascii.
From S2P Require Export XpathSpec.

(** ** The messages [gnmi.PathElem] and [gnmi.Path] *)
Record PathElem : Type := mkElem {
  pe_Name : string;
  pe_Key : option (gmap string string)
}.

Record Path : Type := mkPath {
  p_Origin : string;
  p_Element : option (list string);
  p_Elem : option (list PathElem);
  p_Target : string
}.

#[global] Instance PathElem_eq_dec : EqDecision PathElem.
Proof. solve_decision. Defined.
#[global] Instance Path_eq_dec : EqDecision Path.
Proof. solve_decision. Defined.

(** The generated getters: zero values on a nil message. *)
Definition GetElem (p : option Path) : option (list PathElem) := p ≫= p_Elem.
Definition GetElement (p : option Path) : option (list string) := p ≫= p_Element.
Definition GetTarget (p : option Path) : string := default "" (p_Target <$> p).
Definition GetOrigin (p : option Path) : string := default "" (p_Origin <$> p).

(** The elements and keys to iterate over: none for nil. *)
Definition elems (p : option Path) : list PathElem := default [] (GetElem p).
Definition keys (e : PathElem) : gmap string string := default ∅ (pe_Key e).

(** ** Message equality

    [proto.Equal] does not tell nil from empty. *)
#[global] Instance PathElem_equiv : Equiv PathElem := λ a b,
  pe_Name a = pe_Name b ∧ keys a = keys b.

#[global] Instance Path_equiv : Equiv Path := λ a b,
  p_Origin a = p_Origin b ∧ p_Target a = p_Target b ∧
  default [] (p_Element a) = default [] (p_Element b) ∧
  default [] (p_Elem a) ≡ default [] (p_Elem b).

#[global] Instance PathElem_equivalence : Equivalence (≡@{PathElem}).
Proof.
  split; unfold equiv, PathElem_equiv.
  - done.
  - intros a b []. done.
  - intros a b c [] []. split; congruence.
Qed.

#[global] Instance Path_equivalence : Equivalence (≡@{Path}).
Proof.
  split; unfold equiv, Path_equiv.
  - done.
  - intros a b (? & ? & ? & ?). by repeat split.
  - intros a b c (? & ? & ? & Hab) (? & ? & ? & Hbc). repeat split; try congruence. by rewrite Hab.
Qed.

(** Third-party code: [proto.Clone] makes a deep copy; of an invalid (nil)
    message it returns the invalid message. *)
Class ProtoClone := {
  proto_clone : Path → Path;
  proto_clone_equiv : ∀ p, proto_clone p ≡ p
}.

Definition identity_clone : ProtoClone := {| proto_clone := λ p, p; proto_clone_equiv := λ p, reflexivity p |}.

(** ** Constants and constructors *)
Definition RootGNMIPath : Path := mkPath "" None None "".
Definition EmptyGNMIPath : Path := RootGNMIPath.
Definition WildcardGNMIPathDot3 : Path := mkPath "" None (Some [mkElem "..." None]) "".
Definition WildcardGNMIPathAsterisk : Path := mkPath "" None (Some [mkElem "*" None]) "".

Definition GNMIAliasPath (name target origin : string) : Path :=
  mkPath origin None (Some [mkElem name None]) target.

Definition set_Elem (l : option (list PathElem)) (p : Path) : Path :=
  mkPath (p_Origin p) (p_Element p) l (p_Target p).
Definition set_Element (l : option (list string)) (p : Path) : Path :=
  mkPath (p_Origin p) l (p_Elem p) (p_Target p).

Definition CloneGNMIPath `{ProtoClone} (src : option Path) : option Path := proto_clone <$> src.

(** [UpdateGNMIPathElem]: the returned message is [target], updated in place. *)
Definition UpdateGNMIPathElem `{ProtoClone} (target src : option Path) : option Path :=
  match target, src with
  | None, _ => CloneGNMIPath src
  | Some t, None => Some t
  | Some t, Some s => Some (set_Elem (Some (elems (Some s))) t)
  end.

(** ** Merging a relative path *)

(** The loop of [mergePaths]: the slice [mergedPath[:max-1]] panics when the
    merged path is empty; [max < 0] never holds. *)
Fixpoint mergePaths_loop (mergedPath relativePathElem : list PathElem)
    : outcome error (option (list PathElem)) :=
  match relativePathElem with
  | [] => mret (Some mergedPath)
  | elem :: rest =>
      if bool_decide (pe_Name elem = ".") then mergePaths_loop mergedPath rest
      else if bool_decide (pe_Name elem = "..") then
        let max := Z.of_nat (length mergedPath) in
        if (max <? 0)%Z then mret None
        else if (max - 1 <? 0)%Z then Panic
        else mergePaths_loop (take (Z.to_nat (max - 1)) mergedPath) rest
      else mergePaths_loop (mergedPath ++ [elem]) rest
  end.

Definition mergePaths (absPathElem relativePathElem : list PathElem)
    : outcome error (option (list PathElem)) :=
  mergePaths_loop absPathElem relativePathElem.

Definition GNMIFullPath `{ProtoClone} (prefix path : option Path) : outcome error (option Path) :=
  match prefix with
  | None =>
      match path with
      | None => mret (Some (mkPath "" None None ""))
      | Some p => mret (Some p)
      end
  | Some pre =>
      let fullPath := proto_clone pre in
      let fullPath :=
        match GetElement path with
        | Some el => set_Element (Some (default [] (p_Element pre) ++ el)) fullPath
        | None => fullPath
        end in
      match GetElem path with
      | Some el =>
          merged ← mergePaths (elems (Some pre)) el;
          match merged with
          | None => mret None
          | Some l => mret (Some (set_Elem (Some l) fullPath))
          end
      | None => mret (Some fullPath)
      end
  end.

(** The loop of [ValidateGNMIPath] from index [i]; [path[i].Target] reads
    through the pointer and panics on nil. *)
Fixpoint ValidateGNMIPath_loop `{ProtoClone} (i : nat) (p : option Path) (path : list (option Path))
    : outcome error (option Path) :=
  match path with
  | [] => mret p
  | q :: rest =>
      match GetElem q, GetElement q with
      | None, Some _ => Err (Errorf_plain "deprecated path.element used" [])
      | _, _ =>
          if 0 <? i then
            match q with
            | None => Panic
            | Some q' =>
                if bool_decide (p_Target q' ≠ "")
                then Err (Errorf_plain "path.target MUST only ever be present on the prefix path" [])
                else p ← GNMIFullPath p q; ValidateGNMIPath_loop (S i) p rest
            end
          else ValidateGNMIPath_loop (S i) p rest
      end
  end.

Definition ValidateGNMIPath `{ProtoClone} (path : list (option Path)) : outcome error (option Path) :=
  match path with
  | [] => Err (Errorf_plain "no input path" [])
  | p0 :: _ => ValidateGNMIPath_loop 0 (CloneGNMIPath p0) path
  end.

(** ** Schema paths *)
Definition IsSchemaPath `{GoRange} (path : option Path) : bool :=
  forallb (λ e, forallb (λ kv, bool_decide (kv.2 = "*")) (go_range (keys e))) (elems path).

(** ** From and to xpath strings *)

(** Appending to a slice that may be nil. *)
Definition append_elem (l : option (list PathElem)) (e : PathElem) : option (list PathElem) :=
  Some (default [] l ++ [e]).

(** One parsed part: the type switch of [ToGNMIPath] and [SlicePathToGNMIPath]. *)
Definition add_part (l : option (list PathElem)) (x : part) : outcome error (option (list PathElem)) :=
  match x with
  | PName v => mret (append_elem l (mkElem v None))
  | PKeys v =>
      match last (default [] l) with
      | None => Err (Errorf_plain "missing name before key-value list" [])
      | Some e =>
          match pe_Key e with
          | Some _ => Err (Errorf_plain "two subsequent key-value lists" [])
          | None => mret (Some (update_last (λ e, mkElem (pe_Name e) (Some v)) (default [] l)))
          end
      end
  end.

Fixpoint add_parts (l : option (list PathElem)) (xs : list part) : outcome error (option (list PathElem)) :=
  match xs with
  | [] => mret l
  | x :: xs => l ← add_part l x; add_parts l xs
  end.

Definition ToGNMIPath (xpath : string) : outcome error Path :=
  xpathElements ← ParseStringPath xpath;
  pbPathElements ← add_parts None xpathElements;
  mret (mkPath "" None pbPathElements "").

Fixpoint slice_parts (l : option (list PathElem)) (path : list string)
    : outcome error (option (list PathElem)) :=
  match path with
  | [] => mret l
  | pelem :: path =>
      xpathElements ← ParseStringPath pelem;
      l ← add_parts l xpathElements;
      slice_parts l path
  end.

Definition SlicePathToGNMIPath (path : list string) : outcome error Path :=
  pathElem ← slice_parts None path;
  mret (mkPath "" None pathElem "").

(** The names of the parsed parts, keys skipped. *)
Definition schema_names (xs : list part) : list string :=
  omap (λ x, match x with PName v => Some v | PKeys _ => None end) xs.

Definition ToSchemaPath (xpath : string) : outcome error string :=
  xpathElements ← ParseStringPath xpath;
  mret (Join ("" :: schema_names xpathElements) "/").

Fixpoint ToSchemaSlicePath_loop (schemaElememts : list string) (isEqual : bool) (xpath : list string)
    : outcome error (option (list string) * bool) :=
  match xpath with
  | [] => mret (Some schemaElememts, isEqual)
  | x :: xpath =>
      match ParseStringPath x with
      | Err _ => mret (None, false)
      | Ok xs => ToSchemaSlicePath_loop (schemaElememts ++ schema_names xs)
                   (isEqual && forallb (λ x, match x with PName _ => true | PKeys _ => false end) xs) xpath
      | Panic => Panic
      | Diverge => Diverge
      end
  end.

Definition ToSchemaSlicePath (xpath : list string) : outcome error (option (list string) * bool) :=
  ToSchemaSlicePath_loop [] true xpath.

(** [fmt.Sprintf("[%s=%s]", k, kv)]. *)
Definition key_text (kv : string * string) : string := kv_text kv.1 kv.2.

Definition elem_text `{GoRange} (e : PathElem) : string :=
  match pe_Key e with
  | Some m => Join (pe_Name e :: (key_text <$> go_range m)) ""
  | None => pe_Name e
  end.

Definition ToXPath `{GoRange} (p : option Path) : string :=
  match p with
  | None => ""
  | Some _ =>
      let pe := "" :: (elem_text <$> elems p) in
      if length pe =? 0 then Join (default [] (GetElement p)) "/" else Join pe "/"
  end.

Definition PathElemToXPATH `{GoRange} (elem : option (list PathElem)) (schemaPath : bool) : string :=
  match elem with
  | None => ""
  | Some l =>
      if schemaPath then Join ("" :: (pe_Name <$> l)) "/"
      else Join ("" :: (elem_text <$> l)) "/"
  end.
