(* ===== verification/PathSpec.v ===== *)
(** * PathSpec: the theorems on gNMI paths

    Printing and parsing are inverse on well-formed paths, whatever the order in
    which the keys are printed; the parser is total and its results are well
    formed; relative paths stay inside the prefix or panic; joining absolute
    paths concatenates them. *)

From Stdlib Require Import Ascii.
From S2P Require Export Path.

(** ** Parts to path elements *)

Definition block_elem (b : block) : PathElem := mkElem b.1 b.2.

Lemma add_parts_app l xs ys : add_parts l (xs ++ ys) = (l' ← add_parts l xs; add_parts l' ys).
Proof.
  revert l. induction xs as [|x xs IH]; intros l; [done|]. cbn.
  destruct (add_part l x); [apply IH|done..].
Qed.

Lemma add_parts_block l b :
  add_parts l (block_parts b) = Ok (Some (default [] l ++ [block_elem b])).
Proof.
  destruct b as [n [m|]]; cbn; [|done].
  by rewrite last_snoc, update_last_snoc.
Qed.

Lemma add_parts_blocks l bs :
  add_parts l (concat (block_parts <$> bs)) =
  Ok (if bs is [] then l else Some (default [] l ++ (block_elem <$> bs))).
Proof.
  revert l. induction bs as [|b bs IH]; intros l; [done|]. cbn [fmap list_fmap concat].
  rewrite add_parts_app, add_parts_block, outcome_bind_ret, IH.
  destruct bs; cbn; [done|]. by rewrite <-List.app_assoc.
Qed.

Definition blocks_elem (bs : list block) : option (list PathElem) :=
  if bs is [] then None else Some (block_elem <$> bs).

Lemma blocks_elem_default bs : default [] (blocks_elem bs) = block_elem <$> bs.
Proof. by destruct bs. Qed.

Lemma ToGNMIPath_blocks s bs :
  ParseStringPath s = Ok (concat (block_parts <$> bs)) →
  ToGNMIPath s = Ok (mkPath "" None (blocks_elem bs) "").
Proof.
  intros Hp. unfold ToGNMIPath. rewrite Hp, outcome_bind_ret, add_parts_blocks. by destruct bs.
Qed.

(** The two errors of the type switch never occur: a parse that succeeds is a
    sequence of elements. *)
Lemma ToGNMIPath_cases s :
  match ParseStringPath s with
  | Ok parts => ∃ bs, parts = concat (block_parts <$> bs) ∧ Forall wf_block bs ∧
                      ToGNMIPath s = Ok (mkPath "" None (blocks_elem bs) "")
  | Err e => ToGNMIPath s = Err e
  | _ => False
  end.
Proof.
  pose proof (ParseStringPath_returns s) as Hr.
  destruct (ParseStringPath s) as [parts|e| |] eqn:Hp; try done.
  - pose proof Hp as Hp'. apply ParseStringPath_inv in Hp' as (bs & -> & Hbs).
    eauto using ToGNMIPath_blocks.
  - unfold ToGNMIPath. by rewrite Hp.
Qed.

Lemma ToGNMIPath_returns s : returns (ToGNMIPath s).
Proof.
  pose proof (ToGNMIPath_cases s) as H. case_match; [|by rewrite H|done..].
  by destruct H as (bs & _ & _ & ->).
Qed.
#[export] Hint Resolve ToGNMIPath_returns : gnxi.

(** ** Well-formed path elements *)

(** A node name that prints and parses as one element. *)
Definition wf_name (n : string) : Prop := name_ok n = true ∧ Index n "[" = None ∧ wf_elem n.

(** A key value that needs no escape: no bracket, no backslash at its end. *)
Definition plain_value (v : string) : Prop :=
  v ≠ "" ∧ str_forallb (λ c, negb (is_bracket c)) v = true ∧ last_byte "=" v ≠ "\"%char.

Definition wf_pathelem (e : PathElem) : Prop :=
  (keys e = ∅ ∧ wf_name (pe_Name e)) ∨
  (keys e ≠ ∅ ∧ idRe_MatchString (pe_Name e) = true ∧
   map_Forall (λ k v, idRe_MatchString k = true ∧ plain_value v) (keys e)).

#[global] Instance wf_name_dec n : Decision (wf_name n).
Proof. unfold wf_name. apply _. Defined.
#[global] Instance plain_value_dec v : Decision (plain_value v).
Proof. unfold plain_value. apply _. Defined.
#[global] Instance wf_pathelem_dec e : Decision (wf_pathelem e).
Proof. unfold wf_pathelem. apply _. Defined.

Lemma escape_plain v : str_forallb (λ c, negb (is_bracket c)) v = true → escape v = v.
Proof.
  unfold escape. induction v as [|c v IH]; [done|]. cbn. rewrite andb_true_iff.
  intros [Hc%negb_true_iff Hv]. by rewrite Hc, IH.
Qed.

Lemma unescape_plain v : plain_value v → unescape v = v.
Proof. intros (_ & Hv & _). rewrite <-(escape_plain v) at 1 by done. apply unescape_escape. Qed.

Lemma wf_kv_plain k v : idRe_MatchString k = true → plain_value v → wf_kv (k, v).
Proof.
  intros Hk (Hne & Hv & Hl). rewrite <-(escape_plain v) by done. by apply wf_kv_escape.
Qed.

Lemma str_forallb_last f d s : str_forallb f s = true → s ≠ "" → f (last_byte d s) = true.
Proof.
  intros Hs Hne. induction s as [|s c _] using string_rev_ind; [done|].
  rewrite last_byte_snoc. unfold snoc in Hs. rewrite str_forallb_app in Hs.
  apply andb_true_iff in Hs as [_ Hc]. cbn in Hc. by rewrite andb_true_r in Hc.
Qed.

Lemma idRe_last_byte d n : idRe_MatchString n = true → last_byte d n ≠ "\"%char.
Proof.
  intros Hn Hl. pose proof (str_forallb_last id_rest d n (idRe_rest n Hn) (idRe_nonempty n Hn)) as H.
  by rewrite Hl in H.
Qed.

Lemma id_elem_scan prev n : str_forallb id_rest n = true → elem_scan prev false n = Some false.
Proof.
  revert prev. induction n as [|c n IH]; intros prev Hn; [done|]. cbn in Hn |- *.
  apply andb_true_iff in Hn as [Hc Hn].
  destruct (Ascii.eqb_spec c "/") as [->|]; [discriminate Hc|].
  destruct (Ascii.eqb_spec c "[") as [->|]; [discriminate Hc|].
  destruct (Ascii.eqb_spec c "]") as [->|]; [discriminate Hc|]. by apply IH.
Qed.

Lemma idRe_wf_elem n : idRe_MatchString n = true → wf_elem n.
Proof. intros Hn. split; [by apply idRe_nonempty|]. by apply id_elem_scan, idRe_rest. Qed.

Lemma idRe_wf_name n : idRe_MatchString n = true → wf_name n.
Proof.
  intros Hn. split; [unfold name_ok; by rewrite Hn|].
  split; [by apply idRe_no_bracket|by apply idRe_wf_elem].
Qed.

Lemma keyed_wf_elem n l :
  idRe_MatchString n = true → Forall wf_kv l → wf_elem (n +:+ kvs_text l).
Proof.
  intros Hn Hl. split.
  - rewrite app_eq_nil. intros [-> _]. discriminate Hn.
  - rewrite elem_scan_app, id_elem_scan by by apply idRe_rest.
    apply elem_scan_pairs; [done|]. by apply idRe_last_byte.
Qed.

(** ** Printing *)

Lemma Join_empty_sep n l : Join (n :: l) "" = n +:+ foldr String.append "" l.
Proof.
  revert n. induction l as [|s l IH]; intros n; [by rewrite Join_one, app_nil_r|].
  by rewrite Join_cons, app_nil_l, IH.
Qed.

(** [kvs_map] on distinct keys whose values need no unescaping is the map. *)
Lemma kvs_map_plain m l :
  NoDup l.*1 → (∀ kw, kw ∈ l → m !! kw.1 = None ∧ unescape kw.2 = kw.2) →
  kvs_map m l = list_to_map l ∪ m.
Proof.
  revert m. induction l as [|[k w] l IH]; intros m Hnd Hl; [symmetry; apply (left_id_L ∅ (∪))|].
  change (kvs_map m ((k, w) :: l)) with (kvs_map (<[k := unescape w]> m) l).
  change (list_to_map ((k, w) :: l)) with (<[k := w]> (list_to_map l) : gmap string string).
  rewrite fmap_cons in Hnd. apply NoDup_cons in Hnd as [Hk Hnd].
  destruct (Hl (k, w)) as [Hm Hw]; [set_solver|]. cbn [fst snd] in Hk, Hm, Hw. rewrite Hw.
  assert (kvs_map (<[k:=w]> m) l = list_to_map l ∪ <[k:=w]> m) as ->.
  { apply IH; [done|]. intros [k' w'] Hin. cbn [fst snd]. split; [|by apply (Hl (k', w')); set_solver].
    rewrite lookup_insert_ne; [by apply (Hl (k', w')); set_solver|].
    intros ->. apply Hk. apply list_elem_of_fmap. by exists (k', w'). }
  rewrite <-insert_union_r by by apply not_elem_of_list_to_map_1. apply insert_union_l.
Qed.

Section print.
Context `{GoRange}.

Lemma elem_text_shape e : elem_text e = pe_Name e +:+ kvs_text (go_range (keys e)).
Proof.
  unfold elem_text, keys. destruct (pe_Key e) as [m|]; cbn [default from_option id].
  - rewrite Join_empty_sep. f_equal. unfold kvs_text.
    induction (go_range m) as [|kv l IH]; [done|]. cbn [fmap list_fmap foldr]. by rewrite IH.
  - rewrite go_range_empty. by rewrite app_nil_r.
Qed.

#[global] Instance elem_text_proper : Proper ((≡) ==> (=)) elem_text.
Proof. intros e1 e2 [Hn Hk]. by rewrite !elem_text_shape, Hn, Hk. Qed.

(** What a printed element parses to. *)
Definition elem_block (e : PathElem) : block :=
  (pe_Name e, if bool_decide (keys e = ∅) then None else Some (keys e)).

Lemma elem_block_equiv e : block_elem (elem_block e) ≡ e.
Proof.
  unfold elem_block, block_elem. split; [done|]. cbn [fst snd].
  case_bool_decide as Hk; [symmetry; exact Hk|done].
Qed.

Lemma elem_text_parse e :
  wf_pathelem e →
  wf_elem (elem_text e) ∧ parseElement (elem_text e) = Ok (block_parts (elem_block e)).
Proof.
  rewrite elem_text_shape. unfold elem_block, block_parts.
  intros [[Hk (Hn & Hb & Hw)]|(Hk & Hn & Hks)].
  - rewrite bool_decide_true, Hk, go_range_empty by done. cbn [kvs_text foldr fst snd].
    rewrite app_nil_r. by split; [|apply parseElement_name].
  - rewrite bool_decide_false by done. cbn [fst snd].
    assert (∀ kw, kw ∈ go_range (keys e) → wf_kv kw ∧ unescape kw.2 = kw.2) as Hall.
    { intros [k w] Hin%elem_of_go_range. apply Hks in Hin as [Hk' Hv].
      split; [by apply wf_kv_plain|by apply unescape_plain]. }
    assert (Forall wf_kv (go_range (keys e))) as Hwf
      by (apply Forall_forall; intros kw Hin; by apply Hall).
    split; [by apply keyed_wf_elem|].
    rewrite parseElement_keys; [|done| |done].
    + rewrite kvs_map_plain; [|apply go_range_NoDup|].
      * by rewrite (right_id_L ∅ (∪)), go_range_to_map.
      * intros kw Hin. split; [done|]. by apply Hall.
    + intros Hnil. apply Hk, map_size_empty_inv. by rewrite <-go_range_length, Hnil.
Qed.

Lemma ToXPath_parse p :
  Forall wf_pathelem (elems (Some p)) →
  ToGNMIPath (ToXPath (Some p)) =
  Ok (mkPath "" None (blocks_elem (elem_block <$> elems (Some p))) "").
Proof.
  intros Hp. apply ToGNMIPath_blocks. cbn [ToXPath length Nat.eqb].
  apply ParseStringPath_blocks.
  - apply Forall_fmap. eapply Forall_impl; [done|]. intros e He. by apply elem_text_parse.
  - induction Hp as [|e l He Hl IH]; cbn; constructor; [by apply elem_text_parse|done].
Qed.

Lemma elem_texts_proper (l1 l2 : list PathElem) :
  l1 ≡ l2 → elem_text <$> l1 = elem_text <$> l2.
Proof.
  induction 1 as [|e1 e2 l1 l2 He _ IH]; [done|]. by rewrite !fmap_cons, He, IH.
Qed.

#[global] Instance ToXPath_proper : Proper ((≡) ==> (=)) (λ p : Path, ToXPath (Some p)).
Proof.
  intros p q (_ & _ & _ & Hpq). unfold ToXPath. cbn [length Nat.eqb].
  by rewrite (elem_texts_proper (elems (Some p)) (elems (Some q))).
Qed.
End print.

(** ** Relative paths *)

Definition is_dotdot (e : PathElem) : bool := bool_decide (pe_Name e = "..").
Definition is_dot (e : PathElem) : bool := bool_decide (pe_Name e = ".").
Definition is_name (e : PathElem) : bool := negb (is_dot e) && negb (is_dotdot e).

(** Number of elements of a list that satisfy a test. *)
Definition count (f : PathElem → bool) (l : list PathElem) : nat := length (filter f l).

(** Ups minus downs of a relative path, as the depth it reaches from [n]. *)
Definition depth_after (n : Z) (l : list PathElem) : Z :=
  (n + Z.of_nat (count is_name l) - Z.of_nat (count is_dotdot l))%Z.

Lemma count_cons f e l : count f (e :: l) = (if f e then 1 else 0) + count f l.
Proof. unfold count. cbn. by destruct (f e). Qed.

Lemma depth_after_cons n e l :
  depth_after n (e :: l) =
  depth_after (if is_name e then n + 1 else if is_dotdot e then n - 1 else n)%Z l.
Proof.
  unfold depth_after. rewrite !count_cons. unfold is_name, is_dot, is_dotdot.
  repeat case_bool_decide; cbn; lia.
Qed.

(** One turn of the loop, with the dead branch [max < 0] gone. *)
Lemma mergePaths_loop_cons abs e rel :
  mergePaths_loop abs (e :: rel) =
  if is_name e then mergePaths_loop (abs ++ [e]) rel
  else if is_dotdot e
       then if length abs =? 0 then Panic else mergePaths_loop (take (length abs - 1) abs) rel
       else mergePaths_loop abs rel.
Proof.
  unfold is_name, is_dot, is_dotdot. cbn [mergePaths_loop].
  case_bool_decide as Hd; [rewrite bool_decide_false by congruence; done|].
  case_bool_decide; [|done]. cbn [negb andb].
  rewrite (proj2 (Z.ltb_ge (Z.of_nat (length abs)) 0)) by lia.
  destruct abs as [|a abs]; [done|].
  rewrite (proj2 (Z.ltb_ge (Z.of_nat (length (a :: abs)) - 1) 0)) by (cbn; lia).
  cbn [length Nat.eqb]. do 2 f_equal. lia.
Qed.

Lemma mergePaths_loop_cases abs rel :
  (mergePaths_loop abs rel = Panic ∧
     ∃ k, (depth_after (Z.of_nat (length abs)) (take k rel) < 0)%Z) ∨
  (∃ l, mergePaths_loop abs rel = Ok (Some l) ∧
        Z.of_nat (length l) = depth_after (Z.of_nat (length abs)) rel ∧
        ∀ k, (0 ≤ depth_after (Z.of_nat (length abs)) (take k rel))%Z).
Proof.
  revert abs. induction rel as [|e rel IH]; intros abs.
  { right. exists abs. split; [done|]. unfold depth_after, count. cbn.
    split; [lia|]. intros k. rewrite take_nil. cbn. lia. }
  assert (∀ abs',
    mergePaths_loop abs (e :: rel) = mergePaths_loop abs' rel →
    (if is_name e then Z.of_nat (length abs) + 1
     else if is_dotdot e then Z.of_nat (length abs) - 1 else Z.of_nat (length abs))%Z
    = Z.of_nat (length abs') →
    (mergePaths_loop abs (e :: rel) = Panic ∧
     ∃ k, (depth_after (Z.of_nat (length abs)) (take k (e :: rel)) < 0)%Z) ∨
    (∃ l, mergePaths_loop abs (e :: rel) = Ok (Some l) ∧
        Z.of_nat (length l) = depth_after (Z.of_nat (length abs)) (e :: rel) ∧
        ∀ k, (0 ≤ depth_after (Z.of_nat (length abs)) (take k (e :: rel)))%Z)) as Hstep.
  { intros abs' -> Hlen. rewrite depth_after_cons, Hlen.
    destruct (IH abs') as [[-> (k & Hk)]|(l & -> & Hl & Hk)].
    - left. split; [done|]. exists (S k). cbn. by rewrite depth_after_cons, Hlen.
    - right. exists l. split; [done|]. split; [done|]. intros [|k]; cbn.
      + unfold depth_after, count. cbn. lia.
      + by rewrite depth_after_cons, Hlen. }
  destruct (is_name e) eqn:Hn.
  { apply (Hstep (abs ++ [e])); [by rewrite mergePaths_loop_cons, Hn|].
    rewrite length_app. cbn. lia. }
  destruct (is_dotdot e) eqn:Hdd.
  - destruct abs as [|a abs].
    + left. rewrite mergePaths_loop_cons, Hn, Hdd. split; [done|]. exists 1. cbn [take].
      rewrite depth_after_cons, Hn, Hdd. done.
    + apply (Hstep (take (length abs) (a :: abs))).
      * rewrite mergePaths_loop_cons, Hn, Hdd. cbn [length Nat.eqb]. do 2 f_equal. lia.
      * rewrite length_take. cbn. lia.
  - apply (Hstep abs); [by rewrite mergePaths_loop_cons, Hn, Hdd|done].
Qed.

(** An absolute path, without dot elements, is appended. *)
Lemma mergePaths_absolute abs rel :
  Forall (λ e, is_name e = true) rel → mergePaths abs rel = Ok (Some (abs ++ rel)).
Proof.
  unfold mergePaths. intros Hrel. revert abs.
  induction Hrel as [|e rel He Hrel IH]; intros abs; [by cbn; rewrite List.app_nil_r|].
  by rewrite mergePaths_loop_cons, He, IH, <-List.app_assoc.
Qed.

(** ** Full paths *)
Section full_path.
Context `{ProtoClone}.

Lemma elems_clone p : elems (Some (proto_clone p)) ≡ elems (Some p).
Proof. destruct (proto_clone_equiv p) as (_ & _ & _ & Hp). exact Hp. Qed.

(** The clone of the prefix with the deprecated elements of the path added. *)
Definition full_base (pre q : Path) : Path :=
  match p_Element q with
  | Some el => set_Element (Some (default [] (p_Element pre) ++ el)) (proto_clone pre)
  | None => proto_clone pre
  end.

Lemma full_base_facts pre q :
  p_Origin (full_base pre q) = p_Origin pre ∧ p_Target (full_base pre q) = p_Target pre ∧
  elems (Some (full_base pre q)) ≡ elems (Some pre).
Proof.
  destruct (proto_clone_equiv pre) as (Ho & Ht & _ & He).
  unfold full_base. by destruct (p_Element q).
Qed.

Lemma GNMIFullPath_None pre q :
  p_Elem q = None → GNMIFullPath (Some pre) (Some q) = Ok (Some (full_base pre q)).
Proof. destruct q as [qo qel qe qt]. cbn. by intros ->. Qed.

Lemma GNMIFullPath_Some pre q el l :
  p_Elem q = Some el → mergePaths (elems (Some pre)) el = Ok (Some l) →
  GNMIFullPath (Some pre) (Some q) = Ok (Some (set_Elem (Some l) (full_base pre q))).
Proof. destruct q as [qo qel qe qt]. cbn. by intros -> ->. Qed.

Lemma GNMIFullPath_absolute pre q :
  Forall (λ e, is_name e = true) (elems (Some q)) →
  ∃ r, GNMIFullPath (Some pre) (Some q) = Ok (Some r) ∧
       p_Target r = p_Target pre ∧ p_Origin r = p_Origin pre ∧
       elems (Some r) ≡ elems (Some pre) ++ elems (Some q).
Proof.
  intros Hq. destruct (full_base_facts pre q) as (Ho & Ht & He).
  destruct (p_Elem q) as [el|] eqn:Hel.
  - assert (elems (Some q) = el) as Hqe by (unfold elems, GetElem; cbn; by rewrite Hel).
    rewrite Hqe in Hq |- *.
    eexists. split; [eapply GNMIFullPath_Some; [exact Hel|by apply mergePaths_absolute]|].
    split; [done|]. split; [done|]. done.
  - assert (elems (Some q) = []) as -> by (unfold elems, GetElem; cbn; by rewrite Hel).
    eexists. split; [by apply GNMIFullPath_None|]. by rewrite List.app_nil_r.
Qed.

(** A nil message is valid only as the first path. *)
Lemma ValidateGNMIPath_pair pre q :
  ValidateGNMIPath [Some pre; q] =
  match p_Elem pre, p_Element pre with
  | None, Some _ => Err (Errorf_plain "deprecated path.element used" [])
  | _, _ =>
      match GetElem q, GetElement q with
      | None, Some _ => Err (Errorf_plain "deprecated path.element used" [])
      | _, _ =>
          match q with
          | None => Panic
          | Some q' =>
              if bool_decide (p_Target q' ≠ "")
              then Err (Errorf_plain "path.target MUST only ever be present on the prefix path" [])
              else GNMIFullPath (Some (proto_clone pre)) (Some q')
          end
      end
  end.
Proof.
  unfold ValidateGNMIPath. cbn [ValidateGNMIPath_loop Nat.ltb Nat.leb GetElem GetElement mbind option_bind].
  unfold CloneGNMIPath. cbn [fmap option_fmap option_map].
  assert (∀ p q', (GNMIFullPath p q' ≫= λ p, mret p) = GNMIFullPath p q') as Hid
    by (intros p q'; by destruct (GNMIFullPath p q')).
  destruct q as [q'|]; cbn [mbind option_bind]; rewrite ?Hid; done.
Qed.
End full_path.

(** ** Parsed paths *)

(** What [ToGNMIPath] builds: names the parser accepts, and keys that are
    identifiers with non-empty values, on elements named by identifiers. *)
Definition parsed_elem (e : PathElem) : Prop :=
  match pe_Key e with
  | None => name_ok (pe_Name e) = true
  | Some m => idRe_MatchString (pe_Name e) = true ∧ wf_keys m ∧ m ≠ ∅
  end.

Lemma schema_names_blocks bs : schema_names (concat (block_parts <$> bs)) = bs.*1.
Proof.
  induction bs as [|[n [m|]] bs IH]; [done| |]; cbn; by rewrite <-IH.
Qed.

(** ** Theorems *)



(** The parser is total: it returns a path or the error of ParseStringPath,
    never a panic; its own two errors ("missing name before key-value list",
    "two subsequent key-value lists") cannot occur.  A returned path has no
    origin, no target and no deprecated elements, and every element is well
    formed. *)
Theorem ToGNMIPath_total (s : string) :
  match ToGNMIPath s with
  | Ok p => p_Origin p = "" ∧ p_Target p = "" ∧ p_Element p = None ∧
            Forall parsed_elem (elems (Some p))
  | Err e => ParseStringPath s = Err e
  | Panic | Diverge => False
  end.
Proof.
  pose proof (ToGNMIPath_cases s) as H. destruct (ParseStringPath s); [|by rewrite H|done..].
  destruct H as (bs & _ & Hbs & ->). repeat (split; [done|]).
  unfold elems, GetElem. cbn. rewrite blocks_elem_default. apply Forall_fmap.
  eapply Forall_impl; [exact Hbs|]. by intros [n [m|]].
Qed.

(** A relative path stays below the prefix or the merge panics: mergePaths
    panics exactly when some initial part of the relative path goes up more
    levels than the prefix and the names read so far provide; otherwise it
    returns a path whose length is the depth reached, and it never returns nil
    (the guard [max < 0] of the code is never taken). *)
Theorem mergePaths_depth (abs rel : list PathElem) :
  (mergePaths abs rel = Panic ↔
     ∃ k, (depth_after (Z.of_nat (length abs)) (take k rel) < 0)%Z) ∧
  (mergePaths abs rel = Panic ∨
   ∃ l, mergePaths abs rel = Ok (Some l) ∧
        Z.of_nat (length l) = depth_after (Z.of_nat (length abs)) rel).
Proof.
  unfold mergePaths.
  destruct (mergePaths_loop_cases abs rel) as [[-> Hk]|(l & -> & Hl & Hk)].
  - split; [done|by left].
  - split; [|right; by exists l]. split; [done|]. intros (k & Hneg). specialize (Hk k). lia.
Qed.

(** Joining a prefix and an absolute path concatenates their elements and
    keeps the target and the origin of the prefix. *)
Theorem GNMIFullPath_concat `{ProtoClone} (pre q : Path) :
  Forall (λ e, is_name e = true) (elems (Some q)) →
  ∃ r, GNMIFullPath (Some pre) (Some q) = Ok (Some r) ∧
       p_Target r = p_Target pre ∧ p_Origin r = p_Origin pre ∧
       elems (Some r) ≡ elems (Some pre) ++ elems (Some q).
Proof. apply GNMIFullPath_absolute. Qed.

Lemma GNMIFullPath_concat_witness :
  let pre := mkPath "openconfig" None (Some [mkElem "interfaces" None]) "dev" in
  let q := mkPath "" None (Some [mkElem "interface" (Some {["name" := "lo"]})]) "" in
  Forall (λ e, is_name e = true) (elems (Some q)) ∧
  ∃ r, @GNMIFullPath identity_clone (Some pre) (Some q) = Ok (Some r) ∧
       p_Target r = p_Target pre ∧ p_Origin r = p_Origin pre ∧
       elems (Some r) ≡ elems (Some pre) ++ elems (Some q).
Proof.
  intros pre q. assert (Forall (λ e, is_name e = true) (elems (Some q))) as Hq by (repeat constructor).
  split; [exact Hq|]. exact (@GNMIFullPath_concat identity_clone pre q Hq).
Defined.

(** ValidateGNMIPath on a prefix and an absolute path of the current
    message format: it accepts them exactly when the path carries no target,
    and then the result is the full path; a nil path after the prefix, which a
    subscription without a path is, panics. *)
Theorem ValidateGNMIPath_prefix `{ProtoClone} (pre q : Path) :
  p_Element pre = None → p_Element q = None →
  Forall (λ e, is_name e = true) (elems (Some q)) →
  (p_Target q ≠ "" → ∃ e, ValidateGNMIPath [Some pre; Some q] = Err e) ∧
  (p_Target q = "" → ∃ r, ValidateGNMIPath [Some pre; Some q] = Ok (Some r) ∧
     p_Target r = p_Target pre ∧ p_Origin r = p_Origin pre ∧
     elems (Some r) ≡ elems (Some pre) ++ elems (Some q)) ∧
  ValidateGNMIPath [Some pre; None] = Panic.
Proof.
  intros Hpe Hqe Hq. rewrite !ValidateGNMIPath_pair.
  assert (∀ A (x y : A), match p_Elem pre, p_Element pre with None, Some _ => x | _, _ => y end = y) as Hpre
    by (intros A x y; rewrite Hpe; by destruct (p_Elem pre)).
  rewrite !Hpre. cbn [GetElem GetElement mbind option_bind]. rewrite Hqe.
  split; [intros Ht|split; [intros Ht|done]].
  - rewrite bool_decide_true by done. destruct (p_Elem q); eauto.
  - rewrite bool_decide_false by auto.
    destruct (GNMIFullPath_absolute (proto_clone pre) q Hq) as (r & Hr & Hrt & Hro & Hre).
    destruct (proto_clone_equiv pre) as (Ho & Ht' & _ & _).
    exists r. split; [by destruct (p_Elem q)|]. split; [congruence|]. split; [congruence|].
    by rewrite Hre, elems_clone.
Qed.

Lemma ValidateGNMIPath_prefix_witness :
  let pre := mkPath "" None None "dev" in
  let q := mkPath "" None (Some [mkElem "system" None]) "" in
  (p_Element pre = None ∧ p_Element q = None ∧ Forall (λ e, is_name e = true) (elems (Some q))) ∧
  @ValidateGNMIPath identity_clone [Some pre; None] = Panic.
Proof.
  intros pre q. assert (Forall (λ e, is_name e = true) (elems (Some q))) as Hq by (repeat constructor).
  split; [done|]. exact (proj2 (proj2 (@ValidateGNMIPath_prefix identity_clone pre q eq_refl eq_refl Hq))).
Defined.

(** The two routes to a schema path agree: ToSchemaPath of a text is the
    schema form of the path ToGNMIPath builds from it, and fails with the same
    error. *)
Theorem ToSchemaPath_PathElemToXPATH `{GoRange} (s : string) :
  ToSchemaPath s = (p ← ToGNMIPath s; Ok (PathElemToXPATH (p_Elem p) true)).
Proof.
  pose proof (ToGNMIPath_cases s) as H'. unfold ToSchemaPath.
  destruct (ParseStringPath s) as [parts|e| |]; [|by rewrite H'|done..].
  destruct H' as (bs & -> & _ & ->). rewrite !outcome_bind_ret, schema_names_blocks.
  destruct bs as [|b bs]; [done|]. cbn [p_Elem blocks_elem PathElemToXPATH mret outcome_ret].
  do 3 f_equal. rewrite <-list_fmap_compose. done.
Qed.

(** The printed text depends on the iteration order of Go maps: it is the
    same for all orders when no element has two keys, and there is a path with
    a two-key element that two orders print differently. *)
Theorem ToXPath_order :
  (∀ (R1 R2 : GoRange) (p : Path),
     Forall (λ e, size (keys e) ≤ 1) (elems (Some p)) →
     @ToXPath R1 (Some p) = @ToXPath R2 (Some p)) ∧
  (∃ (R1 R2 : GoRange) (p : Path), @ToXPath R1 (Some p) ≠ @ToXPath R2 (Some p)).
Proof.
  split.
  - intros R1 R2 p Hp. unfold ToXPath. cbn [length Nat.eqb]. do 2 f_equal.
    induction Hp as [|e l He Hl IH]; [done|]. rewrite !fmap_cons, IH. f_equal.
    rewrite !elem_text_shape. do 2 f_equal.
    pose proof (@go_range_perm R1 _ _ _ _ (keys e)) as H1.
    pose proof (@go_range_perm R2 _ _ _ _ (keys e)) as H2.
    rewrite <-length_map_to_list in He. destruct (map_to_list (keys e)) as [|kv [|? ?]]; [| |cbn in He; lia].
    + apply Permutation_nil_r in H1, H2. congruence.
    + apply Permutation_singleton_r in H1, H2. congruence.
  - exists canonical_range, reversed_range,
      (mkPath "" None (Some [mkElem "l" (Some (<["a" := "1"]> {["b" := "2"]}))]) "").
    vm_compute. discriminate.
Qed.
