(* ===== verification/Schema.v ===== *)
(** * Schema: the schema tree and the searches by path

    Models the schema half of [gnmi/model]: the look-ups of [mo.go]
    ([FindSchema...]), the searches of [model.go] ([validatePathSchema],
    [findSchemaPath], [findPaths] and their callers) and the schema paths of
    [utilities.go].

    A [yang.Entry] is the node [Entry] with the fields the code reads; [e_Dir]
    lists the entries of the Go map [Dir] in the order [range] visits them (a
    nil and an empty [Dir] behave alike).  A pointer to an entry is a zipper
    [EntryPtr]: the node and the way up to the root, so that [Parent] and the
    identity of the pointer are available. *)

From Stdlib Require Import Ascii ZArith.
From S2P Require Export PathSpec.

(** ** Go types

    The part of [reflect.Type] the schema code inspects: a struct field has a
    name, the value of its tag "path", and a type. *)
Inductive gotype : Type :=
  | TPtr (elem : gotype)
  | TInterface
  | TStruct (name : string) (fields : list (string * option string * gotype))
  | TMap (elem : gotype)
  | TSlice (elem : gotype)
  | TArray (elem : gotype)
  | TBasic (name : string).

(** [t.Name()]: empty for unnamed types. *)
Definition type_Name (t : gotype) : string :=
  match t with TStruct n _ | TBasic n => n | _ => "" end.

(** [t.Elem()] panics on the kinds that have no element. *)
Definition type_Elem (t : gotype) : outcome error gotype :=
  match t with TPtr e | TMap e | TSlice e | TArray e => mret e | _ => Panic end.

(** ** Schema entries *)
Inductive Entry : Type :=
  | mkEntry (e_Name : string) (e_Key : string) (e_Dir : list (string * Entry)).

Definition e_Name (e : Entry) : string := match e with mkEntry n _ _ => n end.
Definition e_Key (e : Entry) : string := match e with mkEntry _ k _ => k end.
Definition e_Dir (e : Entry) : list (string * Entry) := match e with mkEntry _ _ d => d end.

(** The entry under a name, passed to [f]: a map look-up that keeps a recursive
    call structural. *)
Definition on_child {B} (f : Entry → B) : string → list (string * Entry) → option B :=
  fix go name dir :=
    match dir with
    | [] => None
    | (n, c) :: dir => if bool_decide (n = name) then Some (f c) else go name dir
    end.

(** [e.Dir[name]]. *)
Definition Dir (e : Entry) (name : string) : option Entry := on_child id name (e_Dir e).

(** A pointer into the tree: the node, and the names and nodes above it. *)
Record EntryPtr : Type := mkPtr { ep_node : Entry; ep_up : list (string * Entry) }.

Definition ptr_Dir (p : EntryPtr) (name : string) : option EntryPtr :=
  (λ c, mkPtr c ((name, ep_node p) :: ep_up p)) <$> Dir (ep_node p) name.

Definition ptr_Parent (p : EntryPtr) : option EntryPtr :=
  match ep_up p with [] => None | (_, e) :: up => Some (mkPtr e up) end.

(** The identity of the pointer: where it is in the tree. *)
Definition ptr_loc (p : EntryPtr) : list string := reverse (ep_up p).*1.

(** ** The modeled object: the schema of every type and the type of the root *)
Record MO : Type := mkMO {
  SchemaTree : gmap string EntryPtr;
  Root : option gotype
}.

(** [reflect.TypeOf(mo.Root).Elem()]: a nil type has no method to call. *)
Definition GetRootType (mo : MO) : outcome error gotype :=
  match Root mo with None => Panic | Some t => type_Elem t end.

Definition RootSchema (mo : MO) : outcome error (option EntryPtr) :=
  t ← GetRootType mo; mret (SchemaTree mo !! type_Name t).

Definition GetSchema (mo : MO) : outcome error (option EntryPtr) := RootSchema mo.

Definition GetName (mo : MO) : outcome error string :=
  s ← GetSchema mo;
  mret (match s with None => "unknown" | Some p => e_Name (ep_node p) end).

(** The loop that strips pointers. *)
Fixpoint FindSchemaByType_loop (t : gotype) : gotype :=
  match t with TPtr e => FindSchemaByType_loop e | _ => t end.

Definition FindSchemaByType (mo : MO) (t : option gotype) : option EntryPtr :=
  match t with
  | None => None
  | Some t => SchemaTree mo !! type_Name (FindSchemaByType_loop t)
  end.

(** [FindSchema]: a Go value enters through its type. *)
Definition FindSchema (mo : MO) (value : option gotype) : option EntryPtr :=
  FindSchemaByType mo value.

(** *** Look-up by gNMI path *)
Fixpoint findSchema (entry : EntryPtr) (path : list PathElem) : option EntryPtr :=
  match path with
  | [] => Some entry
  | e :: path =>
      match ptr_Dir entry (pe_Name e) with
      | None => None
      | Some entry => findSchema entry path
      end
  end.

Definition FindSchemaByRelativeGNMIPath (mo : MO) (base : option gotype) (path : option Path)
    : option EntryPtr :=
  match FindSchema mo base with
  | None => None
  | Some bSchema =>
      match path with
      | None => Some bSchema
      | Some _ => findSchema bSchema (elems path)
      end
  end.

Definition FindSchemaByGNMIPath (mo : MO) (path : option Path) : option EntryPtr :=
  FindSchemaByRelativeGNMIPath mo (Root mo) path.

(** The package function of the same name in [utilities.go]. *)
Definition FindSchemaByGNMIPath_base (baseSchema : EntryPtr) (path : option Path) : option EntryPtr :=
  findSchema baseSchema (elems path).

(** *** Look-up by xpath text

    The loop of [FindSchemaByRelativeXPath]; [None] is the early [return nil],
    otherwise the entry reached and [begin] at the end of the text. *)
Fixpoint FindSchemaByRelativeXPath_loop (fuel : nat) (path : string) (entry : EntryPtr)
    (b e : nat) (insideBrackets : Z) : outcome error (option (EntryPtr * nat)) :=
  match fuel with
  | O => Diverge
  | S fuel =>
      if e <? strlen path then
        c ← str_index path e;
        if Ascii.eqb c "/" then
          if (insideBrackets <=? 0)%Z then
            if b <? e then
              name ← str_slice path b e;
              match ptr_Dir entry name with
              | None => mret None
              | Some entry =>
                  FindSchemaByRelativeXPath_loop fuel path entry (e + 1) (e + 1) insideBrackets
              end
            else FindSchemaByRelativeXPath_loop fuel path entry (b + 1) (e + 1) insideBrackets
          else FindSchemaByRelativeXPath_loop fuel path entry b (e + 1) insideBrackets
        else if Ascii.eqb c "[" then
          p ← str_index path (e - 1);
          if negb (Ascii.eqb p "\") then
            name ← str_slice path b e;
            match ptr_Dir entry name with
            | None => mret None
            | Some entry =>
                FindSchemaByRelativeXPath_loop fuel path entry (e + 1) (e + 1) (insideBrackets + 1)
            end
          else FindSchemaByRelativeXPath_loop fuel path entry b (e + 1) insideBrackets
        else if Ascii.eqb c "]" then
          p ← str_index path (e - 1);
          if negb (Ascii.eqb p "\")
          then FindSchemaByRelativeXPath_loop fuel path entry (e + 1) (e + 1) (insideBrackets - 1)
          else FindSchemaByRelativeXPath_loop fuel path entry b (e + 1) insideBrackets
        else FindSchemaByRelativeXPath_loop fuel path entry b (e + 1) insideBrackets
      else mret (Some (entry, b))
  end.

(** The search from an entry: the body of [FindSchemaByRelativeXPath] after the
    look-up of the base. *)
Definition find_by_xpath (entry : EntryPtr) (path : string) : outcome error (option EntryPtr) :=
  let length := strlen path in
  if length <=? 0 then mret (Some entry)
  else
    c ← str_index path 0;
    if Ascii.eqb c "[" || Ascii.eqb c "]" then mret None
    else
      let b := if Ascii.eqb c "/" then 1 else 0 in
      r ← FindSchemaByRelativeXPath_loop (S length) path entry b 1 0;
      match r with
      | None => mret None
      | Some (entry, b) =>
          if b <? length then name ← str_slice path b length; mret (ptr_Dir entry name)
          else mret (Some entry)
      end.

Definition FindSchemaByRelativeXPath (mo : MO) (base : option gotype) (path : string)
    : outcome error (option EntryPtr) :=
  match FindSchema mo base with
  | None => mret None
  | Some entry => find_by_xpath entry path
  end.

Definition FindSchemaByXPath (mo : MO) (path : string) : outcome error (option EntryPtr) :=
  FindSchemaByRelativeXPath mo (Root mo) path.

(** ** Searches that expand wildcards *)
Section searches.
Context `{GoRange}.

(** The key check shared by the searches: [strings.Contains] on the
    space-separated key names of the list. *)
Definition keys_known (entry : Entry) (e : PathElem) : bool :=
  forallb (λ kv, Contains (e_Key entry) kv.1) (go_range (keys e)).

Definition is_wild (e : PathElem) : bool :=
  bool_decide (pe_Name e = "*") || bool_decide (pe_Name e = "...").

Fixpoint validatePathSchema (entry : Entry) (elems : list PathElem) {struct entry} : bool :=
  match elems with
  | [] => true
  | e :: rest =>
      let dir := match entry with mkEntry _ _ dir => dir end in
      if is_wild e then
        if existsb (λ '(_, centry), validatePathSchema centry rest) dir then true
        else if bool_decide (pe_Name e = "...")
        then existsb (λ '(_, centry), validatePathSchema centry elems) dir
        else false
      else
        default false
          (on_child (λ entry, if keys_known entry e then validatePathSchema entry rest else false)
             (pe_Name e) dir)
  end.

Fixpoint findSchemaPath (prefix : string) (parent : Entry) (elems : list PathElem)
    {struct parent} : list string :=
  match elems with
  | [] => [prefix]
  | e :: rest =>
      let dir := match parent with mkEntry _ _ dir => dir end in
      match dir with
      | [] => []
      | _ =>
          if bool_decide (pe_Name e = "*") then
            dir ≫= (λ '(cname, centry),
              findSchemaPath (prefix +:+ "/" +:+ cname) centry rest)
          else if bool_decide (pe_Name e = "...") then
            dir ≫= (λ '(cname, centry),
              findSchemaPath (prefix +:+ "/" +:+ cname) centry rest ++
              findSchemaPath (prefix +:+ "/" +:+ cname) centry elems)
          else
            default [] (on_child (λ entry,
              if keys_known entry e
              then findSchemaPath (prefix +:+ "/" +:+ pe_Name e) entry rest else [])
              (pe_Name e) dir)
      end
  end.

(** The predicates [findPaths] appends to a name: the keys in the order of the
    schema, up to the first that is missing or "*". *)
Fixpoint path_keys (name : string) (knames : list string) (key : gmap string string) : string :=
  match knames with
  | [] => name
  | kname :: knames =>
      match key !! kname with
      | None => name
      | Some kval =>
          if bool_decide (kval = "*") then name
          else path_keys (name +:+ "[" +:+ kname +:+ "=" +:+ kval +:+ "]") knames key
      end
  end.

Definition path_name (entry : Entry) (e : PathElem) : string :=
  match pe_Key e with
  | None => pe_Name e
  | Some key => path_keys (pe_Name e) (Split (e_Key entry) " ") key
  end.

Fixpoint findPaths (prefix : string) (parent : Entry) (elems : list PathElem)
    {struct parent} : list string :=
  match elems with
  | [] => [prefix]
  | e :: rest =>
      let dir := match parent with mkEntry _ _ dir => dir end in
      match dir with
      | [] => []
      | _ =>
          if bool_decide (pe_Name e = "*") then
            dir ≫= (λ '(cname, centry),
              findPaths (Join [prefix; cname] "/") centry rest)
          else if bool_decide (pe_Name e = "...") then
            dir ≫= (λ '(cname, centry),
              findPaths (Join [prefix; cname] "/") centry rest ++
              findPaths (Join [prefix; cname] "/") centry elems)
          else
            default [] (on_child (λ entry,
              if keys_known entry e
              then findPaths (Join [prefix; path_name entry e] "/") entry rest else [])
              (pe_Name e) dir)
      end
  end.

(** ** The operations of [Model] on paths *)

(** [gnmipb.ModelData]. *)
Record ModelData : Type := mkModelData {
  md_Name : string; md_Organization : string; md_Version : string
}.

#[global] Instance ModelData_eq_dec : EqDecision ModelData.
Proof. solve_decision. Defined.

(** The fields of [Model] that the schema operations read. *)
Record SchemaModel : Type := mkSchemaModel { m_MO : MO; modelData : list ModelData }.

Definition model_entry (m : SchemaModel) : outcome error (option Entry) :=
  t ← GetRootType (m_MO m); mret (ep_node <$> FindSchemaByType (m_MO m) (Some t)).

Definition ValidatePathSchema (m : SchemaModel) (path : option Path) : outcome error bool :=
  entry ← model_entry m;
  match entry with
  | None => mret false
  | Some entry =>
      if negb (bool_decide (GetOrigin path = "")) &&
         negb (existsb (λ md, bool_decide (GetOrigin path = md_Name md)) (modelData m))
      then mret false
      else mret (validatePathSchema entry (elems path))
  end.

Definition ValidateGNMIPath `{ProtoClone} (m : SchemaModel) (path : list (option Path))
    : outcome error unit :=
  match Path.ValidateGNMIPath path with
  | Err err =>
      Err (TaggedErrorf codes.InvalidArgument TagInvalidPath
             "invalid prefix or path: %s" [AMsg (error_text err)])
  | Ok fullpath =>
      ok ← ValidatePathSchema m fullpath;
      if ok : bool then mret tt
      else Err (TaggedErrorf codes.NotFound TagUnknownPath
                  "unable to find %s from the schema tree" [AStr (ToXPath fullpath)])
  | Panic => Panic
  | Diverge => Diverge
  end.

Definition FindSchemaPaths (m : SchemaModel) (path : option Path)
    : outcome error (list string * bool) :=
  entry ← model_entry m;
  match entry with
  | None => mret ([], false)
  | Some entry =>
      if length (elems path) =? 0 then mret (["/"], true)
      else mret (findSchemaPath "" entry (elems path), true)
  end.

Definition FindPaths (m : SchemaModel) (path : option Path) : outcome error (list string) :=
  entry ← model_entry m;
  match entry with
  | None => mret []
  | Some entry =>
      if length (elems path) =? 0 then mret ["/"] else mret (findPaths "" entry (elems path))
  end.
End searches.

(** ** Supported models *)

Definition FindModel (m : SchemaModel) (name : string) : option ModelData :=
  List.find (λ md, bool_decide (md_Name md = name)) (modelData m).

(** The inner loop of [CheckModels]: [isSupported] starts false and is left by
    the last supported model of that name, or by the first that fits. *)
Fixpoint check_model (isSupported : bool) (model : ModelData) (supported : list ModelData) : bool :=
  match supported with
  | [] => isSupported
  | s :: supported =>
      if negb (bool_decide (md_Name model = md_Name s)) then check_model isSupported model supported
      else
        let ok :=
          (bool_decide (md_Version model = "") || bool_decide (md_Version model = md_Version s)) &&
          (bool_decide (md_Organization model = "") ||
           bool_decide (md_Organization model = md_Organization s)) in
        if ok then true else check_model false model supported
  end.

Fixpoint CheckModels (m : SchemaModel) (models : list ModelData) : outcome error unit :=
  match models with
  | [] => mret tt
  | model :: models =>
      if check_model false model (modelData m) then CheckModels m models
      else if bool_decide (md_Name model = "") then
        Err (TaggedErrorf codes.InvalidArgument TagBadData "invalid supported model data:: %v"
               [AStr (md_Name model); AStr (md_Organization model); AStr (md_Version model)])
      else
        Err (TaggedErrorf codes.Unimplemented TagNotSupport "unsupported model:: %v"
               [AStr (md_Name model); AStr (md_Organization model); AStr (md_Version model)])
  end.

Definition GetModelData (m : SchemaModel) : list ModelData := modelData m.

(** ** Schema paths of an entry *)

(** The names from below the root to the entry: the loops that follow [Parent]
    and stop at the root, whose own name is not part of the path. *)
Fixpoint up_names (e : Entry) (up : list (string * Entry)) (acc : list string) : list string :=
  match up with
  | [] => acc
  | (_, parent) :: up => up_names parent up (e_Name e :: acc)
  end.

Definition schema_path_names (p : EntryPtr) : list string := up_names (ep_node p) (ep_up p) [].

Definition SchemaGNMIPath (schema : option EntryPtr) : Path :=
  mkPath "" None
    (Some match schema with
          | None => []
          | Some p => (λ n, mkElem n None) <$> schema_path_names p
          end) "".

Definition SchemaToGNMIPath (entry : option EntryPtr) : option Path :=
  match entry with
  | None => None
  | Some p => Some (mkPath "" None (Some ((λ n, mkElem n None) <$> schema_path_names p)) "")
  end.

Definition SchemaToXPath (entry : option EntryPtr) : string :=
  match entry with
  | None => ""
  | Some p => Join ("" :: schema_path_names p) "/"
  end.
