(* ===== verification/SchemaSpec.v ===== *)
(** * SchemaSpec: the theorems on schema searches

    The searches that expand wildcards are compared with a relation between an
    entry, a path and the names of a matching node; the text look-up with the
    look-up by path elements; the printed schema paths lead back to their
    entry. *)

From Stdlib Require Import Ascii ZArith Lia.
From S2P Require Export Schema.

(** ** Entries *)

(** Induction with a hypothesis for every child. *)
Fixpoint Entry_induction (P : Entry → Prop)
    (step : ∀ n k dir, Forall (λ nc, P nc.2) dir → P (mkEntry n k dir)) (e : Entry) : P e :=
  match e with
  | mkEntry n k dir =>
      step n k dir
        ((fix all (l : list (string * Entry)) : Forall (λ nc, P nc.2) l :=
            match l with
            | [] => Forall_nil_2 _
            | nc :: l => Forall_cons_2 _ nc l (Entry_induction P step nc.2) (all l)
            end) dir)
  end.

Lemma on_child_fmap {B} (f : Entry → B) name dir : on_child f name dir = f <$> on_child id name dir.
Proof.
  induction dir as [|[n c] dir IH]; [done|]. cbn. by case_bool_decide.
Qed.

Lemma on_child_in name dir c : on_child id name dir = Some c → (name, c) ∈ dir.
Proof.
  induction dir as [|[n d] dir IH]; [done|]. cbn. case_bool_decide as Hn.
  - intros [= ->]. subst n. set_solver.
  - intros H. apply elem_of_cons. right. by apply IH.
Qed.

Lemma Forall_child (P : Entry → Prop) name dir c :
  Forall (λ nc, P nc.2) dir → on_child id name dir = Some c → P c.
Proof. intros Hall Hc%on_child_in. rewrite Forall_forall in Hall. by apply (Hall (name, c)). Qed.

(** ** What a search looks for *)
Section searches.
Context `{GoRange}.

(** The names of a node below an entry that a path with wildcards matches. *)
Inductive matches : Entry → list PathElem → list string → Prop :=
  | matches_here e : matches e [] []
  | matches_wild e x rest cname c names :
      is_wild x = true → (cname, c) ∈ e_Dir e → matches c rest names →
      matches e (x :: rest) (cname :: names)
  | matches_deep e x rest cname c names :
      pe_Name x = "..." → (cname, c) ∈ e_Dir e → matches c (x :: rest) names →
      matches e (x :: rest) (cname :: names)
  | matches_name e x rest c names :
      is_wild x = false → Dir e (pe_Name x) = Some c → keys_known c x = true →
      matches c rest names → matches e (x :: rest) (pe_Name x :: names).

(** The text [findSchemaPath] gives to the names below a prefix. *)
Definition names_text (prefix : string) (names : list string) : string :=
  Join (prefix :: names) "/".

Lemma names_text_nil prefix : names_text prefix [] = prefix.
Proof. apply Join_one. Qed.

Lemma names_text_cons prefix n names :
  names_text prefix (n :: names) = names_text (prefix +:+ "/" +:+ n) names.
Proof.
  unfold names_text. rewrite Join_cons. destruct names as [|m names].
  - by rewrite !Join_one.
  - by rewrite !Join_cons, !app_assoc.
Qed.

Lemma is_wild_dots x : pe_Name x = "..." → is_wild x = true.
Proof. intros Hx. unfold is_wild. rewrite Hx. done. Qed.

Lemma is_wild_cases x :
  (is_wild x = true ∧ pe_Name x = "*") ∨ (is_wild x = true ∧ pe_Name x = "...") ∨
  (is_wild x = false ∧ pe_Name x ≠ "*" ∧ pe_Name x ≠ "...").
Proof.
  unfold is_wild. destruct (decide (pe_Name x = "*")); [left; by rewrite bool_decide_true|].
  rewrite (bool_decide_false (pe_Name x = "*")) by done. case_bool_decide; auto.
Qed.

(** The cases of a match at a wildcard, "..." and a name. *)
Lemma matches_cons e x rest names :
  matches e (x :: rest) names ↔
  ∃ cname names', names = cname :: names' ∧
    ((is_wild x = true ∧ ∃ c, (cname, c) ∈ e_Dir e ∧ matches c rest names') ∨
     (pe_Name x = "..." ∧ ∃ c, (cname, c) ∈ e_Dir e ∧ matches c (x :: rest) names') ∨
     (is_wild x = false ∧ cname = pe_Name x ∧
      ∃ c, Dir e (pe_Name x) = Some c ∧ keys_known c x = true ∧ matches c rest names')).
Proof.
  split.
  - intros Hm. inversion Hm; subst; eauto 12.
  - intros (cname & names' & -> & [(? & c & ? & ?)|[(? & c & ? & ?)|(? & -> & c & ? & ? & ?)]]).
    + by eapply matches_wild.
    + by eapply matches_deep.
    + by eapply matches_name.
Qed.

Lemma validatePathSchema_matches e elems :
  validatePathSchema e elems = true ↔ ∃ names, matches e elems names.
Proof.
  revert elems. induction e as [n k dir IH] using Entry_induction. rewrite Forall_forall in IH.
  intros [|x rest]; [split; [eexists; constructor|done]|].
  cbn [validatePathSchema]. setoid_rewrite matches_cons. cbn [e_Dir]. unfold Dir. cbn [e_Dir].
  assert (∀ l, existsb (λ '(_, centry), validatePathSchema centry l) dir = true ↔
            ∃ cname c names, (cname, c) ∈ dir ∧ matches c l names) as Hex.
  { intros l. rewrite existsb_elem. split.
    - intros ([cname c] & Hin & Hv). apply (IH _ Hin) in Hv as (names & Hm). eauto.
    - intros (cname & c & names & Hin & Hm). exists (cname, c). split; [done|].
      apply (IH _ Hin). eauto. }
  destruct (is_wild_cases x) as [[Hw Hx]|[[Hw Hx]|(Hw & Hs & Hd)]]; rewrite Hw.
  - rewrite (bool_decide_false (pe_Name x = "...")) by by rewrite Hx.
    transitivity (existsb (λ '(_, centry), validatePathSchema centry rest) dir = true);
      [by destruct (existsb _ dir)|].
    rewrite Hex. split.
    + intros (cname & c & names & ? & ?). exists (cname :: names), cname, names. eauto 10.
    + intros (? & cname & names & -> & [(_ & c & ? & ?)|[(Hx' & _)|(? & _)]]); [eauto| |done].
      by rewrite Hx in Hx'.
  - rewrite bool_decide_true by done.
    transitivity (existsb (λ '(_, centry), validatePathSchema centry rest) dir = true ∨
                  existsb (λ '(_, centry), validatePathSchema centry (x :: rest)) dir = true);
      [destruct (existsb (λ '(_, centry), validatePathSchema centry rest) dir); naive_solver|].
    rewrite !Hex. split.
    + intros [(cname & c & names & ? & ?)|(cname & c & names & ? & ?)];
        exists (cname :: names), cname, names; eauto 10.
    + intros (? & cname & names & -> & [(_ & c & ? & ?)|[(_ & c & ? & ?)|(? & _)]]);
        [left; eauto|right; eauto|done].
  - rewrite on_child_fmap. destruct (on_child id (pe_Name x) dir) as [c|] eqn:Hc; cbn.
    + pose proof (on_child_in _ _ _ Hc) as Hin. destruct (keys_known c x) eqn:Hk.
      * rewrite (IH _ Hin). cbn [snd]. split.
        -- intros (names & ?). exists (pe_Name x :: names), (pe_Name x), names. eauto 12.
        -- intros (? & cname & names & -> & [(? & _)|[(? & _)|(_ & -> & c' & [= <-] & _ & ?)]]); [done|done|eauto].
      * split; [done|].
        intros (? & cname & names & -> & [(? & _)|[(? & _)|(_ & -> & c' & [= <-] & ? & ?)]]); congruence.
    + split; [done|].
      intros (? & cname & names & -> & [(? & _)|[(? & _)|(_ & -> & c' & ? & ? & ?)]]); congruence.
Qed.

(** The results for the children of a directory. *)
Lemma elem_of_children {A B} (f : A → list B) dir p :
  p ∈ dir ≫= f ↔ ∃ nc, nc ∈ dir ∧ p ∈ f nc.
Proof. rewrite list_elem_of_bind. naive_solver. Qed.

Lemma findSchemaPath_matches prefix e elems p :
  p ∈ findSchemaPath prefix e elems ↔ ∃ names, matches e elems names ∧ p = names_text prefix names.
Proof.
  revert prefix elems. induction e as [n k dir IH] using Entry_induction. rewrite Forall_forall in IH.
  intros prefix [|x rest].
  { cbn [findSchemaPath]. rewrite list_elem_of_singleton. split.
    - intros ->. exists []. split; [constructor|]. by rewrite names_text_nil.
    - intros (names & Hm & ->). inversion Hm; subst. apply names_text_nil. }
  transitivity (∃ cname names, p = names_text (prefix +:+ "/" +:+ cname) names ∧
    ((is_wild x = true ∧ ∃ c, (cname, c) ∈ dir ∧ matches c rest names) ∨
     (pe_Name x = "..." ∧ ∃ c, (cname, c) ∈ dir ∧ matches c (x :: rest) names) ∨
     (is_wild x = false ∧ cname = pe_Name x ∧
      ∃ c, on_child id (pe_Name x) dir = Some c ∧ keys_known c x = true ∧ matches c rest names))).
  2: { split.
    - intros (cname & names & -> & Hc). exists (cname :: names).
      rewrite matches_cons, names_text_cons. unfold Dir. cbn [e_Dir]. eauto.
    - intros (names & Hm & ->). apply matches_cons in Hm as (cname & names' & -> & Hc).
      rewrite names_text_cons. eauto. }
  destruct dir as [|nc0 dir0] eqn:Hdir.
  { cbn. rewrite elem_of_nil. split; [done|]. set_solver. }
  rewrite <-Hdir in IH |- *. cbn [findSchemaPath]. rewrite Hdir at 1. clear Hdir nc0 dir0.
  destruct (is_wild_cases x) as [[Hw Hx]|[[Hw Hx]|(Hw & Hs & Hd)]]; rewrite Hw.
  - rewrite Hx, bool_decide_true by done. rewrite elem_of_children. split.
    + intros ([cname c] & Hin & Hp). apply (IH _ Hin) in Hp as (names & Hm & ->). eauto 12.
    + intros (cname & names & -> & [(_ & c & Hin & Hm)|[(? & _)|(? & _)]]); [|done|done].
      exists (cname, c). split; [done|]. apply (IH _ Hin). eauto.
  - rewrite Hx, (bool_decide_false ("..." = "*")), bool_decide_true by done.
    rewrite elem_of_children. split.
    + intros ([cname c] & Hin & [Hp|Hp]%elem_of_app); apply (IH _ Hin) in Hp as (names & Hm & ->); eauto 12.
    + intros (cname & names & -> & [(_ & c & Hin & Hm)|[(_ & c & Hin & Hm)|(? & _)]]); [..|done];
        (exists (cname, c); split; [done|]); apply elem_of_app; [left|right]; apply (IH _ Hin); eauto.
  - rewrite !bool_decide_false by done. rewrite on_child_fmap.
    destruct (on_child id (pe_Name x) dir) as [c|] eqn:Hc; cbn [fmap option_fmap option_map default from_option].
    + pose proof (on_child_in _ _ _ Hc) as Hin. destruct (keys_known c x) eqn:Hk.
      * cbn [id]. pose proof (IH _ Hin) as IHc. cbn [snd] in IHc. rewrite IHc. split.
        -- intros (names & ? & ->). eauto 12.
        -- intros (cname & names & -> & [(? & _)|[(? & _)|(_ & -> & c' & [= <-] & _ & ?)]]); [done|done|eauto].
      * split; [set_solver|].
        intros (cname & names & -> & [(? & _)|[(? & _)|(_ & -> & c' & [= <-] & ? & ?)]]); congruence.
    + split; [set_solver|].
      intros (cname & names & -> & [(? & _)|[(? & _)|(_ & -> & c' & ? & ? & ?)]]); congruence.
Qed.

Lemma findSchemaPath_nonempty prefix e elems :
  findSchemaPath prefix e elems ≠ [] ↔ validatePathSchema e elems = true.
Proof.
  rewrite validatePathSchema_matches. split.
  - intros Hne. destruct (findSchemaPath prefix e elems) as [|p l] eqn:Hl; [done|].
    assert (p ∈ findSchemaPath prefix e elems) as (names & ? & _)%findSchemaPath_matches
      by (rewrite Hl; set_solver). eauto.
  - intros (names & Hm) Hnil.
    assert (names_text prefix names ∈ findSchemaPath prefix e elems) as Hin
      by (apply findSchemaPath_matches; eauto).
    rewrite Hnil in Hin. set_solver.
Qed.
End searches.

(** ** Look-up by text

    The index-free form of the loop: [prev] is the byte before the rest, [cur]
    the pending token. *)
Fixpoint x_scan (prev : ascii) (entry : EntryPtr) (cur : string) (inside : Z) (rest : string)
    : option (EntryPtr * string) :=
  match rest with
  | "" => Some (entry, cur)
  | String c t =>
      if Ascii.eqb c "/" then
        if (inside <=? 0)%Z then
          if bool_decide (cur = "") then x_scan c entry "" inside t
          else match ptr_Dir entry cur with
               | None => None
               | Some entry => x_scan c entry "" inside t
               end
        else x_scan c entry (snoc cur c) inside t
      else if Ascii.eqb c "[" && negb (Ascii.eqb prev "\") then
        match ptr_Dir entry cur with
        | None => None
        | Some entry => x_scan c entry "" (inside + 1) t
        end
      else if Ascii.eqb c "]" && negb (Ascii.eqb prev "\") then x_scan c entry "" (inside - 1) t
      else x_scan c entry (snoc cur c) inside t
  end.

(** What is left of the scan at the end of the text: a pending token is a name. *)
Definition x_found (r : option (EntryPtr * string)) : option EntryPtr :=
  match r with
  | None => None
  | Some (entry, cur) => if bool_decide (cur = "") then Some entry else ptr_Dir entry cur
  end.

Lemma prev_index s t :
  s ≠ "" → str_index (E:=error) (s +:+ t) (strlen s - 1) = Ok (last_byte "/" s).
Proof.
  intros Hs. induction s as [|s c _] using string_rev_ind; [done|].
  rewrite strlen_snoc, last_byte_snoc, Nat.sub_succ, Nat.sub_0_r.
  unfold snoc. rewrite app_assoc. apply str_index_mid.
Qed.

Definition x_state (str : string) (r : option (EntryPtr * string)) : option (EntryPtr * nat) :=
  (λ '(entry, cur), (entry, strlen str - strlen cur)) <$> r.

Lemma FindSchemaByRelativeXPath_loop_scan rest fuel done cur entry inside :
  strlen rest < fuel → done +:+ cur ≠ "" →
  FindSchemaByRelativeXPath_loop fuel (done +:+ cur +:+ rest) entry
    (strlen done) (strlen done + strlen cur) inside =
  Ok (x_state (done +:+ cur +:+ rest)
        (x_scan (last_byte "/" (done +:+ cur)) entry cur inside rest)).
Proof.
  revert fuel done cur entry inside.
  induction rest as [|c t IH]; intros [|fuel] done cur entry inside Hfuel Hne; try (cbn in Hfuel; lia).
  { cbn [FindSchemaByRelativeXPath_loop]. rewrite loop_stops. cbn. repeat f_equal.
    rewrite !strlen_app. cbn. lia. }
  cbn in Hfuel. cbn [FindSchemaByRelativeXPath_loop x_scan].
  rewrite loop_continues, loop_byte, !outcome_bind_ret.
  set (str := done +:+ cur +:+ String c t) in *.
  assert (∀ entry inside,
    FindSchemaByRelativeXPath_loop fuel str entry (strlen done) (strlen done + strlen cur + 1) inside =
    Ok (x_state str (x_scan c entry (snoc cur c) inside t))) as Hgrow.
  { intros entry' inside'. unfold str. rewrite loop_shift, (loop_end done cur c).
    rewrite IH; [|lia|rewrite app_eq_nil; intros [_ ?]; by eapply snoc_nonempty]. by rewrite loop_prev. }
  assert (∀ entry inside,
    FindSchemaByRelativeXPath_loop fuel str entry
      (strlen done + strlen cur + 1) (strlen done + strlen cur + 1) inside =
    Ok (x_state str (x_scan c entry "" inside t))) as Hreset.
  { intros entry' inside'. unfold str. rewrite loop_reset, (loop_end_reset done cur c).
    pose proof (IH fuel (snoc (done +:+ cur) c) "" entry' inside') as IH'.
    cbn [strlen] in IH'. rewrite Nat.add_0_r in IH'. rewrite app_nil_r, last_byte_snoc in IH'.
    apply IH'; [lia|apply snoc_nonempty]. }
  assert (str_slice (E:=error) str (strlen done) (strlen done + strlen cur) = Ok cur) as ->
    by apply str_slice_mid.
  assert (str_index (E:=error) str (strlen done + strlen cur - 1) = Ok (last_byte "/" (done +:+ cur))) as ->.
  { unfold str. rewrite <-app_assoc, <-strlen_app. by apply prev_index. }
  rewrite !outcome_bind_ret.
  destruct (Ascii.eqb_spec c "/") as [->|Hs].
  { destruct (inside <=? 0)%Z; [|apply Hgrow].
    destruct cur as [|d cur].
    - rewrite (proj2 (Nat.ltb_ge _ _)) by (cbn; lia). cbn [strlen].
      specialize (Hreset entry inside). cbn [strlen] in Hreset. by rewrite Nat.add_0_r in Hreset |- *.
    - rewrite (proj2 (Nat.ltb_lt _ _)) by (cbn; lia). rewrite bool_decide_false by done.
      destruct (ptr_Dir entry (String d cur)); [apply Hreset|done]. }
  destruct (Ascii.eqb_spec c "[") as [->|Ho]; cbn [andb].
  { destruct (negb _); cbn [andb Ascii.eqb Bool.eqb]; [|apply Hgrow].
    destruct (ptr_Dir entry cur); [apply Hreset|done]. }
  destruct (Ascii.eqb_spec c "]") as [->|Hc]; cbn [andb]; [|apply Hgrow].
  destruct (negb _); [apply Hreset|apply Hgrow].
Qed.

(** The pending token is the end of the text. *)
Lemma x_scan_suffix prev entry cur inside rest r :
  x_scan prev entry cur inside rest = Some r → ∃ d, cur +:+ rest = d +:+ r.2.
Proof.
  revert prev entry cur inside. induction rest as [|c t IH]; intros prev entry cur inside Hr; cbn in Hr.
  { injection Hr as <-. exists "". by rewrite app_nil_r. }
  assert (∀ d, snoc cur c +:+ t = d → cur +:+ String c t = d) as Hgrow.
  { intros d <-. by rewrite app_snoc. }
  assert (∀ d, t = d → cur +:+ String c t = snoc cur c +:+ d) as Hreset.
  { intros d <-. by rewrite app_snoc. }
  repeat case_match; try done; apply IH in Hr as (d & Hd); rewrite ?app_nil_l in Hd;
    first [exists d; by apply Hgrow | exists (snoc cur c +:+ d); rewrite app_assoc; by apply Hreset].
Qed.

(** On an absolute path the search is the scan of the text after the slash. *)
Lemma find_by_xpath_absolute entry s :
  find_by_xpath entry (String "/" s) = Ok (x_found (x_scan "/" entry "" 0 s)).
Proof.
  unfold find_by_xpath. change (strlen (String "/" s) <=? 0) with false. cbn iota.
  change (str_index (String "/" s) 0) with (Ok (E:=error) "/"%char). rewrite outcome_bind_ret.
  cbn [Ascii.eqb Bool.eqb orb].
  pose proof (FindSchemaByRelativeXPath_loop_scan s (S (strlen (String "/" s))) "/" "" entry 0) as H.
  rewrite !app_nil_l in H. change ("/" +:+ s) with (String "/" s) in H.
  change (strlen "/" + strlen "") with 1 in H. change (strlen "/") with 1 in H.
  rewrite H by (done || cbn; lia). clear H. rewrite outcome_bind_ret.
  change (last_byte "/" ("/" +:+ "")) with "/"%char.
  destruct (x_scan "/" entry "" 0 s) as [[e cur]|] eqn:Hs; [|done].
  apply x_scan_suffix in Hs as (d & Hd). rewrite app_nil_l in Hd. cbn [snd] in Hd. subst s.
  cbn [x_state fmap option_fmap option_map x_found].
  change (String "/" (d +:+ cur)) with (String "/" d +:+ cur).
  replace (strlen (String "/" d +:+ cur) - strlen cur) with (strlen (String "/" d))
    by (rewrite strlen_app; lia).
  case_bool_decide as Hcur.
  - subst cur. by rewrite app_nil_r, Nat.ltb_irrefl.
  - rewrite (proj2 (Nat.ltb_lt _ _)); [by rewrite str_slice_from|].
    rewrite strlen_app. destruct cur; [done|]. cbn [strlen]. lia.
Qed.

(** *** Texts of path elements *)

(** An element whose name and keys are identifiers and whose values are plain:
    not empty, without a bracket, and not ending in a backslash. *)
Definition id_elem (e : PathElem) : Prop :=
  idRe_MatchString (pe_Name e) = true ∧
  map_Forall (λ k v, idRe_MatchString k = true ∧ plain_value v) (keys e).

#[global] Instance id_elem_dec e : Decision (id_elem e).
Proof. unfold id_elem. apply _. Defined.

(** No node is named by the empty text. *)
Fixpoint named (e : Entry) : bool :=
  match e with
  | mkEntry _ _ dir => forallb (λ '(n, c), negb (bool_decide (n = "")) && named c) dir
  end.

Lemma named_child e n c : named e = true → Dir e n = Some c → n ≠ "" ∧ named c = true.
Proof.
  destruct e as [n0 k dir]. intros Hn Hc%on_child_in. cbn in Hn, Hc.
  rewrite forallb_elem in Hn. specialize (Hn _ Hc). cbn in Hn.
  apply andb_true_iff in Hn as [Hn ?]. split; [|done]. by apply negb_true_iff, bool_decide_eq_false in Hn.
Qed.

Lemma ptr_Dir_named p n q :
  named (ep_node p) = true → ptr_Dir p n = Some q → named (ep_node q) = true.
Proof.
  unfold ptr_Dir. intros Hp Hq. apply fmap_Some in Hq as (c & Hc & ->). by eapply named_child in Hc as [_ ?].
Qed.

Lemma ptr_Dir_empty p : named (ep_node p) = true → ptr_Dir p "" = None.
Proof.
  intros Hp. unfold ptr_Dir. destruct (Dir (ep_node p) "") as [c|] eqn:Hc; [|done].
  by apply (named_child _ _ _ Hp) in Hc as [? _].
Qed.

Lemma x_scan_id prev entry cur inside n rest :
  idRe_MatchString n = true →
  x_scan prev entry cur inside (n +:+ rest) = x_scan (last_byte prev n) entry (cur +:+ n) inside rest.
Proof.
  intros Hn%idRe_rest. revert prev cur. induction n as [|c n IH]; intros prev cur.
  { by rewrite app_nil_l, app_nil_r. }
  cbn in Hn. apply andb_true_iff in Hn as [Hc Hn]. rewrite (app_cons c n). cbn [x_scan].
  destruct (Ascii.eqb_spec c "/") as [->|]; [discriminate Hc|].
  destruct (Ascii.eqb_spec c "[") as [->|]; [discriminate Hc|].
  destruct (Ascii.eqb_spec c "]") as [->|]; [discriminate Hc|].
  cbn [andb]. rewrite IH by done. cbn [last_byte]. by rewrite app_snoc.
Qed.

(** The text between the brackets of a pair is skipped. *)
Lemma x_scan_body prev entry cur w rest :
  str_forallb (λ c, negb (is_bracket c)) w = true →
  x_scan prev entry cur 1 (w +:+ rest) = x_scan (last_byte prev w) entry (cur +:+ w) 1 rest.
Proof.
  revert prev cur. induction w as [|c w IH]; intros prev cur Hw.
  { by rewrite app_nil_l, app_nil_r. }
  cbn in Hw. apply andb_true_iff in Hw as [Hc Hw]. unfold is_bracket in Hc.
  apply negb_true_iff, orb_false_iff in Hc as [Ho Hc].
  rewrite (app_cons c w). cbn [x_scan]. rewrite Ho, Hc. cbn [andb].
  change (1 <=? 0)%Z with false. cbn iota.
  destruct (Ascii.eqb c "/"); rewrite IH by done; cbn [last_byte]; by rewrite app_snoc.
Qed.

Lemma x_scan_pair prev entry cur k v rest :
  prev ≠ "\"%char → idRe_MatchString k = true → plain_value v →
  x_scan prev entry cur 0 (kv_text k v +:+ rest) =
  match ptr_Dir entry cur with None => None | Some q => x_scan "]" q "" 0 rest end.
Proof.
  intros Hp Hk (Hv & Hb & Hl). unfold kv_text. rewrite !app_assoc, app_cons, app_nil_l. cbn [x_scan].
  rewrite (proj2 (Ascii.eqb_neq prev "\")) by done. cbn [Ascii.eqb Bool.eqb andb negb].
  destruct (ptr_Dir entry cur) as [q|]; [|done]. change (0 + 1)%Z with 1%Z.
  rewrite x_scan_body.
  2: { eapply str_forallb_impl, (idRe_rest k Hk). intros c Hc. apply negb_true_iff.
       unfold is_bracket. destruct (Ascii.eqb_spec c "["); [by subst|]. destruct (Ascii.eqb_spec c "]"); [by subst|done]. }
  change ("=" +:+ v +:+ "]" +:+ rest) with (String "=" (v +:+ String "]" rest)). cbn [x_scan].
  cbn [Ascii.eqb Bool.eqb andb negb].
  rewrite (x_scan_body _ _ _ v) by done. cbn [x_scan].
  by rewrite (proj2 (Ascii.eqb_neq _ "\")) by done.
Qed.

Section by_text.
Context `{GoRange}.

Definition one_key (e : PathElem) : bool := size (keys e) <=? 1.

(** The scan of one printed element, followed by the end or by a slash. *)
Lemma x_scan_elem entry e tail :
  id_elem e → named (ep_node entry) = true → tail = "" ∨ (∃ s, tail = String "/" s) →
  x_found (x_scan "/" entry "" 0 (elem_text e +:+ tail)) =
  if one_key e
  then match ptr_Dir entry (pe_Name e) with
       | None => None
       | Some q => x_found (x_scan "]" q "" 0 tail)
       end
  else None.
Proof.
  intros [Hn Hk] Hnamed Htail. pose proof (idRe_nonempty _ Hn) as Hne.
  unfold one_key. rewrite <-go_range_length, elem_text_shape, app_assoc, x_scan_id, app_nil_l by done.
  assert (∀ kv, kv ∈ go_range (keys e) → idRe_MatchString kv.1 = true ∧ plain_value kv.2) as Hkv
    by by intros [k v] Hin%elem_of_go_range; apply Hk.
  destruct (go_range (keys e)) as [|[k v] l].
  { cbn [kvs_text foldr length Nat.leb]. rewrite app_nil_l.
    destruct Htail as [->|[s ->]].
    - cbn [x_scan x_found]. rewrite bool_decide_false by done. by destruct (ptr_Dir entry (pe_Name e)).
    - cbn. rewrite bool_decide_false by done. by destruct (ptr_Dir entry (pe_Name e)). }
  destruct (Hkv (k, v)) as [Hk1 Hv1]; [set_solver|]. cbn [fst snd] in Hk1, Hv1.
  cbn [kvs_text foldr fst snd]. rewrite app_assoc, x_scan_pair by (done || by apply idRe_last_byte).
  destruct l as [|[k2 v2] l]; [cbn [foldr length Nat.leb]; by rewrite app_nil_l; destruct (ptr_Dir entry (pe_Name e))|].
  cbn [foldr length Nat.leb fst snd]. destruct (ptr_Dir entry (pe_Name e)) as [q|] eqn:Hq; [|done].
  destruct (Hkv (k2, v2)) as [Hk2 Hv2]; [set_solver|]. cbn [fst snd] in Hk2, Hv2.
  rewrite app_assoc, x_scan_pair by done. by rewrite ptr_Dir_empty by by eapply ptr_Dir_named.
Qed.

Lemma x_scan_elems entry l e :
  Forall id_elem (e :: l) → named (ep_node entry) = true →
  x_found (x_scan "/" entry "" 0 (Join (elem_text <$> e :: l) "/")) =
  if forallb one_key (e :: l) then findSchema entry (e :: l) else None.
Proof.
  revert entry e. induction l as [|e2 l IH]; intros entry e Hall Hnamed;
    apply Forall_cons in Hall as [He Hl]; cbn [fmap list_fmap].
  - rewrite Join_one, <-(app_nil_r (elem_text e)), x_scan_elem by auto.
    cbn. rewrite andb_true_r. destruct (one_key e); [|done]. by destruct (ptr_Dir entry (pe_Name e)).
  - rewrite Join_cons, app_cons, app_nil_l, x_scan_elem by eauto.
    cbn [forallb findSchema]. destruct (one_key e); cbn [andb]; [|done].
    destruct (ptr_Dir entry (pe_Name e)) as [q|] eqn:Hq.
    + cbn [x_scan]. cbn [Ascii.eqb Bool.eqb andb bool_decide]. change (0 <=? 0)%Z with true. cbn iota.
      rewrite bool_decide_true by done. apply (IH q e2 Hl). by eapply ptr_Dir_named.
    + by destruct (_ && _).
Qed.

Lemma find_by_xpath_ToXPath entry p :
  Forall id_elem (elems (Some p)) → named (ep_node entry) = true →
  find_by_xpath entry (ToXPath (Some p)) =
  Ok (if forallb one_key (elems (Some p)) then findSchema entry (elems (Some p)) else None).
Proof.
  intros Hall Hnamed. cbn [ToXPath length Nat.eqb]. destruct (elems (Some p)) as [|e l]; [done|].
  cbn [fmap list_fmap]. rewrite Join_cons, app_nil_l, app_cons, app_nil_l, find_by_xpath_absolute.
  f_equal. by apply x_scan_elems.
Qed.
End by_text.

(** ** Printed schema paths *)

Definition ptr_root (p : EntryPtr) : EntryPtr :=
  mkPtr (default (ep_node p) (snd <$> last (ep_up p))) [].

(** Every node on the way up is the child its parent has under its own name. *)
Fixpoint anchored (e : Entry) (up : list (string * Entry)) : Prop :=
  match up with
  | [] => True
  | (n, parent) :: up =>
      e_Name e = n ∧ idRe_MatchString n = true ∧ Dir parent n = Some e ∧ anchored parent up
  end.

Lemma up_names_acc e up acc : up_names e up acc = up_names e up [] ++ acc.
Proof.
  revert e acc. induction up as [|[n parent] up IH]; intros e acc; [done|].
  cbn. by rewrite IH, (IH parent [e_Name e]), <-List.app_assoc.
Qed.

Lemma findSchema_app p l1 l2 :
  findSchema p (l1 ++ l2) = findSchema p l1 ≫= λ q, findSchema q l2.
Proof.
  revert p. induction l1 as [|e l1 IH]; intros p; [done|]. cbn.
  by destruct (ptr_Dir p (pe_Name e)).
Qed.

Definition name_elem (n : string) : PathElem := mkElem n None.

Lemma anchored_found e up :
  anchored e up →
  findSchema (ptr_root (mkPtr e up)) (name_elem <$> up_names e up []) = Some (mkPtr e up) ∧
  Forall id_elem (name_elem <$> up_names e up []) ∧ up_names e up [] = reverse up.*1.
Proof.
  revert e. induction up as [|[n parent] up IH]; intros e Hup; [done|].
  destruct Hup as (Hname & Hid & Hdir & Hup). destruct (IH _ Hup) as (Hf & Hids & Hloc).
  cbn [up_names]. rewrite up_names_acc, fmap_app, findSchema_app.
  replace (ptr_root (mkPtr e ((n, parent) :: up))) with (ptr_root (mkPtr parent up)).
  2: { unfold ptr_root. cbn. f_equal. rewrite last_cons. by destruct (last up). }
  rewrite Hf. split; [|split].
  - cbn. unfold ptr_Dir. cbn. by rewrite Hname, Hdir.
  - apply Forall_app. split; [done|]. cbn. rewrite Hname. constructor; [|done]. by split.
  - by rewrite Hloc, Hname, fmap_cons, reverse_cons.
Qed.

Lemma name_elem_text `{GoRange} (l : list string) : elem_text <$> (name_elem <$> l) = l.
Proof. induction l as [|n l IH]; [done|]. by rewrite !fmap_cons, IH. Qed.

(** ** Data paths *)

Lemma Split_part s c x : x ∈ Split s c → ∃ a b, s = a +:+ x +:+ b.
Proof.
  unfold Split. assert (∀ s cur, x ∈ split_go c cur s → ∃ a b, cur +:+ s = a +:+ x +:+ b) as H.
  { clear s. induction s as [|d s IH]; intros cur Hx; cbn in Hx.
    - apply list_elem_of_singleton in Hx as ->. by exists "", "".
    - destruct (Ascii.eqb d c).
      + apply elem_of_cons in Hx as [->|Hx]; [by exists "", (String d s)|].
        apply IH in Hx as (a & b & Hab). rewrite app_nil_l in Hab. rewrite Hab.
        exists (snoc cur d +:+ a), b. by rewrite app_assoc, <-app_snoc.
      + apply IH in Hx as (a & b & Hab). exists a, b. by rewrite <-Hab, app_snoc. }
  apply (H s "").
Qed.

Section data_paths.
Context `{GoRange}.

(** The keys of an element are exactly the keys of the list, none a wildcard;
    an element without keys stands for any node. *)
Definition keys_complete (entry : Entry) (x : PathElem) : Prop :=
  keys x = ∅ ∨
  (dom (keys x) = list_to_set (Split (e_Key entry) " ") ∧
   map_Forall (λ _ v, v ≠ "*") (keys x)).

(** A path of nodes of the schema with complete keys. *)
Fixpoint data_path (entry : Entry) (l : list PathElem) : Prop :=
  match l with
  | [] => True
  | x :: l => ∃ c, Dir entry (pe_Name x) = Some c ∧ keys_complete c x ∧ data_path c l
  end.

Lemma keys_complete_known c x : keys_complete c x → keys_known c x = true.
Proof.
  intros Hc. unfold keys_known. apply forallb_elem. intros [k v] Hk%elem_of_go_range. cbn [fst].
  destruct Hc as [Hc|[Hc _]]; [by rewrite Hc in Hk|].
  assert (k ∈ dom (keys x)) as Hin by by apply elem_of_dom_2 in Hk.
  rewrite Hc, elem_of_list_to_set in Hin. apply Contains_spec. by eapply Split_part.
Qed.

Lemma path_keys_complete name knames key :
  (∀ k, k ∈ knames → ∃ v, key !! k = Some v ∧ v ≠ "*") →
  path_keys name knames key = name +:+ kvs_text ((λ k, (k, default "" (key !! k))) <$> knames).
Proof.
  revert name. induction knames as [|k knames IH]; intros name Hk; [by rewrite app_nil_r|].
  cbn. destruct (Hk k) as (v & Hv & Hs); [set_solver|]. rewrite Hv, bool_decide_false by done.
  rewrite IH by (intros; apply Hk; set_solver). unfold kv_text. by rewrite !app_assoc.
Qed.

(** Pairs that agree with a map, and cover it, denote the map. *)
Lemma kvs_map_agree (m acc : gmap string string) l :
  (∀ kw, kw ∈ l → m !! kw.1 = Some kw.2 ∧ unescape kw.2 = kw.2) → acc ⊆ m →
  (∀ k, is_Some (m !! k) → k ∈ l.*1 ∨ acc !! k = m !! k) → kvs_map acc l = m.
Proof.
  revert acc. induction l as [|[k w] l IH]; intros acc Hl Hacc Hcov.
  - apply map_eq. intros k. destruct (m !! k) as [v|] eqn:Hk.
    + destruct (Hcov k) as [?|Heq]; [eauto|set_solver|]. by rewrite <-Hk.
    + destruct (acc !! k) as [v|] eqn:Ha; [|done].
      cbn. rewrite Ha. eapply lookup_weaken in Ha; [|done]. congruence.
  - destruct (Hl (k, w)) as [Hk Hw]; [set_solver|]. cbn [fst snd] in Hk, Hw.
    change (kvs_map acc ((k, w) :: l)) with (kvs_map (<[k := unescape w]> acc) l). rewrite Hw.
    apply IH.
    + intros kw Hin. apply Hl. set_solver.
    + by apply insert_subseteq_l.
    + intros k' Hs. destruct (decide (k' = k)) as [->|Hne].
      * right. by rewrite lookup_insert_eq.
      * rewrite lookup_insert_ne by done. destruct (Hcov k' Hs) as [Hin|]; [|by right].
        left. rewrite fmap_cons in Hin. set_solver.
Qed.

Lemma path_name_parse c x :
  id_elem x → keys_complete c x →
  wf_elem (path_name c x) ∧ parseElement (path_name c x) = Ok (block_parts (elem_block x)).
Proof.
  intros [Hn Hk] Hc. unfold path_name, elem_block, block_parts. cbn [fst snd].
  destruct (decide (keys x = ∅)) as [Hempty|Hne].
  - rewrite bool_decide_true by done.
    assert (match pe_Key x with
            | Some key => path_keys (pe_Name x) (Split (e_Key c) " ") key | None => pe_Name x end
            = pe_Name x) as ->.
    { unfold keys in Hempty. destruct (pe_Key x) as [m|]; [|done]. cbn in Hempty. subst m.
      by destruct (Split (e_Key c) " "). }
    split; [by apply idRe_wf_elem|]. apply parseElement_name; [by apply idRe_no_bracket|].
    unfold name_ok. by rewrite Hn.
  - rewrite bool_decide_false by done. destruct Hc as [|[Hdom Hstar]]; [done|].
    unfold keys in *. destruct (pe_Key x) as [m|]; [|done]. cbn [default from_option id] in *.
    assert (∀ k, k ∈ Split (e_Key c) " " ↔ is_Some (m !! k)) as Hin
      by (intros k; rewrite <-elem_of_dom, Hdom; set_solver).
    rewrite path_keys_complete.
    2: { intros k [v Hv]%Hin. exists v. split; [done|]. by eapply Hstar. }
    set (l := _ <$> Split (e_Key c) " ").
    assert (∀ kw, kw ∈ l → m !! kw.1 = Some kw.2) as Hl.
    { intros kw (k & -> & [v Hv]%Hin)%list_elem_of_fmap. cbn. by rewrite Hv. }
    assert (Forall wf_kv l) as Hwf.
    { apply Forall_forall. intros [k v] Hkv%Hl. apply Hk in Hkv as [??]. by apply wf_kv_plain. }
    split; [by apply keyed_wf_elem|]. rewrite parseElement_keys; [|done| |done].
    + rewrite (kvs_map_agree m); [done| |apply map_empty_subseteq|].
      * intros kw Hkw. split; [by apply Hl|]. apply Hl, Hk in Hkw as [_ Hv]. by apply unescape_plain.
      * intros k Hs%Hin. left. unfold l. rewrite <-list_fmap_compose. cbn.
        by rewrite list_fmap_id.
    + unfold l. pose proof (map_choose m Hne) as (k & v & Hkv).
      assert (k ∈ Split (e_Key c) " ") by (apply Hin; eauto). destruct (Split (e_Key c) " "); [set_solver|done].
Qed.
Lemma id_not_wild n : idRe_MatchString n = true → n ≠ "*" ∧ n ≠ "...".
Proof. by intros Hn; split; intros ->. Qed.

Lemma findPaths_data prefix entry l :
  Forall id_elem l → data_path entry l →
  ∃ ts, findPaths prefix entry l = [names_text prefix ts] ∧ Forall wf_elem ts ∧
        Forall2 (λ t b, parseElement t = Ok (block_parts b)) ts (elem_block <$> l).
Proof.
  intros Hid. revert prefix entry.
  induction Hid as [|x l Hx Hid IH]; intros prefix entry Hdata.
  { exists []. rewrite names_text_nil. by destruct entry. }
  destruct Hdata as (c & Hc & Hk & Hdata). destruct (id_not_wild _ (proj1 Hx)) as [Hs Hd].
  destruct (IH (Join [prefix; path_name c x] "/") c Hdata) as (ts & Hts & Hwf & Hps).
  destruct (path_name_parse c x Hx Hk) as [Hw Hp].
  exists (path_name c x :: ts). split; [|split; by constructor].
  destruct entry as [n k dir]. unfold Dir in Hc. cbn [e_Dir] in Hc. cbn [findPaths].
  assert (dir ≠ []) as Hne by by intros ->. destruct dir as [|nc dir]; [done|].
  rewrite !bool_decide_false by done. rewrite on_child_fmap, Hc. cbn [fmap option_fmap option_map default from_option id].
  rewrite keys_complete_known by done. rewrite Hts, names_text_cons.
  by rewrite Join_cons, Join_one.
Qed.
End data_paths.

(** The text of a data path, and what it parses to. *)
Lemma FindPaths_elems `{GoRange} (m : SchemaModel) (p : Path) (e : Entry) :
  model_entry m = Ok (Some e) → Forall id_elem (elems (Some p)) → data_path e (elems (Some p)) →
  ∃ s q, FindPaths m (Some p) = Ok [s] ∧ ToGNMIPath s = Ok q ∧
         elems (Some q) ≡ elems (Some p).
Proof.
  intros Hm Hid Hdata. unfold FindPaths. rewrite Hm, outcome_bind_ret.
  destruct (elems (Some p)) as [|x l] eqn:Hl; [by exists "/", (mkPath "" None None "")|].
  destruct (findPaths_data "" e (x :: l) Hid Hdata) as (ts & -> & Hwf & Hps).
  cbn [length Nat.eqb]. eexists _, _. split; [done|]. split.
  - apply ToGNMIPath_blocks. by apply ParseStringPath_blocks.
  - unfold elems, GetElem. cbn [mbind option_bind p_Elem].
    rewrite blocks_elem_default. clear. induction (x :: l) as [|y l' IH]; [constructor|].
    constructor; [apply elem_block_equiv|done].
Qed.

(** ** Supported models *)

(** A requested model fits a supported one: same name, and the version and
    organization agree where they are given. *)
Definition model_fits (r s : ModelData) : Prop :=
  md_Name r = md_Name s ∧ (md_Version r = "" ∨ md_Version r = md_Version s) ∧
  (md_Organization r = "" ∨ md_Organization r = md_Organization s).

#[global] Instance model_fits_dec r s : Decision (model_fits r s).
Proof. unfold model_fits. apply _. Defined.

Lemma check_model_spec r supported :
  check_model false r supported = true ↔ Exists (model_fits r) supported.
Proof.
  induction supported as [|s l IH]; [by rewrite Exists_nil|]. cbn [check_model].
  rewrite Exists_cons. unfold model_fits at 1.
  case_bool_decide as Hn; cbn [negb]; [|rewrite IH; naive_solver].
  destruct ((_ || _) && _) eqn:Hfit.
  - apply andb_true_iff in Hfit as [Hv Ho]. rewrite orb_true_iff, !bool_decide_eq_true in Hv, Ho. naive_solver.
  - rewrite IH. apply andb_false_iff in Hfit. rewrite !orb_false_iff, !bool_decide_eq_false in Hfit. naive_solver.
Qed.

(** A model for the evaluations: an interface list with one key and a route
    list with two. *)
Definition example_entry : Entry :=
  mkEntry "device" "" [
    ("interfaces", mkEntry "interfaces" "" [
      ("interface", mkEntry "interface" "name" [
        ("name", mkEntry "name" "" []); ("mtu", mkEntry "mtu" "" [])])]);
    ("route", mkEntry "route" "prefix hop" [
      ("prefix", mkEntry "prefix" "" []); ("hop", mkEntry "hop" "" []); ("cost", mkEntry "cost" "" [])])].

Definition example_type : gotype := TStruct "Device" [].

Definition example_model : SchemaModel :=
  mkSchemaModel (mkMO {["Device" := mkPtr example_entry []]} (Some (TPtr example_type)))
    [mkModelData "openconfig-interfaces" "OpenConfig" "2.0"].

Definition route_path : Path :=
  mkPath "" None (Some [mkElem "route" (Some {["prefix" := "10/8"; "hop" := "r1"]}); mkElem "cost" None]) "".

Lemma route_path_ids : Forall id_elem (elems (Some route_path)).
Proof. apply (bool_decide_unpack _). vm_compute. exact I. Qed.

(** ** Theorems *)

(** C18. FindSchemaPaths is sound and complete: on a model whose root type has a
    schema entry, its result for a non-empty path holds exactly the texts of
    the nodes that match the path, "*" standing for one level and "..." for one
    or more. *)
Theorem FindSchemaPaths_matches `{GoRange} (m : SchemaModel) (p : option Path) (e : Entry) :
  model_entry m = Ok (Some e) → elems p ≠ [] →
  ∃ l, FindSchemaPaths m p = Ok (l, true) ∧
       ∀ s, s ∈ l ↔ ∃ names, matches e (elems p) names ∧ s = names_text "" names.
Proof.
  intros Hm Hp. unfold FindSchemaPaths. rewrite Hm, outcome_bind_ret.
  destruct (elems p) as [|x l]; [done|]. cbn [length Nat.eqb]. eexists. split; [done|].
  intros s. apply findSchemaPath_matches.
Qed.

Lemma FindSchemaPaths_matches_witness :
  let p := Some (mkPath "" None (Some [mkElem "..." None; mkElem "mtu" None]) "") in
  ∃ l, @FindSchemaPaths canonical_range example_model p = Ok (l, true) ∧
       ∀ s, s ∈ l ↔ ∃ names, @matches canonical_range example_entry (elems p) names ∧ s = names_text "" names.
Proof.
  intros p. exact (@FindSchemaPaths_matches canonical_range example_model p example_entry eq_refl ltac:(discriminate)).
Defined.

(** C19. The validation of a path against the schema: ValidateGNMIPath accepts a
    sequence of paths whose full path is well formed exactly when its origin is
    empty or a supported model and FindSchemaPaths finds a node for it;
    otherwise it reports NotFound with the tag "unknown-path". *)
Theorem ValidateGNMIPath_accepts `{GoRange, ProtoClone} (m : SchemaModel)
    (paths : list (option Path)) (fp : option Path) (e : Entry) :
  model_entry m = Ok (Some e) → Path.ValidateGNMIPath paths = Ok fp →
  let accepted := (GetOrigin fp = "" ∨ GetOrigin fp ∈ md_Name <$> modelData m) ∧
                  ∃ l, FindSchemaPaths m fp = Ok (l, true) ∧ l ≠ [] in
  (ValidateGNMIPath m paths = Ok tt ∧ accepted) ∨
  (ValidateGNMIPath m paths =
     Err (TaggedErrorf codes.NotFound TagUnknownPath
            "unable to find %s from the schema tree" [AStr (ToXPath fp)]) ∧ ¬ accepted).
Proof.
  intros Hm Hp accepted. unfold ValidateGNMIPath. rewrite Hp. unfold ValidatePathSchema.
  rewrite Hm, outcome_bind_ret.
  assert (existsb (λ md, bool_decide (GetOrigin fp = md_Name md)) (modelData m) = true ↔
          GetOrigin fp ∈ md_Name <$> modelData m) as Hor.
  { rewrite existsb_elem, list_elem_of_fmap. setoid_rewrite bool_decide_eq_true. naive_solver. }
  assert ((∃ l, FindSchemaPaths m fp = Ok (l, true) ∧ l ≠ []) ↔ validatePathSchema e (elems fp) = true) as Hv.
  { unfold FindSchemaPaths. rewrite Hm, outcome_bind_ret.
    destruct (elems fp) as [|x l] eqn:Hl; cbn [length Nat.eqb].
    - split; [intros _; by destruct e|]. intros _. by eexists.
    - rewrite <-(findSchemaPath_nonempty ""). split; [|by eauto].
      by intros (l' & [= <-] & Hne). }
  unfold accepted. rewrite Hv. destruct (bool_decide (GetOrigin fp = "")) eqn:Hempty; cbn [negb andb].
  - apply bool_decide_eq_true in Hempty. cbv [mret outcome_ret]. rewrite outcome_bind_ret.
    destruct (validatePathSchema e (elems fp)); [left|right]; naive_solver.
  - apply bool_decide_eq_false in Hempty. destruct (existsb _ _) eqn:He; cbn [negb];
      cbv [mret outcome_ret]; rewrite outcome_bind_ret.
    + destruct (validatePathSchema e (elems fp)); [left|right]; naive_solver.
    + right. split; [done|]. naive_solver.
Qed.

Lemma ValidateGNMIPath_accepts_witness :
  let fp := Some (mkPath "" None (Some [mkElem "interfaces" None; mkElem "*" None; mkElem "mtu" None]) "") in
  let paths := [Some RootGNMIPath; fp] in
  let accepted := (GetOrigin fp = "" ∨ GetOrigin fp ∈ md_Name <$> modelData example_model) ∧
    ∃ l, @FindSchemaPaths canonical_range example_model fp = Ok (l, true) ∧ l ≠ [] in
  (@ValidateGNMIPath canonical_range identity_clone example_model paths = Ok tt ∧ accepted) ∨
  (@ValidateGNMIPath canonical_range identity_clone example_model paths =
     Err (TaggedErrorf codes.NotFound TagUnknownPath "unable to find %s from the schema tree"
            [AStr (@ToXPath canonical_range fp)]) ∧ ¬ accepted).
Proof.
  intros fp paths.
  exact (@ValidateGNMIPath_accepts canonical_range identity_clone example_model paths fp example_entry eq_refl eq_refl).
Defined.

(** C38. The look-up by text agrees with the look-up by path elements on every
    printed path whose names and keys are identifiers, whose key values are not
    empty, hold no bracket and do not end in a backslash, and of which no element
    has two keys; such a path with a multi-key element is never found, since the
    second bracket looks up the empty name. *)
Theorem FindSchemaByXPath_ToXPath `{GoRange} (mo : MO) (entry : EntryPtr) (p : Path) :
  FindSchema mo (Root mo) = Some entry → named (ep_node entry) = true →
  Forall id_elem (elems (Some p)) →
  FindSchemaByXPath mo (ToXPath (Some p)) =
  Ok (if forallb one_key (elems (Some p)) then FindSchemaByGNMIPath mo (Some p) else None).
Proof.
  intros Hroot Hnamed Hp. unfold FindSchemaByXPath, FindSchemaByRelativeXPath.
  unfold FindSchemaByGNMIPath, FindSchemaByRelativeGNMIPath. rewrite Hroot.
  by apply find_by_xpath_ToXPath.
Qed.

Lemma FindSchemaByXPath_ToXPath_witness :
  FindSchemaByGNMIPath (m_MO example_model) (Some route_path) ≠ None ∧
  FindSchemaByXPath (m_MO example_model) (@ToXPath canonical_range (Some route_path)) = Ok None.
Proof.
  split; [discriminate|].
  exact (@FindSchemaByXPath_ToXPath canonical_range (m_MO example_model) (mkPtr example_entry [])
           route_path eq_refl eq_refl route_path_ids).
Defined.

(** FindPaths of a data path, one that names existing nodes and gives every
    list all of its keys, is the one text that ToGNMIPath parses back to the
    elements of the path. *)
Theorem FindPaths_data_path `{GoRange} (m : SchemaModel) (p : Path) (e : Entry) :
  model_entry m = Ok (Some e) → Forall id_elem (elems (Some p)) → data_path e (elems (Some p)) →
  ∃ s q, FindPaths m (Some p) = Ok [s] ∧ ToGNMIPath s = Ok q ∧
         elems (Some q) ≡ elems (Some p).
Proof. intros. by apply (FindPaths_elems m p e). Qed.

Lemma FindPaths_data_path_witness :
  ∃ s q, @FindPaths canonical_range example_model (Some route_path) = Ok [s] ∧ ToGNMIPath s = Ok q ∧
         elems (Some q) ≡ elems (Some route_path).
Proof.
  apply (@FindPaths_data_path canonical_range example_model route_path example_entry eq_refl).
  - exact route_path_ids.
  - eexists. split; [reflexivity|]. split; [right; split; apply (bool_decide_unpack _); vm_compute; exact I|].
    eexists. split; [reflexivity|]. split; [by left|exact I].
Defined.

(** The printed schema path of a node leads back to it: for a node whose
    ancestors all hold their child under its own name, SchemaToGNMIPath and
    SchemaToXPath name the way from the root, and both look-ups from the root
    find the node. *)
Theorem SchemaToXPath_found (p : EntryPtr) :
  anchored (ep_node p) (ep_up p) → named (ep_node (ptr_root p)) = true →
  schema_path_names p = ptr_loc p ∧
  SchemaToGNMIPath (Some p) = Some (SchemaGNMIPath (Some p)) ∧
  findSchema (ptr_root p) (elems (SchemaToGNMIPath (Some p))) = Some p ∧
  find_by_xpath (ptr_root p) (SchemaToXPath (Some p)) = Ok (Some p).
Proof.
  destruct p as [e up]. cbn [ep_node ep_up]. intros Hup Hnamed.
  destruct (anchored_found e up Hup) as (Hf & Hids & Hloc).
  split; [exact Hloc|]. split; [done|]. split; [exact Hf|].
  set (q := SchemaGNMIPath (Some (mkPtr e up))).
  pose (R := canonical_range).
  assert (SchemaToXPath (Some (mkPtr e up)) = ToXPath (Some q)) as ->.
  { unfold ToXPath. cbn [length Nat.eqb].
    change (elems (Some q)) with (name_elem <$> schema_path_names (mkPtr e up)).
    by rewrite name_elem_text. }
  rewrite find_by_xpath_ToXPath by done. change (elems (Some q)) with (name_elem <$> up_names e up []).
  rewrite Hf. replace (forallb _ _) with true; [done|]. symmetry. apply forallb_elem.
  intros x (n & -> & _)%list_elem_of_fmap. done.
Qed.

Lemma SchemaToXPath_found_witness :
  let mtu := mkEntry "mtu" "" [] in
  let interface := mkEntry "interface" "name" [("name", mkEntry "name" "" []); ("mtu", mtu)] in
  let root := mkEntry "device" "" [("interface", interface)] in
  let p := mkPtr mtu [("mtu", interface); ("interface", root)] in
  schema_path_names p = ptr_loc p ∧
  SchemaToGNMIPath (Some p) = Some (SchemaGNMIPath (Some p)) ∧
  findSchema (ptr_root p) (elems (SchemaToGNMIPath (Some p))) = Some p ∧
  find_by_xpath (ptr_root p) (SchemaToXPath (Some p)) = Ok (Some p).
Proof.
  intros mtu interface root p. apply (SchemaToXPath_found p); [|reflexivity].
  repeat split; reflexivity.
Defined.

(** CheckModels succeeds exactly when every requested model fits a supported
    one in name and, where given, version and organization; otherwise it
    reports the first that fits none: InvalidArgument for a model without a
    name, Unimplemented for the others. *)
Theorem CheckModels_spec (m : SchemaModel) (models : list ModelData) :
  (CheckModels m models = Ok tt ∧ Forall (λ r, Exists (model_fits r) (modelData m)) models) ∨
  (∃ l r l', models = l ++ r :: l' ∧
     Forall (λ r, Exists (model_fits r) (modelData m)) l ∧ ¬ Exists (model_fits r) (modelData m) ∧
     ∃ s, CheckModels m models = Err (ErrStatus (Some s)) ∧
          s_Code s = (if bool_decide (md_Name r = "") then codes.InvalidArgument else codes.Unimplemented)).
Proof.
  induction models as [|r models IH]; [by left|]. cbn [CheckModels].
  destruct (check_model false r (modelData m)) eqn:Hc.
  - apply check_model_spec in Hc. destruct IH as [[-> Hall]|(l & r' & l' & -> & Hl & Hr & s & -> & Hs)].
    + left. by split; [|constructor].
    + right. exists (r :: l), r', l'. split; [done|]. split; [by constructor|]. eauto.
  - right. exists [], r, models. split; [done|]. split; [done|].
    split; [by rewrite <-check_model_spec, Hc|]. case_bool_decide; by eexists.
Qed.
