(* ===== verification/Aliases.v ===== *)
(** * Aliases: client and server aliases of a subscription session

    Models [gnmi/server/aliases.go].  The two maps point at shared entries that
    are never written after they are made, so entries are values.  The mutex
    makes every operation atomic; an operation is a function of the state. *)

From Stdlib Require Import Ascii.
From S2P Require Export PathSpec.

(** ** State *)
Record aliasEntry : Type := mkAlias {
  ca_name : string;
  ca_path : string;
  ca_gpath : option Path;
  ca_isServer : bool
}.

Record clientAliases : Type := mkAliases {
  alias2path : gmap string aliasEntry;
  path2alias : gmap string aliasEntry;
  useServerAliases : bool
}.

Definition newClientAliases : clientAliases := mkAliases ∅ ∅ false.

(** Both maps at an entry: added, and removed by the entry found. *)
Definition alias_add (ca : aliasEntry) (cas : clientAliases) : clientAliases :=
  mkAliases (<[ca_name ca := ca]> (alias2path cas)) (<[ca_path ca := ca]> (path2alias cas))
    (useServerAliases cas).
Definition alias_delete (name : string) (ca : aliasEntry) (cas : clientAliases) : clientAliases :=
  mkAliases (delete name (alias2path cas)) (delete (ca_path ca) (path2alias cas))
    (useServerAliases cas).

Section aliases.
Context `{GoRange, ProtoClone}.

(** ** Server aliases *)
Fixpoint updateServerAliases_loop (add : bool) (entries : list (string * string))
    (cas : clientAliases) (aliaslist : list string) : outcome error (clientAliases * list string) :=
  match entries with
  | [] => mret (cas, aliaslist)
  | (name, path) :: entries =>
      if negb (HasPrefix name "#") then updateServerAliases_loop add entries cas aliaslist
      else
        match ToGNMIPath path with
        | Err _ => updateServerAliases_loop add entries cas aliaslist
        | Ok gpath =>
            if add then
              match alias2path cas !! name with
              | None =>
                  updateServerAliases_loop add entries
                    (alias_add (mkAlias name path (Some gpath) true) cas) (aliaslist ++ [name])
              | Some _ => updateServerAliases_loop add entries cas aliaslist
              end
            else
              match alias2path cas !! name with
              | Some ca =>
                  if ca_isServer ca
                  then updateServerAliases_loop add entries (alias_delete name ca cas) (aliaslist ++ [name])
                  else updateServerAliases_loop add entries cas aliaslist
              | None => updateServerAliases_loop add entries cas aliaslist
              end
        | Panic => Panic
        | Diverge => Diverge
        end
  end.

Definition updateServerAliases (cas : clientAliases) (serverAliases : gmap string string) (add : bool)
    : outcome error (clientAliases * list string) :=
  '(cas, aliaslist) ← updateServerAliases_loop add (go_range serverAliases) cas [];
  mret (mkAliases (alias2path cas) (path2alias cas) add, aliaslist).

(** ** Client aliases

    [gnmipb.Alias]: a path and a name.  An error leaves the state as it is. *)
Record Alias : Type := mkAliasMsg { al_Path : option Path; al_Alias : string }.

Definition updateClientAlias (cas : clientAliases) (alias : Alias) : outcome error clientAliases :=
  let name := al_Alias alias in
  if bool_decide (name = "") then
    Err (TaggedErrorf codes.InvalidArgument TagInvalidAlias "empty alias" [])
  else if negb (HasPrefix name "#") then
    Err (TaggedErrorf codes.InvalidArgument TagInvalidAlias
           "alias must start with '#'. e.g. %s" [AStr name])
  else
    let gpath := al_Path alias in
    if bool_decide (gpath = None) || (length (elems gpath) =? 0) then
      match alias2path cas !! name with
      | Some ca => mret (alias_delete name ca cas)
      | None => mret cas
      end
    else
      let path := ToXPath gpath in
      match ValidateGNMIPath [gpath] with
      | Err _ => Err (TaggedErrorf codes.InvalidArgument TagInvalidAlias "invalid path '%s'" [AStr path])
      | Ok _ =>
          match path2alias cas !! path with
          | Some ca =>
              Err (TaggedErrorf codes.AlreadyExists TagInvalidAlias
                     "'%s'is already defined for '%s'" [AStr (ca_name ca); AStr path])
          | None =>
              match alias2path cas !! name with
              | Some ca =>
                  Err (TaggedErrorf codes.AlreadyExists TagInvalidAlias
                         "'%s' is already defined for '%s'" [AStr name; AStr (ca_path ca)])
              | None => mret (alias_add (mkAlias name path gpath false) cas)
              end
          end
      | Panic => Panic
      | Diverge => Diverge
      end.

(** The aliases set before the first that fails stay set. *)
Fixpoint updateClientAliases_loop (cas : clientAliases) (aliases : list Alias) (aliasname : list string)
    : outcome error (clientAliases * list string * option error) :=
  match aliases with
  | [] => mret (cas, aliasname, None)
  | alias :: aliases =>
      match updateClientAlias cas alias with
      | Err err => mret (cas, aliasname, Some err)
      | Ok cas => updateClientAliases_loop cas aliases (aliasname ++ [al_Alias alias])
      | Panic => Panic
      | Diverge => Diverge
      end
  end.

Definition updateClientAliases (cas : clientAliases) (aliases : list Alias)
    : outcome error (clientAliases * list string * option error) :=
  updateClientAliases_loop cas aliases [].

(** ** Conversions

    The [interface{}] arguments and results: a gNMI path or a string. *)
Inductive name_or_path : Type :=
  | NPath (p : option Path)
  | NString (s : string).

(** [o, _ := xpath.ToGNMIPath(a)]: nil on an error. *)
Definition ToGNMIPath_or_nil (s : string) : outcome error name_or_path :=
  match ToGNMIPath s with
  | Ok p => mret (NPath (Some p))
  | Err _ => mret (NPath None)
  | Panic => Panic
  | Diverge => Diverge
  end.

(** The alias a path starts with: only its first element is looked at. *)
Definition path_alias (cas : clientAliases) (a : Path) : option aliasEntry :=
  match elems (Some a) with
  | e :: _ => if HasPrefix (pe_Name e) "#" then alias2path cas !! pe_Name e else None
  | [] => None
  end.

Definition ToPath (cas : clientAliases) (alias : name_or_path) (diffFormat : bool)
    : outcome error name_or_path :=
  match alias with
  | NPath None => mret (if diffFormat then NString "" else NPath None)
  | NPath (Some a) =>
      match path_alias cas a with
      | Some ca =>
          if diffFormat then mret (NString (ca_path ca))
          else mret (NPath (UpdateGNMIPathElem (Some a) (ca_gpath ca)))
      | None => if diffFormat then mret (NString (ToXPath (Some a))) else mret (NPath (Some a))
      end
  | NString a =>
      match alias2path cas !! a with
      | Some ca => mret (if diffFormat then NPath (ca_gpath ca) else NString (ca_path ca))
      | None => if diffFormat then ToGNMIPath_or_nil a else mret (NString a)
      end
  end.

(** [ToAlias]: the fields of a nil path are read when it has an alias. *)
Definition ToAlias (cas : clientAliases) (path : name_or_path) (diffFormat : bool)
    : outcome error name_or_path :=
  match path with
  | NPath gpath =>
      let p := ToXPath gpath in
      match path2alias cas !! p with
      | Some ca =>
          if diffFormat then mret (NString (ca_name ca))
          else match gpath with
               | None => Panic
               | Some g => mret (NPath (Some (GNMIAliasPath (ca_name ca) (p_Target g) (p_Origin g))))
               end
      | None => mret (if diffFormat then NString p else NPath gpath)
      end
  | NString p =>
      match path2alias cas !! p with
      | Some ca =>
          mret (if diffFormat then NPath (Some (GNMIAliasPath (ca_name ca) "" "")) else NString (ca_name ca))
      | None => if diffFormat then ToGNMIPath_or_nil p else mret (NString p)
      end
  end.

(** ** The invariant: the two maps are inverse to each other *)
Definition consistent (cas : clientAliases) : Prop :=
  map_Forall (λ name ca, ca_name ca = name ∧ path2alias cas !! ca_path ca = Some ca) (alias2path cas) ∧
  map_Forall (λ path ca, ca_path ca = path ∧ alias2path cas !! ca_name ca = Some ca) (path2alias cas).

Lemma consistent_new : consistent newClientAliases.
Proof. split; apply map_Forall_empty. Qed.

Lemma consistent_add ca cas :
  consistent cas → alias2path cas !! ca_name ca = None → path2alias cas !! ca_path ca = None →
  consistent (alias_add ca cas).
Proof.
  intros [Ha Hp] Hname Hpath. split; cbn; apply map_Forall_insert_2.
  - by rewrite lookup_insert_eq.
  - intros name ca' Hca. destruct (Ha _ _ Hca) as [Hn Hc]. split; [done|].
    rewrite lookup_insert_ne; [done|]. intros Heq. by rewrite Heq, Hc in Hpath.
  - by rewrite lookup_insert_eq.
  - intros path ca' Hca. destruct (Hp _ _ Hca) as [Hn Hc]. split; [done|].
    rewrite lookup_insert_ne; [done|]. intros Heq. by rewrite Heq, Hc in Hname.
Qed.

Lemma consistent_delete name ca cas :
  consistent cas → alias2path cas !! name = Some ca → consistent (alias_delete name ca cas).
Proof.
  intros [Ha Hp] Hca. destruct (Ha _ _ Hca) as [Hname Hpath]. split; cbn.
  - intros name' ca' [Hne Hca']%lookup_delete_Some. destruct (Ha _ _ Hca') as [Hn Hc].
    split; [done|]. apply lookup_delete_Some. split; [|done]. intros Heq. rewrite <-Heq in Hc. congruence.
  - intros path' ca' [Hne Hca']%lookup_delete_Some. destruct (Hp _ _ Hca') as [Hn Hc].
    split; [done|]. apply lookup_delete_Some. split; [|done]. intros Heq. rewrite <-Heq in Hc. congruence.
Qed.

(** The entries of the server that can be added: names of aliases, texts of paths. *)
Definition server_alias (kv : string * string) : bool := HasPrefix kv.1 "#" && is_ok (ToGNMIPath kv.2).

Lemma updateServerAliases_loop_skip add kv entries cas l :
  server_alias kv = false →
  updateServerAliases_loop add (kv :: entries) cas l = updateServerAliases_loop add entries cas l.
Proof.
  destruct kv as [name path]. unfold server_alias. cbn [fst snd updateServerAliases_loop].
  pose proof (ToGNMIPath_returns path) as Hr.
  destruct (HasPrefix name "#"); [|done]. cbn [negb andb]. by destruct (ToGNMIPath path).
Qed.

Lemma server_alias_inv name path :
  server_alias (name, path) = true → HasPrefix name "#" = true ∧ ∃ g, ToGNMIPath path = Ok g.
Proof.
  unfold server_alias. cbn [fst snd]. rewrite andb_true_iff. intros [? Hg]. split; [done|].
  destruct (ToGNMIPath path) as [g| | |]; [by exists g|discriminate Hg..].
Qed.

(** A name that the server defines with a valid name and path. *)
Definition usable (entries : list (string * string)) (name : string) : Prop :=
  ∃ path, (name, path) ∈ entries ∧ server_alias (name, path) = true.

Lemma usable_cons n p entries name :
  usable ((n, p) :: entries) name ↔ (name = n ∧ server_alias (n, p) = true) ∨ usable entries name.
Proof.
  unfold usable. setoid_rewrite elem_of_cons. split.
  - intros (path & [[= -> ->]|Hin] & Hs); eauto.
  - intros [[-> Hs]|(path & Hin & Hs)]; eauto.
Qed.

(** Removing server aliases: exactly the server entries of the given names go. *)
Lemma updateServerAliases_loop_remove entries cas l :
  consistent cas →
  ∃ cas' l', updateServerAliases_loop false entries cas l = Ok (cas', l') ∧ consistent cas' ∧
    ∀ name ca, alias2path cas' !! name = Some ca ↔
      alias2path cas !! name = Some ca ∧ ¬ (ca_isServer ca = true ∧ usable entries name).
Proof.
  revert cas l. induction entries as [|[n p] entries IH]; intros cas l Hc.
  { exists cas, l. split; [done|]. split; [done|]. intros name ca. split; [|by intros []].
    intros Hca. split; [done|]. intros (_ & path & Hin & _). by apply elem_of_nil in Hin. }
  setoid_rewrite usable_cons. destruct (server_alias (n, p)) eqn:Hs.
  2: { rewrite updateServerAliases_loop_skip by done.
       destruct (IH cas l Hc) as (cas' & l' & -> & ? & Hiff). exists cas', l'. split; [done|].
       split; [done|]. intros name ca. rewrite Hiff. intuition done. }
  apply server_alias_inv in Hs as Hs'. destruct Hs' as (Hp & g & Hg).
  cbn [updateServerAliases_loop]. rewrite Hp, Hg. cbn [negb].
  destruct (alias2path cas !! n) as [ca0|] eqn:Hn; [destruct (ca_isServer ca0) eqn:Hsv|].
  - destruct (IH (alias_delete n ca0 cas) (l ++ [n])) as (cas' & l' & -> & ? & Hiff);
      [by apply consistent_delete|]. exists cas', l'. split; [done|]. split; [done|].
    intros name ca. rewrite Hiff. cbn [alias_delete alias2path]. rewrite lookup_delete_Some.
    destruct (decide (name = n)) as [->|Hne]; [|naive_solver].
    rewrite Hn. naive_solver.
  - destruct (IH cas l Hc) as (cas' & l' & -> & ? & Hiff). exists cas', l'. split; [done|].
    split; [done|]. intros name ca. rewrite Hiff.
    destruct (decide (name = n)) as [->|Hne]; [|naive_solver].
    rewrite Hn. split; [|naive_solver]. intros [[= ->] _]. split; [done|]. rewrite Hsv. naive_solver.
  - destruct (IH cas l Hc) as (cas' & l' & -> & ? & Hiff). exists cas', l'. split; [done|].
    split; [done|]. intros name ca. rewrite Hiff.
    destruct (decide (name = n)) as [->|Hne]; [|naive_solver].
    rewrite Hn. naive_solver.
Qed.

(** The paths of the server's aliases are distinct and not [used]. *)
Fixpoint fresh_paths (used : gset string) (entries : list (string * string)) : Prop :=
  match entries with
  | [] => True
  | (n, p) :: entries =>
      if server_alias (n, p) then (p ∉ used) ∧ fresh_paths ({[p]} ∪ used) entries
      else fresh_paths used entries
  end.

#[global] Instance fresh_paths_dec used entries : Decision (fresh_paths used entries).
Proof.
  revert used. induction entries as [|[n p] entries IH]; intros used; cbn; [apply _|].
  destruct (server_alias (n, p)); apply _.
Defined.

Lemma fresh_paths_mono (used1 used2 : gset string) entries :
  used1 ⊆ used2 → fresh_paths used2 entries → fresh_paths used1 entries.
Proof.
  revert used1 used2. induction entries as [|[n p] entries IH]; intros used1 used2 Hsub; [done|]. cbn.
  destruct (server_alias (n, p)); [|by apply IH]. intros [? Hf]. split; [set_solver|].
  eapply IH; [|done]. set_solver.
Qed.

Lemma updateServerAliases_loop_add entries cas l :
  consistent cas → fresh_paths (dom (path2alias cas)) entries →
  ∃ cas' l', updateServerAliases_loop true entries cas l = Ok (cas', l') ∧ consistent cas' ∧
    alias2path cas ⊆ alias2path cas' ∧
    ∀ n, usable entries n → is_Some (alias2path cas' !! n).
Proof.
  revert cas l. induction entries as [|[n p] entries IH]; intros cas l Hc Hf.
  { exists cas, l. split; [done|]. split; [done|]. split; [done|].
    intros n (path & Hin & _). by apply elem_of_nil in Hin. }
  setoid_rewrite usable_cons. cbn [fresh_paths] in Hf. destruct (server_alias (n, p)) eqn:Hs.
  2: { rewrite updateServerAliases_loop_skip by done.
       destruct (IH cas l Hc Hf) as (cas' & l' & -> & ? & ? & Hin).
       exists cas', l'. split_and!; [done..|]. intros n' [[_ ?]|Hu]; [done|by apply Hin]. }
  destruct Hf as [Hp Hf]. apply server_alias_inv in Hs as Hs'. destruct Hs' as (Hh & g & Hg).
  cbn [updateServerAliases_loop]. rewrite Hh, Hg. cbn [negb].
  destruct (alias2path cas !! n) as [ca0|] eqn:Hn.
  - destruct (IH cas l Hc) as (cas' & l' & -> & ? & Hsub & Hin); [eapply fresh_paths_mono, Hf; set_solver|].
    exists cas', l'. split_and!; [done..|].
    intros n' [[-> _]|Hu]; [|by apply Hin]. exists ca0. by eapply lookup_weaken.
  - destruct (IH (alias_add (mkAlias n p (Some g) true) cas) (l ++ [n])) as (cas' & l' & -> & ? & Hsub & Hin).
    { apply consistent_add; [done..|]. by apply not_elem_of_dom. }
    { cbn [alias_add path2alias ca_path]. by rewrite dom_insert_L. }
    exists cas', l'. cbn [alias_add alias2path ca_name] in Hsub. split_and!; [done..| |].
    + etrans; [|done]. by apply insert_subseteq.
    + intros n' [[-> _]|Hu]; [|by apply Hin]. eexists. eapply lookup_weaken; [apply lookup_insert_eq|done].
Qed.

(** One client alias: what the operation does to a consistent state. *)
Lemma updateClientAlias_cases cas alias :
  consistent cas →
  match updateClientAlias cas alias with
  | Ok cas' => consistent cas' ∧
      alias2path cas' = (if bool_decide (elems (al_Path alias) = [])
        then delete (al_Alias alias) (alias2path cas)
        else <[al_Alias alias := mkAlias (al_Alias alias) (ToXPath (al_Path alias)) (al_Path alias) false]>
               (alias2path cas))
  | Err _ => True
  | Panic | Diverge => False
  end.
Proof.
  intros Hc. unfold updateClientAlias. case_bool_decide; [done|].
  destruct (HasPrefix _ _); [|done]. cbn [negb].
  destruct (al_Path alias) as [g|] eqn:Hg.
  2: { cbn. destruct (alias2path cas !! al_Alias alias) as [ca|] eqn:Hca; cbn.
       - split; [by apply consistent_delete|done].
       - split; [done|]. by rewrite delete_id. }
  rewrite (bool_decide_false (Some g = None)) by done. cbn [orb].
  destruct (elems (Some g)) as [|e l] eqn:Hel; cbn [length Nat.eqb].
  { rewrite bool_decide_true by done.
    destruct (alias2path cas !! al_Alias alias) as [ca|] eqn:Hca; cbn.
    - split; [by apply consistent_delete|done].
    - split; [done|]. by rewrite delete_id. }
  rewrite bool_decide_false by done.
  assert (ValidateGNMIPath [Some g] = Ok (CloneGNMIPath (Some g))) as ->.
  { unfold ValidateGNMIPath, ValidateGNMIPath_loop, elems in *. by destruct (GetElem (Some g)). }
  destruct (path2alias cas !! _) as [ca|] eqn:Hp; [done|].
  destruct (alias2path cas !! _) as [ca|] eqn:Ha; [done|]. split; [|done].
  by apply consistent_add.
Qed.

Lemma updateClientAliases_loop_consistent cas aliases l :
  consistent cas →
  ∃ cas' names err, updateClientAliases_loop cas aliases l = Ok (cas', l ++ names, err) ∧
    consistent cas' ∧ names = take (length names) (al_Alias <$> aliases) ∧
    (err = None ↔ names = al_Alias <$> aliases).
Proof.
  revert cas l. induction aliases as [|a aliases IH]; intros cas l Hc.
  { exists cas, [], None. by rewrite List.app_nil_r. }
  cbn. pose proof (updateClientAlias_cases cas a Hc) as Ha.
  destruct (updateClientAlias cas a) as [cas1|e| |]; [|..|done|done].
  - destruct Ha as [Hc1 _]. destruct (IH cas1 (l ++ [al_Alias a]) Hc1) as (cas' & names & err & -> & ? & Hn & He).
    exists cas', (al_Alias a :: names), err. rewrite <-List.app_assoc. split; [done|]. split; [done|].
    cbn. rewrite He. split; [by f_equal|]. split; [by intros ->|by intros [= ->]].
  - exists cas, [], (Some e). rewrite List.app_nil_r. done.
Qed.
End aliases.

(** ** Theorems *)

(** C40. Client aliases keep the two maps inverse to each other: from a
    consistent state every sequence of client aliases, additions, deletions and
    failures, ends in a consistent state, and the returned names are the
    requested ones up to the first error. *)
Theorem updateClientAliases_consistent `{GoRange, ProtoClone} (cas : clientAliases) (aliases : list Alias) :
  consistent cas →
  ∃ cas' names err, updateClientAliases cas aliases = Ok (cas', names, err) ∧ consistent cas' ∧
    names = take (length names) (al_Alias <$> aliases) ∧ (err = None ↔ names = al_Alias <$> aliases).
Proof. intros Hc. apply (updateClientAliases_loop_consistent cas aliases [] Hc). Qed.

Lemma updateClientAliases_consistent_witness :
  let aliases := [mkAliasMsg (Some (mkPath "" None (Some [mkElem "system" None]) "")) "#sys";
                  mkAliasMsg None "#sys"; mkAliasMsg None "sys"] in
  ∃ cas' names err,
    @updateClientAliases canonical_range identity_clone newClientAliases aliases = Ok (cas', names, err) ∧
    consistent cas' ∧ names = take (length names) (al_Alias <$> aliases) ∧
    (err = None ↔ names = al_Alias <$> aliases).
Proof.
  intros aliases.
  exact (@updateClientAliases_consistent canonical_range identity_clone newClientAliases aliases consistent_new).
Defined.

(** Server aliases: removing them keeps the maps inverse and removes exactly
    the server's entries of the given valid names; adding them keeps the maps
    inverse and defines every valid name when their paths are distinct and
    unused. *)
Theorem updateServerAliases_consistent `{GoRange} (cas : clientAliases) (server : gmap string string) :
  consistent cas →
  (∃ cas' l, updateServerAliases cas server false = Ok (cas', l) ∧ consistent cas' ∧
     ∀ name ca, alias2path cas' !! name = Some ca ↔
       alias2path cas !! name = Some ca ∧ ¬ (ca_isServer ca = true ∧ usable (go_range server) name)) ∧
  (fresh_paths (dom (path2alias cas)) (go_range server) →
   ∃ cas' l, updateServerAliases cas server true = Ok (cas', l) ∧ consistent cas' ∧
     alias2path cas ⊆ alias2path cas' ∧
     ∀ name, usable (go_range server) name → is_Some (alias2path cas' !! name)).
Proof.
  intros Hc. unfold updateServerAliases. split.
  - destruct (updateServerAliases_loop_remove (go_range server) cas [] Hc) as (cas' & l & -> & Hc' & Hiff).
    rewrite outcome_bind_ret. by eexists _, _.
  - intros Hf.
    destruct (updateServerAliases_loop_add (go_range server) cas [] Hc Hf) as (cas' & l & -> & Hc' & Hsub & Hin).
    rewrite outcome_bind_ret. by eexists _, _.
Qed.

Lemma updateServerAliases_consistent_witness :
  let server := {["#a" := "/x"; "#b" := "/y"]} in
  let R := canonical_range in
  (∃ cas' l, updateServerAliases newClientAliases server false = Ok (cas', l) ∧ consistent cas' ∧
     ∀ name ca, alias2path cas' !! name = Some ca ↔
       alias2path newClientAliases !! name = Some ca ∧ ¬ (ca_isServer ca = true ∧ usable (go_range server) name)) ∧
  ∃ cas' l, updateServerAliases newClientAliases server true = Ok (cas', l) ∧ consistent cas' ∧
     alias2path newClientAliases ⊆ alias2path cas' ∧
     ∀ name, usable (go_range server) name → is_Some (alias2path cas' !! name).
Proof.
  intros server R.
  destruct (updateServerAliases_consistent newClientAliases server consistent_new) as [Hremove Hadd].
  split; [exact Hremove|]. apply Hadd. apply (bool_decide_unpack _). vm_compute. exact I.
Defined.

(** The server's map of two names for one path, in either order. *)
Lemma shared_range `{GoRange} :
  let m := {["#a" := "/x"; "#b" := "/x"]} : gmap string string in
  go_range m = [("#a", "/x"); ("#b", "/x")] ∨ go_range m = [("#b", "/x"); ("#a", "/x")].
Proof.
  intros m. assert (go_range m ≡ₚ [("#a", "/x"); ("#b", "/x")]) as Hp.
  { rewrite go_range_perm. apply (bool_decide_unpack _). vm_compute. exact I. }
  symmetry in Hp. by apply Permutation_length_2_inv in Hp.
Qed.

Lemma single_range `{GoRange} (k v : string) : go_range ({[k := v]} : gmap string string) = [(k, v)].
Proof.
  apply Permutation_length_1_inv. symmetry. rewrite go_range_perm. by rewrite map_to_list_singleton.
Qed.

(** Both orders are evaluated: [gone] is the name added last. *)
Ltac evaluate_shared Hr kept gone :=
  let x := constr:(Some (mkPath "" None (Some [mkElem "x" None]) "")) in
  exists (mkAliases {[kept := mkAlias kept "/x" x true; gone := mkAlias gone "/x" x true]}
            {["/x" := mkAlias gone "/x" x true]} true), [kept; gone], kept, gone;
  split; [unfold updateServerAliases; rewrite Hr; vm_compute; reflexivity|];
  split; [intros [Ha _]; destruct (Ha kept _ eq_refl) as [_ Heq]; discriminate Heq|];
  split_and!; [done|reflexivity..|];
  unfold updateServerAliases; rewrite single_range; eexists _, _;
  split; [reflexivity|]; split; reflexivity.

(** Two server aliases of one path break the correspondence, whatever the
    order of the map: both names lead to the path, the path leads to one of
    them, and when the server withdraws that one the path has no alias although
    the other is still defined. *)
Theorem updateServerAliases_shared_path `{GoRange, ProtoClone} :
  ∃ cas l (kept gone : string),
    updateServerAliases newClientAliases {["#a" := "/x"; "#b" := "/x"]} true = Ok (cas, l) ∧
    ¬ consistent cas ∧ kept ≠ gone ∧
    ToPath cas (NString kept) false = Ok (NString "/x") ∧
    ToPath cas (NString gone) false = Ok (NString "/x") ∧
    ToAlias cas (NString "/x") false = Ok (NString gone) ∧
    ∃ cas' l', updateServerAliases cas {[gone := "/x"]} false = Ok (cas', l') ∧
      ToPath cas' (NString kept) false = Ok (NString "/x") ∧
      ToAlias cas' (NString "/x") false = Ok (NString "/x").
Proof.
  destruct shared_range as [Hr|Hr].
  - evaluate_shared Hr "#a" "#b".
  - evaluate_shared Hr "#b" "#a".
Qed.

(** Conversions on a consistent state: a defined name leads to its path and
    the path back to the name, as texts and as gNMI paths, target and origin
    kept; what is not an alias, or has none, is converted to itself. *)
Theorem ToPath_ToAlias `{GoRange, ProtoClone} (cas : clientAliases) :
  consistent cas →
  (∀ name ca, alias2path cas !! name = Some ca →
     ToPath cas (NString name) false = Ok (NString (ca_path ca)) ∧
     ToAlias cas (NString (ca_path ca)) false = Ok (NString name) ∧
     (HasPrefix name "#" = true → ca_gpath ca ≠ None → ∀ target origin, ∃ q,
        ToPath cas (NPath (Some (GNMIAliasPath name target origin))) false = Ok (NPath (Some q)) ∧
        elems (Some q) = elems (ca_gpath ca) ∧ p_Target q = target ∧ p_Origin q = origin ∧
        (ToXPath (ca_gpath ca) = ca_path ca →
         ToAlias cas (NPath (Some q)) false = Ok (NPath (Some (GNMIAliasPath name target origin)))))) ∧
  (∀ name, alias2path cas !! name = None → ToPath cas (NString name) false = Ok (NString name)) ∧
  (∀ g, path2alias cas !! ToXPath g = None → ToAlias cas (NPath g) false = Ok (NPath g)).
Proof.
  intros [Ha Hp]. split; [|split].
  - intros name ca Hca. destruct (Ha _ _ Hca) as [Hname Hpath].
    cbn [ToPath ToAlias]. rewrite Hca, Hpath, Hname. split; [done|]. split; [done|].
    intros Hh Hg target origin. unfold ToPath, path_alias. cbn [GNMIAliasPath elems GetElem mbind option_bind p_Elem default from_option id pe_Name].
    rewrite Hh, Hca. destruct (ca_gpath ca) as [g|] eqn:Hgp; [|done].
    eexists. split; [done|]. split; [done|]. split; [done|]. split; [done|]. intros Hx.
    assert (∀ q, elems (Some q) = elems (Some g) → ToXPath (Some q) = ToXPath (Some g)) as Heq
      by by intros q Hq; unfold ToXPath; rewrite Hq.
    unfold ToAlias. match goal with |- context [ToXPath (Some ?q)] => rewrite (Heq q eq_refl) end.
    rewrite Hx, Hpath, Hname. done.
  - intros name Hn. cbn. by rewrite Hn.
  - intros g Hg. cbn. by rewrite Hg.
Qed.

Lemma ToPath_ToAlias_witness :
  let g := mkPath "" None (Some [mkElem "x" None]) "" in
  let cas := alias_add (mkAlias "#a" "/x" (Some g) false) newClientAliases in
  ToPath (H := canonical_range) (H0 := identity_clone) cas (NString "#a") false = Ok (NString "/x") ∧
  ToAlias (H := canonical_range) cas (NString "/x") false = Ok (NString "#a").
Proof.
  intros g cas.
  destruct (@ToPath_ToAlias canonical_range identity_clone cas) as [H _].
  { by apply consistent_add; [apply consistent_new|..]. }
  destruct (H "#a" (mkAlias "#a" "/x" (Some g) false) eq_refl) as (H1 & H2 & _). by split.
Defined.
