(* ===== verification/Cert.v ===== *)
(** * Cert: the gNOI certificate manager, its service and its target

    Models [gnoi/cert/manager.go], [gnoi/cert/server.go] and the notifier of
    [gnoi_target/gnoi_target.go].  Every exported operation of the manager holds
    its mutex, so it is a function of the state; the closures [accept] and
    [rollback] that an update returns are the data they capture.  A handler of
    the service is split at its [Recv] calls, so that sessions interleave. *)

From Stdlib Require Import ZArith.
From S2P Require Export Status.

(** ** Messages *)
Definition CertificateType_CT_X509 : Z := 1.
Definition KeyType_KT_RSA : Z := 1.

Record CSRParams : Type := mkCSRParams {
  csr_Type : Z; csr_KeyType : Z;
  csr_Country : string; csr_Organization : string; csr_OrganizationalUnit : string;
  csr_CommonName : string;
  (** What the client sends and the handlers do not read. *)
  csr_MinKeySize : Z; csr_State : string; csr_IpAddress : string
}.

Record Certificate : Type := mkCertificate { c_Type : Z; c_Certificate : string }.

(** The oneof of [InstallCertificateRequest] and [RotateCertificateRequest]. *)
Inductive cert_request : Type :=
  | GenerateCsr (certID : string) (params : option CSRParams)
  | LoadCertificate (cert : option Certificate) (cas : list Certificate)
  | FinalizeRotation
  | NoRequest.

(** The oneof of the two responses; the message of a signing request may lack
    the request. *)
Inductive cert_response : Type :=
  | GeneratedCsr (csr : option string)
  | LoadCertificateResponse
  | NoResponse.

(** [pkix.Name]: the fields the service and its client use. *)
Record pkix_Name : Type := mkName {
  Country : list string; Organization : list string; OrganizationalUnit : list string;
  Province : list string; CommonName : string
}.

Section cert.
(** Third-party code: certificates and the parsers of PEM and DER. *)
Context {x509 : Type}.
Context (pem_Decode : string → option string) (ParseCertificate : string → option x509).

(** ** The manager *)
Record Info : Type := mkInfo { i_certID : string; i_cert : x509; i_updated : Z }.

(** [m_pending] counts the goroutines [go cm.notify()] that have not run. *)
Record Manager : Type := mkManager {
  certInfo : gmap string (option Info);
  caBundle : list x509;
  locks : gset string;
  m_pending : nat
}.

Definition NewManager : Manager := mkManager ∅ [] ∅ 0.

Definition set_certInfo (f : gmap string (option Info) → gmap string (option Info)) (m : Manager) : Manager :=
  mkManager (f (certInfo m)) (caBundle m) (locks m) (m_pending m).
Definition set_caBundle (l : list x509) (m : Manager) : Manager :=
  mkManager (certInfo m) l (locks m) (m_pending m).
Definition set_locks (f : gset string → gset string) (m : Manager) : Manager :=
  mkManager (certInfo m) (caBundle m) (f (locks m)) (m_pending m).
(** [go cm.notify()]. *)
Definition go_notify (m : Manager) : Manager :=
  mkManager (certInfo m) (caBundle m) (locks m) (S (m_pending m)).

Definition PEMtox509 (bytes : string) : error + x509 :=
  match pem_Decode bytes with
  | None => inl (Errorf_plain "failed to decode PEM block" [])
  | Some der =>
      match ParseCertificate der with
      | None => inl (Errorf_plain "failed to decode DER bytes" [])
      | Some c => inr c
      end
  end.

(** The variables the closures of an update capture. *)
Record rotation : Type := mkRotation {
  r_certID : string;
  r_oldCertInfo : option Info;
  r_oldCABundle : option (list x509)
}.

(** The loop that decodes the new bundle. *)
Fixpoint decode_bundle (pems : list string) (newBundle : list x509) : error + list x509 :=
  match pems with
  | [] => inr newBundle
  | pem :: pems =>
      match PEMtox509 pem with
      | inl err => inl (Errorf_plain "failed to decode cert in CA Bundle: %v" [AMsg (error_text err)])
      | inr c => decode_bundle pems (newBundle ++ [c])
      end
  end.

(** [update]: what was written before an error stays written. *)
Definition update (now : Z) (requireExisting : bool) (certID : string) (pemCert : string)
    (pemCACerts : list string) (cm : Manager) : Manager * (error + rotation) :=
  let ok := bool_decide (is_Some (certInfo cm !! certID)) in
  if ok && negb requireExisting then
    (cm, inl (Errorf_plain "certificate id %q already exists" [AStr certID]))
  else if negb ok && requireExisting then
    (cm, inl (Errorf_plain "certificate ID %q does not exist" [AStr certID]))
  else if bool_decide (certID ∈ locks cm) then
    (cm, inl (Errorf_plain "an operation with certID %q is already in progress" [AStr certID]))
  else
    let cm := set_locks ({[certID]} ∪.) cm in
    match PEMtox509 pemCert with
    | inl err => (cm, inl (Errorf_plain "failed to decode Certificate: %v" [AMsg (error_text err)]))
    | inr x509Cert =>
        let oldCertInfo := mjoin (certInfo cm !! certID) in
        let cm := set_certInfo <[certID := Some (mkInfo certID x509Cert now)]> cm in
        if length pemCACerts =? 0 then
          (go_notify cm, inr (mkRotation certID oldCertInfo None))
        else
          match decode_bundle pemCACerts [] with
          | inl err => (cm, inl err)
          | inr newBundle =>
              let oldCABundle := caBundle cm in
              let cm := set_caBundle newBundle cm in
              (go_notify cm, inr (mkRotation certID oldCertInfo (Some oldCABundle)))
          end
    end.

Definition rollback (r : rotation) (cm : Manager) : Manager :=
  let cm := set_certInfo <[r_certID r := r_oldCertInfo r]> cm in
  let cm := match r_oldCABundle r with Some b => set_caBundle b cm | None => cm end in
  go_notify (set_locks (.∖ {[r_certID r]}) cm).

Definition accept (r : rotation) (cm : Manager) : Manager :=
  set_locks (.∖ {[r_certID r]}) cm.

Definition Manager_Install (now : Z) (certID pemCert : string) (pemCACerts : list string) (cm : Manager)
    : Manager * option error :=
  match update now false certID pemCert pemCACerts cm with
  | (cm, inl err) => (cm, Some err)
  | (cm, inr r) => (accept r cm, None)
  end.

Definition Manager_Rotate (now : Z) (certID pemCert : string) (pemCACerts : list string) (cm : Manager)
    : Manager * (error + rotation) :=
  update now true certID pemCert pemCACerts cm.

Definition GetCertInfo `{GoRange} (cm : Manager) : list (option Info) := (go_range (certInfo cm)).*2.

(** The loop of [Revoke]. *)
Fixpoint Revoke_loop (revoke : list string) (cm : Manager) (revoked : list string)
    (notRevoked : gmap string string) : Manager * list string * gmap string string :=
  match revoke with
  | [] => (cm, revoked, notRevoked)
  | certID :: revoke =>
      if bool_decide (certID ∈ locks cm) then
        Revoke_loop revoke cm revoked
          (<[certID := "an operation with this certID is in progress"]> notRevoked)
      else if bool_decide (is_Some (certInfo cm !! certID)) then
        Revoke_loop revoke (set_certInfo (delete certID) cm) (revoked ++ [certID]) notRevoked
      else Revoke_loop revoke cm revoked (<[certID := "does not exist"]> notRevoked)
  end.

Definition Revoke (revoke : list string) (cm : Manager) : Manager * list string * gmap string string :=
  let '(cm, revoked, notRevoked) := Revoke_loop revoke cm [] ∅ in
  (go_notify cm, revoked, notRevoked).

(** ** The service

    Third-party code: the creation of the signing request and the encoding of a
    certificate. *)
Context (createCSR : pkix_Name → error + string) (certPEMEncoder : x509 → string).

Definition GenCSR (subject : pkix_Name) : error + string :=
  match createCSR subject with
  | inl err => inl (Errorf_plain "failed to create CSR: %v" [AMsg (error_text err)])
  | inr pemCSR => inr pemCSR
  end.

(** A handler between two of its [Recv] calls. *)
Inductive session : Type :=
  | AwaitCSR (rotate : bool)
  | AwaitLoad (rotate : bool) (certID : string)
  | AwaitFinalize (r : rotation)
  | Done (err : option error).

(** What [Recv] returns, and whether a later [Send] of the same turn succeeds. *)
Record turn : Type := mkTurn { t_recv : error + cert_request; t_sent : option error; t_now : Z }.

Definition request_name (rotate : bool) : string :=
  if rotate then "RotateCertificateRequest" else "InstallCertificateRequest".

Definition fail (cm : Manager) (err : error) : outcome error (Manager * session * list cert_response) :=
  mret (cm, Done (Some err), []).

(** From the start of [Install] and [Rotate] to the second [Recv]. *)
Definition session_csr (rotate : bool) (t : turn) (cm : Manager)
    : outcome error (Manager * session * list cert_response) :=
  match t_recv t with
  | inl err =>
      fail cm (Errorf_plain ("failed to receive " +:+ request_name rotate +:+ ": %v") [AMsg (error_text err)])
  | inr (GenerateCsr certID None) => Panic
  | inr (GenerateCsr certID (Some params)) =>
      if negb (csr_Type params =? CertificateType_CT_X509)%Z then
        fail cm (Errorf_plain "certificate type %q not supported" [AInt (csr_Type params)])
      else if negb (csr_KeyType params =? KeyType_KT_RSA)%Z then
        fail cm (Errorf_plain "key type %q not supported" [AInt (csr_KeyType params)])
      else
        let subject := mkName [csr_Country params] [csr_Organization params]
                         [csr_OrganizationalUnit params] [] (csr_CommonName params) in
        match GenCSR subject with
        | inl err => fail cm (Errorf_plain "failed to generate CSR: %v" [AMsg (error_text err)])
        | inr pemCSR =>
            match t_sent t with
            | Some err => fail cm (Errorf_plain "failed to send GenerateCSRResponse: %v" [AMsg (error_text err)])
            | None => mret (cm, AwaitLoad rotate certID, [GeneratedCsr (Some pemCSR)])
            end
        end
  | inr _ => fail cm (Errorf_plain "expected GenerateCSRRequest, got something else" [])
  end.

(** The loop over [CaCertificates]. *)
Fixpoint ca_certificates (cas : list Certificate) (pemCACerts : list string) : error + list string :=
  match cas with
  | [] => inr pemCACerts
  | cert :: cas =>
      if negb (c_Type cert =? CertificateType_CT_X509)%Z
      then inl (Errorf_plain "unexpected Certificate type: %d" [AInt (c_Type cert)])
      else ca_certificates cas (pemCACerts ++ [c_Certificate cert])
  end.

(** From the second [Recv] to the end of [Install], or to the third [Recv] of
    [Rotate].  A failed [Send] of [Rotate] leaves the rotation pending. *)
Definition session_load (rotate : bool) (certID : string) (t : turn) (cm : Manager)
    : outcome error (Manager * session * list cert_response) :=
  match t_recv t with
  | inl err =>
      fail cm (Errorf_plain ("failed to receive " +:+ request_name rotate +:+ ": %v") [AMsg (error_text err)])
  | inr (LoadCertificate None _) => Panic
  | inr (LoadCertificate (Some cert) cas) =>
      if negb (c_Type cert =? CertificateType_CT_X509)%Z then
        fail cm (Errorf_plain "unexpected Certificate type: %d" [AInt (c_Type cert)])
      else
        match ca_certificates cas [] with
        | inl err => fail cm err
        | inr pemCACerts =>
            let sent cm s :=
              match t_sent t with
              | Some err =>
                  fail cm (Errorf_plain "failed to send LoadCertificateResponse: %v" [AMsg (error_text err)])
              | None => mret (cm, s, [LoadCertificateResponse])
              end in
            if rotate then
              match Manager_Rotate (t_now t) certID (c_Certificate cert) pemCACerts cm with
              | (cm, inl err) =>
                  fail cm (Errorf_plain "failed to load the Certificate: %v" [AMsg (error_text err)])
              | (cm, inr r) => sent cm (AwaitFinalize r)
              end
            else
              match Manager_Install (t_now t) certID (c_Certificate cert) pemCACerts cm with
              | (cm, Some err) =>
                  fail cm (Errorf_plain "failed to load the Certificate: %v" [AMsg (error_text err)])
              | (cm, None) => sent cm (Done None)
              end
        end
  | inr _ => fail cm (Errorf_plain "expected LoadCertificateRequest, got something else" [])
  end.

(** The end of [Rotate]. *)
Definition session_finalize (r : rotation) (t : turn) (cm : Manager)
    : outcome error (Manager * session * list cert_response) :=
  match t_recv t with
  | inl err =>
      fail (rollback r cm)
        (Errorf_plain "rolling back - failed to receive RotateCertificateRequest: %v" [AMsg (error_text err)])
  | inr FinalizeRotation => mret (accept r cm, Done None, [])
  | inr _ => fail (rollback r cm) (Errorf_plain "expected FinalizeRequest, got something else" [])
  end.

Definition session_step (s : session) (t : turn) (cm : Manager)
    : outcome error (Manager * session * list cert_response) :=
  match s with
  | AwaitCSR rotate => session_csr rotate t cm
  | AwaitLoad rotate certID => session_load rotate certID t cm
  | AwaitFinalize r => session_finalize r t cm
  | Done _ => mret (cm, s, [])
  end.

(** A handler alone on the manager: one turn per [Recv]. *)
Fixpoint run_session (s : session) (ts : list turn) (cm : Manager)
    : outcome error (Manager * session * list cert_response) :=
  match ts with
  | [] => mret (cm, s, [])
  | t :: ts =>
      '(cm, s, out) ← session_step s t cm;
      '(cm, s, out') ← run_session s ts cm;
      mret (cm, s, out ++ out')
  end.

Definition Server_Install (ts : list turn) (cm : Manager) := run_session (AwaitCSR false) ts cm.
Definition Server_Rotate (ts : list turn) (cm : Manager) := run_session (AwaitCSR true) ts cm.

(** [GetCertificates]: identifier, encoded certificate and time of every entry;
    a nil entry is dereferenced. *)
Fixpoint certificate_infos (l : list (option Info)) (r : list (string * Certificate * Z))
    : outcome error (list (string * Certificate * Z)) :=
  match l with
  | [] => mret r
  | None :: _ => Panic
  | Some ci :: l =>
      certificate_infos l
        (r ++ [(i_certID ci, mkCertificate CertificateType_CT_X509 (certPEMEncoder (i_cert ci)), i_updated ci)])
  end.

Definition GetCertificates `{GoRange} (cm : Manager) : outcome error (list (string * Certificate * Z)) :=
  certificate_infos (GetCertInfo cm) [].

Definition RevokeCertificates `{GoRange} (certIDs : list string) (cm : Manager)
    : Manager * list string * list (string * string) :=
  let '(cm, revoked, notRevoked) := Revoke certIDs cm in (cm, revoked, go_range notRevoked).

Definition CanGenerateCSR (KeyType CertType KeySize : Z) : bool :=
  (KeyType =? KeyType_KT_RSA)%Z && (CertType =? CertificateType_CT_X509)%Z &&
  (2048 <=? KeySize)%Z && (KeySize <=? 4096)%Z.

(** ** The target of [gnoi_target.go]

    [None] is no gRPC server yet, [Some authenticated] the mode of the server
    that [serve] runs. *)
Record target : Type := mkTarget { bootstrapping : bool; grpcServer : option bool }.

Definition target_notify (certs caCerts : nat) (t : target) : target :=
  let hasCredentials := negb (certs =? 0) && negb (caCerts =? 0) in
  if negb (Bool.eqb (bootstrapping t) (negb hasCredentials)) then
    mkTarget (negb (bootstrapping t)) (Some (bootstrapping t))
  else t.

(** [main]: the first notification triggers bootstrapping. *)
Definition target_main : target := target_notify 0 0 (mkTarget false None).

(** One goroutine of [notify] runs: it reads the counts at that time. *)
Definition run_notify (cm : Manager) (t : target) : Manager * target :=
  (mkManager (certInfo cm) (caBundle cm) (locks cm) (pred (m_pending cm)),
   target_notify (size (certInfo cm)) (length (caBundle cm)) t).

(** ** The system

    Handlers of several clients, revocations and pending notifications take
    turns; [allowed] restricts the turns that are considered. *)
Record system : Type := mkSystem {
  sys_m : Manager;
  sys_sessions : gmap nat session;
  sys_target : target
}.

Definition system_init : system := mkSystem NewManager ∅ target_main.

Inductive sys_step (allowed : session → turn → Prop) : system → system → Prop :=
  | step_open i rotate m ss tg :
      ss !! i = None →
      sys_step allowed (mkSystem m ss tg) (mkSystem m (<[i := AwaitCSR rotate]> ss) tg)
  | step_turn i s t m m' s' out ss tg :
      ss !! i = Some s → allowed s t → session_step s t m = Ok (m', s', out) →
      sys_step allowed (mkSystem m ss tg) (mkSystem m' (<[i := s']> ss) tg)
  | step_revoke ids m m' revoked notRevoked ss tg :
      Revoke ids m = (m', revoked, notRevoked) →
      sys_step allowed (mkSystem m ss tg) (mkSystem m' ss tg)
  | step_notify m m' ss tg tg' :
      0 < m_pending m → run_notify m tg = (m', tg') →
      sys_step allowed (mkSystem m ss tg) (mkSystem m' ss tg').
End cert.

Arguments Info : clear implicits.
Arguments Manager : clear implicits.
Arguments rotation : clear implicits.
Arguments session : clear implicits.
Arguments NewManager {x509}.
Arguments system : clear implicits.
Arguments mkSystem {x509}.
Arguments system_init {x509}.
