(* ===== verification/CertSpec.v ===== *)
(** * CertSpec: the theorems on certificate management

    An update either fails and changes nothing but, when a certificate does not
    decode, the lock; or it returns the two closures, of which one restores the
    state and the other keeps the change.  Sessions of the service interleave as
    steps of a system; as long as certificates decode and the load response is
    sent, the locks are the identifiers under rotation and the target's mode
    follows the stored credentials; without that, an identifier is locked for
    ever. *)

From Stdlib Require Import ZArith.
From S2P Require Export Cert.

Section revoke.
Context {x509 : Type}.
Implicit Types (cm : Manager x509).

(** No entry is a nil pointer. *)
Definition no_nil cm : Prop := map_Forall (λ _, is_Some) (certInfo cm).


(** ** Revocation *)
Lemma Revoke_loop_spec ids cm revoked notRevoked cm' revoked' notRevoked' :
  Revoke_loop ids cm revoked notRevoked = (cm', revoked', notRevoked') →
  caBundle cm' = caBundle cm ∧ locks cm' = locks cm ∧ m_pending cm' = m_pending cm ∧
  (∀ id, certInfo cm' !! id =
     if bool_decide ((id ∈ ids) ∧ (id ∉ locks cm)) then None else certInfo cm !! id) ∧
  ∃ gone, revoked' = revoked ++ gone ∧ NoDup gone ∧
    ∀ id, id ∈ gone ↔ id ∈ ids ∧ (id ∉ locks cm) ∧ is_Some (certInfo cm !! id).
Proof.
  revert cm revoked notRevoked. induction ids as [|id ids IH]; intros cm revoked notRevoked Hr.
  { cbn in Hr. injection Hr as <- <- <-. split_and!; try done.
    exists []. rewrite List.app_nil_r. split; [done|]. split; [constructor|]. set_solver. }
  cbn [Revoke_loop] in Hr. case_bool_decide as Hlock; [|case_bool_decide as Hex].
  - apply IH in Hr as (-> & -> & -> & Hinfo & gone & -> & Hnd & Hgone). split_and!; try done.
    + intros id'. rewrite Hinfo. do 2 case_bool_decide; set_solver.
    + exists gone. split_and!; [done..|]. set_solver.
  - apply IH in Hr as (-> & -> & -> & Hinfo & gone & -> & Hnd & Hgone). cbn in *. split_and!; try done.
    + intros id'. rewrite Hinfo. destruct (decide (id' = id)) as [->|Hne].
      * rewrite lookup_delete_eq. do 2 case_bool_decide; set_solver.
      * rewrite lookup_delete_ne by done. do 2 case_bool_decide; set_solver.
    + exists (id :: gone). rewrite <-List.app_assoc. split; [done|]. split.
      * constructor; [|done]. rewrite Hgone, lookup_delete_eq. intros (_ & _ & [? ?]). done.
      * intros id'. rewrite elem_of_cons, Hgone. destruct (decide (id' = id)) as [->|Hne]; [set_solver|].
        rewrite lookup_delete_ne by done. set_solver.
  - apply IH in Hr as (-> & -> & -> & Hinfo & gone & -> & Hnd & Hgone). split_and!; try done.
    + intros id'. rewrite Hinfo. destruct (decide (id' = id)) as [->|Hne].
      * apply eq_None_not_Some in Hex. rewrite Hex. by do 2 case_bool_decide.
      * do 2 case_bool_decide; set_solver.
    + exists gone. split_and!; [done..|]. intros id'. rewrite Hgone, elem_of_cons. naive_solver.
Qed.

(** Revocation keeps the locked certificates and announces the change. *)
Lemma Revoke_effect ids (m m' : Manager x509) revoked notRevoked :
  Revoke ids m = (m', revoked, notRevoked) →
  locks m' = locks m ∧ (no_nil m → no_nil m') ∧ 0 < m_pending m' ∧
  ∀ id, id ∈ locks m → certInfo m' !! id = certInfo m !! id.
Proof.
  unfold Revoke. destruct (Revoke_loop ids m [] ∅) as [[m1 rv] nr] eqn:Hr. intros [= <- <- <-].
  apply Revoke_loop_spec in Hr as (_ & Hl & _ & Hinfo & _). cbn. split_and!; [done| |lia|].
  - intros Hn id oi. cbn. rewrite Hinfo. case_bool_decide; [done|]. apply Hn.
  - intros id Hid. rewrite Hinfo. case_bool_decide; [|done]. by destruct H.
Qed.

End revoke.

Section spec.
Context {x509 : Type}.
Context (pem_Decode : string → option string) (ParseCertificate : string → option x509).
Abbreviation PEM := (PEMtox509 pem_Decode ParseCertificate).
Abbreviation update := (update pem_Decode ParseCertificate).
Implicit Types (cm : Manager x509) (r : rotation x509).

(** ** Update *)

Definition decodes (pem : string) : Prop := ∃ c, PEM pem = inr c.

Lemma decode_bundle_cases pems acc :
  match decode_bundle pem_Decode ParseCertificate pems acc with
  | inr bundle => Forall decodes pems ∧ length bundle = length acc + length pems
  | inl _ => ¬ Forall decodes pems
  end.
Proof.
  revert acc. induction pems as [|pem pems IH]; intros acc; cbn; [split; [done|lia]|].
  destruct (PEM pem) as [err|c] eqn:Hc.
  - intros [[c Hc'] _]%Forall_cons. by rewrite Hc in Hc'.
  - specialize (IH (acc ++ [c])). destruct (decode_bundle _ _ _ _).
    + by intros [_ Hall]%Forall_cons.
    + destruct IH as [Hall Hl]. split; [constructor; [by exists c|done]|].
      rewrite Hl, length_app. cbn. lia.
Qed.

(** The identifier is free for the operation: known for a rotation, unknown for
    an installation, and not locked. *)
Definition available (requireExisting : bool) (certID : string) cm : Prop :=
  bool_decide (is_Some (certInfo cm !! certID)) = requireExisting ∧ certID ∉ locks cm.

#[global] Instance available_dec q certID cm : Decision (available q certID cm).
Proof. unfold available. apply _. Defined.

(** The three results of an update. *)
Lemma update_cases now q certID pem pems cm :
  (¬ available q certID cm ∧ ∃ err, update now q certID pem pems cm = (cm, inl err)) ∨
  (available q certID cm ∧ ¬ Forall decodes (pem :: pems) ∧
     ∃ cm' err, update now q certID pem pems cm = (cm', inl err) ∧
       locks cm' = {[certID]} ∪ locks cm ∧ caBundle cm' = caBundle cm ∧
       m_pending cm' = m_pending cm ∧ ∀ id, id ≠ certID → certInfo cm' !! id = certInfo cm !! id) ∨
  (available q certID cm ∧ Forall decodes (pem :: pems) ∧
     ∃ c bundle, PEM pem = inr c ∧ length bundle = length pems ∧
       update now q certID pem pems cm =
         (mkManager (<[certID := Some (mkInfo certID c now)]> (certInfo cm))
            (if bool_decide (pems = []) then caBundle cm else bundle)
            ({[certID]} ∪ locks cm) (S (m_pending cm)),
          inr (mkRotation certID (mjoin (certInfo cm !! certID))
                 (if bool_decide (pems = []) then None else Some (caBundle cm))))).
Proof.
  unfold update, available.
  destruct (bool_decide (is_Some (certInfo cm !! certID))) eqn:Hex, q; cbn [negb andb];
    try (left; split; [naive_solver|eauto]; fail).
  all: destruct (bool_decide (certID ∈ locks cm)) eqn:Hlock;
    [left; apply bool_decide_eq_true in Hlock; split; [naive_solver|eauto]
    |apply bool_decide_eq_false in Hlock; right].
  all: destruct (PEM pem) as [err|c] eqn:Hpem;
    [left; split; [done|]; split;
       [intros [[c Hc] _]%Forall_cons; by rewrite Hpem in Hc|]; by eexists _, _|].
  all: destruct pems as [|pem1 pems]; cbn [length Nat.eqb];
    [right; split; [done|]; split; [by repeat constructor; exists c|]; by exists c, []|].
  all: pose proof (decode_bundle_cases (pem1 :: pems) []) as Hb;
    destruct (decode_bundle _ _ _ _) as [err|bundle].
  1, 3: left; split; [done|]; split; [by intros [_ Hall]%Forall_cons|];
    eexists _, _; split; [done|]; cbn; split_and!; [done..|];
    intros id Hid; by rewrite lookup_insert_ne.
  all: destruct Hb as [Hall Hl]; right; split; [done|];
    split; [by constructor; [exists c|]|]; by exists c, bundle.
Qed.

(** ** Accept and roll back *)

(** A successful rotation followed by its roll back restores the state; followed
    by its acceptance it installs the certificate and releases the lock. *)
Lemma rollback_restores now certID pem pems cm cm' r :
  map_Forall (λ _, is_Some) (certInfo cm) →
  update now true certID pem pems cm = (cm', inr r) →
  rollback r cm' = mkManager (certInfo cm) (caBundle cm) (locks cm) (S (S (m_pending cm))).
Proof.
  intros Hsome Hu.
  destruct (update_cases now true certID pem pems cm) as
    [(_ & err & Heq)|[(_ & _ & ? & ? & Heq & _)|([Hex Hlock] & _ & c & bundle & _ & _ & Heq)]];
    rewrite Heq in Hu; try discriminate Hu. injection Hu as <- <-.
  apply bool_decide_eq_true in Hex as [oi Hoi].
  destruct (Hsome _ _ Hoi) as [i ->]. rewrite Hoi.
  unfold rollback, go_notify, set_locks, set_certInfo, set_caBundle. cbn.
  rewrite insert_insert_eq, insert_id by done.
  assert (({[certID]} ∪ locks cm) ∖ {[certID]} = locks cm) as Hset by set_solver.
  case_bool_decide; cbn; by rewrite Hset.
Qed.

(** ** Turns of a session *)
Context (createCSR : pkix_Name → error + string).
Abbreviation session_step := (session_step pem_Decode ParseCertificate createCSR).

Lemma ca_certificates_ok cas acc pems :
  ca_certificates cas acc = inr pems → pems = acc ++ (c_Certificate <$> cas).
Proof.
  revert acc. induction cas as [|c cas IH]; intros acc Hc; cbn in Hc.
  - injection Hc as <-. by rewrite List.app_nil_r.
  - case_match; [done|]. apply IH in Hc as ->. cbn. by rewrite <-List.app_assoc.
Qed.

(** The certificates of a load request decode, and the response to a rotation
    is sent. *)
Definition clean (s : session x509) (t : turn) : Prop :=
  match s, t_recv t with
  | AwaitLoad rotate _, inr (LoadCertificate (Some c) cas) =>
      Forall decodes (c_Certificate <$> c :: cas) ∧ (rotate = true → t_sent t = None)
  | _, _ => True
  end.

Definition awaits (s : session x509) (r : rotation x509) : Prop := s = AwaitFinalize r.

(** Counts and pending notifications are those of [cm], or a notification is pending. *)
Definition settled cm cm' : Prop :=
  (certInfo cm' = certInfo cm ∧ caBundle cm' = caBundle cm ∧ m_pending cm' = m_pending cm) ∨
  0 < m_pending cm'.

Lemma no_nil_old cm id : no_nil cm → is_Some (certInfo cm !! id) → is_Some (mjoin (certInfo cm !! id)).
Proof. intros Hn [oi Hoi]. destruct (Hn _ _ Hoi) as [i ->]. rewrite Hoi. by exists i. Qed.

(** What a clean turn does: nothing to the locks, or it takes one with the
    rotation it starts to wait for, or releases that of the rotation it ends. *)
Inductive turn_effect (s : session x509) cm : session x509 → Manager x509 → Prop :=
  | effect_none s' cm' :
      (∀ r, ¬ awaits s r) → (∀ r, ¬ awaits s' r) → locks cm' = locks cm →
      (no_nil cm → no_nil cm') → settled cm cm' → turn_effect s cm s' cm'
  | effect_take r cm' :
      (∀ r, ¬ awaits s r) → r_certID r ∉ locks cm → locks cm' = {[r_certID r]} ∪ locks cm →
      (no_nil cm → is_Some (r_oldCertInfo r)) → (no_nil cm → no_nil cm') → settled cm cm' →
      turn_effect s cm (AwaitFinalize r) cm'
  | effect_release r s' cm' :
      awaits s r → (∀ r, ¬ awaits s' r) → locks cm' = locks cm ∖ {[r_certID r]} →
      (is_Some (r_oldCertInfo r) → no_nil cm → no_nil cm') → settled cm cm' →
      turn_effect s cm s' cm'.

Lemma no_nil_insert id i cm : no_nil cm → map_Forall (λ _, is_Some) (<[id := Some i]> (certInfo cm)).
Proof. intros Hn. by apply map_Forall_insert_2. Qed.

Lemma effect_fail s cm e : (∀ r, ¬ awaits s r) → turn_effect s cm (Done e) cm.
Proof. intros Hs. apply effect_none; try done. by left. Qed.

Lemma session_load_effect rotate id t cm cm' s' out :
  clean (AwaitLoad rotate id) t →
  session_load pem_Decode ParseCertificate rotate id t cm = Ok (cm', s', out) →
  turn_effect (AwaitLoad rotate id) cm s' cm'.
Proof.
  assert (∀ r, ¬ awaits (AwaitLoad rotate id) r) as Hno by done.
  unfold session_load, clean, fail. cbv [mret outcome_ret]. intros Hclean Hstep.
  destruct (t_recv t) as [err|[|[c|] cas| |]]; try discriminate Hstep;
    try (injection Hstep as <- <- <-; by apply effect_fail).
  destruct Hclean as [Hdec Hsent].
  case_match; [injection Hstep as <- <- <-; by apply effect_fail|].
  destruct (ca_certificates cas []) as [err|pems] eqn:Hcas; [injection Hstep as <- <- <-; by apply effect_fail|].
  apply ca_certificates_ok in Hcas as ->. rewrite List.app_nil_l in Hstep.
  unfold Manager_Rotate, Manager_Install in Hstep. destruct rotate.
  - destruct (update_cases (t_now t) true id (c_Certificate c) (c_Certificate <$> cas) cm) as
      [(_ & err & Heq)|[(_ & Hnot & _)|([Hex Hlock] & _ & x & bundle & _ & _ & Heq)]]; [| by destruct Hnot|];
      rewrite Heq in Hstep.
    + injection Hstep as <- <- <-. by apply effect_fail.
    + rewrite Hsent in Hstep by done. injection Hstep as <- <- <-. apply effect_take; try done.
      * intros Hsome. apply no_nil_old; [done|]. by apply bool_decide_eq_true in Hex.
      * intros Hsome. by apply no_nil_insert.
      * right. cbn. lia.
  - destruct (update_cases (t_now t) false id (c_Certificate c) (c_Certificate <$> cas) cm) as
      [(_ & err & Heq)|[(_ & Hnot & _)|([_ Hlock] & _ & x & bundle & _ & _ & Heq)]]; [| by destruct Hnot|];
      rewrite Heq in Hstep.
    + injection Hstep as <- <- <-. by apply effect_fail.
    + assert (∃ e, s' = Done e ∧ cm' = accept (mkRotation id (mjoin (certInfo cm !! id))
          (if bool_decide (c_Certificate <$> cas = []) then None else Some (caBundle cm))) _) as (e & -> & ->)
        by (destruct (t_sent t); injection Hstep as <- <- <-; by eexists).
      apply effect_none; try done.
      * unfold accept, set_locks. cbn. set_solver.
      * intros Hsome. by apply no_nil_insert.
      * right. cbn. lia.
Qed.

Lemma session_step_effect s t cm cm' s' out :
  clean s t → session_step s t cm = Ok (cm', s', out) → turn_effect s cm s' cm' ∨ (s' = s ∧ cm' = cm).
Proof.
  destruct s as [rotate|rotate id|r|e]; cbn [Cert.session_step]; intros Hclean Hstep.
  - left. unfold session_csr, fail in Hstep. cbv [mret outcome_ret] in Hstep.
    repeat case_match; try discriminate Hstep; injection Hstep as <- <- <-; try (by apply effect_fail).
    apply effect_none; try done. by left.
  - left. by eapply session_load_effect.
  - left. unfold session_finalize, fail in Hstep. cbv [mret outcome_ret] in Hstep.
    assert (∀ e, turn_effect (AwaitFinalize r) cm (Done e) (rollback r cm)) as Hroll.
    { intros e. apply effect_release with r; try done.
      - unfold rollback. by destruct (r_oldCABundle r).
      - intros [i Hi] Hn. unfold rollback, no_nil. rewrite Hi.
        destruct (r_oldCABundle r); by apply no_nil_insert.
      - right. unfold rollback. cbn. lia. }
    repeat case_match; injection Hstep as <- <- <-; try apply Hroll.
    apply effect_release with r; try done. by left.
  - right. cbv [mret outcome_ret] in Hstep. by injection Hstep as <- <- <-.
Qed.

(** ** The system *)
Abbreviation sys_step := (sys_step pem_Decode ParseCertificate createCSR).

(** A session that waits to end its rotation holds the lock of its identifier,
    alone, and can roll back to an existing certificate. *)
Record locks_owned (m : Manager x509) (ss : gmap nat (session x509)) : Prop := {
  held : ∀ i r, ss !! i = Some (AwaitFinalize r) → r_certID r ∈ locks m ∧ is_Some (r_oldCertInfo r);
  held_once : ∀ i j r r', ss !! i = Some (AwaitFinalize r) → ss !! j = Some (AwaitFinalize r') →
    r_certID r = r_certID r' → i = j;
  held_no_nil : no_nil m
}.

(** Nothing else is locked. *)
Definition locks_needed (m : Manager x509) (ss : gmap nat (session x509)) : Prop :=
  ∀ id, id ∈ locks m → ∃ i r, ss !! i = Some (AwaitFinalize r) ∧ r_certID r = id.

Definition locks_held m ss : Prop := locks_owned m ss ∧ locks_needed m ss.

(** The waiting sessions after a turn that neither starts nor ends to wait. *)
Lemma waiting_insert (ss : gmap nat (session x509)) i s' j r :
  (∀ s, ss !! i = Some s → ∀ r, ¬ awaits s r) → (∀ r, ¬ awaits s' r) →
  <[i := s']> ss !! j = Some (AwaitFinalize r) ↔ ss !! j = Some (AwaitFinalize r).
Proof.
  intros Hold Hnew. destruct (decide (j = i)) as [->|Hne]; [|by rewrite lookup_insert_ne].
  rewrite lookup_insert_eq. split; [intros [= ->]; by destruct (Hnew r)|].
  intros Hi. by destruct (Hold _ Hi r).
Qed.

Lemma locks_owned_no_await m m' ss i s' :
  locks_owned m ss → (∀ s, ss !! i = Some s → ∀ r, ¬ awaits s r) → (∀ r, ¬ awaits s' r) →
  locks m ⊆ locks m' → no_nil m' → locks_owned m' (<[i := s']> ss).
Proof.
  intros [Hheld Honce _] Hold Hnew Hlocks Hnn. split; [| |done].
  - intros j r. rewrite waiting_insert by done. intros Hj. destruct (Hheld _ _ Hj). set_solver.
  - intros j k r r'. rewrite !waiting_insert by done. apply Honce.
Qed.

Lemma locks_needed_no_await m m' ss i s' :
  locks_needed m ss → (∀ s, ss !! i = Some s → ∀ r, ¬ awaits s r) → (∀ r, ¬ awaits s' r) →
  locks m' = locks m → locks_needed m' (<[i := s']> ss).
Proof.
  intros Hby Hold Hnew Hlocks id. rewrite Hlocks. intros (j & r & Hj & Hr)%Hby. exists j, r.
  by rewrite waiting_insert.
Qed.

Lemma locks_owned_effect m m' ss i s s' :
  locks_owned m ss → ss !! i = Some s → turn_effect s m s' m' → locks_owned m' (<[i := s']> ss).
Proof.
  intros Hinv Hi Heff. pose proof Hinv as [Hheld Honce Hnn].
  destruct Heff as [s' m' Hs Hs' Hlocks Hn _|r m' Hs Hfree Hlocks Hold Hn _|r s' m' -> Hs' Hlocks Hn _].
  - apply (locks_owned_no_await m); auto; [by intros s0 [= <-]%(eq_trans (eq_sym Hi))|by rewrite Hlocks].
  - assert (∀ j r', <[i := AwaitFinalize r]> ss !! j = Some (AwaitFinalize r') →
      (j = i ∧ r' = r) ∨ (j ≠ i ∧ ss !! j = Some (AwaitFinalize r') ∧ r_certID r' ≠ r_certID r)) as Hcase.
    { intros j r'. destruct (decide (j = i)) as [->|Hne]; [rewrite lookup_insert_eq; intros [= ->]; by left|].
      rewrite lookup_insert_ne by done. intros Hj. right. split_and!; [done..|].
      intros Heq. apply Hfree. rewrite <-Heq. by apply (Hheld j). }
    split; [| |by auto].
    + intros j r' [[-> ->]|(_ & Hj & _)]%Hcase; rewrite Hlocks; [set_solver|].
      destruct (Hheld _ _ Hj). set_solver.
    + intros j k r1 r2 [[-> ->]|(Hji & Hj & Hne)]%Hcase [[-> ->]|(Hki & Hk & Hne')]%Hcase Heq;
        first [done | by destruct Hne | by destruct Hne' | by eapply Honce].
  - destruct (Hheld _ _ Hi) as [Hin Hold].
    assert (∀ j r', <[i := s']> ss !! j = Some (AwaitFinalize r') →
      ss !! j = Some (AwaitFinalize r') ∧ r_certID r' ≠ r_certID r) as Hcase.
    { intros j r'. destruct (decide (j = i)) as [->|Hne].
      - rewrite lookup_insert_eq. intros [= ->]. by destruct (Hs' r').
      - rewrite lookup_insert_ne by done. intros Hj. split; [done|]. intros Heq.
        apply Hne. by apply (Honce j i r' r). }
    split; [| |by auto].
    + intros j r' [Hj Hne]%Hcase. rewrite Hlocks. destruct (Hheld _ _ Hj). set_solver.
    + intros j k r1 r2 [Hj _]%Hcase [Hk _]%Hcase. by apply Honce.
Qed.

Lemma locks_needed_effect m m' ss i s s' :
  locks_needed m ss → ss !! i = Some s → turn_effect s m s' m' → locks_needed m' (<[i := s']> ss).
Proof.
  intros Hby Hi Heff.
  destruct Heff as [s' m' Hs Hs' Hlocks _ _|r m' Hs Hfree Hlocks _ _ _|r s' m' -> Hs' Hlocks _ _].
  - apply (locks_needed_no_await m); auto. by intros s0 [= <-]%(eq_trans (eq_sym Hi)).
  - intros id. rewrite Hlocks. intros [->%elem_of_singleton|Hid]%elem_of_union.
    + exists i, r. by rewrite lookup_insert_eq.
    + destruct (Hby _ Hid) as (j & r' & Hj & Hr). exists j, r'. rewrite lookup_insert_ne; [done|].
      intros <-. rewrite Hi in Hj. injection Hj as ->. by apply (Hs r').
  - intros id. rewrite Hlocks. intros [Hid Hne]%elem_of_difference.
    destruct (Hby _ Hid) as (j & r' & Hj & Hr). exists j, r'. rewrite lookup_insert_ne; [done|].
    intros <-. rewrite Hi in Hj. injection Hj as <-. set_solver.
Qed.

(** A turn of any kind: it has the effect of a clean turn, or it ends its
    session and may leave a lock behind. *)
Definition leaves_lock (s : session x509) cm (s' : session x509) cm' : Prop :=
  (∀ r, ¬ awaits s r) ∧ (∀ r, ¬ awaits s' r) ∧ locks cm ⊆ locks cm' ∧ (no_nil cm → no_nil cm').

Lemma update_leaves_lock now q certID pem pems cm cm' res :
  update now q certID pem pems cm = (cm', res) → locks cm ⊆ locks cm' ∧ (no_nil cm → no_nil cm').
Proof.
  unfold update, no_nil. intros Hu. repeat case_match; simplify_eq; cbn; (split; [set_solver|]); try done;
    intros Hn; by apply map_Forall_insert_2.
Qed.

Lemma session_step_any s t cm cm' s' out :
  session_step s t cm = Ok (cm', s', out) →
  turn_effect s cm s' cm' ∨ (s' = s ∧ cm' = cm) ∨ leaves_lock s cm s' cm'.
Proof.
  intros Hstep. destruct s as [rotate|rotate id|r|e];
    try (eapply session_step_effect in Hstep as [?|?]; [by left|by right; left|done]).
  destruct (t_recv t) as [err|[|[c|] cas| |]] eqn:Ht;
    try (eapply session_step_effect in Hstep as [?|?]; [by left|by right; left|unfold clean; by rewrite Ht]).
  cbn [Cert.session_step] in Hstep. pose proof Hstep as Hload. unfold session_load, fail in Hload. rewrite Ht in Hload.
  cbv [mret outcome_ret] in Hload.
  assert (∀ e, turn_effect (AwaitLoad rotate id) cm (Done e) cm) as Hfail by (intros e; by apply effect_fail).
  case_match; [injection Hload as <- <- <-; by left|].
  destruct (ca_certificates cas []) as [err|pems] eqn:Hcas; [injection Hload as <- <- <-; by left|].
  apply ca_certificates_ok in Hcas as ->. rewrite List.app_nil_l in Hload. unfold Manager_Rotate, Manager_Install in Hload.
  assert (leaves_lock (AwaitLoad rotate id) cm s' cm' ∨ turn_effect (AwaitLoad rotate id) cm s' cm') as Hdone; [|tauto].
  pose proof (update_leaves_lock (t_now t) rotate id (c_Certificate c) (c_Certificate <$> cas) cm) as Hup.
  destruct (update_cases (t_now t) rotate id (c_Certificate c) (c_Certificate <$> cas) cm) as
    [(_ & err & Heq)|[(_ & _ & cm2 & err & Heq & _)|(_ & Hdec & x & bundle & _ & _ & Heq)]];
    destruct (Hup _ _ Heq) as [Hsub Hnn].
  - right. destruct rotate; rewrite Heq in Hload; injection Hload as <- <- <-; apply Hfail.
  - left. destruct rotate; rewrite Heq in Hload; injection Hload as <- <- <-; by split_and!.
  - destruct rotate; [rewrite Heq in Hload; destruct (t_sent t) eqn:Hs|].
    + left. injection Hload as <- <- <-. by split_and!.
    + right. eapply session_load_effect; [|exact Hstep]. unfold clean. by rewrite Ht.
    + right. eapply session_load_effect; [|exact Hstep]. unfold clean. by rewrite Ht.
Qed.


(** The target runs the mode that the stored credentials ask for, unless a
    notification is still to run. *)
Definition has_credentials (m : Manager x509) : bool :=
  negb (size (certInfo m) =? 0) && negb (length (caBundle m) =? 0).

Definition mode_follows (m : Manager x509) (tg : target) : Prop :=
  grpcServer tg = Some (negb (bootstrapping tg)) ∧
  (m_pending m = 0 → bootstrapping tg = negb (has_credentials m)).

Lemma mode_follows_settled m m' tg : settled m m' → mode_follows m tg → mode_follows m' tg.
Proof.
  intros [(Hi & Hb & Hp)|Hp] [Hs Hm]; (split; [done|]).
  - unfold has_credentials. by rewrite Hp, Hi, Hb.
  - lia.
Qed.

Lemma mode_follows_notify m tg :
  grpcServer tg = Some (negb (bootstrapping tg)) →
  mode_follows (run_notify m tg).1 (run_notify m tg).2.
Proof.
  intros Hs. unfold run_notify, mode_follows, target_notify, has_credentials. cbn [fst snd certInfo caBundle].
  destruct (negb (size _ =? 0) && _) eqn:Hc, (bootstrapping tg) eqn:Hb; cbn; rewrite ?Hc, ?Hb; done.
Qed.

Definition sys_inv (st : system x509) : Prop :=
  locks_held (sys_m st) (sys_sessions st) ∧ mode_follows (sys_m st) (sys_target st).

Lemma sys_inv_init : sys_inv system_init.
Proof.
  by split; [split; [split|]|split].
Qed.

(** Whatever the turns, a session that waits owns its lock. *)
Lemma locks_owned_step st st' :
  sys_step (λ _ _, True) st st' → locks_owned (sys_m st) (sys_sessions st) → locks_owned (sys_m st') (sys_sessions st').
Proof.
  intros Hstep Hl. destruct Hstep as
    [i rotate m ss tg Hi|i s t m m' s' out ss tg Hi _ Hs|ids m m' rv nr ss tg Hr|m m' ss tg tg' Hp Hr];
    cbn in *.
  - apply (locks_owned_no_await m); try done; [|apply Hl]. intros s Hs. congruence.
  - apply session_step_any in Hs as [Heff|[[-> ->]|(Ha & Ha' & Hsub & Hn)]]; [by eapply locks_owned_effect|by rewrite insert_id|].
    apply (locks_owned_no_await m); try done; [|by apply Hn, Hl]. by intros s0 [= <-]%(eq_trans (eq_sym Hi)).
  - apply Revoke_effect in Hr as (Hlk & Hn & _ & _). destruct Hl as [Hheld Honce Hnn]. split; [by rewrite Hlk|done|by auto].
  - destruct Hl as [Hheld Honce Hnn]. unfold run_notify in Hr. injection Hr as <- <-. by split.
Qed.

Lemma sys_inv_step st st' : sys_step clean st st' → sys_inv st → sys_inv st'.
Proof.
  intros Hstep [Hl Hm]. destruct Hstep as
    [i rotate m ss tg Hi|i s t m m' s' out ss tg Hi Hok Hs|ids m m' rv nr ss tg Hr|m m' ss tg tg' Hp Hr];
    cbn in *.
  - assert (∀ s, ss !! i = Some s → ∀ r, ¬ awaits s r) as Hno by (intros s Hs; congruence).
    destruct Hl as [Ho Hb]. split; [split|done]; cbn.
    + apply (locks_owned_no_await m); try done. apply Ho.
    + by apply (locks_needed_no_await m).
  - apply session_step_effect in Hs as [Heff|[-> ->]]; [|split; [by rewrite insert_id|done]|done].
    split; cbn; [destruct Hl; split; [by eapply locks_owned_effect|by eapply locks_needed_effect]|].
    eapply mode_follows_settled; [|done]. by destruct Heff.
  - apply Revoke_effect in Hr as (Hlk & Hn & Hp & _). split; cbn.
    + destruct Hl as [[Hheld Honce Hnn] Hby]. split; [split; [by rewrite Hlk|done|by auto]|]. intros id. rewrite Hlk. apply Hby.
    + split; [apply Hm|]. lia.
  - split; cbn.
    + destruct Hl as [[Hheld Honce Hnn] Hby]. unfold run_notify in Hr. injection Hr as <- <-. by split; [split|].
    + pose proof (mode_follows_notify m tg (proj1 Hm)) as Hmode. by rewrite Hr in Hmode.
Qed.

(** ** Identifiers that stay locked *)

(** An identifier that is locked although no session waits to end its rotation. *)
Definition stuck (id : string) (m : Manager x509) (ss : gmap nat (session x509)) : Prop :=
  id ∈ locks m ∧ ∀ i r, ss !! i = Some (AwaitFinalize r) → r_certID r ≠ id.

Lemma update_locked now q id id' pem pems cm cm' res :
  id ∈ locks cm → update now q id' pem pems cm = (cm', res) →
  id ∈ locks cm' ∧ certInfo cm' !! id = certInfo cm !! id ∧
  (∀ r, res = inr r → r_certID r ≠ id) ∧ (id' = id → ∃ err, res = inl err).
Proof.
  intros Hid Hu. destruct (decide (id' = id)) as [->|Hne].
  - destruct (update_cases now q id pem pems cm) as
      [(_ & err & Heq)|[([_ Hl] & _)|([_ Hl] & _)]]; [|done..].
    rewrite Heq in Hu. injection Hu as <- <-. split_and!; [done..|]. eauto.
  - destruct (update_cases now q id' pem pems cm) as
      [(_ & err & Heq)|[(_ & _ & cm1 & err & Heq & Hl & _ & _ & Hinfo)|(_ & _ & c & bundle & _ & _ & Heq)]];
      rewrite Heq in Hu; injection Hu as <- <-.
    + by split_and!.
    + rewrite Hl, Hinfo by done. split_and!; try done. set_solver.
    + cbn. rewrite lookup_insert_ne by done. split_and!; try done; [set_solver|]. by intros r [= <-].
Qed.

Lemma session_step_other id s t cm cm' s' out :
  id ∈ locks cm → (∀ r, awaits s r → r_certID r ≠ id) → session_step s t cm = Ok (cm', s', out) →
  id ∈ locks cm' ∧ certInfo cm' !! id = certInfo cm !! id ∧ ∀ r, awaits s' r → r_certID r ≠ id.
Proof.
  intros Hid Hs Hstep. destruct s as [rotate|rotate id'|r|e]; cbn [Cert.session_step] in Hstep.
  - unfold session_csr, fail in Hstep. cbv [mret outcome_ret] in Hstep.
    repeat case_match; try discriminate Hstep; by injection Hstep as <- <- <-.
  - unfold session_load, fail in Hstep. cbv [mret outcome_ret] in Hstep.
    unfold Manager_Rotate, Manager_Install in Hstep.
    repeat (case_match; try discriminate Hstep); simplify_eq; try done;
      match goal with Hu : update _ _ _ _ _ _ = _ |- _ =>
        apply (update_locked _ _ id) in Hu as (Hl & Hi & Hr & Herr); [|done] end;
      try (by split_and!);
      try (split_and!; [done..|]; intros r' [= <-]; by apply Hr).
    all: assert (id' ≠ id) by (intros Heq; by destruct (Herr Heq)).
    all: match goal with |- context [accept ?r ?m] =>
      assert (r_certID r ≠ id) by by apply Hr end.
    all: split_and!; [|done..]; unfold accept; cbn; set_solver.
  - unfold session_finalize, fail in Hstep. cbv [mret outcome_ret] in Hstep.
    specialize (Hs r eq_refl).
    assert (id ∈ locks (rollback r cm) ∧ certInfo (rollback r cm) !! id = certInfo cm !! id) as [Hl Hi].
    { unfold rollback. destruct (r_oldCABundle r); cbn; rewrite lookup_insert_ne by done; set_solver. }
    repeat case_match; injection Hstep as <- <- <-; try done.
    split_and!; [|done..]. unfold accept. cbn. set_solver.
  - cbv [mret outcome_ret] in Hstep. by injection Hstep as <- <- <-.
Qed.

Lemma stuck_step allowed id st st' :
  sys_step allowed st st' → stuck id (sys_m st) (sys_sessions st) →
  stuck id (sys_m st') (sys_sessions st') ∧ certInfo (sys_m st') !! id = certInfo (sys_m st) !! id.
Proof.
  intros Hstep [Hid Hss]. destruct Hstep as
    [i rotate m ss tg Hi|i s t m m' s' out ss tg Hi Hok Hs|ids m m' rv nr ss tg Hr|m m' ss tg tg' Hp Hr];
    cbn in *.
  - split; [split; [done|]|done]. intros j r. destruct (decide (j = i)) as [->|Hne].
    + by rewrite lookup_insert_eq.
    + rewrite lookup_insert_ne by done. apply Hss.
  - apply (session_step_other id) in Hs as (Hl & Hinfo & Hs'); [|done|intros r ->; by eapply Hss].
    split; [split; [done|]|done]. intros j r. destruct (decide (j = i)) as [->|Hne].
    + rewrite lookup_insert_eq. intros [= ->]. by apply Hs'.
    + rewrite lookup_insert_ne by done. apply Hss.
  - apply Revoke_effect in Hr as (Hlk & _ & _ & Hinfo). split; [split; [by rewrite Hlk|done]|by apply Hinfo].
  - unfold run_notify in Hr. by injection Hr as <- <-.
Qed.

Lemma stuck_forever allowed id st st' :
  rtc (sys_step allowed) st st' → stuck id (sys_m st) (sys_sessions st) →
  stuck id (sys_m st') (sys_sessions st') ∧ certInfo (sys_m st') !! id = certInfo (sys_m st) !! id.
Proof.
  induction 1 as [st|st st1 st' Hstep _ IH]; [done|]. intros Hs.
  apply (stuck_step _ id) in Hstep as [Hs1 Hi]; [|done]. destruct (IH Hs1) as [? Heq].
  split; [done|]. by rewrite Heq.
Qed.
End spec.

(** Certificates for the evaluations: texts that start with PEM. *)
Definition toy_pem (s : string) : option string := if HasPrefix s "PEM" then Some s else None.
Definition toy_parse (s : string) : option string := Some s.
Definition toy_csr (n : pkix_Name) : error + string := inr "CSR".

(** ** Theorems *)

(** A rotation is undone or kept as a whole: after a successful Rotate the
    roll back restores certificates, bundle and locks, and acceptance leaves the
    new certificate, the new bundle if one was sent, and the old locks. *)
Theorem Rotate_atomic {x509} (pem_Decode : string → option string) (ParseCertificate : string → option x509)
    (now : Z) (certID pem : string) (pems : list string) (cm cm' : Manager x509) (r : rotation x509) :
  no_nil cm → Manager_Rotate pem_Decode ParseCertificate now certID pem pems cm = (cm', inr r) →
  rollback r cm' = mkManager (certInfo cm) (caBundle cm) (locks cm) (S (S (m_pending cm))) ∧
  ∃ c bundle, PEMtox509 pem_Decode ParseCertificate pem = inr c ∧ length bundle = length pems ∧
    accept r cm' = mkManager (<[certID := Some (mkInfo certID c now)]> (certInfo cm))
      (if bool_decide (pems = []) then caBundle cm else bundle) (locks cm) (S (m_pending cm)).
Proof.
  intros Hn Hr. split; [by eapply rollback_restores|].
  destruct (update_cases pem_Decode ParseCertificate now true certID pem pems cm) as
    [(_ & err & Heq)|[(_ & _ & ? & ? & Heq & _)|([_ Hlock] & _ & c & bundle & Hc & Hl & Heq)]];
    unfold Manager_Rotate in Hr; rewrite Heq in Hr; try discriminate Hr. injection Hr as <- <-.
  exists c, bundle. split; [done|]. split; [done|]. unfold accept, set_locks. cbn. f_equal. set_solver.
Qed.

Lemma Rotate_atomic_witness :
  let cm := mkManager {["id" := Some (mkInfo "id" "old" 0)]} ["ca"] ∅ 0 in
  let res := Manager_Rotate toy_pem toy_parse 1 "id" "PEM new" ["PEM ca2"] cm in
  let r := mkRotation "id" (Some (mkInfo "id" "old" 0)) (Some ["ca"]) in
  rollback r res.1 = mkManager (certInfo cm) (caBundle cm) (locks cm) 2 ∧
  ∃ c bundle, PEMtox509 toy_pem toy_parse "PEM new" = inr c ∧ length bundle = 1 ∧
    accept r res.1 = mkManager (<["id" := Some (mkInfo "id" c 1)]> (certInfo cm)) bundle ∅ 1.
Proof.
  intros cm res r.
  apply (Rotate_atomic toy_pem toy_parse 1 "id" "PEM new" ["PEM ca2"] cm res.1 r); [|reflexivity].
  apply (bool_decide_unpack _). vm_compute. exact I.
Defined.

(** C14. Locks: in every state reached by any interleaving of handlers,
    revocations and notifications, a session that waits to end its rotation holds
    the lock of its identifier, no other session waits for the same identifier,
    and it can roll back to an existing certificate.  If in all turns so far the
    loaded certificates decoded and the load response of a rotation was sent,
    nothing else is locked; otherwise a lock may stay behind. *)
Theorem sessions_hold_locks {x509} (pem_Decode : string → option string)
    (ParseCertificate : string → option x509) (createCSR : pkix_Name → error + string) (st : system x509) :
  let steps allowed := rtc (sys_step pem_Decode ParseCertificate createCSR allowed) system_init st in
  (steps (λ _ _, True) → locks_owned (sys_m st) (sys_sessions st)) ∧
  (steps (clean pem_Decode ParseCertificate) →
   ∀ id, id ∈ locks (sys_m st) ↔ ∃ i r, sys_sessions st !! i = Some (AwaitFinalize r) ∧ r_certID r = id).
Proof.
  cbn zeta. split; intros Hst.
  - refine (rtc_invariant _ (λ st, locks_owned (sys_m st) (sys_sessions st)) _ _ _ Hst _); [|by split].
    intros. by eapply locks_owned_step.
  - destruct (rtc_invariant _ sys_inv _ _ (sys_inv_step _ _ _) Hst sys_inv_init) as [[[Hheld _ _] Hby] _].
    intros id. split; [apply Hby|]. intros (i & r & Hi & <-). by apply (Hheld i).
Qed.

(** Turns and states of the evaluations: a certificate is installed and then
    rotated; the rotation is not ended. *)
Definition toy_params : CSRParams :=
  mkCSRParams CertificateType_CT_X509 KeyType_KT_RSA "NZ" "gNxI" "gNxI" "target" 2048 "NZ" "127.0.0.1".

(** A client asks to install [pem] with the bundle [pems] under [id]. *)
Definition csr_turn (id : string) (params : CSRParams) : turn := mkTurn (inr (GenerateCsr id (Some params))) None 0.
Definition load_turn (pem : string) (pems : list string) (now : Z) : turn :=
  mkTurn (inr (LoadCertificate (Some (mkCertificate CertificateType_CT_X509 pem))
            (mkCertificate CertificateType_CT_X509 <$> pems))) None now.

Definition turn_of (t : turn) (i : nat) (st : system string) : system string :=
  match sys_sessions st !! i with
  | Some s =>
      match session_step toy_pem toy_parse toy_csr s t (sys_m st) with
      | Ok (m, s, _) => mkSystem m (<[i := s]> (sys_sessions st)) (sys_target st)
      | _ => st
      end
  | None => st
  end.

Definition open_of (rotate : bool) (i : nat) (st : system string) : system string :=
  mkSystem (sys_m st) (<[i := AwaitCSR rotate]> (sys_sessions st)) (sys_target st).

Definition allowed_turn (allowed : session string → turn → Prop) (i : nat) (t : turn) (st : system string) : Prop :=
  ∃ s, sys_sessions st !! i = Some s ∧ allowed s t ∧
    is_Some (match session_step toy_pem toy_parse toy_csr s t (sys_m st) with Ok x => Some x | _ => None end).

Lemma turn_of_step allowed i t st :
  allowed_turn allowed i t st → sys_step toy_pem toy_parse toy_csr allowed st (turn_of t i st).
Proof.
  intros (s & Hs & Ha & [x Hx]). unfold turn_of. rewrite Hs. destruct st as [m ss tg]. cbn in *.
  destruct (session_step _ _ _ s t m) as [[[m' s'] out]| | |] eqn:Hstep; try done. by eapply step_turn.
Qed.

Lemma open_of_step allowed rotate i st :
  sys_sessions st !! i = None → sys_step toy_pem toy_parse toy_csr allowed st (open_of rotate i st).
Proof. destruct st. apply step_open. Qed.

Definition install_of (i : nat) (st : system string) : system string :=
  turn_of (load_turn "PEM old" ["PEM ca"] 1) i (turn_of (csr_turn "id" toy_params) i (open_of false i st)).

Definition rotate_of (i : nat) (st : system string) : system string :=
  turn_of (load_turn "PEM new" [] 2) i (turn_of (csr_turn "id" toy_params) i (open_of true i st)).

Definition wait_system : system string := rotate_of 1 (install_of 0 system_init).

(** The turns of an installation or a rotation of a certificate that decodes. *)
Lemma load_turn_clean rotate pem cas now :
  HasPrefix pem "PEM" = true → Forall (λ ca, HasPrefix ca "PEM" = true) cas →
  clean toy_pem toy_parse (AwaitLoad rotate "id") (load_turn pem cas now).
Proof.
  assert (∀ ca, HasPrefix ca "PEM" = true → decodes toy_pem toy_parse ca) as Hdec.
  { intros ca Hca. exists ca. unfold PEMtox509, toy_pem. by rewrite Hca. }
  intros Hpem Hcas. split; [|done]. constructor; [by apply Hdec|].
  induction Hcas as [|ca cas Hca _ IH]; cbn; constructor; [by apply Hdec|apply IH].
Qed.

Lemma wait_reached allowed :
  (∀ s, allowed s (csr_turn "id" toy_params)) →
  (∀ rotate pem cas now, HasPrefix pem "PEM" = true → Forall (λ ca, HasPrefix ca "PEM" = true) cas →
     allowed (AwaitLoad rotate "id") (load_turn pem cas now)) →
  rtc (sys_step toy_pem toy_parse toy_csr allowed) system_init wait_system.
Proof.
  intros Hcsr Hload. unfold wait_system, rotate_of, install_of.
  do 2 (eapply rtc_r; [|apply turn_of_step; eexists; split; [reflexivity|];
    split; [apply Hload; repeat constructor|by vm_compute; eauto]];
    eapply rtc_r; [|apply turn_of_step; eexists; split; [reflexivity|]; split; [apply Hcsr|by vm_compute; eauto]];
    eapply rtc_r; [|by apply open_of_step]).
  apply rtc_refl.
Qed.

Lemma sessions_hold_locks_witness :
  locks_owned (sys_m wait_system) (sys_sessions wait_system) ∧
  ∃ i r, sys_sessions wait_system !! i = Some (AwaitFinalize r) ∧ r_certID r = "id".
Proof.
  destruct (sessions_hold_locks toy_pem toy_parse toy_csr wait_system) as [Hall Hclean]. split.
  - apply Hall. by apply wait_reached.
  - apply Hclean; [apply wait_reached; [by intros []|intros; by apply load_turn_clean]|].
    apply (bool_decide_unpack _). vm_compute. exact I.
Defined.

(** Mode: in every such state the server of the target runs encrypted while
    bootstrapping and authenticated otherwise, and when no notification is
    pending it bootstraps exactly while there is no certificate or no CA. *)
Theorem target_mode_follows {x509} (pem_Decode : string → option string)
    (ParseCertificate : string → option x509) (createCSR : pkix_Name → error + string) (st : system x509) :
  rtc (sys_step pem_Decode ParseCertificate createCSR (clean pem_Decode ParseCertificate)) system_init st →
  mode_follows (sys_m st) (sys_target st).
Proof.
  intros Hst. by destruct (rtc_invariant _ sys_inv _ _ (sys_inv_step _ _ _) Hst sys_inv_init).
Qed.

Lemma target_mode_follows_witness :
  let m := (Revoke [] (@NewManager string)).1.1 in
  let st := mkSystem (run_notify m target_main).1 ∅ (run_notify m target_main).2 in
  mode_follows (sys_m st) (sys_target st).
Proof.
  intros m st. apply (target_mode_follows toy_pem toy_parse toy_csr st).
  eapply rtc_l; [by apply (step_revoke _ _ _ _ [] NewManager m [] ∅)|].
  apply rtc_once. apply step_notify; [cbn; lia|done].
Defined.

(** A certificate that does not decode locks its identifier for good: when
    Install or Rotate fails to decode a certificate or a CA certificate, no
    later step of any session, however it goes, unlocks the identifier or
    changes its entry, and every later Install, Rotate or Revoke of it fails. *)
Theorem decode_failure_locks_forever {x509} (pem_Decode : string → option string)
    (ParseCertificate : string → option x509) (createCSR : pkix_Name → error + string)
    (now : Z) (q : bool) (id pem : string) (pems : list string)
    (m m' : Manager x509) (err : error) (ss : gmap nat (session x509)) (tg : target) (st : system x509) :
  locks_held m ss → available q id m →
  ¬ Forall (decodes pem_Decode ParseCertificate) (pem :: pems) →
  update pem_Decode ParseCertificate now q id pem pems m = (m', inl err) →
  rtc (sys_step pem_Decode ParseCertificate createCSR (λ _ _, True)) (mkSystem m' ss tg) st →
  id ∈ locks (sys_m st) ∧ certInfo (sys_m st) !! id = certInfo m' !! id ∧
  (∀ now q pem pems, ∃ err,
     (update pem_Decode ParseCertificate now q id pem pems (sys_m st)) = (sys_m st, inl err)) ∧
  (∀ ids, certInfo (Revoke ids (sys_m st)).1.1 !! id = certInfo m' !! id).
Proof.
  intros Hheld Hav Hdec Hu Hst.
  assert (stuck id m' ss) as Hstuck.
  { destruct (update_cases pem_Decode ParseCertificate now q id pem pems m) as
      [(Hno & _)|[(_ & _ & m1 & e & Heq & Hl & _)|(_ & Hyes & _)]]; [done| |done].
    rewrite Heq in Hu. injection Hu as <- <-. split; [rewrite Hl; set_solver|].
    intros i r Hr <-. destruct (held _ _ (proj1 Hheld) _ _ Hr) as [Hin _]. by destruct Hav. }
  apply (stuck_forever _ _ _ _ id) in Hst as [[Hl Hss] Hinfo]; [|done]. cbn in Hinfo. split_and!; [done..| |].
  - intros now' q' pem' pems'.
    destruct (update_cases pem_Decode ParseCertificate now' q' id pem' pems' (sys_m st)) as
      [(_ & e & Heq)|[([_ ?] & _)|([_ ?] & _)]]; [eauto|done..].
  - intros ids. destruct (Revoke ids (sys_m st)) as [[m1 rv] nr] eqn:Hr.
    apply Revoke_effect in Hr as (_ & _ & _ & Hr). cbn. by rewrite Hr.
Qed.

Lemma decode_failure_locks_forever_witness :
  let res := update toy_pem toy_parse 1 false "id" "PEM x" ["bad"] (@NewManager string) in
  "id" ∈ locks res.1 ∧ certInfo res.1 !! "id" = certInfo res.1 !! "id" ∧
  (∀ now q pem pems, ∃ err, update toy_pem toy_parse now q "id" pem pems res.1 = (res.1, inl err)) ∧
  (∀ ids, certInfo (Revoke ids res.1).1.1 !! "id" = certInfo res.1 !! "id").
Proof.
  intros res.
  apply (decode_failure_locks_forever toy_pem toy_parse toy_csr 1 false "id" "PEM x" ["bad"]
           NewManager res.1
           (Errorf_plain "failed to decode cert in CA Bundle: %v" [AMsg (Fmt "failed to decode PEM block" [])])
           ∅ target_main (mkSystem res.1 ∅ target_main)).
  - apply (proj1 (sys_inv_init (x509 := string))).
  - by split.
  - intros [_ [[c Hc] _]%Forall_cons]%Forall_cons. discriminate Hc.
  - reflexivity.
  - apply rtc_refl.
Defined.

(** Overlapping rotations do not restore the CA bundle: when two rotations
    with CA certificates are both rolled back in the order they started, the
    bundle of the first rotation, which was rolled back, stays installed. *)
Theorem overlapping_rollbacks {x509} (pem_Decode : string → option string)
    (ParseCertificate : string → option x509) (now : Z) (id1 id2 pem1 pem2 : string)
    (pems1 pems2 : list string) (m m1 m2 : Manager x509) (r1 r2 : rotation x509) :
  Manager_Rotate pem_Decode ParseCertificate now id1 pem1 pems1 m = (m1, inr r1) →
  Manager_Rotate pem_Decode ParseCertificate now id2 pem2 pems2 m1 = (m2, inr r2) →
  pems1 ≠ [] → pems2 ≠ [] →
  caBundle (rollback r2 (rollback r1 m2)) = caBundle m1 ∧
  length (caBundle m1) = length pems1 ∧
  caBundle (rollback r1 (rollback r2 m2)) = caBundle m.
Proof.
  unfold Manager_Rotate. intros H1 H2 Hp1 Hp2.
  destruct (update_cases pem_Decode ParseCertificate now true id1 pem1 pems1 m) as
    [(_ & ? & Heq1)|[(_ & _ & ? & ? & Heq1 & _)|(_ & _ & c1 & b1 & _ & Hl1 & Heq1)]];
    rewrite Heq1 in H1; try discriminate H1.
  destruct (update_cases pem_Decode ParseCertificate now true id2 pem2 pems2 m1) as
    [(_ & ? & Heq2)|[(_ & _ & ? & ? & Heq2 & _)|(_ & _ & c2 & b2 & _ & Hl2 & Heq2)]];
    rewrite Heq2 in H2; try discriminate H2.
  injection H1 as <- <-. injection H2 as <- <-. rewrite !bool_decide_false by done. done.
Qed.

Lemma overlapping_rollbacks_witness :
  let m := mkManager {["a" := Some (mkInfo "a" "A" 0); "b" := Some (mkInfo "b" "B" 0)]} ["old"] ∅ 0 in
  let res1 := Manager_Rotate toy_pem toy_parse 1 "a" "PEM a" ["PEM ca1"; "PEM ca2"] m in
  let res2 := Manager_Rotate toy_pem toy_parse 1 "b" "PEM b" ["PEM ca3"] res1.1 in
  let r1 := mkRotation "a" (Some (mkInfo "a" "A" 0)) (Some ["old"]) in
  let r2 := mkRotation "b" (Some (mkInfo "b" "B" 0)) (Some ["PEM ca1"; "PEM ca2"]) in
  caBundle (rollback r2 (rollback r1 res2.1)) = caBundle res1.1 ∧ length (caBundle res1.1) = 2 ∧
  caBundle (rollback r1 (rollback r2 res2.1)) = ["old"].
Proof.
  intros m res1 res2 r1 r2.
  apply (overlapping_rollbacks toy_pem toy_parse 1 "a" "b" "PEM a" "PEM b" ["PEM ca1"; "PEM ca2"] ["PEM ca3"]
           m res1.1 res2.1 r1 r2); [reflexivity..|discriminate|discriminate].
Defined.

(** Revoke removes exactly the requested certificates that are not locked,
    reports each of those that existed once as revoked, keeps the bundle and
    the locks, and announces the change. *)
Theorem Revoke_spec {x509} (ids : list string) (cm : Manager x509) :
  ∃ cm' revoked notRevoked, Revoke ids cm = (cm', revoked, notRevoked) ∧
    (∀ id, certInfo cm' !! id =
       if bool_decide ((id ∈ ids) ∧ (id ∉ locks cm)) then None else certInfo cm !! id) ∧
    NoDup revoked ∧
    (∀ id, id ∈ revoked ↔ id ∈ ids ∧ (id ∉ locks cm) ∧ is_Some (certInfo cm !! id)) ∧
    caBundle cm' = caBundle cm ∧ locks cm' = locks cm ∧ m_pending cm' = S (m_pending cm).
Proof.
  unfold Revoke. destruct (Revoke_loop ids cm [] ∅) as [[cm' revoked] notRevoked] eqn:Hr.
  apply Revoke_loop_spec in Hr as (Hb & Hl & Hp & Hinfo & gone & -> & Hnd & Hgone).
  eexists _, _, _. split; [done|]. cbn. rewrite Hp. by split_and!.
Qed.
