(* ===== verification/Target.v ===== *)
(** * Target: the locks of the manager and the restarts of the target

    [Cert] takes every handler turn and every notification as one step.  Here
    they are taken apart where the program can block: a critical section of the
    manager waits for its write lock, a notification holds the read lock while
    the notifier of [gnoi_target/gnoi_target.go] runs, and the notifier waits in
    [GracefulStop] for the handlers of the server it replaces.  The second part
    holds the certificates a server presents ([TLSCertificates] of
    [manager.go] and [gnoi/gnoi.go]). *)

From Stdlib Require Import ZArith.
From S2P Require Export Cert.

Section target.
Context {x509 : Type}.
Context (pem_Decode : string → option string) (ParseCertificate : string → option x509).
Context (createCSR : pkix_Name → error + string).

(** ** Handlers

    A handler waits at a [Recv], or for the write lock of the manager: in
    [update], in [accept], in [rollback] or in [Revoke]. *)
Inductive phase : Type :=
  | AtRecv (s : session x509)
  | WantUpdate (rotate : bool) (certID pemCert : string) (pemCACerts : list string) (t : turn)
  | WantAccept (r : rotation x509) (t : turn)
  | WantRollback (r : rotation x509) (t : turn)
  | WantRevoke (ids : list string)
  | Ended.

Definition at_recv (s : session x509) : phase := match s with Done _ => Ended | _ => AtRecv s end.

(** From a [Recv] to the next one, or to the lock; [None] is a panic. *)
Definition receive (s : session x509) (t : turn) (cm : Manager x509) : option phase :=
  match s with
  | AwaitCSR rotate =>
      match session_csr createCSR rotate t cm with Ok (_, s, _) => Some (at_recv s) | _ => None end
  | AwaitLoad rotate certID =>
      match t_recv t with
      | inr (LoadCertificate None _) => None
      | inr (LoadCertificate (Some cert) cas) =>
          if negb (c_Type cert =? CertificateType_CT_X509)%Z then Some Ended
          else
            match ca_certificates cas [] with
            | inl _ => Some Ended
            | inr pemCACerts => Some (WantUpdate rotate certID (c_Certificate cert) pemCACerts t)
            end
      | _ => Some Ended
      end
  | AwaitFinalize r =>
      match t_recv t with
      | inr FinalizeRotation => Some (WantAccept r t)
      | _ => Some (WantRollback r t)
      end
  | Done _ => Some Ended
  end.

(** A critical section under the write lock, and what follows up to the next
    [Recv] or lock. *)
Definition critical (p : phase) (cm : Manager x509) : option (Manager x509 * phase) :=
  match p with
  | WantUpdate rotate certID pemCert pemCACerts t =>
      match update pem_Decode ParseCertificate (t_now t) rotate certID pemCert pemCACerts cm with
      | (cm, inl _) => Some (cm, Ended)
      | (cm, inr r) =>
          Some (cm, if rotate then match t_sent t with Some _ => Ended | None => AtRecv (AwaitFinalize r) end
                    else WantAccept r t)
      end
  | WantAccept r _ => Some (accept r cm, Ended)
  | WantRollback r _ => Some (rollback r cm, Ended)
  | WantRevoke ids => Some ((Revoke ids cm).1.1, Ended)
  | AtRecv _ | Ended => None
  end.

(** ** Notifications

    A goroutine of [notify] holds the read lock: at the test of the notifier,
    or in [GracefulStop] of the server number [old], with the value of
    [bootstrapping] that chose the branch. *)
Inductive notifier : Type :=
  | NCheck
  | NStop (was : bool) (old : nat).

(** The handlers with the number of the server they belong to, the goroutines
    with the read lock, and the target with the number of its server. *)
Record tstate : Type := mkTState {
  ts_m : Manager x509;
  ts_handlers : gmap nat (nat * phase);
  ts_readers : gmap nat notifier;
  ts_target : target;
  ts_server : nat
}.

(** [main]: no handler runs before the first notification. *)
Definition tstate_init : tstate := mkTState NewManager ∅ ∅ target_main 0.

(** The notifier is to replace the server. *)
Definition must_switch (cm : Manager x509) (tg : target) : bool :=
  let hasCredentials := negb (size (certInfo cm) =? 0) && negb (length (caBundle cm) =? 0) in
  negb (Bool.eqb (bootstrapping tg) (negb hasCredentials)).

(** A server that is being stopped takes no new handlers. *)
Definition stopping (readers : gmap nat notifier) (server : nat) : Prop :=
  ∃ j was, readers !! j = Some (NStop was server).

(** [allowed] restricts the turns that are considered. *)
Inductive tstep (allowed : session x509 → turn → Prop) : tstate → tstate → Prop :=
  | t_open i p m hs rs tg sv :
      hs !! i = None → ¬ stopping rs sv → (∃ rotate, p = AtRecv (AwaitCSR rotate)) ∨ (∃ ids, p = WantRevoke ids) →
      tstep allowed (mkTState m hs rs tg sv) (mkTState m (<[i := (sv, p)]> hs) rs tg sv)
  | t_receive i g s t p m hs rs tg sv :
      hs !! i = Some (g, AtRecv s) → allowed s t → receive s t m = Some p →
      tstep allowed (mkTState m hs rs tg sv) (mkTState m (<[i := (g, p)]> hs) rs tg sv)
  | t_critical i g p m m' p' hs tg sv :
      hs !! i = Some (g, p) → critical p m = Some (m', p') →
      tstep allowed (mkTState m hs ∅ tg sv) (mkTState m' (<[i := (g, p')]> hs) ∅ tg sv)
  | t_notify j m hs rs tg sv :
      0 < m_pending m → rs !! j = None →
      tstep allowed (mkTState m hs rs tg sv)
        (mkTState (mkManager (certInfo m) (caBundle m) (locks m) (pred (m_pending m))) hs (<[j := NCheck]> rs) tg sv)
  | t_keep j m hs rs tg sv :
      rs !! j = Some NCheck → must_switch m tg = false →
      tstep allowed (mkTState m hs rs tg sv) (mkTState m hs (delete j rs) tg sv)
  | t_stop j m hs rs tg sv :
      rs !! j = Some NCheck → must_switch m tg = true →
      tstep allowed (mkTState m hs rs tg sv) (mkTState m hs (<[j := NStop (bootstrapping tg) sv]> rs) tg sv)
  | t_switch j was old m hs rs tg sv :
      rs !! j = Some (NStop was old) → (∀ i p, hs !! i = Some (old, p) → p = Ended) →
      tstep allowed (mkTState m hs rs tg sv)
        (mkTState m hs (delete j rs) (mkTarget (negb (bootstrapping tg)) (Some was)) (S sv)).

(** ** The certificates of a server *)

(** [tls.Certificate] and [tls.Config], as far as the program sets them. *)
Inductive ClientAuthType : Type := RequireAnyClientCert | RequireAndVerifyClientCert.
Record tls_Certificate : Type := mkTLSCertificate { tc_Leaf : x509; tc_Raw : string }.
Record tls_Config : Type := mkTLSConfig {
  ClientAuth : ClientAuthType; Certificates : list tls_Certificate; ClientCAs : option (list x509)
}.

Context (Raw : x509 → string).

(** A nil entry is dereferenced. *)
Fixpoint tls_certificates (l : list (option (Info x509))) : outcome error (list tls_Certificate) :=
  match l with
  | [] => mret []
  | None :: _ => Panic
  | Some ci :: l => certs ← tls_certificates l; mret (mkTLSCertificate (i_cert ci) (Raw (i_cert ci)) :: certs)
  end.

Definition TLSCertificates `{GoRange} (cm : Manager x509) : outcome error (list tls_Certificate * list x509) :=
  certs ← tls_certificates (go_range (certInfo cm)).*2;
  mret (certs, caBundle cm).

Definition PrepareEncrypted (defaultCertificate : tls_Certificate) : tls_Config :=
  mkTLSConfig RequireAnyClientCert [defaultCertificate] None.

(** The configuration is made for each connection. *)
Definition PrepareAuthenticated `{GoRange} (cm : Manager x509) : outcome error tls_Config :=
  '(tlsCerts, x509Pool) ← TLSCertificates cm;
  mret (mkTLSConfig RequireAndVerifyClientCert tlsCerts (Some x509Pool)).

(** What a connection to the target is offered. *)
Definition offered `{GoRange} (defaultCertificate : tls_Certificate) (tg : target) (cm : Manager x509)
    : outcome error tls_Config :=
  match grpcServer tg with
  | Some true => PrepareAuthenticated cm
  | _ => mret (PrepareEncrypted defaultCertificate)
  end.
End target.

Arguments phase : clear implicits.
Arguments tstate : clear implicits.
Arguments tstate_init {x509}.
