(* ===== verification/TargetSpec.v ===== *)
(** * TargetSpec: when the target follows its credentials, and when it hangs *)

From Stdlib Require Import ZArith Lia.
From S2P Require Export CertSpec Target.

Lemma has_credentials_dom {x509} (m : Manager x509) id (d : gset string) :
  dom (certInfo m) = {[id]} ∪ d → caBundle m ≠ [] → has_credentials m = true.
Proof.
  intros Hd Hb. unfold has_credentials. apply andb_true_iff. split; apply negb_true_iff, Nat.eqb_neq.
  - rewrite <-size_dom, Hd. intros Hs%size_empty_inv. set_solver.
  - by intros Hn%nil_length_inv.
Qed.

Section spec.
Context {x509 : Type} (pem_Decode : string → option string) (ParseCertificate : string → option x509).
Context (createCSR : pkix_Name → error + string).
Abbreviation session_step := (session_step pem_Decode ParseCertificate createCSR).
Abbreviation critical := (critical pem_Decode ParseCertificate).
Abbreviation receive := (receive createCSR).
Abbreviation tstep := (tstep pem_Decode ParseCertificate createCSR).
Abbreviation update := (update pem_Decode ParseCertificate).
Abbreviation decodes := (decodes pem_Decode ParseCertificate).
Implicit Types (m : Manager x509) (p : phase x509) (st : tstate x509).

(** ** Phases and turns *)

(** A handler whose lock is free at once: at most two critical sections. *)
Definition run_phase p m : Manager x509 * phase x509 :=
  match critical p m with
  | None => (m, p)
  | Some (m, p) => match critical p m with None => (m, p) | Some r => r end
  end.

Lemma session_csr_same rotate t m m' s out :
  session_csr createCSR rotate t m = Ok (m', s, out) → m' = m.
Proof. unfold session_csr, fail. cbv [mret outcome_ret]. intros Hs. by repeat case_match; simplify_eq. Qed.

Lemma run_phase_recv s m : run_phase (at_recv s) m = (m, at_recv s).
Proof. by destruct s. Qed.

Lemma session_load_phases rotate id t m m' s out :
  session_load pem_Decode ParseCertificate rotate id t m = Ok (m', s, out) →
  ∃ p, receive (AwaitLoad rotate id) t m = Some p ∧ run_phase p m = (m', at_recv s).
Proof.
  unfold session_load, fail. cbv [mret outcome_ret]. cbn [Target.receive]. intros Hs.
  destruct (t_recv t) as [err|[|[c|] cas| |]]; simplify_eq; try (by eexists; split).
  case_match; simplify_eq; [by eexists; split|].
  destruct (ca_certificates cas []) as [err|pems]; simplify_eq; [by eexists; split|].
  eexists. split; [done|]. unfold run_phase, Manager_Rotate, Manager_Install in *. cbn [Target.critical].
  destruct rotate, (update _ _ _ _ _ _) as [m1 [err|r]]; simplify_eq; try done; destruct (t_sent t); by simplify_eq.
Qed.

(** ** Credentials and critical sections *)
Definition phase_decodes p : Prop :=
  match p with WantUpdate _ _ pem pems _ => Forall decodes (pem :: pems) | _ => True end.

Lemma critical_settled p m m' p' :
  phase_decodes p → critical p m = Some (m', p') → settled m m' ∧ phase_decodes p'.
Proof.
  intros Hd Hc. destruct p as [s|q id pem pems t|r t|r t|ids|]; cbn [Target.critical] in Hc; try discriminate Hc.
  - destruct (update_cases pem_Decode ParseCertificate (t_now t) q id pem pems m) as
      [(_ & err & Heq)|[(_ & Hn & _)|(_ & _ & c & bundle & _ & _ & Heq)]]; [|done|]; rewrite Heq in Hc; simplify_eq.
    + split; [by left|done].
    + split; [right; cbn; lia|]. repeat case_match; done.
  - simplify_eq. split; [by left|done].
  - simplify_eq. split; [right; unfold rollback; cbn; lia|done].
  - destruct (Revoke ids m) as [[m1 rv] nr] eqn:Hr. simplify_eq/=. apply Revoke_effect in Hr as (_ & _ & Hp & _).
    split; [by right|done].
Qed.

Lemma receive_decodes s t m p :
  clean pem_Decode ParseCertificate s t → receive s t m = Some p → phase_decodes p.
Proof.
  unfold clean. destruct s as [q|q id|r|e]; cbn [Target.receive]; intros Hcl Hr.
  - repeat case_match; simplify_eq. by destruct s.
  - destruct (t_recv t) as [err|[|[c|] cas| |]]; simplify_eq; try done. case_match; simplify_eq; [done|].
    destruct (ca_certificates cas []) as [err|pems] eqn:Hcas; simplify_eq; [done|].
    apply ca_certificates_ok in Hcas as ->. by destruct Hcl.
  - repeat case_match; by simplify_eq.
  - by simplify_eq.
Qed.

(** ** One notification at a time *)
Definition serial st st' : Prop :=
  tstep (clean pem_Decode ParseCertificate) st st' ∧ size (ts_readers st') ≤ 1.

(** While a notification waits for a server to stop, the branch it took is the
    right one. *)
Definition serial_inv st : Prop :=
  let m := ts_m st in let tg := ts_target st in
  (∀ i g p, ts_handlers st !! i = Some (g, p) → phase_decodes p) ∧
  grpcServer tg = Some (negb (bootstrapping tg)) ∧
  size (ts_readers st) ≤ 1 ∧
  (ts_readers st = ∅ → m_pending m = 0 → bootstrapping tg = negb (has_credentials m)) ∧
  (∀ j was old, ts_readers st !! j = Some (NStop was old) → was = bootstrapping tg ∧ must_switch m tg = true).

Lemma must_switch_spec m tg : must_switch m tg = negb (Bool.eqb (bootstrapping tg) (negb (has_credentials m))).
Proof. done. Qed.

Lemma reader_alone (rs : gmap nat notifier) j n : size rs ≤ 1 → rs !! j = Some n → delete j rs = ∅.
Proof.
  intros Hs Hj. apply map_size_empty_iff. rewrite map_size_delete_Some; [lia|by exists n].
Qed.

Lemma handlers_insert (hs : gmap nat (nat * phase x509)) i g p :
  (∀ i g p, hs !! i = Some (g, p) → phase_decodes p) → phase_decodes p →
  ∀ i' g' p', <[i := (g, p)]> hs !! i' = Some (g', p') → phase_decodes p'.
Proof.
  intros Hh Hp i' g' p'. destruct (decide (i = i')) as [<-|Hi];
    [rewrite lookup_insert_eq; by intros [= <- <-]|rewrite lookup_insert_ne by done; apply Hh].
Qed.

Lemma serial_inv_step st st' : serial st st' → serial_inv st → serial_inv st'.
Proof.
  intros [Hstep Hsz] (Hh & Hsrv & Hs0 & Hmode & Hstop). unfold serial_inv. destruct Hstep as
    [i p m hs rs tg sv Hi Hns Hp|i g s t p m hs rs tg sv Hi Hcl Hr|i g p m m' p' hs tg sv Hi Hc
    |j m hs rs tg sv Hpend Hj|j m hs rs tg sv Hj Hk|j m hs rs tg sv Hj Hk|j was old m hs rs tg sv Hj Hend];
    cbn [ts_m ts_handlers ts_readers ts_target ts_server] in *.
  - split_and!; try done. apply handlers_insert; [done|]. destruct Hp as [[q ->]|[ids ->]]; done.
  - split_and!; try done. apply handlers_insert; [done|]. by eapply receive_decodes.
  - destruct (critical_settled p m m' p' (Hh _ _ _ Hi) Hc) as [Hset Hd]. split_and!; try done.
    + by apply handlers_insert.
    + intros _ Hp. destruct Hset as [(Hci & Hcb & Hmp)|Hmp]; [|lia]. unfold has_credentials.
      rewrite Hci, Hcb. apply Hmode; [done|lia].
  - split_and!; try done.
    + intros Hn. exfalso. by apply (insert_non_empty rs j NCheck).
    + intros j' was old. destruct (decide (j = j')) as [<-|Hne];
        [by rewrite lookup_insert_eq|rewrite lookup_insert_ne by done; apply Hstop].
  - split_and!; try done.
    + intros _ _. rewrite must_switch_spec in Hk. apply negb_false_iff, eqb_prop in Hk. done.
    + intros j' was old [_ Hj']%lookup_delete_Some. by eapply Hstop.
  - split_and!; try done.
    + intros Hn. exfalso. by apply (insert_non_empty rs j (NStop (bootstrapping tg) sv)).
    + intros j' was old. destruct (decide (j = j')) as [<-|Hne]; [rewrite lookup_insert_eq; by intros [= <- <-]|].
      rewrite lookup_insert_ne by done. apply Hstop.
  - destruct (Hstop _ _ _ Hj) as [-> Hk]. cbn [grpcServer bootstrapping]. rewrite must_switch_spec in Hk.
    split_and!; try done.
    + by destruct (bootstrapping tg).
    + intros _ _. by destruct (bootstrapping tg), (has_credentials m).
    + intros j' was' old' Hj'. by rewrite (reader_alone rs j _ Hs0 Hj) in Hj'.
Qed.

(** ** A handler that waits for the lock under a stop *)

(** A notification stops the server of a handler that has still to take the
    lock, or to ask for it. *)
Definition hung (j i g : nat) p st : Prop :=
  (∃ was, ts_readers st !! j = Some (NStop was g)) ∧ ts_handlers st !! i = Some (g, p) ∧ ts_server st = g ∧
  (∀ j' was old, ts_readers st !! j' = Some (NStop was old) → old = g).

Definition wants_lock p : bool :=
  match p with WantUpdate _ _ _ _ _ | WantAccept _ _ | WantRollback _ _ | WantRevoke _ => true | _ => false end.

Lemma hung_step allowed j i g p st st' :
  wants_lock p = true → tstep allowed st st' → hung j i g p st →
  hung j i g p st' ∧ ts_target st' = ts_target st ∧ certInfo (ts_m st') = certInfo (ts_m st) ∧
  caBundle (ts_m st') = caBundle (ts_m st).
Proof.
  intros Hp Hstep ((was & Hj) & Hi & Hsv & Hold). destruct Hstep as
    [i' p' m hs rs tg sv Hi' Hns Hp'|i' g' s t p' m hs rs tg sv Hi' Hcl Hr|i' g' p0 m m' p' hs tg sv Hi' Hc
    |j' m hs rs tg sv Hpend Hj'|j' m hs rs tg sv Hj' Hk|j' m hs rs tg sv Hj' Hk|j' was' old m hs rs tg sv Hj' Hend];
    cbn [ts_m ts_handlers ts_readers ts_target ts_server] in *; unfold hung;
    cbn [ts_m ts_handlers ts_readers ts_target ts_server].
  - destruct (decide (i' = i)) as [->|Hne]; [congruence|]. rewrite lookup_insert_ne by done. split_and!; eauto.
  - destruct (decide (i' = i)) as [->|Hne]; [simplify_eq; by destruct p|].
    rewrite lookup_insert_ne by done. split_and!; eauto.
  - by rewrite lookup_empty in Hj.
  - destruct (decide (j' = j)) as [->|Hne]; [congruence|]. rewrite lookup_insert_ne by done. split_and!; eauto.
    intros j0 w o. destruct (decide (j' = j0)) as [->|Hne']; [by rewrite lookup_insert_eq|].
    rewrite lookup_insert_ne by done. apply Hold.
  - destruct (decide (j' = j)) as [->|Hne]; [congruence|]. rewrite lookup_delete_ne by done. split_and!; eauto.
    intros j0 w o [_ Hj0]%lookup_delete_Some. by eapply Hold.
  - destruct (decide (j' = j)) as [->|Hne]; [congruence|]. rewrite lookup_insert_ne by done. split_and!; eauto.
    intros j0 w o. destruct (decide (j' = j0)) as [->|Hne']; [rewrite lookup_insert_eq; by intros [= <- <-]|].
    rewrite lookup_insert_ne by done. apply Hold.
  - rewrite (Hold _ _ _ Hj') in Hend. rewrite (Hend _ _ Hi) in Hp. done.
Qed.

Lemma hung_forever allowed j i g p st st' :
  wants_lock p = true → rtc (tstep allowed) st st' → hung j i g p st →
  hung j i g p st' ∧ ts_target st' = ts_target st ∧ certInfo (ts_m st') = certInfo (ts_m st) ∧
  caBundle (ts_m st') = caBundle (ts_m st).
Proof.
  intros Hp. induction 1 as [st|st1 st2 st3 Hstep _ IH]; intros Hh; [done|].
  destruct (hung_step _ _ _ _ _ _ _ Hp Hstep Hh) as (Hh2 & Ht & Hc & Hb). rewrite <-Ht, <-Hc, <-Hb. by apply IH.
Qed.

(** ** Installations *)

Definition csr_possible (params : CSRParams) : Prop :=
  csr_Type params = CertificateType_CT_X509 ∧ csr_KeyType params = KeyType_KT_RSA ∧
  ∃ csr, createCSR (mkName [csr_Country params] [csr_Organization params] [csr_OrganizationalUnit params] []
                      (csr_CommonName params)) = inr csr.

Lemma ca_certificates_x509 pems acc :
  ca_certificates (mkCertificate CertificateType_CT_X509 <$> pems) acc = inr (acc ++ pems).
Proof.
  revert acc. induction pems as [|pem pems IH]; intros acc; cbn; [by rewrite List.app_nil_r|].
  rewrite IH. by rewrite <-List.app_assoc.
Qed.

(** The handler up to the point where it is to accept the update. *)
Lemma run_install_update (params : CSRParams) id pem pems (now : Z) i m hs tg sv :
  csr_possible params → available false id m → Forall decodes (pem :: pems) → hs !! i = None →
  ∃ m' r, rtc (tstep (clean pem_Decode ParseCertificate)) (mkTState m hs ∅ tg sv)
            (mkTState m' (<[i := (sv, WantAccept r (load_turn pem pems now))]> hs) ∅ tg sv) ∧
    size (certInfo m') = S (size (certInfo m)) ∧ length (caBundle m') = (if bool_decide (pems = []) then length (caBundle m) else length pems) ∧
    locks m' = {[id]} ∪ locks m ∧ m_pending m' = S (m_pending m) ∧ r_certID r = id ∧
    dom (certInfo m') = {[id]} ∪ dom (certInfo m).
Proof.
  intros (Ht & Hk & csr & Hcsr) Hav Hdec Hi.
  destruct (update_cases pem_Decode ParseCertificate now false id pem pems m) as
    [(Hn & _)|[(_ & Hn & _)|((Hex & Hlk) & _ & c & bundle & _ & Hlen & Heq)]]; [done|done|].
  eexists _, _. split.
  - eapply rtc_l; [apply (t_open _ _ _ _ i (AtRecv (AwaitCSR false))); [done| |left; by exists false]|].
    { intros (j & w & Hj). by rewrite lookup_empty in Hj. }
    eapply rtc_l; [eapply (t_receive _ _ _ _ i sv (AwaitCSR false) (csr_turn id params) (AtRecv (AwaitLoad false id)));
                   [by rewrite lookup_insert_eq|done|]|].
    { cbn. unfold session_csr, csr_turn, GenCSR. cbn. rewrite Ht, Hk. cbn. by rewrite Hcsr. }
    rewrite insert_insert_eq.
    eapply rtc_l; [eapply (t_receive _ _ _ _ i sv (AwaitLoad false id) (load_turn pem pems now));
                   [by rewrite lookup_insert_eq|split; [cbn|done]|]|].
    { rewrite <-list_fmap_compose. cbn. by rewrite list_fmap_id. }
    { cbn. by rewrite ca_certificates_x509. }
    rewrite insert_insert_eq.
    eapply rtc_l; [eapply (t_critical _ _ _ _ i); [by rewrite lookup_insert_eq|cbn; by rewrite Heq]|].
    rewrite insert_insert_eq. apply rtc_refl.
  - cbn. apply bool_decide_eq_false in Hex. split_and!; try done.
    + rewrite map_size_insert_None; [done|]. by apply eq_None_not_Some.
    + case_bool_decide; [done|]. by rewrite Hlen.
    + by rewrite dom_insert_L.
Qed.

(** ... and to its end, when no notification holds the lock. *)
Lemma run_accept allowed i g r t m hs tg sv :
  rtc (tstep allowed) (mkTState m (<[i := (g, WantAccept r t)]> hs) ∅ tg sv)
    (mkTState (accept r m) (<[i := (g, Ended)]> hs) ∅ tg sv).
Proof.
  eapply rtc_l; [eapply (t_critical _ _ _ _ i); [by rewrite lookup_insert_eq|done]|].
  rewrite insert_insert_eq. apply rtc_refl.
Qed.

Lemma run_install (params : CSRParams) id pem pems (now : Z) i m hs tg sv :
  csr_possible params → available false id m → Forall decodes (pem :: pems) → hs !! i = None →
  ∃ m', rtc (tstep (clean pem_Decode ParseCertificate)) (mkTState m hs ∅ tg sv)
          (mkTState m' (<[i := (sv, Ended)]> hs) ∅ tg sv) ∧
    length (caBundle m') = (if bool_decide (pems = []) then length (caBundle m) else length pems) ∧
    locks m' = locks m ∧ m_pending m' = S (m_pending m) ∧ dom (certInfo m') = {[id]} ∪ dom (certInfo m).
Proof.
  intros Hcsr Hav Hdec Hi.
  destruct (run_install_update params id pem pems now i m hs tg sv Hcsr Hav Hdec Hi)
    as (m' & r & Hr & _ & Hb & Hl & Hp & Hid & Hd).
  exists (accept r m'). split; [etrans; [exact Hr|apply run_accept]|]. cbn. split_and!; try done.
  rewrite Hl, Hid. destruct Hav as [_ Hlk]. set_solver.
Qed.

(** *** Notifications *)
Lemma run_notify_check allowed j m hs rs tg sv :
  m_pending m ≠ 0 → rs !! j = None →
  rtc (tstep allowed) (mkTState m hs rs tg sv)
    (mkTState (mkManager (certInfo m) (caBundle m) (locks m) (pred (m_pending m))) hs
       (if must_switch m tg then <[j := NStop (bootstrapping tg) sv]> rs else rs) tg sv).
Proof.
  intros Hp Hj. eapply rtc_l; [apply (t_notify _ _ _ _ j); [lia|done]|].
  set (m1 := mkManager _ _ _ _). assert (must_switch m1 tg = must_switch m tg) as Hm by done. rewrite <-Hm.
  destruct (must_switch m1 tg) eqn:Hs.
  - eapply rtc_l; [apply (t_stop _ _ _ _ j); [by rewrite lookup_insert_eq|done]|].
    rewrite insert_insert_eq. apply rtc_refl.
  - eapply rtc_l; [apply (t_keep _ _ _ _ j); [by rewrite lookup_insert_eq|done]|].
    rewrite delete_insert_id by done. apply rtc_refl.
Qed.


(** Two notifications that both test before the first one switches. *)
Lemma notify_twice allowed m hs sv :
  (∀ i g p, hs !! i = Some (g, p) → p = Ended) → must_switch m target_main = true → m_pending m = 2 →
  rtc (tstep allowed) (mkTState m hs ∅ target_main sv)
    (mkTState (mkManager (certInfo m) (caBundle m) (locks m) 0) hs ∅ (mkTarget true (Some true)) (S (S sv))).
Proof.
  intros Hh Hs Hp. pose proof (run_notify_check allowed 0 m hs ∅ target_main sv) as H0. rewrite Hs in H0.
  set (m1 := mkManager (certInfo m) (caBundle m) (locks m) (pred (m_pending m))) in *.
  pose proof (run_notify_check allowed 1 m1 hs (<[0 := NStop true sv]> ∅) target_main sv) as H1.
  replace (must_switch m1 target_main) with true in H1 by done.
  etrans; [apply H0; [lia|done]|]. etrans; [apply H1; [cbn; lia|by rewrite lookup_insert_ne]|].
  eapply rtc_l; [apply (t_switch _ _ _ _ 0 true sv); [by rewrite lookup_insert_ne, lookup_insert_eq by done|]|].
  { intros i p Hi. by eapply Hh. }
  eapply rtc_l; [apply (t_switch _ _ _ _ 1 true sv); [by rewrite lookup_delete_ne, lookup_insert_eq by done|]|].
  { intros i p Hi. by eapply Hh. }
  rewrite delete_insert_ne, delete_insert_id by done. rewrite insert_empty, delete_singleton_eq.
  cbn. unfold m1. rewrite Hp. apply rtc_refl.
Qed.

(** A revocation of everything, with its notification, on a target that counts
    as bootstrapping. *)
Lemma revoke_quiet allowed i ids m hs sv :
  hs !! i = None → m_pending m = 0 → locks m = ∅ → dom (certInfo m) = list_to_set ids →
  ∃ m', rtc (tstep allowed) (mkTState m hs ∅ (mkTarget true (Some true)) sv)
          (mkTState m' (<[i := (sv, Ended)]> hs) ∅ (mkTarget true (Some true)) sv) ∧
    certInfo m' = ∅ ∧ m_pending m' = 0.
Proof.
  intros Hi Hp Hl Hd. destruct (Revoke_loop ids m [] ∅) as [[m1 rv] nr] eqn:Hr.
  pose proof (Revoke_loop_spec _ _ _ _ _ _ _ Hr) as (_ & _ & Hp1 & Hinfo & _).
  assert (certInfo m1 = ∅) as Hci.
  { apply map_eq. intros id. rewrite Hinfo, Hl, lookup_empty. case_bool_decide as Hin; [done|].
    apply not_elem_of_dom. rewrite Hd, elem_of_list_to_set. set_solver. }
  pose proof (run_notify_check allowed 0 (go_notify m1) (<[i := (sv, Ended)]> hs) ∅ (mkTarget true (Some true)) sv) as Hn.
  rewrite must_switch_spec in Hn. unfold has_credentials in Hn. cbn [certInfo caBundle go_notify] in Hn.
  rewrite Hci, map_size_empty in Hn. cbn in Hn. exists (mkManager ∅ (caBundle m1) (locks m1) (m_pending m1)).
  split; [|split; [done|cbn; congruence]].
  eapply rtc_l; [apply (t_open _ _ _ _ i (WantRevoke ids)); [done| |right; by exists ids]|].
  { intros (j & w & Hj). by rewrite lookup_empty in Hj. }
  eapply rtc_l; [eapply (t_critical _ _ _ _ i); [by rewrite lookup_insert_eq|done]|].
  rewrite insert_insert_eq. unfold Revoke. rewrite Hr. by apply Hn.
Qed.
End spec.

(** ** Theorems *)
Section theorems.
Context {x509 : Type} (pem_Decode : string → option string) (ParseCertificate : string → option x509).
Context (createCSR : pkix_Name → error + string).
Abbreviation tstep := (tstep pem_Decode ParseCertificate createCSR).
Abbreviation clean := (clean pem_Decode ParseCertificate).
Abbreviation decodes := (decodes pem_Decode ParseCertificate).

(** The phases of a handler make up its turns: when the lock of the manager
    is free, receiving a request and running the critical sections that follow
    gives the manager and the state of the handler that the turn gives as one
    step. *)
Theorem phases_compose (s s' : session x509) (t : turn) (m m' : Manager x509) (out : list cert_response) :
  session_step pem_Decode ParseCertificate createCSR s t m = Ok (m', s', out) →
  ∃ p, receive createCSR s t m = Some p ∧ run_phase pem_Decode ParseCertificate p m = (m', at_recv s').
Proof.
  intros Hs. destruct s as [q|q id|r|e]; cbn [session_step] in Hs.
  - exists (at_recv s'). cbn [receive]. rewrite Hs. split; [done|].
    rewrite run_phase_recv. by rewrite (session_csr_same _ _ _ _ _ _ _ Hs).
  - by eapply session_load_phases.
  - unfold session_finalize, fail in Hs. cbv [mret outcome_ret] in Hs. cbn [receive].
    repeat case_match; simplify_eq; by eexists; split.
  - cbv [mret outcome_ret] in Hs. simplify_eq. by exists Ended.
Qed.

(** C11. The target follows its credentials while notifications run one at a
    time: in every state reached by handlers, revocations and notifications of
    which at most one holds the read lock at any time, provided the loaded
    certificates decode and the load response of a rotation is sent, the server
    runs encrypted while bootstrapping and authenticated otherwise, and when no
    notification is pending or running the target bootstraps exactly while there
    is no certificate or no CA. *)
Theorem serial_target_mode (st : tstate x509) :
  rtc (serial pem_Decode ParseCertificate createCSR) tstate_init st →
  grpcServer (ts_target st) = Some (negb (bootstrapping (ts_target st))) ∧
  (ts_readers st = ∅ → m_pending (ts_m st) = 0 → bootstrapping (ts_target st) = negb (has_credentials (ts_m st))).
Proof.
  intros Hst. destruct (rtc_invariant _ (serial_inv pem_Decode ParseCertificate) _ _
                          (serial_inv_step _ _ _) Hst) as (_ & ? & _ & ? & _); [|done].
  unfold serial_inv. cbn. split_and!; try done. rewrite map_size_empty. lia.
Qed.

(** C12. The first provisioning of a target can block it for good: whatever
    certificate and bundle a client installs, there is a run after which the
    notification of the update, holding the read lock of the manager, waits for
    the handler of the installation, which waits for the write lock; from then on
    nothing ends the handler or changes the mode, so that the target has its
    credentials and stays in bootstrapping mode. *)
Theorem provision_deadlock (params : CSRParams) (id pem : string) (pems : list string) (now : Z) :
  csr_possible createCSR params → Forall decodes (pem :: pems) → pems ≠ [] →
  ∃ st i r t, rtc (tstep clean) tstate_init st ∧
    ∀ st', rtc (tstep (λ _ _, True)) st st' →
      ts_handlers st' !! i = Some (0, WantAccept r t) ∧ ts_target st' = target_main ∧
      has_credentials (ts_m st') = true.
Proof.
  intros Hcsr Hdec Hne.
  destruct (run_install_update pem_Decode ParseCertificate createCSR params id pem pems now 0 NewManager ∅ target_main 0)
    as (m & r & Hr & _ & Hb & _ & Hp & _ & Hd); [done|split; [done|set_solver]|done|done|].
  rewrite bool_decide_eq_false_2 in Hb by done.
  assert (has_credentials m = true) as Hc.
  { eapply has_credentials_dom; [done|]. intros Hn. rewrite Hn in Hb. by destruct pems. }
  pose proof (run_notify_check pem_Decode ParseCertificate createCSR clean 0 m
    (<[0 := (0, WantAccept r (load_turn pem pems now))]> ∅) ∅ target_main 0) as Hn.
  rewrite must_switch_spec, Hc in Hn. eexists _, 0, r, (load_turn pem pems now). split.
  { etrans; [exact Hr|]. apply Hn; [by rewrite Hp|done]. }
  intros st' Hst'. eapply (hung_forever _ _ _ _ 0 0 0 (WantAccept r (load_turn pem pems now))) in Hst'; [|done|].
  - destruct Hst' as ((_ & Hh & _) & -> & Hci & Hcb). split; [done|]. split; [done|].
    unfold has_credentials. by rewrite Hci, Hcb.
  - unfold hung. cbn. split_and!; [by exists true|by rewrite lookup_insert_eq|done|].
    intros j' was old. destruct (decide (j' = 0)) as [->|Hj]; [rewrite lookup_insert_eq; by intros [= <- <-]|].
    by rewrite lookup_insert_ne, lookup_empty by done.
Qed.

(** Two notifications at once can leave the target in the wrong mode: after
    two installations whose notifications overlap there is a quiet state in which
    the server runs authenticated while the target counts as bootstrapping, and
    after the revocation of both certificates, with every notification done, the
    server still asks for certificates of which it has none. *)
Theorem notifications_race `{GoRange} (Raw : x509 → string) (params : CSRParams) (id1 id2 pem1 pem2 : string) (pems : list string) (now : Z) :
  csr_possible createCSR params → id1 ≠ id2 → Forall decodes (pem1 :: pem2 :: pems) → pems ≠ [] →
  ∃ st st', rtc (tstep clean) tstate_init st ∧ rtc (tstep clean) st st' ∧
    (∀ s, s = st ∨ s = st' → ts_readers s = ∅ ∧ m_pending (ts_m s) = 0 ∧ ts_target s = mkTarget true (Some true)) ∧
    has_credentials (ts_m st) = true ∧
    ∀ default, offered Raw default (ts_target st') (ts_m st') =
                 Ok (mkTLSConfig RequireAndVerifyClientCert [] (Some (caBundle (ts_m st')))).
Proof.
  intros Hcsr Hid [Hd1 [Hd2 Hds]%Forall_cons]%Forall_cons Hne.
  destruct (run_install pem_Decode ParseCertificate createCSR params id1 pem1 pems now 0 NewManager ∅ target_main 0)
    as (m1 & Hr1 & _ & Hl1 & Hp1 & Hdom1); [done|split; [done|set_solver]|by constructor|done|].
  destruct (run_install pem_Decode ParseCertificate createCSR params id2 pem2 pems now 1 m1 {[0 := (0, Ended)]} target_main 0)
    as (m2 & Hr2 & Hb2 & Hl2 & Hp2 & Hdom2); [done| |by constructor|done|].
  { split; [|rewrite Hl1; set_solver]. apply bool_decide_eq_false_2. rewrite <-elem_of_dom, Hdom1. set_solver. }
  rewrite bool_decide_eq_false_2 in Hb2 by done.
  assert (has_credentials m2 = true) as Hc by (eapply has_credentials_dom; [done|]; intros Hn; rewrite Hn in Hb2; by destruct pems).
  set (hs := <[1 := (0, Ended)]> {[0 := (0, Ended)]} : gmap nat (nat * phase x509)).
  set (m3 := mkManager (certInfo m2) (caBundle m2) (locks m2) 0).
  assert (rtc (tstep clean) tstate_init (mkTState m3 hs ∅ (mkTarget true (Some true)) 2)) as Hst.
  { etrans; [exact Hr1|]. rewrite insert_empty. etrans; [exact Hr2|]. fold hs.
    apply notify_twice; [|by rewrite must_switch_spec, Hc|by rewrite Hp2, Hp1].
    intros i g p. unfold hs. destruct (decide (i = 1)) as [->|Hi]; [rewrite lookup_insert_eq; by intros [= <- <-]|].
    rewrite lookup_insert_ne by done. intros [_ [= <- <-]]%lookup_singleton_Some. done. }
  destruct (revoke_quiet pem_Decode ParseCertificate createCSR clean 2 [id1; id2] m3 hs 2) as (m4 & Hr4 & Hci & Hp4);
    [done|done|cbn; rewrite Hl2, Hl1; set_solver|cbn; rewrite Hdom2, Hdom1; set_solver|].
  eexists _, _. split; [exact Hst|]. split; [exact Hr4|].
  split; [intros s [->| ->]; cbn; done|]. split; [done|]. intros default. cbn.
  unfold PrepareAuthenticated, TLSCertificates. by rewrite Hci, go_range_empty.
Qed.
End theorems.

(** ** Evaluations *)
Lemma toy_csr_possible : csr_possible toy_csr toy_params.
Proof. split; [done|]. split; [done|]. by eexists. Defined.

Lemma toy_decodes l : forallb (λ s, HasPrefix s "PEM") l = true → Forall (decodes toy_pem toy_parse) l.
Proof.
  rewrite forallb_forall. intros Hl. apply Forall_forall. intros s Hs%list_elem_of_In%Hl.
  exists s. unfold PEMtox509, toy_pem. by rewrite Hs.
Defined.

Lemma phases_compose_witness :
  let r := mkRotation "id" (Some (mkInfo "id" "old" 0)) None in
  let m := mkManager {["id" := Some (mkInfo "id" "new" 1)]} ["ca"] {["id"]} 0 in
  ∃ p, receive toy_csr (AwaitFinalize r) (mkTurn (inr FinalizeRotation) None 2) m = Some p ∧
    run_phase toy_pem toy_parse p m = (accept r m, at_recv (Done None)).
Proof.
  intros r m. apply (phases_compose toy_pem toy_parse toy_csr (AwaitFinalize r) (Done None) _ m (accept r m) []).
  reflexivity.
Defined.

(** A certificate and a bundle are installed, the notification runs, and the
    server of the bootstrapping target is replaced by an authenticated one. *)
Definition provisioned : tstate string :=
  mkTState (mkManager {["id" := Some (mkInfo "id" "PEM cert" 1)]} ["PEM ca"] ∅ 0) {[0 := (0, Ended)]} ∅
    (mkTarget false (Some true)) 1.

Lemma serial_step st1 st2 st3 :
  tstep toy_pem toy_parse toy_csr (clean toy_pem toy_parse) st1 st2 → size (ts_readers st2) ≤ 1 →
  rtc (serial toy_pem toy_parse toy_csr) st2 st3 → rtc (serial toy_pem toy_parse toy_csr) st1 st3.
Proof. intros Hs Hl. by apply rtc_l. Defined.

Lemma toy_provisioned : rtc (serial toy_pem toy_parse toy_csr) tstate_init provisioned.
Proof.
  eapply serial_step; [apply (t_open _ _ _ _ 0 (AtRecv (AwaitCSR false))); [done| |left; by exists false]|apply Nat.leb_le; reflexivity|].
  { intros (j & w & Hj). by rewrite lookup_empty in Hj. }
  eapply serial_step; [eapply (t_receive _ _ _ _ 0 0 (AwaitCSR false) (csr_turn "id" toy_params)); reflexivity|apply Nat.leb_le; reflexivity|].
  eapply serial_step; [eapply (t_receive _ _ _ _ 0 0 (AwaitLoad false "id") (load_turn "PEM cert" ["PEM ca"] 1));
    [reflexivity|by apply load_turn_clean; repeat constructor|reflexivity]|apply Nat.leb_le; reflexivity|].
  do 2 (eapply serial_step; [eapply (t_critical _ _ _ _ 0); reflexivity|apply Nat.leb_le; reflexivity|]).
  eapply serial_step; [eapply (t_notify _ _ _ _ 0); [apply Nat.ltb_lt; reflexivity|reflexivity]|apply Nat.leb_le; reflexivity|].
  eapply serial_step; [eapply (t_stop _ _ _ _ 0); reflexivity|apply Nat.leb_le; reflexivity|].
  eapply serial_step; [eapply (t_switch _ _ _ _ 0); [reflexivity|]|apply Nat.leb_le; reflexivity|].
  { intros i p Hi. destruct (decide (i = 0)) as [->|Hne]; [by injection Hi as <-|].
    rewrite !lookup_insert_ne, lookup_empty in Hi by done. done. }
  match goal with |- rtc _ ?st _ => replace st with provisioned by (vm_compute; reflexivity) end. apply rtc_refl.
Defined.

Lemma serial_target_mode_witness :
  grpcServer (ts_target provisioned) = Some true ∧ bootstrapping (ts_target provisioned) = false ∧
  has_credentials (ts_m provisioned) = true.
Proof.
  destruct (serial_target_mode toy_pem toy_parse toy_csr provisioned toy_provisioned) as [Hserver Hmode].
  split; [exact Hserver|]. split; [|reflexivity]. exact (Hmode eq_refl eq_refl).
Defined.

Lemma provision_deadlock_witness :
  ∃ st i r t, rtc (tstep toy_pem toy_parse toy_csr (clean toy_pem toy_parse)) tstate_init st ∧
    ∀ st', rtc (tstep toy_pem toy_parse toy_csr (λ _ _, True)) st st' →
      ts_handlers st' !! i = Some (0, WantAccept r t) ∧ ts_target st' = target_main ∧
      has_credentials (ts_m st') = true.
Proof.
  apply (provision_deadlock toy_pem toy_parse toy_csr toy_params "id" "PEM cert" ["PEM ca"] 0);
    [apply toy_csr_possible|by apply toy_decodes|done].
Defined.

Lemma notifications_race_witness :
  ∃ st st', rtc (tstep toy_pem toy_parse toy_csr (clean toy_pem toy_parse)) tstate_init st ∧
    rtc (tstep toy_pem toy_parse toy_csr (clean toy_pem toy_parse)) st st' ∧
    (∀ s, s = st ∨ s = st' → ts_readers s = ∅ ∧ m_pending (ts_m s) = 0 ∧ ts_target s = mkTarget true (Some true)) ∧
    has_credentials (ts_m st) = true ∧
    ∀ default, offered (H:=canonical_range) id default (ts_target st') (ts_m st') =
                 Ok (mkTLSConfig RequireAndVerifyClientCert [] (Some (caBundle (ts_m st')))).
Proof.
  apply (notifications_race (H:=canonical_range) toy_pem toy_parse toy_csr id toy_params "id1" "id2" "PEM one" "PEM two" ["PEM ca"] 0);
    [apply toy_csr_possible|done|by apply toy_decodes|done].
Defined.
