(* ===== verification/CertClient.v ===== *)
(** * CertClient: the client of the gNOI certificate service

    Models [gnoi/cert/client.go].  A call of the client is a program of stream
    operations and of calls to the functions its caller passed; the second part
    connects such a program with a handler of the service of [Cert] by a stream
    that may fail at any point. *)

From Stdlib Require Import ZArith.
From S2P Require Export Cert.

Section client.
Context {x509 : Type}.
(** Third-party code: the parsers of PEM and DER, and the parsed request. *)
Context {CSR : Type} (pem_Decode : string → option string)
        (ParseCertificateRequest : string → option CSR) (certPEMEncoder : x509 → string).

(** ** The calls of the client

    The operations of a call in order: opening the stream, [Send], [Recv], the
    caller's [sign] and [validate]; [Crash] is an index out of range. *)
Inductive call : Type :=
  | Return (err : option error)
  | Crash
  | Open (k : option error → call)
  | Send (req : cert_request) (k : option error → call)
  | Recv (k : error + cert_response → call)
  | Sign (csr : CSR) (k : error + x509 → call)
  | Validate (k : option error → call).

Definition client_fail (text : string) (err : error) : call :=
  Return (Some (Errorf_plain text [AMsg (error_text err)])).
Definition client_fail_with (text : string) : call := Return (Some (Errorf_plain text [])).

Definition response_name (rotate : bool) : string :=
  if rotate then "RotateCertificateResponse" else "InstallCertificateResponse".

(** The first fields of the subject are indexed. *)
Definition csr_params (minKeySize : Z) (params : pkix_Name) (ipAddress : string) : option CSRParams :=
  country ← head (Country params);
  organization ← head (Organization params);
  unit_ ← head (OrganizationalUnit params);
  state ← head (Province params);
  Some (mkCSRParams CertificateType_CT_X509 KeyType_KT_RSA country organization unit_ (CommonName params)
          minKeySize state ipAddress).

Definition pb_certificate (c : x509) : Certificate := mkCertificate CertificateType_CT_X509 (certPEMEncoder c).

Definition load_request (caBundle : list x509) (signedCert : x509) : cert_request :=
  LoadCertificate (Some (pb_certificate signedCert)) (pb_certificate <$> caBundle).

(** The steps after the signature, up to the load response; [rest] is what the
    call does then. *)
Definition client_load (rotate : bool) (caBundle : list x509) (rest : call) (signedCert : x509) : call :=
  Send (load_request caBundle signedCert) (λ err,
    match err with
    | Some err => client_fail "failed to send LoadCertificateRequest: %v" err
    | None =>
        Recv (λ req,
          match req with
          | inl err => client_fail ("failed to receive " +:+ response_name rotate +:+ ": %v") err
          | inr LoadCertificateResponse => rest
          | inr _ => client_fail_with "expected LoadCertificateResponse, got something else"
          end)
    end).

(** The steps from the response to the request for a signing request. *)
Definition client_csr (rotate : bool) (caBundle : list x509) (rest : call) (req : error + cert_response) : call :=
  match req with
  | inl err => client_fail ("failed to receive " +:+ response_name rotate +:+ ": %v") err
  | inr (GeneratedCsr (Some csr)) =>
      match pem_Decode csr with
      | None => client_fail_with "failed to decode CSR PEM block"
      | Some derCSR =>
          match ParseCertificateRequest derCSR with
          | None => client_fail_with "failed to parse CSR DER"
          | Some csr =>
              Sign csr (λ signed,
                match signed with
                | inl err => client_fail "failed to sign the CSR: %v" err
                | inr signedCert => client_load rotate caBundle rest signedCert
                end)
          end
      end
  | inr _ => client_fail_with "expected GenerateCSRRequest, got something else"
  end.

(** The part [Rotate] and [Install] share. *)
Definition client_exchange (rotate : bool) (certID : string) (minKeySize : Z) (params : pkix_Name)
    (ipAddress : string) (caBundle : list x509) (rest : call) : call :=
  Open (λ err,
    match err with
    | Some err => client_fail "failed stream: %v" err
    | None =>
        match csr_params minKeySize params ipAddress with
        | None => Crash
        | Some p =>
            Send (GenerateCsr certID (Some p)) (λ err,
              match err with
              | Some err => client_fail "failed to send GenerateCSRRequest: %v" err
              | None => Recv (client_csr rotate caBundle rest)
              end)
        end
    end).

(** The end of [Rotate]. *)
Definition client_finalize : call :=
  Validate (λ err,
    match err with
    | Some err => client_fail "failed to validate rotated certificate: %v" err
    | None =>
        Send FinalizeRotation (λ err,
          match err with
          | Some err => client_fail "failed to send LoadCertificateRequest: %v" err
          | None => Return None
          end)
    end).

Definition client_Rotate (certID : string) (minKeySize : Z) (params : pkix_Name) (ipAddress : string)
    (caBundle : list x509) : call :=
  client_exchange true certID minKeySize params ipAddress caBundle client_finalize.

Definition client_Install (certID : string) (minKeySize : Z) (params : pkix_Name) (ipAddress : string)
    (caBundle : list x509) : call :=
  client_exchange false certID minKeySize params ipAddress caBundle (Return None).

(** The unary calls: [out] is the response of the service. *)
Context (ParseCertificate : string → option x509).

(** An entry of the response may lack its certificate. *)
Fixpoint client_certificates (infos : list (string * option Certificate)) (ret : gmap string x509)
    : error + gmap string x509 :=
  match infos with
  | [] => inr ret
  | (_, None) :: infos => client_certificates infos ret
  | (certID, Some cert) :: infos =>
      match PEMtox509 pem_Decode ParseCertificate (c_Certificate cert) with
      | inl err => inl (Errorf_plain "failed to decode certificate: %v" [AMsg (error_text err)])
      | inr x509Cert => client_certificates infos (<[certID := x509Cert]> ret)
      end
  end.

Definition client_GetCertificates (out : error + list (string * option Certificate)) : error + gmap string x509 :=
  match out with
  | inl err => inl err
  | inr infos => client_certificates infos ∅
  end.

Definition client_RevokeCertificates (out : error + list (string * string)) : error + gmap string string :=
  match out with
  | inl err => inl err
  | inr errs => inr (foldl (λ ret '(certID, text), <[certID := text]> ret) ∅ errs)
  end.

Definition client_CanGenerateCSR (service : Z → Z → Z → error + bool) : error + bool :=
  match service KeyType_KT_RSA CertificateType_CT_X509 2048%Z with
  | inl err => inl err
  | inr b => inr b
  end.

(** ** A call and its handler

    The requests and responses on their way are queues.  What the caller's
    functions returned and the manager before and after each turn of the
    handler are recorded. *)
Context (createCSR : pkix_Name → error + string).
Abbreviation session_step := (session_step pem_Decode ParseCertificate createCSR).

Record link : Type := mkLink {
  l_call : call;
  l_session : session x509;
  l_manager : Manager x509;
  l_requests : list cert_request;
  l_responses : list cert_response;
  l_signed : list x509;
  l_validated : bool;
  l_turns : list (turn * Manager x509 * Manager x509)
}.

Definition link_init (rotate : bool) (c : call) (m : Manager x509) : link :=
  mkLink c (AwaitCSR rotate) m [] [] [] false [].

Definition is_done (s : session x509) : bool := match s with Done _ => true | _ => false end.

(** Every operation may fail; a request that was sent may never arrive, since
    the handler may fail to receive; other handlers of the service change the
    manager between the steps. *)
Inductive link_step : link → link → Prop :=
  | link_open k err s m up down sg v ts :
      link_step (mkLink (Open k) s m up down sg v ts) (mkLink (k err) s m up down sg v ts)
  | link_send req k s m up down sg v ts :
      link_step (mkLink (Send req k) s m up down sg v ts) (mkLink (k None) s m (up ++ [req]) down sg v ts)
  | link_send_error req k err s m up down sg v ts :
      link_step (mkLink (Send req k) s m up down sg v ts) (mkLink (k (Some err)) s m up down sg v ts)
  | link_recv k r s m up down sg v ts :
      link_step (mkLink (Recv k) s m up (r :: down) sg v ts) (mkLink (k (inr r)) s m up down sg v ts)
  | link_recv_error k err s m up down sg v ts :
      link_step (mkLink (Recv k) s m up down sg v ts) (mkLink (k (inl err)) s m up down sg v ts)
  | link_sign csr k c s m up down sg v ts :
      link_step (mkLink (Sign csr k) s m up down sg v ts) (mkLink (k (inr c)) s m up down (sg ++ [c]) v ts)
  | link_sign_error csr k err s m up down sg v ts :
      link_step (mkLink (Sign csr k) s m up down sg v ts) (mkLink (k (inl err)) s m up down sg v ts)
  | link_validate k err s m up down sg v ts :
      link_step (mkLink (Validate k) s m up down sg v ts)
        (mkLink (k err) s m up down sg (if err is Some _ then v else true) ts)
  | link_serve c s m req up down sg v ts t m' s' out :
      is_done s = false → t_recv t = inr req → session_step s t m = Ok (m', s', out) →
      link_step (mkLink c s m (req :: up) down sg v ts) (mkLink c s' m' up (down ++ out) sg v (ts ++ [(t, m, m')]))
  | link_serve_error c s m up down sg v ts t err m' s' out :
      is_done s = false → t_recv t = inl err → session_step s t m = Ok (m', s', out) →
      link_step (mkLink c s m up down sg v ts) (mkLink c s' m' up (down ++ out) sg v (ts ++ [(t, m, m')]))
  | link_other c s m m' up down sg v ts :
      link_step (mkLink c s m up down sg v ts) (mkLink c s m' up down sg v ts).
End client.

Arguments call : clear implicits.
Arguments link : clear implicits.
Arguments Return {x509 CSR}.
