(* ===== verification/CertClientSpec.v ===== *)
(** * CertClientSpec: what a call of the client and its handler agree on

    A predicate on the programs of [CertClient] collects what a call promises
    at each operation; connected to a handler it is an invariant of the pair,
    whatever the stream and the other handlers do. *)

From Stdlib Require Import ZArith Lia.
From stdpp Require Import relations.
From S2P Require Import Prelude Status Cert CertSpec CertClient.

Section agreement.
Context {x509 CSR : Type}.
Context (pem_Decode : string → option string) (ParseCertificateRequest : string → option CSR).
Context (certPEMEncoder : x509 → string) (ParseCertificate : string → option x509).
Context (createCSR : pkix_Name → error + string).
(** The encoding of a certificate decodes to the certificate. *)
Context (PEM_roundtrip : ∀ c, PEMtox509 pem_Decode ParseCertificate (certPEMEncoder c) = inr c).
Abbreviation call := (call x509 CSR).
Abbreviation link := (link x509 CSR).
Abbreviation link_step := (link_step pem_Decode ParseCertificate createCSR).
Abbreviation load_request := (load_request certPEMEncoder).

(** The call of which the properties speak. *)
Context (rotate : bool) (certID : string) (bundle : list x509).

(** One turn of the handler stored the certificate [c] and the bundle. *)
Definition stored (c : x509) (e : turn * Manager x509 * Manager x509) : Prop :=
  let '(t, m, m') := e in
  (bool_decide (is_Some (certInfo m !! certID)) = rotate) ∧ (certID ∉ locks m) ∧
  certInfo m' = <[certID := Some (mkInfo certID c (t_now t))]> (certInfo m) ∧
  caBundle m' = (if bool_decide (bundle = []) then caBundle m else bundle) ∧
  locks m' = (if rotate then {[certID]} ∪ locks m else locks m).

Definition has_stored (signed : list x509) (ts : list (turn * Manager x509 * Manager x509)) : Prop :=
  ∃ c e, c ∈ signed ∧ e ∈ ts ∧ stored c e.

Lemma has_stored_app sg ts sg' ts' : has_stored sg ts → has_stored (sg ++ sg') (ts ++ ts').
Proof. intros (c & e & ? & ? & ?). exists c, e. set_solver. Qed.

(** The requests of the call. *)
Definition request_ok (signed : x509 → Prop) (v : Prop) (req : cert_request) : Prop :=
  match req with
  | GenerateCsr id params => id = certID
  | LoadCertificate _ _ => ∃ c, signed c ∧ req = load_request bundle c
  | FinalizeRotation => v
  | NoRequest => False
  end.

(** What a call promises: it sends these requests only, and it succeeds only
    when the certificate is stored ([ld]) and, in a rotation, its caller has
    validated it ([v]). *)
Fixpoint safe (c : call) (signed : x509 → Prop) (v ld : Prop) : Prop :=
  match c with
  | Return None => ld ∧ (rotate = true → v)
  | Return (Some _) | Crash => True
  | Open k => ∀ err, safe (k err) signed v ld
  | Send req k => request_ok signed v req ∧ ∀ err, safe (k err) signed v ld
  | Recv k => (∀ err, safe (k (inl err)) signed v ld) ∧
              ∀ r (ld' : Prop), (ld → ld') → (r = LoadCertificateResponse → ld') → safe (k (inr r)) signed v ld'
  | Sign csr k => ∀ res, safe (k res) (λ c, signed c ∨ res = inr c) v ld
  | Validate k => ∀ err, safe (k err) signed (v ∨ err = None) ld
  end.

Lemma request_ok_mono (signed signed' : x509 → Prop) (v v' : Prop) req :
  (∀ c, signed c → signed' c) → (v → v') → request_ok signed v req → request_ok signed' v' req.
Proof. intros. destruct req; cbn in *; naive_solver. Qed.

Lemma safe_mono c (signed signed' : x509 → Prop) (v v' ld ld' : Prop) :
  (∀ c, signed c → signed' c) → (v → v') → (ld → ld') → safe c signed v ld → safe c signed' v' ld'.
Proof.
  revert signed signed' v v' ld ld'. induction c as [[e|]| |k IH|req k IH|k IH|csr k IH|k IH];
    intros signed signed' v v' ld ld' Hs Hv Hl; cbn.
  - done.
  - naive_solver.
  - done.
  - intros Hk err. by apply (IH _ signed signed' v v' ld ld').
  - intros [Hr Hk]. split; [by eapply request_ok_mono|]. intros err. by apply (IH _ signed signed' v v' ld ld').
  - intros [He Hk]. split; [intros err; by apply (IH _ signed signed' v v' ld ld')|]. intros r ld2 Hl2 Hr.
    eapply (IH _ signed signed' v v' ld2 ld2); [done..|]. apply Hk; tauto.
  - intros Hk res. apply (IH _ (λ c, signed c ∨ res = inr c) (λ c, signed' c ∨ res = inr c) v v' ld ld');
      [naive_solver|done..|apply Hk].
  - intros Hk err. apply (IH _ signed signed' (v ∨ err = None) (v' ∨ err = None) ld ld'); [done|tauto|done|apply Hk].
Qed.

(** Both calls keep the promise. *)
Lemma client_load_safe rest (signed : x509 → Prop) (v ld : Prop) c :
  signed c → (∀ ld' : Prop, (ld → ld') → ld' → safe rest signed v ld') →
  safe (client_load certPEMEncoder rotate bundle rest c) signed v ld.
Proof.
  intros Hc Hrest. cbn. split; [by exists c|]. intros [err|]; [done|]. cbn. split; [done|].
  intros [[csr|]| |] ld' Hld Hl; cbn; try done. auto.
Qed.

Lemma client_exchange_safe minKeySize params ip rest (signed : x509 → Prop) (v ld : Prop) :
  (∀ (signed' : x509 → Prop) (ld' : Prop), ld' → safe rest signed' v ld') →
  safe (client_exchange pem_Decode ParseCertificateRequest certPEMEncoder rotate certID minKeySize params ip bundle rest)
    signed v ld.
Proof.
  intros Hrest. cbn. intros [err|]; [done|]. destruct (csr_params minKeySize params ip) as [p|]; [|done].
  cbn. split; [done|]. intros [err|]; [done|]. cbn. split; [done|]. intros r ld' Hld Hl.
  destruct r as [[csr|]| |]; cbn; try done. destruct (pem_Decode csr) as [der|]; [|done].
  destruct (ParseCertificateRequest der); [|done]. cbn. intros [err|x]; [done|].
  apply client_load_safe; [by right|]. auto.
Qed.

Lemma client_finalize_safe (signed : x509 → Prop) (v ld : Prop) : ld → safe client_finalize signed v ld.
Proof.
  intros Hl. cbn. intros [err|]; [done|]. cbn. split; [by right|]. intros [err|]; [done|]. split; [done|by right].
Qed.

(** ** The handler *)

(** What the handler has done in each of its states. *)
Definition handler_ok (s : session x509) (signed : list x509) (v : Prop)
    (ts : list (turn * Manager x509 * Manager x509)) : Prop :=
  match s with
  | AwaitCSR r => r = rotate
  | AwaitLoad r id => r = rotate ∧ id = certID
  | AwaitFinalize r => rotate = true ∧ r_certID r = certID ∧ has_stored signed ts
  | Done None => has_stored signed ts ∧ (rotate = true → v)
  | Done (Some _) => True
  end.

Lemma decode_bundle_encoded l acc :
  decode_bundle pem_Decode ParseCertificate (certPEMEncoder <$> l) acc = inr (acc ++ l).
Proof.
  revert acc. induction l as [|c l IH]; intros acc; cbn; [by rewrite List.app_nil_r|].
  rewrite PEM_roundtrip, IH. by rewrite <-(assoc_L (++)).
Qed.

Lemma ca_certificates_encoded l acc :
  ca_certificates (pb_certificate certPEMEncoder <$> l) acc = inr (acc ++ (certPEMEncoder <$> l)).
Proof.
  revert acc. induction l as [|c l IH]; intros acc; cbn; [by rewrite List.app_nil_r|].
  rewrite IH. by rewrite <-(assoc_L (++)).
Qed.

Lemma update_stored now (q : bool) c m m1 r :
  update pem_Decode ParseCertificate now q certID (certPEMEncoder c) (certPEMEncoder <$> bundle) m = (m1, inr r) →
  (bool_decide (is_Some (certInfo m !! certID)) = q) ∧ (certID ∉ locks m) ∧ r_certID r = certID ∧
  certInfo m1 = <[certID := Some (mkInfo certID c now)]> (certInfo m) ∧
  caBundle m1 = (if bool_decide (bundle = []) then caBundle m else bundle) ∧
  locks m1 = {[certID]} ∪ locks m.
Proof.
  unfold update. rewrite PEM_roundtrip, decode_bundle_encoded, length_fmap, List.app_nil_l.
  destruct (bool_decide (is_Some (certInfo m !! certID))), q; cbn [negb andb]; try (intros [=]; fail).
  all: case_bool_decide as Hl; [intros [=]|].
  all: destruct bundle as [|b l]; cbn [length Nat.eqb]; intros [= <- <-]; cbn; by split_and!.
Qed.

Lemma session_load_ok c t m m' s' out sg v ts :
  t_recv t = inr (load_request bundle c) → c ∈ sg →
  session_load pem_Decode ParseCertificate rotate certID t m = Ok (m', s', out) →
  handler_ok s' sg v (ts ++ [(t, m, m')]) ∧ (LoadCertificateResponse ∈ out → has_stored sg (ts ++ [(t, m, m')])).
Proof.
  intros Hrecv Hc. unfold session_load, fail. rewrite Hrecv. cbv [mret outcome_ret]. cbn -[ca_certificates update].
  rewrite ca_certificates_encoded, List.app_nil_l. unfold Manager_Rotate, Manager_Install.
  assert (∀ m1, stored c (t, m, m1) → has_stored sg (ts ++ [(t, m, m1)])) as Hst.
  { intros m1 Hm1. exists c, (t, m, m1). set_solver. }
  unfold stored in Hst. destruct rotate eqn:Hrot; revert Hst;
    destruct (update _ _ _ _ _ _ _ _) as [m1 [err|r]] eqn:Hup; intros Hst Hstep.
  1, 3: injection Hstep as <- <- <-; split; [done|set_solver].
  all: apply update_stored in Hup as (Hex & Hl & Hid & Hinfo & Hb & Hlocks).
  all: destruct (t_sent t); injection Hstep as <- <- <-; cbn; [split; [done|set_solver]|].
  - split; [split; [done|]; split; [done|]|intros _]; apply Hst; by split_and!.
  - assert (has_stored sg (ts ++ [(t, m, accept r m1)])) as Hs; [|split; [split; [done|by rewrite Hrot]|done]].
    apply Hst. split_and!; [done..|]. cbn. rewrite Hid, Hlocks. set_solver.
Qed.

(** A turn of the handler on a request of the call, or on a failed stream. *)
Lemma handler_step_ok s t m m' s' out sg (v : Prop) ts :
  handler_ok s sg v ts →
  match t_recv t with inl _ => True | inr req => request_ok (λ c, c ∈ sg) v req end →
  session_step pem_Decode ParseCertificate createCSR s t m = Ok (m', s', out) →
  handler_ok s' sg v (ts ++ [(t, m, m')]) ∧
  (is_done s = false → LoadCertificateResponse ∈ out → has_stored sg (ts ++ [(t, m, m')])).
Proof.
  destruct s as [r|r id|r|[e|]]; cbn [Cert.session_step handler_ok]; intros Hs Hreq Hstep.
  - subst r. unfold session_csr, fail in Hstep. cbv [mret outcome_ret] in Hstep.
    repeat case_match; simplify_eq; cbn in *; set_solver.
  - destruct Hs as [-> ->]. destruct (t_recv t) as [err|req] eqn:Hrecv.
    + unfold session_load, fail in Hstep. rewrite Hrecv in Hstep. cbv [mret outcome_ret] in Hstep.
      injection Hstep as <- <- <-. set_solver.
    + destruct req as [id p|cert cas| |]; [..|done].
      2: { destruct Hreq as (c & Hc & Heq). rewrite Heq in Hrecv.
           destruct (session_load_ok c t m m' s' out sg v ts Hrecv Hc Hstep) as [? ?]. by split. }
      all: unfold session_load, fail in Hstep; rewrite Hrecv in Hstep; cbv [mret outcome_ret] in Hstep;
        injection Hstep as <- <- <-; set_solver.
  - destruct Hs as (Hr & Hid & Hst). unfold session_finalize, fail in Hstep. cbv [mret outcome_ret] in Hstep.
    apply (has_stored_app _ _ [] [(t, m, m')]) in Hst. rewrite List.app_nil_r in Hst.
    repeat case_match; simplify_eq; cbn in *; set_solver.
  - injection Hstep as <- <- <-. done.
  - injection Hstep as <- <- <-. destruct Hs as [Hst Hv]. split; [split; [|done]|done].
    apply (has_stored_app _ _ [] [(t, m, m)]) in Hst. by rewrite List.app_nil_r in Hst.
Qed.

(** ** The pair *)
Definition agreed (l : link) : Prop :=
  let ld := has_stored (l_signed l) (l_turns l) in
  safe (l_call l) (λ c, c ∈ l_signed l) (l_validated l = true) ld ∧
  Forall (request_ok (λ c, c ∈ l_signed l) (l_validated l = true)) (l_requests l) ∧
  handler_ok (l_session l) (l_signed l) (l_validated l = true) (l_turns l) ∧
  (LoadCertificateResponse ∈ l_responses l → ld).

(** The call and its callers' functions grow what is signed and validated. *)
Lemma handler_ok_mono s sg sg' (v v' : Prop) ts :
  (∀ c, c ∈ sg → c ∈ sg') → (v → v') → handler_ok s sg v ts → handler_ok s sg' v' ts.
Proof. intros Hs Hv. destruct s as [| | |[|]]; cbn; try done; unfold has_stored; naive_solver. Qed.

Lemma link_step_agreed l l' : link_step l l' → agreed l → agreed l'.
Proof.
  unfold agreed.
  destruct 1 as [k err s m up down sg v ts|req k s m up down sg v ts|req k err s m up down sg v ts
    |k r s m up down sg v ts|k err s m up down sg v ts|csr k c s m up down sg v ts|csr k err s m up down sg v ts
    |k err s m up down sg v ts|c s m req up down sg v ts t m' s' out Hd Hrecv Hstep
    |c s m up down sg v ts t err m' s' out Hd Hrecv Hstep|c s m m' up down sg v ts];
    cbn [l_call l_session l_manager l_requests l_responses l_signed l_validated l_turns];
    intros (Hc & Hup & Hs & Hdown); cbn [safe] in Hc.
  - naive_solver.
  - destruct Hc as [Hreq Hc]. split_and!; [done|by apply Forall_app; split; [|constructor]|done|done].
  - destruct Hc as [_ Hc]. by split_and!.
  - destruct Hc as [_ Hc]. split_and!; [apply Hc|done|done|]; set_solver.
  - destruct Hc as [Hc _]. by split_and!.
  - assert (has_stored sg ts → has_stored (sg ++ [c]) ts) as Hm.
    { intros Hst. apply (has_stored_app _ _ [c] []) in Hst. by rewrite List.app_nil_r in Hst. }
    split_and!.
    + eapply safe_mono; [| |exact Hm|apply Hc]; [|done]. cbn. set_solver.
    + eapply Forall_impl; [exact Hup|]. intros req. apply request_ok_mono; set_solver.
    + eapply handler_ok_mono; [| |exact Hs]; set_solver.
    + auto.
  - split_and!; [|done..]. eapply safe_mono; [| | |apply Hc]; naive_solver.
  - specialize (Hc err). assert (v = true → (if err is Some _ then v else true) = true) as Hv by by destruct err.
    split_and!; [|eapply Forall_impl; [exact Hup|]; intros req; by apply request_ok_mono
                 |by eapply handler_ok_mono; [| |exact Hs]|done].
    eapply safe_mono; [| | |exact Hc]; [done| |done]. intros [?| ->]; auto.
  - inversion_clear Hup as [|? ? Hreq Hup'].
    destruct (handler_step_ok s t m m' s' out sg (v = true) ts) as [Hs' Hout]; [done|by rewrite Hrecv|done|].
    assert (has_stored sg ts → has_stored sg (ts ++ [(t, m, m')])) as Hm.
    { intros Hst. apply (has_stored_app _ _ [] [(t, m, m')]) in Hst. by rewrite List.app_nil_r in Hst. }
    split_and!; [by eapply safe_mono; [| |exact Hm|apply Hc]|done|done|].
    intros [?|?]%elem_of_app; auto.
  - destruct (handler_step_ok s t m m' s' out sg (v = true) ts) as [Hs' Hout]; [done|by rewrite Hrecv|done|].
    assert (has_stored sg ts → has_stored sg (ts ++ [(t, m, m')])) as Hm.
    { intros Hst. apply (has_stored_app _ _ [] [(t, m, m')]) in Hst. by rewrite List.app_nil_r in Hst. }
    split_and!; [by eapply safe_mono; [| |exact Hm|apply Hc]|done|done|].
    intros [?|?]%elem_of_app; auto.
  - by split_and!.
Qed.

Lemma agreed_init c m :
  safe c (λ c, c ∈ []) (false = true) (has_stored [] []) → agreed (link_init rotate c m).
Proof.
  intros Hc. unfold agreed, link_init. cbn [l_call l_session l_requests l_responses l_signed l_validated l_turns].
  split_and!; [exact Hc|constructor|done|set_solver].
Qed.

Lemma agreed_reachable c m l :
  safe c (λ c, c ∈ []) (false = true) (has_stored [] []) → rtc link_step (link_init rotate c m) l → agreed l.
Proof.
  intros Hc Hr. pose proof (agreed_init c m Hc) as Ha. revert Ha. clear Hc.
  induction Hr; eauto using link_step_agreed.
Qed.
End agreement.

(** ** A run without failures *)
Section run.
Context {x509 CSR : Type}.
Context (pem_Decode : string → option string) (ParseCertificateRequest : string → option CSR).
Context (certPEMEncoder : x509 → string) (ParseCertificate : string → option x509).
Context (createCSR : pkix_Name → error + string).
Abbreviation link_step := (link_step (CSR:=CSR) pem_Decode ParseCertificate createCSR).

Definition ok_turn (req : cert_request) (now : Z) : turn := mkTurn (inr req) None now.

(** The request for the signing request and its answer. *)
Lemma run_csr rotate certID minKeySize params p ip bundle rest m csr der cr :
  csr_params minKeySize params ip = Some p → createCSR (mkName [csr_Country p] [csr_Organization p]
    [csr_OrganizationalUnit p] [] (csr_CommonName p)) = inr csr →
  pem_Decode csr = Some der → ParseCertificateRequest der = Some cr →
  ∃ k ts, (∀ c, k (inr c) = client_load certPEMEncoder rotate bundle rest c) ∧
    rtc link_step
      (link_init rotate (client_exchange pem_Decode ParseCertificateRequest certPEMEncoder rotate certID minKeySize
         params ip bundle rest) m)
      (mkLink (Sign cr k) (AwaitLoad rotate certID) m [] [] [] false ts).
Proof.
  intros Hp Hcsr Hder Hcr. eexists _, [(ok_turn (GenerateCsr certID (Some p)) 0, m, m)]. split; last first.
  - unfold link_init, client_exchange. eapply rtc_l; [apply link_open with (err := None)|]. cbn. rewrite Hp.
    eapply rtc_l; [apply link_send|]. cbn.
    eapply rtc_l; [eapply link_serve with (t := ok_turn (GenerateCsr certID (Some p)) 0)|].
    + done.
    + done.
    + cbn. unfold session_csr. cbn.
      assert (csr_Type p = CertificateType_CT_X509 ∧ csr_KeyType p = KeyType_KT_RSA) as [-> ->].
      { unfold csr_params in Hp. by simplify_option_eq. }
      cbn. unfold GenCSR. rewrite Hcsr. reflexivity.
    + cbn. eapply rtc_l; [apply link_recv|]. cbn. rewrite Hder, Hcr. apply rtc_refl.
  - done.
Qed.

(** The signature, the certificate on its way, and its answer. *)
Lemma run_load (rotate : bool) certID bundle rest cr k (ts : list (turn * Manager x509 * Manager x509)) m m1 r c now :
  (∀ c, k (inr c) = client_load certPEMEncoder rotate bundle rest c) →
  update pem_Decode ParseCertificate now rotate certID (certPEMEncoder c) (certPEMEncoder <$> bundle) m = (m1, inr r) →
  ∃ ts', rtc link_step (mkLink (Sign cr k) (AwaitLoad rotate certID) m [] [] [] false ts)
    (if rotate then mkLink rest (AwaitFinalize r) m1 [] [] [c] false ts'
     else mkLink rest (Done None) (accept r m1) [] [] [c] false ts').
Proof.
  intros Hk Hup. destruct rotate; eexists; (eapply rtc_l; [apply link_sign|]); rewrite Hk; unfold client_load;
    (eapply rtc_l; [apply link_send|]); cbn [app];
    (eapply rtc_l; [eapply link_serve with (t := ok_turn (load_request certPEMEncoder bundle c) now)|]);
    try reflexivity.
  1, 3: cbn -[ca_certificates update session_load]; unfold session_load; cbn -[ca_certificates update];
    rewrite ca_certificates_encoded, List.app_nil_l; unfold Manager_Rotate, Manager_Install; by rewrite Hup.
  all: eapply rtc_l; [apply link_recv|apply rtc_refl].
Qed.
End run.

(** ** The unary calls *)

(** The response of [GetCertificates] on the wire: the modification time is not
    read by the client. *)
Definition wire_infos (infos : list (string * Certificate * Z)) : list (string * option Certificate) :=
  (λ '(id, c, _), (id, Some c)) <$> infos.

Section unary.
Context {x509 : Type} (pem_Decode : string → option string) (ParseCertificate : string → option x509).
Context (certPEMEncoder : x509 → string).
Context (PEM_roundtrip : ∀ c, PEMtox509 pem_Decode ParseCertificate (certPEMEncoder c) = inr c).
Abbreviation client_certificates := (client_certificates pem_Decode ParseCertificate).

(** Every entry of the table is stored under its identifier. *)
Definition well_keyed (info : gmap string (option (Info x509))) : Prop :=
  map_Forall (λ id oi, ∃ i, oi = Some i ∧ i_certID i = id) info.

Lemma certificate_infos_ok l acc :
  Forall (λ oi, is_Some oi) l →
  certificate_infos certPEMEncoder l acc =
    Ok (acc ++ ((λ i, (i_certID i, mkCertificate CertificateType_CT_X509 (certPEMEncoder (i_cert i)), i_updated i)) <$> omap id l)).
Proof.
  revert acc. induction l as [|[i|] l IH]; intros acc Hl; cbn.
  - by rewrite List.app_nil_r.
  - apply Forall_cons in Hl as [_ Hl]. rewrite IH by done. by rewrite <-(assoc_L (++)).
  - apply Forall_cons in Hl as [[? [=]] _].
Qed.

Lemma client_certificates_ok l acc :
  client_certificates (wire_infos ((λ i, (i_certID i, mkCertificate CertificateType_CT_X509 (certPEMEncoder (i_cert i)), i_updated i)) <$> l)) acc =
    inr (foldl (λ m '(k, c), <[k := c]> m) acc ((λ i, (i_certID i, i_cert i)) <$> l)).
Proof. revert acc. induction l as [|i l IH]; intros acc; cbn; [done|]. rewrite PEM_roundtrip. apply IH. Qed.

(** The certificates of a table. *)
Definition certificates (info : gmap string (option (Info x509))) : gmap string x509 :=
  omap (λ oi : option (Info x509), i_cert <$> oi) info.

Lemma well_keyed_pairs `{GoRange} (info : gmap string (option (Info x509))) :
  well_keyed info →
  NoDup ((λ i, (i_certID i, i_cert i)) <$> omap id ((go_range info).*2)).*1 ∧
  list_to_map ((λ i, (i_certID i, i_cert i)) <$> omap id ((go_range info).*2)) = certificates info.
Proof.
  intros Hk. set (l := (λ i, (i_certID i, i_cert i)) <$> omap id ((go_range info).*2)).
  assert (l.*1 = (go_range info).*1) as Hkeys.
  { subst l. assert (∀ kv, kv ∈ go_range info → ∃ i, kv.2 = Some i ∧ i_certID i = kv.1) as Hall.
    { intros [id oi] Hin%elem_of_go_range. by apply Hk. }
    induction (go_range info) as [|[id oi] kvs IH]; [done|].
    destruct (Hall (id, oi)) as (i & Hi & Hid); [by left|]. cbn in Hi, Hid. subst oi. cbn.
    rewrite Hid. f_equal. apply IH. intros kv Hkv. apply Hall. by right. }
  assert (NoDup l.*1) as Hnd by (rewrite Hkeys; apply go_range_NoDup). split; [done|].
  apply map_eq. intros id. apply option_eq. intros c. rewrite <-elem_of_list_to_map by done.
  unfold certificates. rewrite lookup_omap. subst l. rewrite list_elem_of_fmap. split.
  - intros (i & [= -> ->] & Hi). apply list_elem_of_omap in Hi as (oi & Hoi & Hid).
    apply list_elem_of_fmap in Hoi as ([id oi'] & -> & Hin%elem_of_go_range). cbn in Hid. subst oi'.
    pose proof (Hk _ _ Hin) as (i' & [= <-] & Hi'). rewrite Hi', Hin. done.
  - destruct (info !! id) as [oi|] eqn:Hin; [|done]. cbn. destruct oi as [i|]; [|done]. intros [= <-].
    pose proof (Hk _ _ Hin) as (i' & [= <-] & Hi'). exists i. split; [by rewrite Hi'|].
    apply list_elem_of_omap. exists (Some i). split; [|done]. apply list_elem_of_fmap. exists (id, Some i).
    split; [done|]. by apply elem_of_go_range.
Qed.
End unary.

(** ** Theorems *)
Section theorems.
Context {x509 CSR : Type}.
Context (pem_Decode : string → option string) (ParseCertificateRequest : string → option CSR).
Context (certPEMEncoder : x509 → string) (ParseCertificate : string → option x509).
Context (createCSR : pkix_Name → error + string).
Abbreviation link_step := (link_step (CSR:=CSR) pem_Decode ParseCertificate createCSR).
Abbreviation Rotate := (client_Rotate pem_Decode ParseCertificateRequest certPEMEncoder).
Abbreviation Install := (client_Install pem_Decode ParseCertificateRequest certPEMEncoder).

(** C10. Client and target agree: whatever the stream loses, however the handler
    and the other handlers of the service interleave, when a call of the client
    succeeds, or its handler ends without an error, one turn of the handler has
    stored, under the requested identifier and with the requested bundle, a
    certificate the caller signed, an installation only under a new identifier
    and a rotation only under a known one; and a rotation, the caller has
    validated it. *)
Theorem calls_agree (rotate : bool) (certID : string) (minKeySize : Z) (params : pkix_Name) (ip : string)
    (bundle : list x509) (m : Manager x509) (l : link x509 CSR) :
  (∀ c, PEMtox509 pem_Decode ParseCertificate (certPEMEncoder c) = inr c) →
  rtc link_step (link_init rotate ((if rotate then Rotate else Install) certID minKeySize params ip bundle) m) l →
  l_call l = Return None ∨ l_session l = Done None →
  (∃ c t m1 m2, c ∈ l_signed l ∧ (t, m1, m2) ∈ l_turns l ∧ stored rotate certID bundle c (t, m1, m2)) ∧
  (rotate = true → l_validated l = true).
Proof.
  intros Hpem Hr Hend. apply (agreed_reachable _ ParseCertificateRequest certPEMEncoder _ _ Hpem rotate certID bundle) in Hr.
  - destruct Hr as (Hc & _ & Hs & _).
    assert (has_stored rotate certID bundle (l_signed l) (l_turns l) ∧ (rotate = true → l_validated l = true))
      as [(c & [[t m1] m2] & ? & ? & ?) ?].
    { destruct Hend as [Hend|Hend]; [rewrite Hend in Hc; exact Hc|rewrite Hend in Hs; exact Hs]. }
    split; [by exists c, t, m1, m2|done].
  - destruct rotate; apply client_exchange_safe; [|done].
    intros signed' ld' Hl. by apply client_finalize_safe.
Qed.



(** The client reads the table of the target: for a table whose entries
    carry their identifiers, GetCertificates of the client, on the response of
    the service, returns exactly the certificates of the table, whatever the
    order in which the service iterates over it. *)
Theorem GetCertificates_composed `{GoRange} (cm : Manager x509) :
  (∀ c, PEMtox509 pem_Decode ParseCertificate (certPEMEncoder c) = inr c) → well_keyed (certInfo cm) →
  ∃ infos, GetCertificates certPEMEncoder cm = Ok infos ∧
    client_GetCertificates pem_Decode ParseCertificate (inr (wire_infos infos)) = inr (certificates (certInfo cm)).
Proof.
  intros Hpem Hk. eexists. split.
  - apply certificate_infos_ok. apply Forall_fmap, Forall_forall. intros [id oi] Hin%elem_of_go_range.
    destruct (Hk _ _ Hin) as (i & -> & _). by eexists.
  - unfold client_GetCertificates. cbn [app]. rewrite (client_certificates_ok _ _ _ Hpem).
    destruct (well_keyed_pairs (certInfo cm) Hk) as [Hnd Hmap].
    rewrite foldl_insert by done. unfold GetCertInfo. by rewrite Hmap, (right_id_L ∅ (∪)).
Qed.
End theorems.

Section revoke.
Context {x509 : Type}.

(** What a revocation reports for an identifier. *)
Definition revocation_error (cm : Manager x509) (id : string) : option string :=
  if bool_decide (id ∈ locks cm) then Some "an operation with this certID is in progress"
  else if bool_decide (is_Some (certInfo cm !! id)) then None
  else Some "does not exist".

Lemma Revoke_loop_errors ids cm revoked errs cm' revoked' errs' id :
  NoDup ids → Revoke_loop ids cm revoked errs = (cm', revoked', errs') →
  errs' !! id = if bool_decide (id ∈ ids) then
                  match revocation_error cm id with Some text => Some text | None => errs !! id end
                else errs !! id.
Proof.
  revert cm revoked errs. induction ids as [|i ids IH]; intros cm revoked errs Hnd Hr; cbn in Hr.
  { injection Hr as <- <- <-. by rewrite bool_decide_eq_false_2 by set_solver. }
  apply NoDup_cons in Hnd as [Hi Hnd].
  assert (bool_decide (id ∈ i :: ids) = bool_decide (id = i) || bool_decide (id ∈ ids)) as ->.
  { rewrite <-bool_decide_or. apply bool_decide_ext. set_solver. }
  destruct (decide (id = i)) as [->|Hne].
  - rewrite bool_decide_eq_true_2 by done. cbn [orb]. unfold revocation_error.
    assert (∀ cm0 rv0 errs0, Revoke_loop ids cm0 rv0 errs0 = (cm', revoked', errs') → errs' !! i = errs0 !! i) as Hskip.
    { intros cm0 rv0 errs0 Hr0. rewrite (IH _ _ _ Hnd Hr0). by rewrite bool_decide_eq_false_2. }
    repeat case_match; rewrite (Hskip _ _ _ Hr), ?lookup_insert_eq; done.
  - rewrite (bool_decide_eq_false_2 (id = i)) by done. cbn [orb].
    assert (revocation_error (set_certInfo (delete i) cm) id = revocation_error cm id) as Hdel.
    { unfold revocation_error, set_certInfo. cbn [certInfo locks]. by rewrite lookup_delete_ne. }
    destruct (bool_decide (i ∈ locks cm)); [|destruct (bool_decide (is_Some (certInfo cm !! i)))];
      rewrite (IH _ _ _ Hnd Hr), ?Hdel, ?lookup_insert_ne by done; done.
Qed.

(** The client reads what a revocation refused: for distinct identifiers
    RevokeCertificates of the client, on the response of the service, returns
    exactly the refused ones with the reason for each, whatever the order of the
    response. *)
Theorem RevokeCertificates_composed `{GoRange} (ids : list string) (cm cm' : Manager x509) revoked errs :
  NoDup ids → RevokeCertificates ids cm = (cm', revoked, errs) →
  ∃ ret, client_RevokeCertificates (inr errs) = inr ret ∧
    ∀ id, ret !! id = if bool_decide (id ∈ ids) then revocation_error cm id else None.
Proof.
  intros Hnd. unfold RevokeCertificates, Revoke.
  destruct (Revoke_loop ids cm [] ∅) as [[cm1 rv1] errs1] eqn:Hr. intros [= <- <- <-].
  exists errs1. split; [unfold client_RevokeCertificates; by rewrite foldl_insert_range|].
  intros id. rewrite (Revoke_loop_errors _ _ _ _ _ _ _ id Hnd Hr), lookup_empty. by destruct (revocation_error cm id).
Qed.
End revoke.

(** ** Evaluations: an encoding that puts PEM before the text. *)
Definition wire_pem (s : string) : option string :=
  match s with
  | String a (String b (String c rest)) =>
      if bool_decide (String a (String b (String c "")) = "PEM") then Some rest else None
  | _ => None
  end.
Definition wire_encoder (c : string) : string := "PEM" +:+ c.
Definition wire_csr (n : pkix_Name) : error + string := inr (wire_encoder (CommonName n)).

Lemma wire_roundtrip c : PEMtox509 wire_pem toy_parse (wire_encoder c) = inr c.
Proof. reflexivity. Qed.

Definition example_name : pkix_Name := mkName ["NZ"] ["gNxI"] ["gNxI"] ["state"] "target.com".
Definition example_params : CSRParams := mkCSRParams 1 1 "NZ" "gNxI" "gNxI" "target.com" 2048 "state" "10.0.0.1".
Definition example_manager : Manager string :=
  mkManager {["old" := Some (mkInfo "old" "cert" 0)]} ["ca"] ∅ 0.

Definition example_Install : call string string :=
  client_Install wire_pem toy_parse wire_encoder "new" 2048 example_name "10.0.0.1" ["ca2"].

Lemma example_run :
  ∃ l, rtc (link_step wire_pem toy_parse wire_csr) (link_init false example_Install example_manager) l ∧
    l_call l = Return None ∧ l_signed l = ["signed"].
Proof.
  destruct (run_csr wire_pem toy_parse wire_encoder toy_parse wire_csr false "new" 2048 example_name example_params
    "10.0.0.1" ["ca2"] (Return None) example_manager "PEMtarget.com" "target.com" "target.com")
    as (k & ts & Hk & Hr1); [done..|].
  destruct (run_load wire_pem wire_encoder toy_parse wire_csr false "new" ["ca2"] (Return None) "target.com" k ts
    example_manager _ _ "signed" 7 Hk eq_refl) as (ts' & Hr2).
  eexists. split; [etrans; [exact Hr1|exact Hr2]|]. by split.
Qed.

Lemma calls_agree_witness :
  ∃ l, rtc (link_step wire_pem toy_parse wire_csr) (link_init false example_Install example_manager) l ∧
    ∃ c t m1 m2, c ∈ l_signed l ∧ (t, m1, m2) ∈ l_turns l ∧ stored false "new" ["ca2"] c (t, m1, m2).
Proof.
  destruct example_run as (l & Hr & Hc & _). exists l. split; [exact Hr|].
  destruct (calls_agree wire_pem toy_parse wire_encoder toy_parse wire_csr false "new" 2048 example_name "10.0.0.1"
    ["ca2"] example_manager l) as [Hs _]; [exact wire_roundtrip|exact Hr|left; exact Hc|exact Hs].
Defined.



Lemma GetCertificates_composed_witness :
  ∃ infos, @GetCertificates _ wire_encoder canonical_range example_manager = Ok infos ∧
    client_GetCertificates wire_pem toy_parse (inr (wire_infos infos)) = inr {["old" := "cert"]}.
Proof.
  destruct (@GetCertificates_composed _ wire_pem wire_encoder toy_parse canonical_range example_manager)
    as (infos & Hi & Hc).
  - exact wire_roundtrip.
  - intros id oi Hoi. unfold example_manager in Hoi. cbn [certInfo] in Hoi.
    apply lookup_singleton_Some in Hoi as [<- <-]. eexists. split; reflexivity.
  - exists infos. split; [exact Hi|]. rewrite Hc. reflexivity.
Defined.

Lemma RevokeCertificates_composed_witness :
  ∃ ret, client_RevokeCertificates (inr (@RevokeCertificates _ canonical_range ["old"; "new"] example_manager).2) = inr ret ∧
    ret !! "old" = None ∧ ret !! "new" = Some "does not exist".
Proof.
  destruct (@RevokeCertificates_composed string canonical_range ["old"; "new"] example_manager
    (@RevokeCertificates _ canonical_range ["old"; "new"] example_manager).1.1
    (@RevokeCertificates _ canonical_range ["old"; "new"] example_manager).1.2
    (@RevokeCertificates _ canonical_range ["old"; "new"] example_manager).2) as (ret & Hr & Hret).
  - apply (bool_decide_unpack _). vm_compute. exact I.
  - reflexivity.
  - exists ret. split; [exact Hr|]. split; rewrite Hret; reflexivity.
Defined.

(** A repeated identifier is reported twice: revoked, and as one that does not
    exist. *)
Theorem Revoke_repeated {x509} (id : string) (cm : Manager x509) :
  id ∉ locks cm → is_Some (certInfo cm !! id) →
  ∃ cm', Revoke [id; id] cm = (cm', [id], {[id := "does not exist"]}).
Proof.
  intros Hl Hs. unfold Revoke. cbn [Revoke_loop set_certInfo locks certInfo].
  rewrite !(bool_decide_eq_false_2 (id ∈ locks cm)) by done.
  rewrite (bool_decide_eq_true_2 (is_Some (certInfo cm !! id))) by done.
  rewrite bool_decide_eq_false_2; [by eexists|]. rewrite lookup_delete_eq. by intros [? ?].
Qed.
