(* ===== verification/Tool.v ===== *)
(** * Tool: the certificate tool

    Models [gnoi_cert/gnoi_cert.go]: the operations of the command and the calls
    of the client they make.  The flags are a record; [Exit] ends the process
    with a message.  Dialling is an argument; the connection has no state
    here. *)

From Stdlib Require Import Ascii ZArith.
From S2P Require Export CertClient.

(** [strings.FieldsFunc] at commas: the parts that are not empty. *)
Definition FieldsFunc (s : string) : list string := base.filter (λ part, part ≠ "") (Split s ",").

Record tool_flags : Type := mkToolFlags {
  certID : string; certIDs : string; op : string; ca : string; key : string; targetCN : string;
  minKeySize : Z; country : string; state : string; org : string; orgUnit : string; ipAddress : string
}.

Section tool.
Context {x509 CSR : Type}.
Context (pem_Decode : string → option string) (ParseCertificateRequest : string → option CSR)
        (certPEMEncoder : x509 → string).

(** How the tool reaches the target: encrypted with the CA certificate as its
    own, or authenticated with a certificate signed by the CA. *)
Inductive connection : Type := Encrypted | Authenticated (targetName : string).

(** What the command does, once it has read its flags. *)
Inductive action : Type :=
  | Exit (m : msg)
  | Stream (conn : connection) (c : call x509 CSR)
  | Revoke_ (conn : connection) (ids : list string)
  | Check_ (conn : connection)
  | Get_ (conn : connection).

Definition pkiName (f : tool_flags) : pkix_Name := mkName [country f] [org f] [orgUnit f] [state f] (targetCN f).

(** The flag is an unsigned number, the field of the request has 32 bits. *)
Definition key_size (f : tool_flags) : Z := minKeySize f mod 2 ^ 32.

(** [caLeaf] is the certificate of the CA. *)
Definition provision (f : tool_flags) (caLeaf : x509) : action :=
  Stream Encrypted
    (client_Install pem_Decode ParseCertificateRequest certPEMEncoder (certID f) (key_size f) (pkiName f) (ipAddress f) [caLeaf]).

Definition install (f : tool_flags) (caLeaf : x509) : action :=
  Stream (Authenticated (targetCN f))
    (client_Install pem_Decode ParseCertificateRequest certPEMEncoder (certID f) (key_size f) (pkiName f) (ipAddress f) [caLeaf]).

(** The validation always succeeds. *)
Fixpoint no_validation (c : call x509 CSR) : call x509 CSR :=
  match c with
  | Validate k => no_validation (k None)
  | Return err => Return err
  | Crash => Crash
  | Open k => Open (λ err, no_validation (k err))
  | Send req k => Send req (λ err, no_validation (k err))
  | Recv k => Recv (λ r, no_validation (k r))
  | Sign csr k => Sign csr (λ r, no_validation (k r))
  end.

Definition rotate (f : tool_flags) (caLeaf : x509) : action :=
  Stream (Authenticated (targetCN f))
    (no_validation
       (client_Rotate pem_Decode ParseCertificateRequest certPEMEncoder (certID f) (key_size f) (pkiName f) (ipAddress f) [caLeaf])).

Definition revoke (f : tool_flags) : action :=
  if negb (bool_decide (certIDs f = "")) then
    match FieldsFunc (certIDs f) with
    | [] => Exit (Fmt "Must specify comma separated certificate IDs when using -cert_ids" [])
    | ids => Revoke_ (Authenticated (targetCN f)) ids
    end
  else if bool_decide (certID f = "") then
    Exit (Fmt "Must set a certificate ID with -cert_id or set multiple IDs with -cert_ids" [])
  else Revoke_ (Authenticated (targetCN f)) [certID f].

Definition certIDCheck (f : tool_flags) (k : action) : action :=
  if bool_decide (certID f = "") then Exit (Fmt "Must set a certificate ID with -cert_id." []) else k.

(** [FromFile] is the CA of the two files. *)
Definition tool_main (f : tool_flags) (FromFile : error + x509) : action :=
  if bool_decide (ca f = "") || bool_decide (key f = "") then Exit (Fmt "-ca and -key must be set with file locations" [])
  else if bool_decide (targetCN f = "") then Exit (Fmt "Must set a Common Name ID with -targetCN." [])
  else
    match FromFile with
    | inl err => Exit (Fmt "Failed to load certificate and key from file: %v" [AMsg (error_text err)])
    | inr caLeaf =>
        if bool_decide (op f = "provision") then certIDCheck f (provision f caLeaf)
        else if bool_decide (op f = "install") then certIDCheck f (install f caLeaf)
        else if bool_decide (op f = "rotate") then certIDCheck f (rotate f caLeaf)
        else if bool_decide (op f = "revoke") then revoke f
        else if bool_decide (op f = "check") then Check_ (Authenticated (targetCN f))
        else if bool_decide (op f = "get") then Get_ (Authenticated (targetCN f))
        else Exit (Fmt "Unknown operation: %q" [AStr (op f)])
    end.
End tool.

Arguments action : clear implicits.
