(* ===== verification/ToolSpec.v ===== *)
(** * ToolSpec: the certificate tool reads its flags and does not crash *)

From Stdlib Require Import Ascii ZArith Lia.
From S2P Require Export Tool.

(** ** Lists of identifiers *)
Definition no_comma (s : string) : bool := str_forallb (λ c, negb (Ascii.eqb c ",")) s.

Lemma split_go_comma cur a b : no_comma a = true →
  split_go "," cur (a +:+ String "," b) = (cur +:+ a) :: split_go "," "" b.
Proof.
  unfold no_comma. revert cur. induction a as [|c a IH]; intros cur Ha.
  - change ("" +:+ String "," b) with (String "," b). cbn [split_go]. by rewrite Ascii.eqb_refl, GoStrings.app_nil_r.
  - cbn [str_forallb] in Ha. apply andb_true_iff in Ha as [Hc Ha]. rewrite app_cons. cbn [split_go].
    destruct (Ascii.eqb c ","); [done|]. rewrite IH by done. by rewrite app_snoc.
Qed.

Lemma split_go_last cur a : no_comma a = true → split_go "," cur a = [cur +:+ a].
Proof.
  unfold no_comma. revert cur. induction a as [|c a IH]; intros cur Ha; cbn in *; [by rewrite GoStrings.app_nil_r|].
  apply andb_true_iff in Ha as [Hc Ha]. destruct (Ascii.eqb c ","); [done|]. rewrite IH by done. by rewrite app_snoc.
Qed.

Lemma Split_Join_commas ids :
  ids ≠ [] → Forall (λ id, no_comma id = true) ids → Split (GoStrings.Join ids ",") "," = ids.
Proof.
  unfold Split. induction ids as [|id ids IH]; intros Hne Hall; [done|]. apply Forall_cons in Hall as [Hid Hall].
  destruct ids as [|id' ids]; [rewrite Join_one, split_go_last by done; done|].
  rewrite Join_cons. change ("," +:+ GoStrings.Join (id' :: ids) ",") with (String "," (GoStrings.Join (id' :: ids) ",")).
  rewrite split_go_comma by done. f_equal. by apply IH.
Qed.

(** ** Calls that cannot crash *)
Fixpoint no_crash {x509 CSR} (c : call x509 CSR) : Prop :=
  match c with
  | Return _ => True
  | Crash => False
  | Open k | Validate k => ∀ err, no_crash (k err)
  | Send _ k => ∀ err, no_crash (k err)
  | Recv k => ∀ r, no_crash (k r)
  | Sign _ k => ∀ r, no_crash (k r)
  end.

Section tool.
Context {x509 CSR : Type}.
Context (pem_Decode : string → option string) (ParseCertificateRequest : string → option CSR)
        (certPEMEncoder : x509 → string).

Lemma client_exchange_no_crash rotate certID size params ip bundle (rest : call x509 CSR) :
  is_Some (csr_params size params ip) → no_crash rest →
  no_crash (client_exchange pem_Decode ParseCertificateRequest certPEMEncoder rotate certID size params ip bundle rest).
Proof.
  intros [p Hp] Hrest. cbn. intros [err|]; [done|]. rewrite Hp. cbn. intros [err|]; [done|]. cbn. intros r.
  unfold client_csr, client_load. destruct r as [err|[[csr|]| |]]; try done.
  destruct (pem_Decode csr); [|done]. destruct (ParseCertificateRequest _); [|done]. cbn.
  intros [err|leaf]; [done|]. cbn. intros [err|]; [done|]. cbn. intros [err|[[csr'|]| |]]; done.
Qed.

Lemma no_validation_no_crash (c : call x509 CSR) : no_crash c → no_crash (no_validation c).
Proof. induction c; cbn; auto. Qed.

(** The action streams a call that does not crash. *)
Definition streams (conn : connection) (a : action x509 CSR) : Prop :=
  match a with Stream conn' c => conn' = conn ∧ no_crash c | _ => False end.

Lemma operations_stream f caLeaf :
  streams Encrypted (provision pem_Decode ParseCertificateRequest certPEMEncoder f caLeaf) ∧
  streams (Authenticated (targetCN f)) (install pem_Decode ParseCertificateRequest certPEMEncoder f caLeaf) ∧
  streams (Authenticated (targetCN f)) (rotate pem_Decode ParseCertificateRequest certPEMEncoder f caLeaf).
Proof.
  split_and!; (split; [done|]).
  - by apply client_exchange_no_crash.
  - by apply client_exchange_no_crash.
  - apply no_validation_no_crash, client_exchange_no_crash; [by eexists|].
    intros [err|]; [done|]. by intros [err|].
Qed.

(** The certificate tool does what its flags say: with the files of a CA and
    the name of the target, the list of identifiers of a revocation is read back
    from its parts joined by commas; the calls it makes to install or rotate a
    certificate never crash, since the subject it sends has every field the
    client indexes; an installation needs an identifier, and only provision
    connects without being authenticated. *)
Theorem tool_main_actions (f : tool_flags) (caLeaf : x509) :
  ca f ≠ "" → key f ≠ "" → targetCN f ≠ "" →
  let run := tool_main pem_Decode ParseCertificateRequest certPEMEncoder f (inr caLeaf) in
  (∀ ids, op f = "revoke" → certIDs f = GoStrings.Join ids "," → ids ≠ [] →
     Forall (λ id, id ≠ "" ∧ no_comma id = true) ids → run = Revoke_ (Authenticated (targetCN f)) ids) ∧
  (∀ conn c, run = Stream conn c → no_crash c ∧ certID f ≠ "" ∧ (conn = Encrypted ↔ op f = "provision")) ∧
  (op f = "provision" ∨ op f = "install" ∨ op f = "rotate" → certID f ≠ "" → ∃ conn c, run = Stream conn c).
Proof.
  intros Hca Hkey Hcn. unfold tool_main, certIDCheck.
  rewrite (bool_decide_eq_false_2 (ca f = "")), (bool_decide_eq_false_2 (key f = "")), (bool_decide_eq_false_2 (targetCN f = "")) by done.
  cbn [orb]. split_and!.
  - intros ids -> Hids Hne Hall. cbn. unfold revoke, FieldsFunc.
    assert (Forall (λ id, no_comma id = true) ids) as Hcom by (eapply Forall_impl; [exact Hall|by intros id [_ ?]]).
    assert (certIDs f ≠ "") as Hn.
    { rewrite Hids. destruct ids as [|id [|id' ids]]; [done|rewrite Join_one|rewrite Join_cons];
        apply Forall_cons in Hall as [[Hid _] _]; by destruct id. }
    rewrite (bool_decide_eq_false_2 _ Hn), Hids, Split_Join_commas by done. cbn [negb].
    assert (base.filter (λ part, part ≠ "") ids = ids) as ->; [|by destruct ids].
    clear -Hall. induction ids as [|id ids IH]; [done|]. apply Forall_cons in Hall as [[Hid _] Hall].
    rewrite filter_cons_True by done. by rewrite IH.
  - intros conn c Hrun. repeat (case_bool_decide; try discriminate Hrun).
    all: try (unfold revoke in Hrun; repeat case_match; discriminate Hrun).
    all: destruct (operations_stream f caLeaf) as (Hpr & Hin & Hro).
    + rewrite Hrun in Hpr. by destruct Hpr as [-> ?].
    + rewrite Hrun in Hin. destruct Hin as [-> ?]. by split_and!.
    + rewrite Hrun in Hro. destruct Hro as [-> ?]. by split_and!.
  - intros Hop Hid. rewrite (bool_decide_eq_false_2 (certID f = "")) by done.
    destruct Hop as [-> |[-> | ->]]; cbn; by eexists _, _.
Qed.
End tool.

Definition example_flags : tool_flags :=
  mkToolFlags "" "one,two" "revoke" "ca.crt" "ca.key" "target" 2048 "US" "CA" "gNxI" "gNxI" "127.0.0.1".

Lemma tool_main_actions_witness :
  let run := tool_main (CSR := string) Some Some id example_flags (inr "CA") in
  (∀ ids, op example_flags = "revoke" → certIDs example_flags = GoStrings.Join ids "," → ids ≠ [] →
     Forall (λ id, id ≠ "" ∧ no_comma id = true) ids → run = Revoke_ (Authenticated (targetCN example_flags)) ids) ∧
  (∀ conn c, run = Stream conn c → no_crash c ∧ certID example_flags ≠ "" ∧ (conn = Encrypted ↔ op example_flags = "provision")) ∧
  (op example_flags = "provision" ∨ op example_flags = "install" ∨ op example_flags = "rotate" →
   certID example_flags ≠ "" → ∃ conn c, run = Stream conn c).
Proof. apply (tool_main_actions (CSR := string) Some Some id example_flags "CA"); done. Defined.

Example tool_main_revokes :
  tool_main (CSR := string) Some Some id example_flags (inr "CA") = Revoke_ (Authenticated "target") ["one"; "two"].
Proof. reflexivity. Qed.
