(* ===== verification/SetTxn.v ===== *)
(** * SetTxn: the Set transaction

    Models [gnmi/model/set.go], the [Load] and the update results of the server
    ([server.set], [message.go]).  The data tree is behind the interface
    [DataStore]: the operations of [mo.go] and [utilities.go] that the
    transaction calls.  The external system is the list of callbacks it has
    received and an oracle for its answers. *)

From Stdlib Require Import ZArith.
From S2P Require Export PathSpec.

(** ** Interfaces *)

(** A found node: its value and its text path ([DataAndPath]). *)
Record DataAndPath (value : Type) : Type := mkData { dap_Value : value; dap_Path : string }.
Arguments mkData {value}.
Arguments dap_Value {value}.
Arguments dap_Path {value}.

(** The operations of the modeled object; each may panic.  A write or a
    deletion that fails returns the tree as the failure left it.  A [value] may
    be a pointer into the tree: what it holds is read in the tree of the moment
    ([ListAll_value]).  [ListAll] is used for the path and the text of what
    is found: below a value under a fake prefix, and below a path of the tree. *)
Class DataStore (root value typed : Type) := {
  NewEmptyRoot : root → outcome error root;
  Get : root → option Path → outcome error (list (DataAndPath value) * bool);
  FindValue : root → option Path → outcome error (option value);
  DeleteValue : root → option Path → outcome error (root * option error);
  WriteValue : root → option Path → value → outcome error (root * option error);
  WriteTypedValue : root → option Path → typed → outcome error (root * option error);
  DeleteNode : root → option Path → outcome error (root * option error);
  ReadOnly : option Path → bool;
  ListAll_value : root → option value → option Path → outcome error (list (string * string));
  ListAll : root → option Path → outcome error (list (string * string))
}.

(** The calls of the interface [StateConfig]. *)
Inductive callback : Type :=
  | UpdateStart
  | UpdateCreate (path value : string)
  | UpdateReplace (path value : string)
  | UpdateDelete (path : string)
  | UpdateEnd.

#[global] Instance callback_eq_dec : EqDecision callback.
Proof. solve_decision. Defined.

(** The answers of the external system: a call may fail depending on all the
    calls it has received, the last one included. *)
Definition StateConfig : Type := list callback → option error.

Inductive operation : Type := DELETE | REPLACE | UPDATE.

#[global] Instance operation_eq_dec : EqDecision operation.
Proof. solve_decision. Defined.

Section set.
Context `{GoRange, ProtoClone} {root value typed : Type} `{DataStore root value typed}.

(** ** State *)
Record backupEntry : Type := mkBackup {
  b_optype : operation;
  b_xpath : string;
  b_gpath : option Path;
  b_oldval : option value;
  b_executed : bool
}.

Record Model : Type := mkModel {
  m_root : root;
  m_setBackup : list backupEntry;
  m_setSeq : Z;
  m_StateConfig : option StateConfig;
  m_calls : list callback
}.

Definition set_root (r : root) (m : Model) : Model :=
  mkModel r (m_setBackup m) (m_setSeq m) (m_StateConfig m) (m_calls m).
Definition set_setBackup (l : list backupEntry) (m : Model) : Model :=
  mkModel (m_root m) l (m_setSeq m) (m_StateConfig m) (m_calls m).

(** One call of the external system. *)
Definition call (sc : StateConfig) (c : callback) (m : Model) : Model * option error :=
  let calls := m_calls m ++ [c] in
  (mkModel (m_root m) (m_setBackup m) (m_setSeq m) (m_StateConfig m) calls, sc calls).

Definition addBackupEntry (optype : operation) (xpath : string) (gpath : option Path)
    (oldval : option value) (m : Model) : Model :=
  set_setBackup (m_setBackup m ++ [mkBackup optype xpath gpath oldval false]) m.

(** The entry marked is the one added last. *)
Definition markExecuted (m : Model) : Model :=
  set_setBackup (update_last (λ b,
    mkBackup (b_optype b) (b_xpath b) (b_gpath b) (b_oldval b) true) (m_setBackup m)) m.

(** [setSeq] is a uint64. *)
Definition SetInit (m : Model) : Model :=
  mkModel (m_root m) [] ((m_setSeq m + 1) mod 2 ^ 64)%Z (m_StateConfig m) (m_calls m).

(** ** The difference sent to the external system *)

(** The first entry of a path wins. *)
Definition mapDataAndPath (l : list (string * string)) : gmap string string :=
  foldl (λ m '(p, v), match m !! p with Some _ => m | None => <[p := v]> m end) ∅ l.

(** A failed call is followed by [UpdateEnd], whose own error is dropped. *)
Definition call_or_end (sc : StateConfig) (c : callback) (m : Model) : Model * option error :=
  match call sc c m with
  | (m, Some err) => ((call sc UpdateEnd m).1, Some err)
  | (m, None) => (m, None)
  end.

Fixpoint calls_or_end (sc : StateConfig) (cs : list callback) (m : Model) : Model * option error :=
  match cs with
  | [] => (m, None)
  | c :: cs =>
      match call_or_end sc c m with
      | (m, Some err) => (m, Some err)
      | (m, None) => calls_or_end sc cs m
      end
  end.

(** The calls for the paths that are gone, and for those that are there. *)
Definition delete_calls (curlist : list (string * string)) (new : gmap string string) : list callback :=
  omap (λ '(p, _), match new !! p with None => Some (UpdateDelete p) | Some _ => None end) curlist.
Definition write_calls (newlist : list (string * string)) (cur : gmap string string) : list callback :=
  (λ '(p, v), match cur !! p with Some _ => UpdateReplace p v | None => UpdateCreate p v end) <$> newlist.

Definition executeStateConfig (gpath : option Path) (oldval : option value) (m : Model)
    : outcome error (Model * option error) :=
  match m_StateConfig m with
  | None => mret (m, None)
  | Some sc =>
      curlist ← ListAll_value (m_root m) oldval gpath;
      newlist ← ListAll (m_root m) gpath;
      let cur := mapDataAndPath curlist in
      let new := mapDataAndPath newlist in
      mret (match call_or_end sc UpdateStart m with
      | (m, Some err) => (m, Some err)
      | (m, None) =>
          match calls_or_end sc (delete_calls curlist new) m with
          | (m, Some err) => (m, Some err)
          | (m, None) =>
              match calls_or_end sc (write_calls newlist cur) m with
              | (m, Some err) => (m, Some err)
              | (m, None) => call sc UpdateEnd m
              end
          end
      end)
  end.

(** ** Set operations *)

Definition read_only_error (path : string) : error :=
  TaggedErrorf codes.InvalidArgument TagInvalidPath "unable to set read-only data in %s" [AStr path].

Definition operation_error (format path : string) (err : error) : error :=
  TaggedErrorf codes.InvalidArgument TagBadData format [AStr path; AMsg (error_text err)].

(** The end of every operation on a target: the external system is told, and on
    its success the backup entry is marked. *)
Definition finish_target (gpath : option Path) (oldval : option value) (m : Model)
    : outcome error (Model * option error) :=
  '(m, err) ← executeStateConfig gpath oldval m;
  mret (match err with
        | Some err =>
            (m, Some (TaggedErrorf codes.Internal TagOperationFail "set error:: %v" [AMsg (error_text err)]))
        | None => (markExecuted m, None)
        end).

(** The loop over the targets: the path is parsed back, read-only data is
    refused, the old value is saved, then [change] is applied to the tree. *)
Fixpoint set_targets (optype : operation) (format : string)
    (change : option Path → root → outcome error (root * option error))
    (targets : list (DataAndPath value)) (m : Model) : outcome error (Model * option error) :=
  match targets with
  | [] => mret (m, None)
  | target :: targets =>
      match ToGNMIPath (dap_Path target) with
      | Err _ =>
          mret (m, Some (TaggedErrorf codes.Internal TagInvalidPath "path.converting error for %s"
                           [AStr (dap_Path target)]))
      | Ok p =>
          let targetPath := Some p in
          if ReadOnly targetPath then mret (m, Some (read_only_error (dap_Path target)))
          else
            let m := addBackupEntry optype (dap_Path target) targetPath (Some (dap_Value target)) m in
            '(r, err) ← change targetPath (m_root m);
            match err with
            | Some err => mret (set_root r m, Some (operation_error format (dap_Path target) err))
            | None =>
                '(m, err) ← finish_target targetPath (Some (dap_Value target)) (set_root r m);
                match err with
                | Some err => mret (m, Some err)
                | None => set_targets optype format change targets m
                end
            end
      | Panic => Panic
      | Diverge => Diverge
      end
  end.

(** The deletion of a target; that of the root makes a new tree. *)
Definition delete_change (targetPath : option Path) (r : root) : outcome error (root * option error) :=
  if length (elems targetPath) =? 0 then r ← NewEmptyRoot r; mret (r, None)
  else DeleteNode r targetPath.

Definition SetDelete (prefix path : option Path) (m : Model) : outcome error (Model * option error) :=
  fullpath ← GNMIFullPath prefix path;
  '(targets, _) ← Get (m_root m) fullpath;
  set_targets DELETE "set.delete error in %s:: %v" delete_change targets m.

(** The deletion, then the write, of a target of [SetReplace]. *)
Definition replace_change (typedValue : typed) (targetPath : option Path) (r : root)
    : outcome error (root * option error) :=
  '(r, err) ← DeleteNode r targetPath;
  match err with
  | Some err => mret (r, Some err)
  | None => WriteTypedValue r targetPath typedValue
  end.

Definition update_change (typedValue : typed) (targetPath : option Path) (r : root)
    : outcome error (root * option error) :=
  WriteTypedValue r targetPath typedValue.

(** The branch of [SetReplace] and [SetUpdate] for a path without data. *)
Definition set_new (optype : operation) (format : string) (fullpath : option Path) (typedValue : typed)
    (m : Model) : outcome error (Model * option error) :=
  let tpath := ToXPath fullpath in
  if ReadOnly fullpath then mret (m, Some (read_only_error tpath))
  else
    let m := addBackupEntry optype tpath fullpath None m in
    '(r, err) ← WriteTypedValue (m_root m) fullpath typedValue;
    match err with
    | Some err => mret (set_root r m, Some (operation_error format tpath err))
    | None => finish_target fullpath None (set_root r m)
    end.

Definition SetReplace (prefix path : option Path) (typedValue : typed) (m : Model)
    : outcome error (Model * option error) :=
  fullpath ← GNMIFullPath prefix path;
  '(targets, ok) ← Get (m_root m) fullpath;
  if ok : bool then set_targets REPLACE "set.replace error in %s:: %v" (replace_change typedValue) targets m
  else set_new REPLACE "replace error in %s:: %v" fullpath typedValue m.

Definition SetUpdate (prefix path : option Path) (typedValue : typed) (m : Model)
    : outcome error (Model * option error) :=
  fullpath ← GNMIFullPath prefix path;
  '(targets, ok) ← Get (m_root m) fullpath;
  if ok : bool then set_targets UPDATE "set.update error in %s:: %v" (update_change typedValue) targets m
  else set_new UPDATE "set.update error in %s:: %v" fullpath typedValue m.

(** ** The end of the transaction *)

(** One entry put back in the tree: deleted if there was no old value. *)
Definition restore (b : backupEntry) (r : root) : outcome error (root * option error) :=
  match b_oldval b with
  | None => DeleteValue r (b_gpath b)
  | Some v => WriteValue r (b_gpath b) v
  end.

Fixpoint SetDone_loop (entries : list backupEntry) (m : Model) : outcome error Model :=
  match entries with
  | [] => mret m
  | entry :: entries =>
      '(r, _) ← restore entry (m_root m);
      SetDone_loop entries (set_root r m)
  end.

Definition SetDone (m : Model) : outcome error Model :=
  match m_setBackup m, m_StateConfig m with
  | [], _ => mret m
  | _, None => mret m
  | entries, Some _ => m ← SetDone_loop entries m; mret (set_setBackup [] m)
  end.

Fixpoint SetRollback_loop (entries : list backupEntry) (m : Model) : outcome error Model :=
  match entries with
  | [] => mret m
  | entry :: entries =>
      new ← FindValue (m_root m) (b_gpath entry);
      '(r, err) ← restore entry (m_root m);
      let m := set_root r m in
      match err with
      | Some _ => SetRollback_loop entries m
      | None =>
          if b_executed entry then
            '(m, _) ← executeStateConfig (b_gpath entry) new m;
            SetRollback_loop entries m
          else SetRollback_loop entries m
      end
  end.

Definition SetRollback (m : Model) : outcome error Model :=
  m ← SetRollback_loop (m_setBackup m) m;
  mret (set_setBackup [] m).

(** Every change is made when it is asked for; the commit does nothing. *)
Definition SetCommit (m : Model) : option error := None.

(** ** The server's Set *)

(** [gnmipb.UpdateResult]: the message is absent, the error of the operation,
    or the shared message "aborted".  [ErrorMessage e] is the message that
    [Status.UpdateResultError] builds of [e]. *)
Inductive result_message : Type := NoMessage | ErrorMessage (err : error) | AbortedMessage.

Record UpdateResult : Type := mkResult { ur_Path : option Path; ur_Op : operation; ur_Message : result_message }.

Definition buildUpdateResult (op : operation) (path : option Path) (err : option error) : UpdateResult :=
  mkResult path op (match err with None => NoMessage | Some e => ErrorMessage e end).
Definition buildUpdateResultAborted (op : operation) (path : option Path) : UpdateResult :=
  mkResult path op AbortedMessage.

(** One of the three loops of [set]. *)
Fixpoint set_loop {A} (op : operation) (get_path : A → option Path)
    (run : A → Model → outcome error (Model * option error))
    (l : list A) (m : Model) (err : option error) (result : list UpdateResult)
    : outcome error (Model * option error * list UpdateResult) :=
  match l with
  | [] => mret (m, err, result)
  | a :: l =>
      match err with
      | Some _ => set_loop op get_path run l m err (result ++ [buildUpdateResultAborted op (get_path a)])
      | None =>
          '(m, err) ← run a m;
          set_loop op get_path run l m err (result ++ [buildUpdateResult op (get_path a) err])
      end
  end.

Record SetRequest : Type := mkSetRequest {
  sr_Prefix : option Path;
  sr_Delete : list (option Path);
  sr_Replace : list (option Path * typed);
  sr_Update : list (option Path * typed)
}.

(** The operations of a request, deletions first. *)
Definition set_operations (req : SetRequest) (m : Model)
    : outcome error (Model * option error * list UpdateResult) :=
  let prefix := sr_Prefix req in
  '(m, err, result) ← set_loop DELETE id (SetDelete prefix) (sr_Delete req) m None [];
  '(m, err, result) ← set_loop REPLACE fst (λ r, SetReplace prefix r.1 r.2) (sr_Replace req) m err result;
  set_loop UPDATE fst (λ u, SetUpdate prefix u.1 u.2) (sr_Update req) m err result.

Definition server_set (req : SetRequest) (m : Model)
    : outcome error (Model * list UpdateResult * option error) :=
  '(m, err, result) ← set_operations req (SetInit m);
  m ← match err with Some _ => SetRollback m | None => mret m end;
  m ← SetDone m;
  mret (m, result, err).

(** ** Load

    The tree to load replaces the current one when every call succeeds; unlike
    [executeStateConfig], a failed call is not followed by [UpdateEnd].  The
    two maps are visited in Go map order. *)
Fixpoint calls_until_error (sc : StateConfig) (what : callback → string) (cs : list callback) (m : Model)
    : Model * option error :=
  match cs with
  | [] => (m, None)
  | c :: cs =>
      match call sc c m with
      | (m, Some err) =>
          (m, Some (TaggedErrorf codes.Internal TagOperationFail (what c) [AMsg (error_text err)]))
      | (m, None) => calls_until_error sc what cs m
      end
  end.

Definition load_error (c : callback) : string :=
  match c with
  | UpdateStart => "state-config (update-start) error:: %v"
  | UpdateDelete _ => "state-config (update-delete) error:: %v"
  | UpdateReplace _ _ => "state-config (update-replace) error:: %v"
  | UpdateCreate _ _ => "state-config (update-create) error:: %v"
  | UpdateEnd => "state-config (update-end) error:: %v"
  end.

(** [newMO] is the result of [NewRoot]. *)
Definition Load (newMO : error + root) (sync : bool) (m : Model) : outcome error (Model * option error) :=
  match newMO with
  | inl err => mret (m, Some err)
  | inr new_root =>
      match m_StateConfig m with
      | Some sc =>
          if sync then
            newlist ← ListAll new_root None;
            curlist ← ListAll (m_root m) None;
            let cur := mapDataAndPath curlist in
            let new := mapDataAndPath newlist in
            mret (match call sc UpdateStart m with
            | (m, Some err) =>
                ((call sc UpdateEnd m).1,
                 Some (TaggedErrorf codes.Internal TagOperationFail (load_error UpdateStart) [AMsg (error_text err)]))
            | (m, None) =>
                match calls_until_error sc load_error
                        (delete_calls (go_range cur) new ++ write_calls (go_range new) cur ++ [UpdateEnd]) m with
                | (m, Some err) => (m, Some err)
                | (m, None) => (set_root new_root m, None)
                end
            end)
          else mret (set_root new_root m, None)
      | None => mret (set_root new_root m, None)
      end
  end.
End set.

Arguments backupEntry : clear implicits.
Arguments Model : clear implicits.
Arguments SetRequest : clear implicits.
