(* ===== verification/SetTxnSpec.v ===== *)
(** * SetTxnSpec: the theorems on the Set transaction

    The results of a Set list every operation once; the calls to the external
    system are bracketed and are the difference of the two trees; a Load that
    fails leaves the external system in an open update, and a leaf changed twice
    is not rolled back. *)

From Stdlib Require Import Ascii ZArith.
From S2P Require Export SetTxn.

Section spec.
Context `{GoRange, ProtoClone} {root value typed : Type} `{DataStore root value typed}.
Implicit Types (m : Model root value) (r : root).

(** ** Calls of the external system *)

(** [m'] is [m] after the given calls: the rest of the state is the same. *)
Definition called m (cs : list callback) m' : Prop :=
  m' = mkModel (m_root m) (m_setBackup m) (m_setSeq m) (m_StateConfig m) (m_calls m ++ cs).

Lemma called_nil m : called m [] m.
Proof. unfold called. rewrite List.app_nil_r. by destruct m. Qed.

Lemma called_app m1 cs1 m2 cs2 m3 : called m1 cs1 m2 → called m2 cs2 m3 → called m1 (cs1 ++ cs2) m3.
Proof. unfold called. intros -> ->. cbn. by rewrite <-List.app_assoc. Qed.

Lemma call_called sc c m : called m [c] (call sc c m).1.
Proof. done. Qed.

(** A run of calls makes all of them, or a first part and [UpdateEnd]. *)
Lemma calls_or_end_spec sc cs m :
  match calls_or_end sc cs m with
  | (m', None) => called m cs m'
  | (m', Some err) => ∃ cs1 c cs2, cs = cs1 ++ c :: cs2 ∧ called m (cs1 ++ [c; UpdateEnd]) m' ∧
      sc (m_calls m ++ cs1 ++ [c]) = Some err
  end.
Proof.
  revert m. induction cs as [|c cs IH]; intros m; [apply called_nil|].
  cbn [calls_or_end]. unfold call_or_end, call. destruct (sc (m_calls m ++ [c])) as [err|] eqn:Hsc.
  - exists [], c, cs. split; [done|]. split; [|done]. unfold called. cbn. by rewrite <-List.app_assoc.
  - set (m1 := mkModel _ _ _ _ _). specialize (IH m1).
    assert (called m [c] m1) as Hm1 by done.
    destruct (calls_or_end sc cs m1) as [m' [err|]].
    + destruct IH as (cs1 & c' & cs2 & -> & Hc & Herr). exists (c :: cs1), c', cs2.
      split; [done|]. split; [exact (called_app _ _ _ _ _ Hm1 Hc)|].
      cbn in Herr |- *. by rewrite <-List.app_assoc in Herr.
    + exact (called_app _ _ _ _ _ Hm1 IH).
Qed.

(** All calls between [UpdateStart] and [UpdateEnd]. *)
Definition diff_calls (curlist newlist : list (string * string)) : list callback :=
  delete_calls curlist (mapDataAndPath newlist) ++ write_calls newlist (mapDataAndPath curlist).

Lemma calls_or_end_app sc cs1 cs2 m :
  calls_or_end sc (cs1 ++ cs2) m =
  match calls_or_end sc cs1 m with
  | (m, Some err) => (m, Some err)
  | (m, None) => calls_or_end sc cs2 m
  end.
Proof.
  revert m. induction cs1 as [|c cs1 IH]; intros m; [done|]. cbn [calls_or_end app].
  destruct (call_or_end sc c m) as [m' [err|]]; [done|apply IH].
Qed.

(** The calls for two lists, with the closing one. *)
Definition send_diff sc (curlist newlist : list (string * string)) m : Model root value * option error :=
  match calls_or_end sc (UpdateStart :: diff_calls curlist newlist) m with
  | (m, Some err) => (m, Some err)
  | (m, None) => call sc UpdateEnd m
  end.

Lemma executeStateConfig_run sc gpath oldval m :
  m_StateConfig m = Some sc →
  executeStateConfig gpath oldval m =
  curlist ← ListAll_value (m_root m) oldval gpath;
  newlist ← ListAll (m_root m) gpath;
  mret (send_diff sc curlist newlist m).
Proof.
  intros Hsc. unfold executeStateConfig, send_diff, diff_calls. rewrite Hsc.
  destruct (ListAll_value _ _ _) as [curlist| | |]; try done. rewrite !outcome_bind_ret.
  destruct (ListAll _ _) as [newlist| | |]; try done. rewrite !outcome_bind_ret. f_equal. cbn [calls_or_end].
  destruct (call_or_end sc UpdateStart m) as [m1 [err|]]; [done|].
  rewrite calls_or_end_app. destruct (calls_or_end _ (delete_calls _ _) m1) as [m2 [err|]]; [done|].
  by destruct (calls_or_end _ (write_calls _ _) m2) as [m3 [err|]].
Qed.

Lemma mapDataAndPath_dom (l : list (string * string)) p :
  is_Some (mapDataAndPath l !! p) ↔ p ∈ l.*1.
Proof.
  unfold mapDataAndPath.
  assert (∀ acc : gmap string string,
    is_Some (foldl (λ a '(p, v), match a !! p with Some _ => a | None => <[p := v]> a end) acc l !! p) ↔
    is_Some (acc !! p) ∨ p ∈ l.*1) as Hf.
  { induction l as [|[q v] l IH]; intros acc; [cbn; set_solver|]. cbn [foldl fmap list_fmap fst].
    rewrite IH, elem_of_cons. destruct (acc !! q) eqn:Hq.
    - split; [naive_solver|]. intros [?|[->|?]]; eauto.
    - rewrite lookup_insert_is_Some. split; [naive_solver|].
      intros [?|[->|?]]; eauto. destruct (decide (q = p)) as [->|]; eauto. }
  rewrite Hf, lookup_empty. split; [intros [[? ?]|?]; done|by right].
Qed.

(** The calls are the difference: a deletion for every path that is only in the
    old list, a replacement or creation for every entry of the new one. *)
Lemma diff_calls_spec curlist newlist c :
  c ∈ diff_calls curlist newlist ↔
  match c with
  | UpdateDelete p => p ∈ curlist.*1 ∧ p ∉ newlist.*1
  | UpdateReplace p v => (p, v) ∈ newlist ∧ p ∈ curlist.*1
  | UpdateCreate p v => (p, v) ∈ newlist ∧ p ∉ curlist.*1
  | UpdateStart | UpdateEnd => False
  end.
Proof.
  unfold diff_calls, delete_calls, write_calls. rewrite elem_of_app, list_elem_of_omap, list_elem_of_fmap.
  assert (∀ l p, mapDataAndPath l !! p = None ↔ p ∉ l.*1) as Hnone.
  { intros l p. rewrite <-mapDataAndPath_dom. apply eq_None_not_Some. }
  split.
  - intros [([p v] & Hin & Hc)|([p v] & -> & Hin)].
    + destruct (mapDataAndPath newlist !! p) eqn:Hp; [done|]. injection Hc as <-.
      split; [|by apply Hnone]. apply list_elem_of_fmap. by exists (p, v).
    + destruct (mapDataAndPath curlist !! p) eqn:Hp; (split; [done|]).
      * apply mapDataAndPath_dom. eauto.
      * by apply Hnone.
  - destruct c as [|p v|p v|p|]; try done.
    + intros [Hin Hn%Hnone]. right. exists (p, v). by rewrite Hn.
    + intros [Hin [w Hw]%mapDataAndPath_dom]. right. exists (p, v). by rewrite Hw.
    + intros [([q v] & -> & Hin)%list_elem_of_fmap Hn%Hnone]. left. exists (q, v). cbn in *. by rewrite Hn.
Qed.

Lemma diff_parts_no_end curlist newlist cur new :
  UpdateEnd ∉ delete_calls curlist new ++ write_calls newlist cur.
Proof.
  unfold delete_calls, write_calls. rewrite elem_of_app, list_elem_of_omap, list_elem_of_fmap.
  intros [([p v] & _ & Hc)|([p v] & Hc & _)]; by case_match.
Qed.

(** The calls of a load stop at the first that fails. *)
Lemma calls_until_error_spec sc what cs m :
  match calls_until_error sc what cs m with
  | (m', None) => called m cs m'
  | (m', Some _) => ∃ cs1 c cs2, cs = cs1 ++ c :: cs2 ∧ called m (cs1 ++ [c]) m' ∧ is_Some (sc (m_calls m'))
  end.
Proof.
  revert m. induction cs as [|c cs IH]; intros m; [apply called_nil|].
  cbn [calls_until_error]. unfold call. destruct (sc (m_calls m ++ [c])) as [err|] eqn:Hsc.
  - exists [], c, cs. split; [done|]. split; [done|]. cbn. by rewrite Hsc.
  - set (m1 := mkModel _ _ _ _ _). specialize (IH m1). assert (called m [c] m1) as Hm1 by done.
    destruct (calls_until_error sc what cs m1) as [m' [err|]].
    + destruct IH as (cs1 & c' & cs2 & -> & Hc & Herr). exists (c :: cs1), c', cs2.
      split; [done|]. split; [exact (called_app _ _ _ _ _ Hm1 Hc)|done].
    + exact (called_app _ _ _ _ _ Hm1 IH).
Qed.

(** ** What the operations leave alone *)

(** The path and the old value of every backup. *)
Definition saved m : list (option Path * option value) :=
  (λ b, (b_gpath b, b_oldval b)) <$> m_setBackup m.

Definition same_tree m m' : Prop :=
  m_root m' = m_root m ∧ saved m' = saved m ∧ m_StateConfig m' = m_StateConfig m.

Lemma called_same_tree m cs m' : called m cs m' → same_tree m m'.
Proof. by intros ->. Qed.

Lemma send_diff_calls sc curlist newlist m :
  ∃ cs m' err, send_diff sc curlist newlist m = (m', err) ∧ called m (UpdateStart :: cs ++ [UpdateEnd]) m' ∧
    cs `prefix_of` diff_calls curlist newlist ∧ (err = None → cs = diff_calls curlist newlist).
Proof.
  unfold send_diff. pose proof (calls_or_end_spec sc (UpdateStart :: diff_calls curlist newlist) m) as Hs.
  destruct (calls_or_end _ _ m) as [m1 [err|]].
  - destruct Hs as (cs1 & c & cs2 & Heq & Hc & _). destruct cs1 as [|c0 cs1].
    + injection Heq as <- _. exists [], m1, (Some err). split_and!; [done|exact Hc| |done]. apply prefix_nil.
    + injection Heq as <- Heq. exists (cs1 ++ [c]), m1, (Some err). split_and!; [done| | |done].
      * by rewrite <-List.app_assoc.
      * exists cs2. by rewrite Heq, <-List.app_assoc.
  - destruct (call sc UpdateEnd m1) as [m2 err] eqn:Hcall. exists (diff_calls curlist newlist), m2, err.
    split_and!; [done| |done|done].
    eapply (called_app m (UpdateStart :: diff_calls curlist newlist) m1 [UpdateEnd]); [exact Hs|].
    pose proof (call_called sc UpdateEnd m1) as Hc. by rewrite Hcall in Hc.
Qed.

Lemma executeStateConfig_called gpath oldval m m' err :
  executeStateConfig gpath oldval m = Ok (m', err) → ∃ cs, called m cs m'.
Proof.
  destruct (m_StateConfig m) as [sc|] eqn:Hsc.
  2: { unfold executeStateConfig. rewrite Hsc. intros [= <- <-]. exists []. apply called_nil. }
  rewrite (executeStateConfig_run sc) by done. intros Hrun. simplify_outcome.
  destruct (send_diff_calls sc a a0 m) as (cs & m1 & err1 & Hs & Hc & _). rewrite Hs in Hrun.
  injection Hrun as <- <-. eauto.
Qed.

Lemma executeStateConfig_same_tree gpath oldval m m' err :
  executeStateConfig gpath oldval m = Ok (m', err) → same_tree m m'.
Proof. intros [cs Hc]%executeStateConfig_called. by eapply called_same_tree. Qed.

Lemma markExecuted_same_tree m : same_tree m (markExecuted m).
Proof.
  split; [done|]. split; [|done]. unfold saved, markExecuted. cbn.
  destruct (m_setBackup m) as [|b l _] using rev_ind; [done|].
  by rewrite update_last_snoc, !fmap_app.
Qed.

Lemma same_tree_trans m1 m2 m3 : same_tree m1 m2 → same_tree m2 m3 → same_tree m1 m3.
Proof. intros (? & ? & ?) (? & ? & ?). split_and!; congruence. Qed.

Lemma finish_target_same_tree gpath oldval m m' err :
  finish_target gpath oldval m = Ok (m', err) → same_tree m m'.
Proof.
  intros ([m1 err1] & Hs%executeStateConfig_same_tree & Hrun)%outcome_bind_Ok.
  destruct err1; injection Hrun as <- <-; [done|]. eapply same_tree_trans; [exact Hs|apply markExecuted_same_tree].
Qed.

(** ** Results *)

(** The messages of consecutive operations, from the error before to the error
    after them. *)
Definition messages_shape (before after : option error) (ms : list result_message) : Prop :=
  match before, after with
  | Some e, _ => after = Some e ∧ ms = replicate (length ms) AbortedMessage
  | None, None => ms = replicate (length ms) NoMessage
  | None, Some e => ∃ i j, ms = replicate i NoMessage ++ ErrorMessage e :: replicate j AbortedMessage
  end.

Lemma messages_shape_app e0 e1 e2 ms1 ms2 :
  messages_shape e0 e1 ms1 → messages_shape e1 e2 ms2 → messages_shape e0 e2 (ms1 ++ ms2).
Proof.
  unfold messages_shape. destruct e0 as [e0|], e1 as [e1|], e2 as [e2|]; try naive_solver.
  - intros [[= ->] Hm1] [[= ->] Hm2]. split; [done|]. by rewrite length_app, replicate_add, <-Hm1, <-Hm2.
  - intros (i & j & ->) [[= ->] Hm2]. exists i, (j + length ms2).
    by rewrite <-List.app_assoc, replicate_add, <-Hm2.
  - intros Hm1 (i & j & ->). exists (length ms1 + i), j. by rewrite replicate_add, <-List.app_assoc, <-Hm1.
  - intros Hm1 Hm2. by rewrite length_app, replicate_add, <-Hm1, <-Hm2.
Qed.

Lemma set_loop_results {A} op get_path run (l : list A) m err result m' err' result' :
  set_loop op get_path run l m err result = Ok (m', err', result') →
  ∃ mid, result' = result ++ mid ∧
    (λ u, (ur_Op u, ur_Path u)) <$> mid = (λ a, (op, get_path a)) <$> l ∧
    messages_shape err err' (ur_Message <$> mid).
Proof.
  revert m err result. induction l as [|a l IH]; intros m err result Hrun.
  { injection Hrun as <- <- <-. exists []. rewrite List.app_nil_r. split_and!; [done..|]. by destruct err. }
  cbn in Hrun. destruct err as [e|].
  - apply IH in Hrun as (mid & -> & Hop & Hm). exists (buildUpdateResultAborted op (get_path a) :: mid).
    rewrite <-List.app_assoc. split; [done|]. split; [by rewrite !fmap_cons, Hop|].
    apply (messages_shape_app (Some e) (Some e) err' [AbortedMessage]); [done|exact Hm].
  - apply outcome_bind_Ok in Hrun as ([m1 err1] & _ & Hrun).
    apply IH in Hrun as (mid & -> & Hop & Hm). exists (buildUpdateResult op (get_path a) err1 :: mid).
    rewrite <-List.app_assoc. split; [done|]. split; [by rewrite !fmap_cons, Hop|].
    apply (messages_shape_app None err1 err' [match err1 with None => NoMessage | Some e => ErrorMessage e end]); [|exact Hm].
    destruct err1 as [e|]; [by exists 0, 0|done].
Qed.

(** The operations of a request, in the order they are run. *)
Definition request_operations (req : SetRequest typed) : list (operation * option Path) :=
  ((λ p, (DELETE, p)) <$> sr_Delete req) ++ ((λ x, (REPLACE, x.1)) <$> sr_Replace req) ++
  ((λ x, (UPDATE, x.1)) <$> sr_Update req).

Lemma set_operations_results req m m' err result :
  set_operations req m = Ok (m', err, result) →
  (λ u, (ur_Op u, ur_Path u)) <$> result = request_operations req ∧
  messages_shape None err (ur_Message <$> result).
Proof.
  unfold set_operations. intros Hrun.
  apply outcome_bind_Ok in Hrun as ([[m1 err1] res1] & Hd & Hrun).
  apply outcome_bind_Ok in Hrun as ([[m2 err2] res2] & Hr & Hu).
  apply set_loop_results in Hd as (mid1 & -> & Ho1 & Hm1).
  apply set_loop_results in Hr as (mid2 & -> & Ho2 & Hm2).
  apply set_loop_results in Hu as (mid3 & -> & Ho3 & Hm3).
  split.
  - unfold request_operations. by rewrite !fmap_app, Ho1, Ho2, Ho3, <-List.app_assoc.
  - rewrite !fmap_app. eapply messages_shape_app; [|exact Hm3]. by eapply messages_shape_app.
Qed.
End spec.

(** ** A store of named leaves, for the evaluations *)
Definition toy_name (p : option Path) : option string :=
  match elems p with [mkElem n None] => if idRe_MatchString n then Some n else None | _ => None end.

Definition toy_insert (p : option Path) (v : string) (r : gmap string string) : gmap string string :=
  match toy_name p with Some n => <[n := v]> r | None => r end.
Definition toy_delete (p : option Path) (r : gmap string string) : gmap string string :=
  match toy_name p with Some n => delete n r | None => r end.

#[global] Instance toy_store : DataStore (gmap string string) string string := {|
  NewEmptyRoot _ := Ok ∅;
  Get r p := Ok match toy_name p ≫= λ n, (r !! n) ≫= λ v, Some (mkData v ("/" +:+ n)) with
                | Some t => ([t], true) | None => ([], false) end;
  FindValue r p := Ok (toy_name p ≫= λ n, r !! n);
  DeleteValue r p := Ok (toy_delete p r, None);
  WriteValue r p v := Ok (toy_insert p v r, None);
  WriteTypedValue r p v := Ok (toy_insert p v r, None);
  DeleteNode r p := Ok (toy_delete p r, None);
  ReadOnly p := bool_decide (toy_name p = Some "readonly");
  ListAll_value _ v p := Ok match toy_name p, v with Some n, Some v => [("/" +:+ n, v)] | _, _ => [] end;
  ListAll r p := Ok match toy_name p with
                    | Some n => match r !! n with Some v => [("/" +:+ n, v)] | None => [] end
                    | None => (λ nv, ("/" +:+ nv.1, nv.2)) <$> map_to_list r
                    end
|}.

Definition toy_path (n : string) : option Path := Some (mkPath "" None (Some [mkElem n None]) "").

(** ** Theorems *)

(** C1. The response of Set lists every operation of the request once, in the
    order deletions, replacements, updates: the operations before the first
    failure without a message, the failed one with its error, all later ones as
    aborted; the error of the RPC is that of the failed operation. *)
Theorem server_set_results `{GoRange, ProtoClone} {root value typed : Type} `{DataStore root value typed}
    (req : SetRequest typed) (m m' : Model root value) (result : list UpdateResult) (err : option error) :
  server_set req m = Ok (m', result, err) →
  (λ u, (ur_Op u, ur_Path u)) <$> result = request_operations req ∧
  match err with
  | None => Forall (λ u, ur_Message u = NoMessage) result
  | Some e => ∃ i j, ur_Message <$> result = replicate i NoMessage ++ ErrorMessage e :: replicate j AbortedMessage
  end.
Proof.
  intros ([[m1 err1] res1] & Hops & (m2 & _ & (m3 & _ & [= <- <- <-])%outcome_bind_Ok)%outcome_bind_Ok)%outcome_bind_Ok.
  apply set_operations_results in Hops as [Hop Hm]. split; [done|].
  destruct err1 as [e|]; [exact Hm|]. cbn in Hm.
  change (Forall ((λ ms, ms = NoMessage) ∘ ur_Message) res1). rewrite <-Forall_fmap, Hm. by apply Forall_replicate.
Qed.

Definition toy_model (r : gmap string string) (sc : option StateConfig) : Model (gmap string string) string :=
  mkModel r [] 0 sc [].

(** A request that deletes [c], replaces [a], fails on read-only data, and
    would update [b]. *)
Definition toy_request : SetRequest string :=
  mkSetRequest (Some RootGNMIPath) [toy_path "c"]
    [(toy_path "a", "2"); (toy_path "readonly", "x")] [(toy_path "b", "y")].

Definition toy_tree : gmap string string := {["a" := "1"; "b" := "1"; "c" := "1"; "readonly" := "1"]}.

Lemma server_set_results_witness :
  let R := canonical_range in let P := identity_clone in
  let m' : Model (gmap string string) string := mkModel toy_tree [] 1 None [] in
  let result := [mkResult (toy_path "c") DELETE NoMessage; mkResult (toy_path "a") REPLACE NoMessage;
    mkResult (toy_path "readonly") REPLACE (ErrorMessage (read_only_error "/readonly"));
    mkResult (toy_path "b") UPDATE AbortedMessage] in
  (λ u, (ur_Op u, ur_Path u)) <$> result = request_operations toy_request ∧
  ∃ i j, ur_Message <$> result =
    replicate i NoMessage ++ ErrorMessage (read_only_error "/readonly") :: replicate j AbortedMessage.
Proof.
  intros R P m' result.
  apply (server_set_results toy_request (toy_model toy_tree None) m' result (Some (read_only_error "/readonly"))).
  vm_compute. reflexivity.
Defined.

(** C5. The difference sent to the external system: executeStateConfig changes
    nothing but the record of calls; without an error the calls are UpdateStart,
    a deletion for every path that is only in the old data, a replacement or
    creation for every entry of the new data, and UpdateEnd; after an error they
    are a first part of these followed by UpdateEnd. *)
Theorem executeStateConfig_calls {root value typed : Type} `{DataStore root value typed} (sc : StateConfig) (gpath : option Path)
    (oldval : option value) (m : Model root value) (curlist newlist : list (string * string)) :
  m_StateConfig m = Some sc →
  ListAll_value (m_root m) oldval gpath = Ok curlist → ListAll (m_root m) gpath = Ok newlist →
  (∀ c, c ∈ diff_calls curlist newlist ↔
     match c with
     | UpdateDelete p => p ∈ curlist.*1 ∧ p ∉ newlist.*1
     | UpdateReplace p v => (p, v) ∈ newlist ∧ p ∈ curlist.*1
     | UpdateCreate p v => (p, v) ∈ newlist ∧ p ∉ curlist.*1
     | UpdateStart | UpdateEnd => False
     end) ∧
  ∃ cs m' err, executeStateConfig gpath oldval m = Ok (m', err) ∧ called m (UpdateStart :: cs ++ [UpdateEnd]) m' ∧
    cs `prefix_of` diff_calls curlist newlist ∧ (err = None → cs = diff_calls curlist newlist).
Proof.
  intros Hsc Hcur Hnew. split; [apply diff_calls_spec|].
  rewrite (executeStateConfig_run sc), Hcur, outcome_bind_ret, Hnew, outcome_bind_ret by done.
  destruct (send_diff_calls sc curlist newlist m) as (cs & m' & err & -> & Hs). by exists cs, m', err.
Qed.

(** An external system that accepts everything, and one that fails on a deletion. *)
Definition accepts : StateConfig := λ _, None.
Definition rejects_deletion : StateConfig := λ cs,
  match last cs with Some (UpdateDelete _) => Some (Errorf_plain "busy" []) | _ => None end.

Lemma executeStateConfig_calls_witness :
  let m := toy_model {["a" := "2"]} (Some accepts) in
  let curlist := [("/a", "1")] in
  let newlist := [("/a", "2")] in
  (∀ c, c ∈ diff_calls curlist newlist ↔
     match c with
     | UpdateDelete p => p ∈ curlist.*1 ∧ p ∉ newlist.*1
     | UpdateReplace p v => (p, v) ∈ newlist ∧ p ∈ curlist.*1
     | UpdateCreate p v => (p, v) ∈ newlist ∧ p ∉ curlist.*1
     | UpdateStart | UpdateEnd => False
     end) ∧
  ∃ cs m' err, executeStateConfig (toy_path "a") (Some "1") m = Ok (m', err) ∧
    called m (UpdateStart :: cs ++ [UpdateEnd]) m' ∧
    cs `prefix_of` diff_calls curlist newlist ∧ (err = None → cs = diff_calls curlist newlist).
Proof.
  intros m curlist newlist.
  exact (executeStateConfig_calls accepts (toy_path "a") (Some "1") m curlist newlist eq_refl eq_refl eq_refl).
Defined.

(** Load leaves the external system in an open update: when a deletion,
    replacement or creation fails, the tree is unchanged, the error is returned
    and, after UpdateStart, no UpdateEnd is called, whereas a Set always calls
    it. *)
Theorem Load_open_update `{GoRange} {root value typed : Type} `{DataStore root value typed} (sc : StateConfig) (new_root : root)
    (m m' : Model root value) (err : error) :
  m_StateConfig m = Some sc → sc (m_calls m ++ [UpdateStart]) = None →
  Load (inr new_root) true m = Ok (m', Some err) →
  m_root m' = m_root m ∧
  ∃ cs c, m_calls m' = m_calls m ++ UpdateStart :: cs ++ [c] ∧ (UpdateEnd ∉ cs) ∧ is_Some (sc (m_calls m')) ∧
    m_setBackup m' = m_setBackup m.
Proof.
  intros Hsc Hstart Hload. unfold Load in Hload. rewrite Hsc in Hload.
  apply outcome_bind_Ok in Hload as (newlist & _ & (curlist & _ & Hload)%outcome_bind_Ok).
  apply (f_equal (λ r, match r with Ok x => x | _ => (m, None) end)) in Hload. cbv [mret outcome_ret] in Hload.
  unfold call at 1 in Hload. rewrite Hstart in Hload.
  set (m1 := mkModel _ _ _ _ _) in Hload. set (cs := delete_calls _ _ ++ _) in Hload.
  pose proof (calls_until_error_spec sc load_error cs m1) as Hs.
  destruct (calls_until_error sc load_error cs m1) as [m2 [e|]]; [|done]. injection Hload as <- _.
  destruct Hs as (cs1 & c & cs2 & Heq & Hc & Herr). unfold called in Hc. subst m2. split; [done|].
  exists cs1, c. unfold m1. cbn. split; [by rewrite <-List.app_assoc|]. split_and!; [|done|done].
  intros Hin. unfold cs in Heq.
  assert (∀ l, UpdateEnd ∈ cs1 → cs1 ++ c :: cs2 = l ++ [UpdateEnd] → UpdateEnd ∈ l) as Hend.
  { clear. intros l Hin Heq. destruct cs2 as [|c2 cs2 _] using rev_ind.
    - apply app_inj_tail in Heq as [-> _]. done.
    - change (c :: cs2 ++ [c2]) with ((c :: cs2) ++ [c2]) in Heq. rewrite List.app_assoc in Heq.
      apply app_inj_tail in Heq as [<- _]. set_solver. }
  rewrite List.app_assoc in Heq. specialize (Hend _ Hin (eq_sym Heq)).
  by apply diff_parts_no_end in Hend.
Qed.

Lemma Load_open_update_witness :
  let R := canonical_range in
  let m := toy_model {["a" := "1"]} (Some rejects_deletion) in
  let m' := mkModel {["a" := "1"]} [] 0 (Some rejects_deletion) [UpdateStart; UpdateDelete "/a"] in
  m_root m' = m_root m ∧
  ∃ cs c, m_calls m' = m_calls m ++ UpdateStart :: cs ++ [c] ∧ (UpdateEnd ∉ cs) ∧
    is_Some (rejects_deletion (m_calls m')) ∧ m_setBackup m' = m_setBackup m.
Proof.
  intros R m m'.
  apply (Load_open_update rejects_deletion ∅ m m'
    (TaggedErrorf codes.Internal TagOperationFail "state-config (update-delete) error:: %v" [AMsg (Fmt "busy" [])]));
    reflexivity.
Defined.

(** A leaf changed twice by a failing Set is not restored: replacing it,
    updating it again and then failing rolls back to the value between the two
    changes. *)
Theorem SetRollback_twice :
  let R := canonical_range in let P := identity_clone in
  let req := mkSetRequest (Some RootGNMIPath) [] [(toy_path "a", "2")]
               [(toy_path "a", "3"); (toy_path "readonly", "x")] in
  ∃ m' result err, server_set req (toy_model toy_tree None) = Ok (m', result, Some err) ∧
    toy_tree !! "a" = Some "1" ∧ m_root m' !! "a" = Some "2".
Proof. intros R P req. eexists _, _, _. split; [vm_compute; reflexivity|]. split; reflexivity. Qed.
