(* ===== verification/SetLeaf.v ===== *)
(** * SetLeaf: the Set transaction on leaves

    The contract that a store of data offers for leaves, and what a Set makes of
    it: the first backup of a leaf holds its value before the Set, and putting
    the backups back in turn gives every leaf the value of its last one.  The
    data tree meets the contract ([SetTree]). *)

From S2P Require Export SetTxnSpec.

(** What the data tree promises for leaves, while it is well formed.  A path of
    a leaf has a name, but the paths of the keys of list entries have none;
    [leaf_at] gives the value under every name, [leaf_value] the values a leaf
    can be given back and [leaf_typed] the typed values that are values of
    leaves.  A write may create the list entries of its path, with the leaves of
    their keys ([entry_key]), which did not exist before. *)
Class LeafStore (root value typed name : Type) `{DataStore root value typed} := {
  store_ok : root → Prop;
  leaf_name : option Path → option name;
  leaf_at : root → name → option value;
  leaf_value : name → value → Prop;
  leaf_typed : typed → Prop;
  entry_key : name → name → Prop;
  leaf_elems p n : leaf_name p = Some n → elems p ≠ [];
  leaf_no_key p n n' : leaf_name p = Some n → ¬ entry_key n' n;
  leaf_at_value r n v : store_ok r → leaf_at r n = Some v → leaf_value n v;
  Get_leaf r p n : store_ok r → leaf_name p = Some n →
    match leaf_at r n with
    | Some v => ∃ t q, Get r p = Ok ([mkData v t], true) ∧ ToGNMIPath t = Ok q ∧ leaf_name (Some q) = Some n
    | None => Get r p = Ok ([], false)
    end;
  WriteValue_leaf r p n v : store_ok r → leaf_name p = Some n → leaf_value n v →
    ∃ r', WriteValue r p v = Ok (r', None) ∧ store_ok r' ∧ leaf_at r' n = Some v ∧
      ∀ n', n' ≠ n → leaf_at r' n' = leaf_at r n' ∨ (leaf_at r n' = None ∧ entry_key n n');
  DeleteValue_leaf r p n : store_ok r → leaf_name p = Some n →
    ∃ r', DeleteValue r p = Ok (r', None) ∧ store_ok r' ∧ leaf_at r' n = None ∧
      ∀ n', n' ≠ n → leaf_at r' n' = leaf_at r n';
  WriteTypedValue_leaf r p n w r' err : store_ok r → leaf_name p = Some n → leaf_typed w →
    WriteTypedValue r p w = Ok (r', err) →
    store_ok r' ∧ ∀ n', n' ≠ n → leaf_at r' n' = leaf_at r n' ∨ (leaf_at r n' = None ∧ entry_key n n');
  DeleteNode_leaf r p n r' err : store_ok r → leaf_name p = Some n → DeleteNode r p = Ok (r', err) →
    store_ok r' ∧ ∀ n', n' ≠ n → leaf_at r' n' = leaf_at r n'
}.

Section leaves.
Context `{GoRange, ProtoClone} {root value typed name : Type} `{EqDecision name} `{LeafStore root value typed name}.
Implicit Types (m : Model root value) (r : root) (n : name).

(** The leaves that the operations may name. *)
Context (named : name → Prop).

(** ** Backups *)
(** The old value that the first backup of a leaf holds; the last is the first
    of the reversed list. *)
Fixpoint first_saved n (l : list (option Path * option value)) : option (option value) :=
  match l with
  | [] => None
  | (p, old) :: l => if decide (leaf_name p = Some n) then Some old else first_saved n l
  end.
Definition last_saved n (l : list (option Path * option value)) : option (option value) :=
  first_saved n (reverse l).

Lemma first_saved_app n l1 l2 :
  first_saved n (l1 ++ l2) = match first_saved n l1 with Some o => Some o | None => first_saved n l2 end.
Proof. induction l1 as [|[p o] l1 IH]; [done|]. cbn. by case_decide. Qed.

Lemma last_saved_cons n p o l :
  last_saved n ((p, o) :: l) =
  match last_saved n l with Some o' => Some o' | None => if decide (leaf_name p = Some n) then Some o else None end.
Proof. unfold last_saved. rewrite reverse_cons, first_saved_app. done. Qed.

Lemma first_saved_None n l : first_saved n l = None ↔ ∀ po, po ∈ l → leaf_name po.1 ≠ Some n.
Proof.
  induction l as [|[p o] l IH]; [split; [by intros _ po Hin%elem_of_nil|done]|].
  cbn. setoid_rewrite elem_of_cons. case_decide as Hp.
  - split; [done|]. intros Hall. by destruct (Hall (p, o)); [left|].
  - rewrite IH. split; [intros Hall po [->|?]; auto|]. intros Hall po Hin. by apply Hall; right.
Qed.

Lemma first_saved_reverse n l : last_saved n l = None → first_saved n l = None.
Proof.
  unfold last_saved. rewrite !first_saved_None. intros Hall po Hin. apply Hall. by apply elem_of_reverse.
Qed.

(** Distinct names: the first backup of a leaf is its last. *)
Lemma last_saved_distinct n l :
  NoDup (omap (λ po, leaf_name po.1) l) → last_saved n l = first_saved n l.
Proof.
  induction l as [|[p o] l IH]; [done|]. rewrite last_saved_cons. cbn. intros Hnd.
  destruct (leaf_name p) as [n'|] eqn:Hp; cbn in Hnd.
  - apply NoDup_cons in Hnd as [Hnotin Hnd]. rewrite IH by done. case_decide as Hn; [|by destruct (first_saved n l)].
    injection Hn as ->. replace (first_saved n l) with (@None (option value)); [done|]. symmetry.
    clear -Hnotin. induction l as [|[q o'] l IH]; [done|]. cbn in *. case_decide as Hq.
    + rewrite Hq in Hnotin. set_solver.
    + apply IH. destruct (leaf_name q); set_solver.
  - rewrite IH by done. case_decide; [done|]. by destruct (first_saved n l).
Qed.

(** [n] is the key of a list entry that a write to one of the leaves may have
    created; up to such keys, what is under [n] is what was. *)
Definition created (l : list (option Path * option value)) n : Prop :=
  ∃ po n', po ∈ l ∧ leaf_name po.1 = Some n' ∧ entry_key n' n.
Definition kept (l : list (option Path * option value)) n (now before : option value) : Prop :=
  now = before ∨ (before = None ∧ created l n).

Lemma kept_trans l n a b c : kept l n a b → kept l n b c → kept l n a c.
Proof. unfold kept. intros [->|[-> ?]] [->|[-> ?]]; auto. Qed.

Lemma kept_mono l l' n a b : (∀ po, po ∈ l → po ∈ l') → kept l n a b → kept l' n a b.
Proof. intros Hl [->|[-> (po & n' & ? & ?)]]; [by left|]. right. split; [done|]. exists po, n'. auto. Qed.

Lemma kept_named l p n a b : leaf_name p = Some n → kept l n a b → a = b.
Proof. intros Hp [?|[_ (po & n' & _ & _ & Hk)]]; [done|]. by destruct (leaf_no_key p n n' Hp). Qed.

(** What a write to the leaf [n0] does to the other leaves. *)
Lemma kept_written l p n0 r r' n :
  (p ∈ l.*1) → leaf_name p = Some n0 →
  leaf_at r' n = leaf_at r n ∨ (leaf_at r n = None ∧ entry_key n0 n) → kept l n (leaf_at r' n) (leaf_at r n).
Proof.
  intros ([q o] & -> & Hin)%list_elem_of_fmap Hp [?|[? ?]]; [by left|]. right. split; [done|]. by exists (q, o), n0.
Qed.

(** A saved value belongs to a leaf that is named, and can be given back to it. *)
Definition saved_ok (po : option Path * option value) : Prop :=
  ∃ n, leaf_name po.1 = Some n ∧ named n ∧ ∀ v, po.2 = Some v → leaf_value n v.

(** The first backup of a leaf holds its value in the tree of
    [m0]; a leaf without a backup is as there, up to created keys. *)
Definition backups_ok m0 m : Prop :=
  store_ok (m_root m) ∧ m_StateConfig m = m_StateConfig m0 ∧ Forall saved_ok (saved m) ∧
  ∀ n, kept (saved m) n (default (leaf_at (m_root m) n) (first_saved n (saved m))) (leaf_at (m_root m0) n).

Lemma backups_ok_same_tree m0 m m' : same_tree m m' → backups_ok m0 m → backups_ok m0 m'.
Proof. intros (Hr & Hb & Hc). unfold backups_ok. by rewrite Hr, Hb, Hc. Qed.

(** A leaf is saved, then the tree changes at that leaf, and at created keys. *)
Lemma backups_ok_change m0 m optype xpath p n r :
  leaf_name p = Some n → named n → store_ok r →
  (∀ n', n' ≠ n → leaf_at r n' = leaf_at (m_root m) n' ∨ (leaf_at (m_root m) n' = None ∧ entry_key n n')) →
  backups_ok m0 m → backups_ok m0 (set_root r (addBackupEntry optype xpath p (leaf_at (m_root m) n) m)).
Proof.
  intros Hp Hnamed Hok Hr (Hok0 & Hsc & Hleaf & Hfirst). split; [done|]. split; [done|].
  assert (∀ o, saved (set_root r (addBackupEntry optype xpath p o m)) = saved m ++ [(p, o)]) as Hsaved
    by (intros o; unfold saved; cbn; by rewrite fmap_app).
  split; rewrite Hsaved.
  - apply Forall_app. split; [done|]. repeat constructor. exists n. do 2 (split; [done|]). intros v. by apply leaf_at_value.
  - intros n'. rewrite first_saved_app. specialize (Hfirst n').
    eapply kept_trans; [|eapply kept_mono; [|exact Hfirst]; set_solver].
    destruct (first_saved n' (saved m)); [by left|]. cbn. case_decide as Heq.
    + rewrite Hp in Heq. injection Heq as <-. by left.
    + eapply (kept_written _ p n); [rewrite fmap_app; set_solver|done|]. apply Hr. intros ->. by rewrite Hp in Heq.
Qed.

(** ** Operations on a leaf *)

Definition only_leaf (change : option Path → root → outcome error (root * option error)) : Prop :=
  ∀ p n r r' err, store_ok r → leaf_name p = Some n → change p r = Ok (r', err) →
    store_ok r' ∧ ∀ n', n' ≠ n → leaf_at r' n' = leaf_at r n' ∨ (leaf_at r n' = None ∧ entry_key n n').

Lemma delete_change_leaf : only_leaf delete_change.
Proof.
  intros p n r r' err Hok Hp Hrun. unfold delete_change in Hrun.
  pose proof (leaf_elems p n Hp). destruct (elems p); [done|]. cbn [length Nat.eqb] in Hrun.
  destruct (DeleteNode_leaf r p n r' err Hok Hp Hrun) as [? Hd]. split; [done|]. intros n' Hn. left. by apply Hd.
Qed.

Lemma update_change_leaf w : leaf_typed w → only_leaf (update_change w).
Proof. intros Hw p n r r' err Hok Hp Hrun. by eapply WriteTypedValue_leaf. Qed.

Lemma replace_change_leaf w : leaf_typed w → only_leaf (replace_change w).
Proof.
  intros Hw p n r r' err Hok Hp Hrun. apply outcome_bind_Ok in Hrun as ([r1 err1] & Hd & Hrun).
  destruct (DeleteNode_leaf r p n r1 err1 Hok Hp Hd) as [Hok1 Hsame].
  destruct err1; [injection Hrun as <- <-; split; [done|]; intros n' Hn; left; by apply Hsame|].
  destruct (WriteTypedValue_leaf r1 p n w r' err Hok1 Hp Hw Hrun) as [Hok' Hwrite]. split; [done|].
  intros n' Hn. rewrite <-(Hsame n' Hn). by apply Hwrite.
Qed.

Lemma set_targets_leaf m0 optype format change m n v t q m' err :
  only_leaf change → ToGNMIPath t = Ok q → leaf_name (Some q) = Some n → named n → leaf_at (m_root m) n = Some v →
  set_targets optype format change [mkData v t] m = Ok (m', err) →
  backups_ok m0 m → backups_ok m0 m'.
Proof.
  intros Hch Ht Hq Hnamed Hv Hrun Hok. cbn [set_targets dap_Path dap_Value] in Hrun. rewrite Ht in Hrun.
  destruct (ReadOnly (Some q)); [by injection Hrun as <- <-|]. rewrite <-Hv in Hrun.
  apply outcome_bind_Ok in Hrun as ([r err1] & Hc & Hrun).
  assert (backups_ok m0 (set_root r (addBackupEntry optype t (Some q) (leaf_at (m_root m) n) m))) as Hok'.
  { destruct (Hch (Some q) n (m_root m) r err1) as [Hok1 Hsame]; [apply Hok|done|done|]. by apply backups_ok_change. }
  destruct err1; [by injection Hrun as <- <-|].
  apply outcome_bind_Ok in Hrun as ([m1 err1] & Hf%finish_target_same_tree & Hrun).
  destruct err1; injection Hrun as <- <-; by eapply backups_ok_same_tree.
Qed.

Lemma set_new_leaf m0 optype format p n w m m' err :
  leaf_name p = Some n → named n → leaf_typed w → leaf_at (m_root m) n = None →
  set_new optype format p w m = Ok (m', err) → backups_ok m0 m → backups_ok m0 m'.
Proof.
  intros Hp Hnamed Hty Hv Hrun Hok. unfold set_new in Hrun. destruct (ReadOnly p); [by injection Hrun as <- <-|].
  apply outcome_bind_Ok in Hrun as ([r err1] & Hw & Hrun). rewrite <-Hv in Hrun.
  assert (backups_ok m0 (set_root r (addBackupEntry optype (ToXPath p) p (leaf_at (m_root m) n) m))) as Hok'.
  { destruct (WriteTypedValue_leaf (m_root m) p n w r err1) as [Hok1 Hsame]; [apply Hok|done..|]. by apply backups_ok_change. }
  destruct err1; [by injection Hrun as <- <-|].
  eapply backups_ok_same_tree; [by eapply finish_target_same_tree|done].
Qed.

Definition named_path (prefix path : option Path) : Prop :=
  ∀ full, GNMIFullPath prefix path = Ok full → ∃ n, leaf_name full = Some n ∧ named n.

Definition keeps_backups {A} (run : A → Model root value → outcome error (Model root value * option error)) (a : A) : Prop :=
  ∀ m0 m m' err, run a m = Ok (m', err) → backups_ok m0 m → backups_ok m0 m'.

(** The three operations share the look-up of the path. *)
Lemma operation_leaf m0 prefix path full found (new : Model root value → outcome error (Model root value * option error))
    optype format change m m' err :
  named_path prefix path → GNMIFullPath prefix path = Ok full → Get (m_root m) full = Ok found → only_leaf change →
  (∀ n, leaf_name full = Some n → named n → leaf_at (m_root m) n = None → new m = Ok (m', err) → backups_ok m0 m') →
  (if found.2 : bool then set_targets optype format change found.1 m else new m) = Ok (m', err) →
  backups_ok m0 m → backups_ok m0 m'.
Proof.
  intros Hl Hf Hg Hch Hnew Hrun Hok. destruct (Hl _ Hf) as (n & Hn & Hnamed).
  pose proof (Get_leaf (m_root m) full n (proj1 Hok) Hn) as Hget. destruct (leaf_at (m_root m) n) as [v|] eqn:Hv.
  - destruct Hget as (t & q & Hget & Ht & Hq). rewrite Hget in Hg. injection Hg as <-. cbn in Hrun.
    by eapply (set_targets_leaf m0 optype format change).
  - rewrite Hget in Hg. injection Hg as <-. cbn in Hrun. by eapply Hnew.
Qed.

Lemma SetDelete_leaf prefix path : named_path prefix path → keeps_backups (SetDelete prefix) path.
Proof.
  intros Hl m0 m m' err Hrun Hok.
  apply outcome_bind_Ok in Hrun as (full & Hf & ([targets ok] & Hg & Hrun)%outcome_bind_Ok).
  destruct (Hl _ Hf) as (n & Hn & Hnamed). pose proof (Get_leaf (m_root m) full n (proj1 Hok) Hn) as Hget. rewrite Hg in Hget.
  destruct (leaf_at (m_root m) n) as [v|] eqn:Hv.
  - destruct Hget as (t & q & [= -> ->] & Ht & Hq).
    by eapply (set_targets_leaf m0 DELETE _ delete_change); eauto using delete_change_leaf.
  - injection Hget as -> ->. by injection Hrun as <- <-.
Qed.

Lemma SetReplace_leaf prefix (pw : option Path * typed) :
  named_path prefix pw.1 → leaf_typed pw.2 → keeps_backups (λ x, SetReplace prefix x.1 x.2) pw.
Proof.
  intros Hl Hty m0 m m' err Hrun Hok.
  apply outcome_bind_Ok in Hrun as (full & Hf & ([targets ok] & Hg & Hrun)%outcome_bind_Ok).
  eapply (operation_leaf m0 _ _ full (targets, ok) (set_new REPLACE "replace error in %s:: %v" full pw.2));
    eauto using replace_change_leaf, set_new_leaf.
Qed.

Lemma SetUpdate_leaf prefix (pw : option Path * typed) :
  named_path prefix pw.1 → leaf_typed pw.2 → keeps_backups (λ u, SetUpdate prefix u.1 u.2) pw.
Proof.
  intros Hl Hty m0 m m' err Hrun Hok.
  apply outcome_bind_Ok in Hrun as (full & Hf & ([targets ok] & Hg & Hrun)%outcome_bind_Ok).
  eapply (operation_leaf m0 _ _ full (targets, ok) (set_new UPDATE "set.update error in %s:: %v" full pw.2));
    eauto using update_change_leaf, set_new_leaf.
Qed.

Lemma set_loop_keeps {A} op get_path run (l : list A) m0 m err result m' err' result' :
  Forall (keeps_backups run) l → set_loop op get_path run l m err result = Ok (m', err', result') →
  backups_ok m0 m → backups_ok m0 m'.
Proof.
  intros Hl. revert m err result. induction Hl as [|a l Ha Hl IH]; intros m err result Hrun Hok.
  - by injection Hrun as <- <- <-.
  - cbn in Hrun. destruct err as [e|]; [by eapply IH|].
    apply outcome_bind_Ok in Hrun as ([m1 err1] & Hrun1 & Hrun). eapply IH; [exact Hrun|]. by eapply Ha.
Qed.

Definition named_request (req : SetRequest typed) : Prop :=
  Forall (named_path (sr_Prefix req)) (sr_Delete req) ∧
  Forall (λ pw, named_path (sr_Prefix req) pw.1 ∧ leaf_typed pw.2) (sr_Replace req ++ sr_Update req).

Lemma set_operations_keeps req m0 m m' err result :
  named_request req → set_operations req m = Ok (m', err, result) →
  backups_ok m0 m → backups_ok m0 m'.
Proof.
  unfold named_request. rewrite Forall_app. intros (Hd & Hr & Hu) Hrun Hok.
  unfold set_operations in Hrun.
  apply outcome_bind_Ok in Hrun as ([[m1 err1] res1] & H1' & Hrun).
  apply outcome_bind_Ok in Hrun as ([[m2 err2] res2] & H2' & Hrun).
  eapply set_loop_keeps in H1'; [| |exact Hok]; [|by eapply Forall_impl; [exact Hd|apply SetDelete_leaf]].
  eapply set_loop_keeps in H2'; [| |exact H1']; [|by eapply Forall_impl; [exact Hr|intros pw []; by apply SetReplace_leaf]].
  eapply set_loop_keeps in Hrun; [exact Hrun| |exact H2'].
  by eapply Forall_impl; [exact Hu|intros pw []; by apply SetUpdate_leaf].
Qed.

(** ** Restoring *)

Lemma restore_leaf b r r' err n :
  store_ok r → leaf_name (b_gpath b) = Some n → (∀ v, b_oldval b = Some v → leaf_value n v) → restore b r = Ok (r', err) →
  store_ok r' ∧ leaf_at r' n = b_oldval b ∧
  ∀ n', n' ≠ n → leaf_at r' n' = leaf_at r n' ∨ (leaf_at r n' = None ∧ entry_key n n').
Proof.
  intros Hok Hn Hv Hrun. unfold restore in Hrun. destruct (b_oldval b) as [v|].
  - destruct (WriteValue_leaf r _ n v Hok Hn (Hv v eq_refl)) as (r1 & Hw & Hok1 & Hat & Hother). rewrite Hw in Hrun.
    by injection Hrun as <- <-.
  - destruct (DeleteValue_leaf r _ n Hok Hn) as (r1 & Hw & Hok1 & Hat & Hother). rewrite Hw in Hrun.
    injection Hrun as <- <-. split; [done|]. split; [done|]. intros n' Hne. left. by apply Hother.
Qed.

(** A loop that puts every entry back in turn: the last one of a leaf decides. *)
Definition puts_back (loop : list (backupEntry value) → Model root value → outcome error (Model root value)) : Prop :=
  (∀ m m', loop [] m = Ok m' → m_root m' = m_root m) ∧
  ∀ b l m m', loop (b :: l) m = Ok m' →
    ∃ m1 err, restore b (m_root m) = Ok (m_root m1, err) ∧ loop l m1 = Ok m'.

Lemma SetRollback_loop_puts_back : puts_back SetRollback_loop.
Proof.
  split; [by intros m m' [= <-]|]. intros b l m m' Hrun. cbn in Hrun.
  apply outcome_bind_Ok in Hrun as (new & _ & ([r err] & Hr & Hrun)%outcome_bind_Ok).
  destruct err as [err|]; [by exists (set_root r m), (Some err)|].
  destruct (b_executed b); [|by exists (set_root r m), None].
  apply outcome_bind_Ok in Hrun as ([m1 err1] & Hs%executeStateConfig_same_tree & Hrun).
  exists m1, None. destruct Hs as (-> & _). done.
Qed.

Lemma SetDone_loop_puts_back : puts_back SetDone_loop.
Proof.
  split; [by intros m m' [= <-]|]. intros b l m m' ([r err] & Hr & Hrun)%outcome_bind_Ok.
  by exists (set_root r m), err.
Qed.

Definition backup_saved (b : backupEntry value) : option Path * option value := (b_gpath b, b_oldval b).

Lemma puts_back_last loop entries m m' :
  puts_back loop → store_ok (m_root m) → Forall saved_ok (backup_saved <$> entries) → loop entries m = Ok m' →
  let l := backup_saved <$> entries in
  store_ok (m_root m') ∧ ∀ n, kept l n (leaf_at (m_root m') n) (default (leaf_at (m_root m) n) (last_saved n l)).
Proof.
  intros [Hnil Hcons] Hok Hl. revert m Hok. rewrite Forall_fmap in Hl.
  induction Hl as [|b l [n' (Hn' & _ & Hv)] Hl IH]; intros m Hok Hrun; cbn zeta.
  { rewrite (Hnil _ _ Hrun). split; [done|]. intros n. by left. }
  cbn in Hn', Hv. destruct (Hcons b l m m' Hrun) as (m1 & err & Hr & Hrun1).
  destruct (restore_leaf b _ _ _ n' Hok Hn' Hv Hr) as (Hok1 & Hat & Hother).
  destruct (IH m1 Hok1 Hrun1) as [Hok' Hk]. split; [done|]. intros n. specialize (Hk n).
  rewrite fmap_cons. unfold backup_saved at 3. rewrite last_saved_cons.
  eapply kept_trans; [eapply kept_mono; [|exact Hk]; set_solver|].
  destruct (last_saved n _); [by left|]. cbn. case_decide as Hn.
  - rewrite Hn in Hn'. injection Hn' as ->. by left.
  - eapply (kept_written _ (b_gpath b) n'); [set_solver|done|]. apply Hother. intros ->. by rewrite Hn' in Hn.
Qed.

(** After the loop every leaf has the old value of its last backup. *)
Lemma puts_back_ok loop m0 m m' :
  puts_back loop → backups_ok m0 m → loop (m_setBackup m) m = Ok m' →
  store_ok (m_root m') ∧
  ∀ n, kept (saved m) n (leaf_at (m_root m') n) (default (leaf_at (m_root m0) n) (last_saved n (saved m))).
Proof.
  intros Hloop (Hok & _ & Hl & Hfirst) Hrun.
  destruct (puts_back_last loop _ m m' Hloop Hok Hl Hrun) as [Hok' Hlast].
  change (backup_saved <$> m_setBackup m) with (saved m) in Hlast. split; [done|]. intros n. eapply kept_trans; [apply Hlast|].
  specialize (Hfirst n). destruct (last_saved n (saved m)) eqn:Hs; [by left|].
  by rewrite (first_saved_reverse _ _ Hs) in Hfirst.
Qed.

(** The end of a Set that failed, or that an external system accepted. *)
Lemma SetRollback_kept m0 m m' :
  backups_ok m0 m → SetRollback m = Ok m' →
  store_ok (m_root m') ∧
  ∀ n, kept (saved m) n (leaf_at (m_root m') n) (default (leaf_at (m_root m0) n) (last_saved n (saved m))).
Proof.
  intros Hok (m1 & Hrun & [= <-])%outcome_bind_Ok.
  apply (puts_back_ok SetRollback_loop m0 m m1); auto using SetRollback_loop_puts_back.
Qed.

Lemma SetDone_kept m0 m m' :
  backups_ok m0 m → is_Some (m_StateConfig m) → SetDone m = Ok m' →
  store_ok (m_root m') ∧
  ∀ n, kept (saved m) n (leaf_at (m_root m') n) (default (leaf_at (m_root m0) n) (last_saved n (saved m))).
Proof.
  intros Hok [sc Hsc] Hrun. unfold SetDone in Hrun. rewrite Hsc in Hrun. destruct (m_setBackup m) as [|b l] eqn:Hb.
  - injection Hrun as <-. destruct Hok as (Hok & _ & _ & Hfirst). split; [done|]. intros n. specialize (Hfirst n).
    unfold saved in *. rewrite Hb in *. exact Hfirst.
  - apply outcome_bind_Ok in Hrun as (m1 & Hrun & [= <-]). rewrite <-Hb in Hrun.
    apply (puts_back_ok SetDone_loop m0 m m1); auto using SetDone_loop_puts_back.
Qed.

(** After the end of a Set no backup is left, unless it succeeded without an
    external system. *)
Lemma set_end m m' (err : option error) :
  (m1 ← match err with Some _ => SetRollback m | None => mret m end; SetDone m1) = Ok m' →
  is_Some err ∨ is_Some (m_StateConfig m) →
  m_setBackup m' = [] ∧
  if err is Some _ then SetRollback m = Ok m' else is_Some (m_StateConfig m) ∧ SetDone m = Ok m'.
Proof.
  intros (m1 & Hrun & Hdone)%outcome_bind_Ok Hend. destruct err as [e|].
  - assert (m_setBackup m1 = []) as Hb by (by apply outcome_bind_Ok in Hrun as (m2 & _ & [= <-])).
    unfold SetDone in Hdone. rewrite Hb in Hdone. by injection Hdone as <-.
  - injection Hrun as <-. destruct Hend as [[]|[sc Hsc]]; [done|]. split; [|by rewrite Hsc].
    unfold SetDone in Hdone. rewrite Hsc in Hdone. destruct (m_setBackup m) eqn:Hb; [by injection Hdone as <-|].
    by apply outcome_bind_Ok in Hdone as (m2 & _ & [= <-]).
Qed.

End leaves.

(** ** A Set on leaves *)
Section set.
Context `{GoRange, ProtoClone} {root value typed name : Type} `{EqDecision name} `{LeafStore root value typed name}.
Implicit Types (m : Model root value) (r : root) (n : name).

(** The paths of a request, and the leaves they name. *)
Definition request_paths (req : SetRequest typed) : list (option Path) :=
  sr_Delete req ++ (sr_Replace req).*1 ++ (sr_Update req).*1.

Definition names_leaf (req : SetRequest typed) n : Prop :=
  ∃ path full, path ∈ request_paths req ∧ GNMIFullPath (sr_Prefix req) path = Ok full ∧ leaf_name full = Some n.

(** All paths of the request are those of leaves, and its values of leaves. *)
Definition leaf_request (req : SetRequest typed) : Prop :=
  (∀ path full, path ∈ request_paths req → GNMIFullPath (sr_Prefix req) path = Ok full → is_Some (leaf_name full)) ∧
  Forall (λ pw, leaf_typed pw.2) (sr_Replace req ++ sr_Update req).

Lemma leaf_request_named req : leaf_request req → named_request (names_leaf req) req.
Proof.
  intros [Hpath Htyped].
  assert (∀ path, path ∈ request_paths req → named_path (names_leaf req) (sr_Prefix req) path) as Hnamed.
  { intros path Hin full Hf. destruct (Hpath path full Hin Hf) as [n Hn]. exists n. split; [done|]. by exists path, full. }
  unfold request_paths in Hnamed. split.
  - apply Forall_forall. intros path Hin. apply Hnamed. set_solver.
  - apply Forall_forall. intros pw Hin. rewrite Forall_forall in Htyped. split; [|by apply Htyped].
    apply Hnamed. rewrite <-fmap_app, elem_of_app. right. by apply list_elem_of_fmap_2.
Qed.

(** How a Set ends: the state after the operations, and what the end makes of it. *)
Lemma server_set_end req m m' err result :
  store_ok (m_root m) → leaf_request req → server_set req m = Ok (m', result, err) →
  ∃ m1, set_operations req (SetInit m) = Ok (m1, err, result) ∧ backups_ok (names_leaf req) m m1 ∧
    if decide (is_Some err ∨ is_Some (m_StateConfig m)) then
      m_setBackup m' = [] ∧ store_ok (m_root m') ∧
      ∀ n, kept (saved m1) n (leaf_at (m_root m') n) (default (leaf_at (m_root m) n) (last_saved n (saved m1)))
    else m' = m1.
Proof.
  intros Hstore Hleaf%leaf_request_named ([[m1 err1] res1] & Hops & Hrun)%outcome_bind_Ok.
  apply outcome_bind_Ok in Hrun as (m2 & Hroll & (m3 & Hdone & [= <- <- <-])%outcome_bind_Ok).
  assert (backups_ok (names_leaf req) m m1) as Hok.
  { eapply set_operations_keeps; [done|exact Hops|]. do 2 (split; [done|]). split; [constructor|]. intros n. by left. }
  exists m1. split; [done|]. split; [done|]. case_decide as Hend.
  - destruct (set_end m1 m3 err1) as [Hb He]; [apply outcome_bind_Ok; by exists m2|by rewrite (proj1 (proj2 Hok))|].
    split; [done|]. destruct err1; [by eapply SetRollback_kept|destruct He; by eapply SetDone_kept].
  - destruct err1; [destruct Hend; left; by eexists|]. injection Hroll as <-.
    unfold SetDone in Hdone. rewrite (proj1 (proj2 Hok)) in Hdone. destruct (m_StateConfig m); [destruct Hend; right; by eexists|].
    destruct (m_setBackup m1); by injection Hdone as <-.
Qed.

Lemma server_set_restores req m m' err result :
  store_ok (m_root m) → leaf_request req → server_set req m = Ok (m', result, err) → is_Some err ∨ is_Some (m_StateConfig m) →
  ∃ m1, set_operations req (SetInit m) = Ok (m1, err, result) ∧ m_setBackup m' = [] ∧ store_ok (m_root m') ∧
    (∀ n, kept (saved m1) n (leaf_at (m_root m') n) (default (leaf_at (m_root m) n) (last_saved n (saved m1)))) ∧
    (NoDup (omap (λ po, leaf_name po.1) (saved m1)) →
     (∀ p n, leaf_name p = Some n → leaf_at (m_root m') n = leaf_at (m_root m) n) ∧
     ∀ n, kept (saved m1) n (leaf_at (m_root m') n) (leaf_at (m_root m) n)).
Proof.
  intros Hstore Hleaf Hrun Hend.
  destruct (server_set_end req m m' err result Hstore Hleaf Hrun) as (m1 & Hops & (_ & _ & _ & Hfirst) & Hm').
  rewrite decide_True in Hm' by done. destruct Hm' as (Hb & Hok' & Hk). exists m1. do 4 (split; [done|]). intros Hnd.
  assert (∀ n, kept (saved m1) n (leaf_at (m_root m') n) (leaf_at (m_root m) n)) as Hsame.
  { intros n. specialize (Hfirst n). specialize (Hk n). rewrite last_saved_distinct in Hk by done.
    eapply kept_trans; [exact Hk|]. destruct (first_saved n (saved m1)); [done|by left]. }
  split; [|done]. intros p n Hp. by eapply kept_named.
Qed.

(** A leaf that no path of the request names. *)
Lemma server_set_frame req m m' err result n :
  store_ok (m_root m) → leaf_request req → server_set req m = Ok (m', result, err) → ¬ names_leaf req n →
  leaf_at (m_root m') n = leaf_at (m_root m) n ∨
  (leaf_at (m_root m) n = None ∧ ∃ n', names_leaf req n' ∧ entry_key n' n).
Proof.
  intros Hstore Hleaf Hrun Hn.
  destruct (server_set_end req m m' err result Hstore Hleaf Hrun) as (m1 & _ & (_ & _ & Hsaved & Hfirst) & Hm').
  assert (∀ po, po ∈ saved m1 → ∃ n', leaf_name po.1 = Some n' ∧ names_leaf req n') as Hnames.
  { intros po Hin. rewrite Forall_forall in Hsaved. destruct (Hsaved po Hin) as (n' & ? & ? & _). by exists n'. }
  assert (∀ a b, kept (saved m1) n a b → a = b ∨ (b = None ∧ ∃ n', names_leaf req n' ∧ entry_key n' n)) as Hkept.
  { intros a b [?|[? (po & n' & Hin & Hn' & Hk)]]; [by left|]. right. split; [done|]. exists n'. split; [|done].
    destruct (Hnames po Hin) as (n2 & Hn2 & ?). congruence. }
  assert (first_saved n (saved m1) = None) as Hfs.
  { apply first_saved_None. intros po Hin Hp. destruct (Hnames po Hin) as (n' & Hn' & ?). congruence. }
  assert (last_saved n (saved m1) = None) as Hls.
  { unfold last_saved. apply first_saved_None. intros po Hin Hp. rewrite elem_of_reverse in Hin. destruct (Hnames po Hin) as (n' & Hn' & ?). congruence. }
  apply Hkept. case_decide as Hend.
  - destruct Hm' as (_ & _ & Hk). specialize (Hk n). by rewrite Hls in Hk.
  - subst m'. specialize (Hfirst n). by rewrite Hfs in Hfirst.
Qed.
End set.
