(* ===== verification/TypeSearch.v ===== *)
(** * TypeSearch: the searches over the Go types of the data tree

    Models the type half of [gnmi/model/utilities.go] ([FindAllSchemaTypes],
    [FindAllSchemaPaths], [getAllSchemaPaths], [findSchemaPath], [typeFind],
    [updateType], [baseType]) and [FindAllPaths] of [model.go], which the
    telemetry control uses to register a subscription.

    The recursions of the searches follow a type and the elements of a path at
    once, so they carry fuel; [search_fuel] is enough for every call.  The
    package [ydb] is not part of the repository: its predicates on types are
    the fields of the class [YdbTypes]. *)

From Stdlib Require Import Ascii.
From S2P Require Export Schema.

(** ** The functions of [ydb] on types *)
Class YdbTypes := {
  IsTypeScalar : gotype → bool;
  IsTypeMap : gotype → bool;
  IsStartedWithUpper : string → bool;
  TypeGetAll : gotype → list gotype * bool;
  TypeFind : gotype → string → gotype * bool
}.

(** [t.Kind() == reflect.Map]. *)
Definition kind_map (t : gotype) : bool := match t with TMap _ => true | _ => false end.

(** The size of a type bounds the depth of a search. *)
Fixpoint type_size (t : gotype) : nat :=
  match t with
  | TPtr e | TMap e | TSlice e | TArray e => S (type_size e)
  | TStruct _ fields => S (sum_list_with (λ f, type_size f.2) fields)
  | TInterface | TBasic _ => 1
  end.

Definition search_fuel (t : gotype) (elems : list PathElem) : nat :=
  S (type_size t + length elems).

(** ** Path finders: a type with the schema path that leads to it *)
Record pathFinder : Type := mkFinder { pf_t : gotype; pf_path : string }.

(** The fields of a struct that are exported and have a path tag. *)
Definition struct_paths `{YdbTypes} (path : string) (fields : list (string * option string * gotype))
    : list pathFinder :=
  fields ≫= (λ '(name, tag, st),
    if IsStartedWithUpper name then
      match tag with Some p => [mkFinder st (path +:+ "/" +:+ p)] | None => [] end
    else []).

Fixpoint getAllSchemaPaths_go `{YdbTypes} (t : gotype) (path : string) : list pathFinder * bool :=
  match t with
  | TInterface => ([], false)
  | TPtr e => getAllSchemaPaths_go e path
  | TStruct _ fields =>
      let rtype := struct_paths path fields in
      (rtype, negb (length rtype =? 0))
  | TMap e | TSlice e => ([mkFinder e path], true)
  | TArray _ | TBasic _ => ([], false)
  end.

Definition getAllSchemaPaths `{YdbTypes} (sp : pathFinder) : list pathFinder * bool :=
  getAllSchemaPaths_go (pf_t sp) (pf_path sp).

(** The first field with the tag. *)
Definition tagged_field (fields : list (string * option string * gotype)) (name : string)
    : option gotype :=
  snd <$> List.find (λ f, bool_decide (f.1.2 = Some name)) fields.

Fixpoint findSchemaPath_go (t : gotype) (path : string) (elemname : string) : pathFinder * bool :=
  if bool_decide (elemname = "") then (mkFinder t path, true)
  else
    match t with
    | TInterface => (mkFinder t path, false)
    | TPtr e => findSchemaPath_go e path elemname
    | TStruct _ fields =>
        match tagged_field fields elemname with
        | Some ft => (mkFinder ft (path +:+ "/" +:+ elemname), true)
        | None => (mkFinder t path, false)
        end
    | TMap e | TSlice e | TArray e => (mkFinder e path, true)
    | TBasic _ => (mkFinder t path, false)
    end.

Definition findSchemaPath (sp : pathFinder) (elemname : string) : pathFinder * bool :=
  findSchemaPath_go (pf_t sp) (pf_path sp) elemname.

Section searches.
Context `{YdbTypes}.

(** ** Types by path *)
Fixpoint findAllSchemaTypes (fuel : nat) (t : gotype) (elems : list PathElem)
    : outcome error (list gotype) :=
  match fuel with
  | O => Diverge
  | S fuel =>
      if kind_map t then
        let '(ctlist, ok) := TypeGetAll t in
        if ok : bool then append_all (λ ct, findAllSchemaTypes fuel ct elems) ctlist else mret []
      else
        match elems with
        | [] => mret [t]
        | elem :: celems =>
            if IsTypeScalar t then mret []
            else if bool_decide (pe_Name elem = "*") then
              let '(ctlist, ok) := TypeGetAll t in
              if ok : bool then append_all (λ ct, findAllSchemaTypes fuel ct celems) ctlist else mret []
            else if bool_decide (pe_Name elem = "...") then
              let '(ctlist, ok) := TypeGetAll t in
              if ok : bool then
                append_all (λ ct,
                  r ← findAllSchemaTypes fuel ct celems;
                  rs ← findAllSchemaTypes fuel ct elems;
                  mret (r ++ rs)) ctlist
              else mret []
            else
              let '(ct, ok) := TypeFind t (pe_Name elem) in
              if ok : bool then findAllSchemaTypes fuel ct celems else mret []
        end
  end.

(** [reflect.TypeOf(gs)] is nil for a nil interface; asking it for its kind
    panics.  The fuel is enough when [TypeGetAll] gives parts of the type. *)
Definition FindAllSchemaTypes (gs : option gotype) (path : option Path)
    : outcome error (list (option gotype) * bool) :=
  match elems path, gs with
  | [], t => mret ([t], true)
  | _ :: _, None => Panic
  | l, Some t =>
      rtlist ← findAllSchemaTypes (search_fuel t l) t l;
      if length rtlist =? 0 then mret ([], false) else mret (Some <$> rtlist, true)
  end.

(** ** Schema paths by path *)
Fixpoint findAllSchemaPaths (fuel : nat) (sp : pathFinder) (elems : list PathElem)
    : outcome error (list pathFinder) :=
  match fuel with
  | O => Diverge
  | S fuel =>
      if kind_map (pf_t sp) then
        let '(csplist, ok) := getAllSchemaPaths sp in
        if ok : bool then append_all (λ csp, findAllSchemaPaths fuel csp elems) csplist else mret []
      else
        match elems with
        | [] => mret [sp]
        | elem :: celems =>
            if IsTypeScalar (pf_t sp) then mret []
            else if bool_decide (pe_Name elem = "*") then
              let '(csplist, ok) := getAllSchemaPaths sp in
              if ok : bool then append_all (λ csp, findAllSchemaPaths fuel csp celems) csplist else mret []
            else if bool_decide (pe_Name elem = "...") then
              let '(csplist, ok) := getAllSchemaPaths sp in
              if ok : bool then
                append_all (λ csp,
                  r ← findAllSchemaPaths fuel csp celems;
                  rs ← findAllSchemaPaths fuel csp elems;
                  mret (r ++ rs)) csplist
              else mret []
            else
              let '(csp, ok) := findSchemaPath sp (pe_Name elem) in
              if ok : bool then findAllSchemaPaths fuel csp celems else mret []
        end
  end.

Definition FindAllSchemaPaths (gs : option gotype) (path : option Path)
    : outcome error (list string * bool) :=
  match elems path, gs with
  | [], _ => mret (["/"], true)
  | _ :: _, None => Panic
  | l, Some t =>
      rsplist ← findAllSchemaPaths (search_fuel t l) (mkFinder t "") l;
      if length rsplist =? 0 then mret ([], false) else mret (pf_path <$> rsplist, true)
  end.

(** ** Data paths by path

    [key_predicates] is the loop over the key names of a list: the predicates
    in the order of the schema, or nothing when a key is missing. *)
Fixpoint key_predicates (npath : string) (knamelist : list string) (keys : gmap string string) : string :=
  match knamelist with
  | [] => npath
  | kname :: knamelist =>
      match keys !! kname with
      | Some kvalue =>
          key_predicates (npath +:+ "[" +:+ kname +:+ "=" +:+ kvalue +:+ "]") knamelist keys
      | None => ""
      end
  end.

(** The path of a list with the predicates of an element. *)
Definition add_predicates (mo : MO) (csp : pathFinder) (keys : gmap string string)
    : outcome error pathFinder :=
  if negb (bool_decide (keys = ∅)) then
    if IsTypeMap (pf_t csp) then
      e ← type_Elem (pf_t csp);
      match FindSchemaByType mo (Some e) with
      | Some schema =>
          let npath := key_predicates "" (Split (e_Key (ep_node schema)) " ") keys in
          if bool_decide (npath = "") then mret csp
          else mret (mkFinder (pf_t csp) (pf_path csp +:+ npath))
      | None => mret csp
      end
    else mret csp
  else mret csp.

Fixpoint findAllPaths (mo : MO) (fuel : nat) (sp : pathFinder) (elems : list PathElem)
    : outcome error (list pathFinder) :=
  match fuel with
  | O => Diverge
  | S fuel =>
      if kind_map (pf_t sp) then
        let '(csplist, ok) := getAllSchemaPaths sp in
        if ok : bool then append_all (λ csp, findAllPaths mo fuel csp elems) csplist else mret []
      else
        match elems with
        | [] => mret [sp]
        | elem :: celems =>
            if IsTypeScalar (pf_t sp) then mret []
            else if bool_decide (pe_Name elem = "*") then
              let '(csplist, ok) := getAllSchemaPaths sp in
              if ok : bool then append_all (λ csp, findAllPaths mo fuel csp celems) csplist else mret []
            else if bool_decide (pe_Name elem = "...") then
              let '(csplist, ok) := getAllSchemaPaths sp in
              if ok : bool then
                append_all (λ csp,
                  r ← findAllPaths mo fuel csp celems;
                  rs ← findAllPaths mo fuel csp elems;
                  mret (r ++ rs)) csplist
              else mret []
            else
              let '(csp, ok) := findSchemaPath sp (pe_Name elem) in
              if ok : bool then
                csp ← add_predicates mo csp (keys elem);
                findAllPaths mo fuel csp celems
              else mret []
        end
  end.

Definition FindAllPaths (m : SchemaModel) (path : option Path) : outcome error (list string * bool) :=
  match elems path with
  | [] => mret (["/"], true)
  | l =>
      t ← GetRootType (m_MO m);
      rsplist ← findAllPaths (m_MO m) (search_fuel t l) (mkFinder t "") l;
      if length rsplist =? 0 then mret ([], false) else mret (pf_path <$> rsplist, true)
  end.
End searches.

(** ** The type of every schema node *)
Fixpoint typeFind (pt : gotype) (key : string) : option gotype :=
  if bool_decide (key = "") then Some pt
  else
    match pt with
    | TInterface | TBasic _ => None
    | TPtr e | TMap e | TSlice e | TArray e => typeFind e key
    | TStruct _ fields => tagged_field fields key
    end.

(** [curSchema.Annotation["type"] = curType], for the node at a location. *)
Definition annotation : Type := list string * gotype.

(** The loop over [curSchema.Dir]: [f] is the recursive call on a child with
    its type, [err] the error for a child without one.  The result is the
    writes to the annotations so far, and the error that ended the walk. *)
Definition update_children (curType : gotype)
    (f : string → Entry → gotype → list annotation → list annotation * option error)
    (err : string → Entry → error) :
    list (string * Entry) → list annotation → list annotation * option error :=
  fix go dir ann :=
    match dir with
    | [] => (ann, None)
    | (name, schema) :: dir =>
        match typeFind curType name with
        | Some t =>
            match f name schema t ann with
            | (ann, Some err) => (ann, Some err)
            | (ann, None) => go dir ann
            end
        | None => (ann, Some (err name schema))
        end
    end.

Fixpoint updateType (e : Entry) (up : list (string * Entry)) (curType : gotype)
    (ann : list annotation) {struct e} : list annotation * option error :=
  match e with
  | mkEntry _ _ dir =>
      update_children curType
        (λ name schema t ann, updateType schema ((name, e) :: up) t ann)
        (λ name schema,
          Errorf_plain "type update to schema tree failed for %s"
            [AStr (SchemaToXPath (Some (mkPtr schema ((name, e) :: up))))])
        dir ((ptr_loc (mkPtr e up), curType) :: ann)
  end.

(** [mo.GetSchema()] is nil when the type of the root has no schema; the write
    to its annotation then panics. *)
Definition UpdateType (mo : MO) : outcome error (list annotation * option error) :=
  curSchema ← GetSchema mo;
  curType ← GetRootType mo;
  match curSchema with
  | None => Panic
  | Some p => mret (updateType (ep_node p) (ep_up p) curType [])
  end.

(** ** The Go types of the base types of YANG *)
Inductive TypeKind : Type :=
  | Ynone | Yint8 | Yint16 | Yint32 | Yint64 | Yuint8 | Yuint16 | Yuint32 | Yuint64
  | Ybinary | Ybits | Ybool | Ydecimal64 | Yempty | Yenum | Yidentityref
  | YinstanceIdentifier | Yleafref | Ystring | Yunion.

(** [yang.YangType]: the kind, and the member types of a union. *)
Inductive YangType : Type := mkYangType (yt_Kind : TypeKind) (yt_Type : list YangType).

(** A nil type is [None]. *)
Fixpoint baseType (yangtype : YangType) : list (option gotype) :=
  match yangtype with
  | mkYangType kind members =>
      match kind with
      | Ystring => [Some (TBasic "string")]
      | Ybool | Yempty => [Some (TBasic "bool")]
      | Yint8 => [Some (TBasic "int8")]
      | Yint16 => [Some (TBasic "int16")]
      | Yint32 => [Some (TBasic "int32")]
      | Yint64 => [Some (TBasic "int64")]
      | Yuint8 => [Some (TBasic "uint8")]
      | Yuint16 => [Some (TBasic "uint16")]
      | Yuint32 => [Some (TBasic "uint32")]
      | Yuint64 => [Some (TBasic "uint64")]
      | Ybinary => [Some (TSlice (TBasic "uint8"))]
      | Ybits => [Some (TBasic "int8")]
      | Ydecimal64 => [Some (TBasic "float64")]
      | YinstanceIdentifier | Yleafref => [Some (TBasic "string")]
      | Yenum | Yidentityref => [Some (TBasic "int64")]
      | Yunion => members ≫= baseType
      | Ynone => [None]
      end
  end.
