(* ===== verification/TypeSearchSpec.v ===== *)
(** * TypeSearchSpec: the theorems on the searches over types

    The three searches share one shape: [search], for any node type with its
    children and its named child.  [search_found] and [search_related] are
    proved for it once; the source's searches are instances. *)

From Stdlib Require Import Ascii ZArith Lia.
From S2P Require Export SchemaSpec TypeSearch.

(** ** The shared search *)
Section search.
Context {X : Type} (is_list scalar : X → bool) (all : X → list X * bool)
  (named : X → PathElem → outcome error (option X)) (size : X → nat).

(** The loop over the children of a node. *)
Definition visit {B} (f : X → outcome error (list B)) (x : X) : outcome error (list B) :=
  let '(cs, ok) := all x in if ok : bool then append_all f cs else mret [].

Fixpoint search (fuel : nat) (x : X) (elems : list PathElem) : outcome error (list X) :=
  match fuel with
  | O => Diverge
  | S fuel =>
      if is_list x then visit (λ c, search fuel c elems) x
      else
        match elems with
        | [] => mret [x]
        | elem :: rest =>
            if scalar x then mret []
            else if bool_decide (pe_Name elem = "*") then visit (λ c, search fuel c rest) x
            else if bool_decide (pe_Name elem = "...") then
              visit (λ c, r ← search fuel c rest; rs ← search fuel c elems; mret (r ++ rs)) x
            else
              o ← named x elem;
              match o with None => mret [] | Some c => search fuel c rest end
        end
  end.

(** [c] is one of the children the loops visit. *)
Definition child (x c : X) : Prop := (all x).2 = true ∧ c ∈ (all x).1.

(** What the search looks for: lists are entered without consuming a path
    element, "*" is any child, "..." any chain of children. *)
Inductive found : X → list PathElem → X → Prop :=
  | found_list x c l y : is_list x = true → child x c → found c l y → found x l y
  | found_here x : is_list x = false → found x [] x
  | found_any x e l c y :
      is_list x = false → scalar x = false → is_wild e = true → child x c → found c l y →
      found x (e :: l) y
  | found_deep x e l c y :
      is_list x = false → scalar x = false → pe_Name e = "..." → child x c → found c (e :: l) y →
      found x (e :: l) y
  | found_named x e l c y :
      is_list x = false → scalar x = false → is_wild e = false → named x e = Ok (Some c) →
      found c l y → found x (e :: l) y.

Hypothesis all_size : ∀ x c, child x c → size c < size x.
Hypothesis named_Ok : ∀ x e, is_Some (match named x e with Ok o => Some o | _ => None end).
Hypothesis named_size : ∀ x e c, named x e = Ok (Some c) → size c ≤ size x.

Lemma named_cases x e : named x e = Ok None ∨ ∃ c, named x e = Ok (Some c).
Proof. destruct (named_Ok x e) as [o Ho]. destruct (named x e) as [[c|]| | |]; eauto; done. Qed.

Lemma visit_Ok {B} (f : X → outcome error (list B)) x :
  (∀ c, child x c → ∃ r, f c = Ok r) →
  ∃ rs, visit f x = Ok rs ∧
        ∀ y, y ∈ rs ↔ ∃ c r, child x c ∧ f c = Ok r ∧ y ∈ r.
Proof.
  unfold child, visit. intros Hf. destruct (all x) as [cs [|]]; cbn [fst snd] in *.
  - destruct (append_all_Ok f cs) as (rs & Hrs & Hy); [eauto|]. exists rs. split; [done|]. naive_solver.
  - exists []. split; [done|]. set_solver.
Qed.

(** A result list of a child, and the nodes found from it. *)
Definition finds (r : outcome error (list X)) (x : X) (l : list PathElem) : Prop :=
  ∃ rs, r = Ok rs ∧ ∀ y, y ∈ rs ↔ found x l y.

Lemma visit_finds (f : X → outcome error (list X)) x l (P : X → Prop) :
  (∀ c, child x c → finds (f c) c l) →
  (∀ y, P y ↔ ∃ c, child x c ∧ found c l y) →
  ∃ rs, visit f x = Ok rs ∧
        ∀ y, y ∈ rs ↔ P y.
Proof.
  intros Hf HP. destruct (visit_Ok f x) as (rs & Hrs & Hy).
  { intros c Hc. destruct (Hf c Hc) as (r & ? & _). eauto. }
  exists rs. split; [done|]. intros y. rewrite Hy, HP. split.
  - intros (c & r & Hc & Hr & Hin). exists c. split; [done|].
    destruct (Hf c Hc) as (r' & Hr' & Hr''). rewrite Hr in Hr'. simplify_outcome. by apply Hr''.
  - intros (c & Hc & Hfound). destruct (Hf c Hc) as (r & Hr & Hr'). exists c, r. naive_solver.
Qed.

(** Enough fuel gives exactly the nodes looked for. *)
Lemma search_found fuel x l : size x + length l < fuel → finds (search fuel x l) x l.
Proof.
  revert x l. induction fuel as [|fuel IH]; intros x l Hfuel; [lia|]. cbn [search].
  destruct (is_list x) eqn:Hlist.
  { apply (visit_finds _ x l); [intros c Hc; apply IH; pose proof (all_size _ _ Hc); lia|].
    intros y. split; [|intros (c & ? & ?); by eapply found_list].
    intros Hf; inversion Hf; subst; eauto; congruence. }
  destruct l as [|e l].
  { exists [x]. split; [done|]. intros y. split; [intros ->%list_elem_of_singleton; by apply found_here|].
    intros Hf; inversion Hf; subst; [congruence|set_solver]. }
  cbn [length] in Hfuel. destruct (scalar x) eqn:Hsc.
  { exists []. split; [done|]. intros y. split; [set_solver|]. intros Hf; inversion Hf; congruence. }
  destruct (is_wild_cases e) as [[Hw He]|[[Hw He]|(Hw & Hs & Hd)]].
  - rewrite He, bool_decide_true by done.
    apply (visit_finds _ x l); [intros c Hc; apply IH; pose proof (all_size _ _ Hc); lia|].
    intros y. split; [|intros (c & ? & ?); by eapply found_any].
    intros Hf; inversion Hf; subst; eauto; congruence.
  - rewrite He, bool_decide_false, bool_decide_true by done.
    destruct (visit_Ok (λ c, r ← search fuel c l; rs ← search fuel c (e :: l); mret (r ++ rs)) x)
      as (rs & Hrs & Hy).
    { intros c Hc. pose proof (all_size _ _ Hc).
      destruct (IH c l) as (r & Hr & _); [lia|]. destruct (IH c (e :: l)) as (r' & Hr' & _); [cbn; lia|].
      exists (r ++ r'). by rewrite Hr, outcome_bind_ret, Hr'. }
    exists rs. split; [done|]. intros y. rewrite Hy. split.
    + intros (c & r & Hc & Hr & Hin). pose proof (all_size _ _ Hc).
      destruct (IH c l) as (r1 & Hr1 & Hf1); [lia|]. destruct (IH c (e :: l)) as (r2 & Hr2 & Hf2); [cbn; lia|].
      rewrite Hr1, outcome_bind_ret, Hr2 in Hr. cbn in Hr. simplify_outcome.
      apply elem_of_app in Hin as [Hin|Hin]; [eapply found_any|eapply found_deep]; eauto; by apply Hf1 || apply Hf2.
    + intros Hf.
      assert (∃ c, child x c ∧ (found c l y ∨ found c (e :: l) y)) as (c & Hc & Hor)
        by (inversion Hf; subst; eauto; congruence).
      pose proof (all_size _ _ Hc).
      destruct (IH c l) as (r1 & Hr1 & Hf1); [lia|]. destruct (IH c (e :: l)) as (r2 & Hr2 & Hf2); [cbn; lia|].
      exists c, (r1 ++ r2). split; [done|]. rewrite Hr1, outcome_bind_ret, Hr2. split; [done|].
      rewrite elem_of_app, Hf1, Hf2. naive_solver.
  - rewrite !bool_decide_false by done.
    destruct (named_cases x e) as [Hn|[c Hn]]; rewrite Hn, outcome_bind_ret.
    + exists []. split; [done|]. intros y. split; [set_solver|]. intros Hf; inversion Hf; congruence.
    + pose proof (named_size _ _ _ Hn). destruct (IH c l) as (r & Hr & Hf); [lia|].
      exists r. split; [done|]. intros y. rewrite Hf. split.
      * intros ?. by eapply found_named.
      * intros Hf'; inversion Hf'; subst; congruence.
Qed.
End search.

(** Two searches over related nodes give related results, in the same order. *)
Section related.
Context {X Y : Type} (R : X → Y → Prop) (P : PathElem → Prop)
  (is_list scalar : X → bool) (all : X → list X * bool)
  (named : X → PathElem → outcome error (option X)) (size : X → nat)
  (is_list' scalar' : Y → bool) (all' : Y → list Y * bool)
  (named' : Y → PathElem → outcome error (option Y)).
Hypothesis R_list : ∀ x y, R x y → is_list x = is_list' y.
Hypothesis R_scalar : ∀ x y, R x y → scalar x = scalar' y.
Hypothesis R_all : ∀ x y, R x y → (all x).2 = (all' y).2 ∧ Forall2 R (all x).1 (all' y).1.
Hypothesis R_named : ∀ x y e, P e → R x y → ok_related (option_Forall2 R) (named x e) (named' y e).
Hypothesis all_size : ∀ x c, child all x c → size c < size x.
Hypothesis named_size : ∀ x e c, named x e = Ok (Some c) → size c ≤ size x.

Lemma visit_related {B B'} (Q : B → B' → Prop) (f : X → outcome error (list B)) (g : Y → outcome error (list B')) x y :
  R x y → (∀ c d, child all x c → R c d → ok_related (Forall2 Q) (f c) (g d)) →
  ok_related (Forall2 Q) (visit all f x) (visit all' g y).
Proof.
  intros Hxy Hf. destruct (R_all x y Hxy) as [Hok Hcs]. unfold visit, child in *.
  destruct (all x) as [cs ok], (all' y) as [ds ok']. cbn [fst snd] in *. subst ok'.
  destruct ok; [|by exists [], []]. apply (append_all_related R); [done|]. intros c d Hc. apply Hf. done.
Qed.

Lemma search_related fuel x y l :
  size x + length l < fuel → Forall P l → R x y →
  ok_related (Forall2 R) (search is_list scalar all named fuel x l)
    (search is_list' scalar' all' named' fuel y l).
Proof.
  revert x y l. induction fuel as [|fuel IH]; intros x y l Hfuel HP Hxy; [lia|]. cbn [search].
  rewrite <-(R_list x y Hxy), <-(R_scalar x y Hxy).
  assert (∀ l', length l' ≤ length l → Forall P l' → ∀ c d, child all x c → R c d →
    ok_related (Forall2 R) (search is_list scalar all named fuel c l')
      (search is_list' scalar' all' named' fuel d l')) as Hchild.
  { intros l' Hlen HP' c d Hc Hcd. apply IH; [pose proof (all_size _ _ Hc); lia|done|done]. }
  destruct (is_list x); [by apply visit_related; [|apply Hchild]|].
  destruct HP as [|e l He HP]; [exists [x], [y]; repeat constructor; done|].
  destruct (scalar x); [by exists [], []|]. cbn [length] in Hfuel.
  case_bool_decide; [apply visit_related; [done|apply Hchild; [cbn; lia|done]]|].
  case_bool_decide.
  - apply visit_related; [done|]. intros c d Hc Hcd.
    destruct (Hchild l) with c d as (r1 & r1' & -> & -> & ?); [cbn; lia|done..|].
    destruct (Hchild (e :: l)) with c d as (r2 & r2' & -> & -> & ?); [lia|by constructor|done..|].
    exists (r1 ++ r2), (r1' ++ r2'). repeat split. by apply Forall2_app.
  - destruct (R_named x y e He Hxy) as (o & o' & Ho & -> & Hoo). rewrite Ho, !outcome_bind_ret.
    destruct Hoo as [c d Hcd|]; [|by exists [], []].
    apply IH; [pose proof (named_size _ _ _ Ho); lia|done|done].
Qed.
End related.

(** ** The source's searches as instances *)
Section instances.
Context `{YdbTypes}.

Definition named_type (t : gotype) (e : PathElem) : outcome error (option gotype) :=
  let '(ct, ok) := TypeFind t (pe_Name e) in mret (if ok : bool then Some ct else None).

Definition named_path (sp : pathFinder) (e : PathElem) : outcome error (option pathFinder) :=
  let '(csp, ok) := findSchemaPath sp (pe_Name e) in mret (if ok : bool then Some csp else None).

Definition named_data (mo : MO) (sp : pathFinder) (e : PathElem) : outcome error (option pathFinder) :=
  let '(csp, ok) := findSchemaPath sp (pe_Name e) in
  if ok : bool then Some <$> add_predicates mo csp (keys e) else mret None.

Definition pf_list (sp : pathFinder) : bool := kind_map (pf_t sp).
Definition pf_scalar (sp : pathFinder) : bool := IsTypeScalar (pf_t sp).
Definition pf_size (sp : pathFinder) : nat := type_size (pf_t sp).

Lemma findAllSchemaTypes_search fuel t l :
  findAllSchemaTypes fuel t l = search kind_map IsTypeScalar TypeGetAll named_type fuel t l.
Proof.
  revert t l. induction fuel as [|fuel IH]; intros t l; [done|].
  cbn [findAllSchemaTypes search]. unfold visit, named_type.
  destruct (TypeGetAll t) as [cs ok], (kind_map t); [destruct ok; [by apply append_all_ext|done]|].
  destruct l as [|e l]; [done|]. destruct (IsTypeScalar t); [done|].
  case_bool_decide; [destruct ok; [by apply append_all_ext|done]|].
  case_bool_decide; [destruct ok; [apply append_all_ext; intros; by rewrite !IH|done]|].
  destruct (TypeFind t (pe_Name e)) as [ct [|]]; [apply IH|done].
Qed.

Lemma findAllSchemaPaths_search fuel sp l :
  findAllSchemaPaths fuel sp l = search pf_list pf_scalar getAllSchemaPaths named_path fuel sp l.
Proof.
  revert sp l. induction fuel as [|fuel IH]; intros sp l; [done|].
  cbn [findAllSchemaPaths search]. unfold visit, named_path, pf_list, pf_scalar.
  destruct (getAllSchemaPaths sp) as [cs ok], (kind_map _); [destruct ok; [by apply append_all_ext|done]|].
  destruct l as [|e l]; [done|]. destruct (IsTypeScalar _); [done|].
  case_bool_decide; [destruct ok; [by apply append_all_ext|done]|].
  case_bool_decide; [destruct ok; [apply append_all_ext; intros; by rewrite !IH|done]|].
  destruct (findSchemaPath sp (pe_Name e)) as [ct [|]]; [apply IH|done].
Qed.

Lemma findAllPaths_search mo fuel sp l :
  findAllPaths mo fuel sp l = search pf_list pf_scalar getAllSchemaPaths (named_data mo) fuel sp l.
Proof.
  revert sp l. induction fuel as [|fuel IH]; intros sp l; [done|].
  cbn [findAllPaths search]. unfold visit, named_data, pf_list, pf_scalar.
  destruct (getAllSchemaPaths sp) as [cs ok], (kind_map _); [destruct ok; [by apply append_all_ext|done]|].
  destruct l as [|e l]; [done|]. destruct (IsTypeScalar _); [done|].
  case_bool_decide; [destruct ok; [by apply append_all_ext|done]|].
  case_bool_decide; [destruct ok; [apply append_all_ext; intros; by rewrite !IH|done]|].
  destruct (findSchemaPath sp (pe_Name e)) as [ct [|]]; [|done].
  destruct (add_predicates mo ct (keys e)) as [c| | |]; [apply IH|done..].
Qed.

(** *** Sizes *)
Lemma field_size (fields : list (string * option string * gotype)) f :
  f ∈ fields → type_size f.2 ≤ sum_list_with (λ f, type_size f.2) fields.
Proof. induction 1 as [|f g fields _ IH]; cbn; lia. Qed.

Lemma tagged_field_size fields n t :
  tagged_field fields n = Some t → type_size t ≤ sum_list_with (λ f, type_size f.2) fields.
Proof.
  unfold tagged_field. destruct (List.find _ fields) as [f|] eqn:Hf; [|done]. intros [= <-].
  apply List.find_some in Hf as [Hf _]. apply field_size. by apply list_elem_of_In.
Qed.

Lemma getAllSchemaPaths_size sp c : child getAllSchemaPaths sp c → pf_size c < pf_size sp.
Proof.
  destruct sp as [t path]. unfold child, getAllSchemaPaths, pf_size. cbn [pf_t pf_path].
  induction t as [t IH| |name fields|t|t|t|name]; cbn [getAllSchemaPaths_go fst snd type_size].
  { intros Hc. specialize (IH Hc). lia. }
  all: intros [_ Hin]; try set_solver.
  { apply list_elem_of_bind in Hin as ([[n tag] st] & Hin & Hf).
    destruct (IsStartedWithUpper n), tag; try set_solver.
    apply list_elem_of_singleton in Hin as ->. pose proof (field_size _ _ Hf). cbn in *. lia. }
  all: apply list_elem_of_singleton in Hin as ->; cbn; lia.
Qed.

Lemma findSchemaPath_size sp n : pf_size (findSchemaPath sp n).1 ≤ pf_size sp.
Proof.
  destruct sp as [t path]. unfold findSchemaPath, pf_size. cbn [pf_t pf_path].
  induction t as [t IH| |name fields|t|t|t|name]; cbn [findSchemaPath_go]; case_bool_decide;
    cbn [fst pf_t type_size]; try lia.
  destruct (tagged_field fields n) as [ft|] eqn:Hf; cbn [fst pf_t type_size]; [|lia].
  apply tagged_field_size in Hf. lia.
Qed.

Lemma add_predicates_type mo csp m c : add_predicates mo csp m = Ok c → pf_t c = pf_t csp.
Proof.
  unfold add_predicates. repeat case_match; intros; simplify_outcome; try done.
  match goal with H : _ = Ok c |- _ => revert H end. repeat case_match; intros; by simplify_outcome.
Qed.

Lemma named_path_size sp e c : named_path sp e = Ok (Some c) → pf_size c ≤ pf_size sp.
Proof.
  unfold named_path. pose proof (findSchemaPath_size sp (pe_Name e)) as Hs.
  destruct (findSchemaPath sp (pe_Name e)) as [csp []]; intros [= ->]. done.
Qed.

Lemma named_data_size mo sp e c : named_data mo sp e = Ok (Some c) → pf_size c ≤ pf_size sp.
Proof.
  unfold named_data. pose proof (findSchemaPath_size sp (pe_Name e)) as Hs.
  destruct (findSchemaPath sp (pe_Name e)) as [csp []]; [|done].
  destruct (add_predicates mo csp (keys e)) as [c'| | |] eqn:Hp; try done. intros [= ->].
  apply add_predicates_type in Hp. unfold pf_size in *. cbn in Hs. by rewrite Hp.
Qed.

Lemma named_path_Ok sp e : is_Some (match named_path sp e with Ok o => Some o | _ => None end).
Proof. unfold named_path. destruct (findSchemaPath sp (pe_Name e)) as [csp []]; eauto. Qed.
End instances.

(** ** Data paths: complete keys lead to one path *)
Section data_paths.
Context `{GoRange, YdbTypes}.

(** The type under a list of types, and a struct field by its path tag. *)
Fixpoint list_elem (t : gotype) : gotype := match t with TMap e => list_elem e | _ => t end.

Fixpoint field_type (t : gotype) (name : string) : option gotype :=
  match t with
  | TPtr e => field_type e name
  | TStruct _ fields => tagged_field fields name
  | _ => None
  end.

Lemma findSchemaPath_field t path n ct :
  n ≠ "" → field_type t n = Some ct →
  findSchemaPath (mkFinder t path) n = (mkFinder ct (path +:+ "/" +:+ n), true).
Proof.
  intros Hn. unfold findSchemaPath. cbn [pf_t pf_path].
  induction t as [t IH| |name fields|t|t|t|name]; cbn [field_type findSchemaPath_go]; try done;
    rewrite bool_decide_false by done; [done|]. by intros ->.
Qed.

(** A data path of the schema whose nodes have the types of the data tree: a
    list with keys is a map whose element type has a schema with the same keys. *)
Fixpoint typed_path (mo : MO) (entry : Entry) (t : gotype) (l : list PathElem) : Prop :=
  match l with
  | [] => True
  | x :: l =>
      IsTypeScalar (list_elem t) = false ∧
      ∃ c ct, Dir entry (pe_Name x) = Some c ∧ field_type (list_elem t) (pe_Name x) = Some ct ∧
        keys_complete c x ∧
        (keys x ≠ ∅ → IsTypeMap ct = true ∧ ∃ e q, ct = TMap e ∧
           FindSchemaByType mo (Some e) = Some q ∧ e_Key (ep_node q) = e_Key c) ∧
        typed_path mo c ct l
  end.

Lemma typed_path_data mo entry t l : typed_path mo entry t l → data_path entry l.
Proof.
  revert entry t. induction l as [|x l IH]; intros entry t; [done|].
  intros (_ & c & ct & ? & ? & ? & ? & ?). exists c. eauto.
Qed.

Lemma key_predicates_complete npath knames m :
  (∀ k, k ∈ knames → ∃ v, m !! k = Some v ∧ v ≠ "*") →
  key_predicates npath knames m = npath +:+ kvs_text ((λ k, (k, default "" (m !! k))) <$> knames).
Proof.
  revert npath. induction knames as [|k knames IH]; intros npath Hk; [by rewrite app_nil_r|].
  cbn. destruct (Hk k) as (v & Hv & _); [set_solver|]. rewrite Hv.
  rewrite IH by (intros; apply Hk; set_solver). unfold kv_text. by rewrite !app_assoc.
Qed.

(** The predicates [findAllPaths] adds to a list are those of [findPaths]. *)
Lemma add_predicates_name mo c x ct prefix :
  keys_complete c x →
  (keys x ≠ ∅ → IsTypeMap ct = true ∧ ∃ e q, ct = TMap e ∧
     FindSchemaByType mo (Some e) = Some q ∧ e_Key (ep_node q) = e_Key c) →
  add_predicates mo (mkFinder ct (prefix +:+ "/" +:+ pe_Name x)) (keys x) =
  Ok (mkFinder ct (prefix +:+ "/" +:+ path_name c x)).
Proof.
  intros Hc Hmap. unfold add_predicates, path_name.
  destruct (decide (keys x = ∅)) as [He|Hne].
  - rewrite (bool_decide_true (keys x = ∅)) by done. cbn [negb]. unfold keys in He.
    destruct (pe_Key x) as [m|]; [|done]. cbn in He. subst m. by destruct (Split (e_Key c) " ").
  - rewrite bool_decide_false by done. cbn [negb pf_t pf_path].
    destruct Hmap as (-> & e & q & -> & Hq & Hkey); [done|]. cbn [type_Elem mret outcome_ret mbind outcome_bind].
    rewrite Hq, Hkey.
    destruct Hc as [|[Hdom Hstar]]; [done|]. unfold keys in *.
    destruct (pe_Key x) as [m|]; [|done]. cbn [default from_option id] in *.
    assert (∀ k, k ∈ Split (e_Key c) " " → ∃ v, m !! k = Some v ∧ v ≠ "*") as Hk.
    { intros k Hk. assert (is_Some (m !! k)) as [v Hv]
        by (rewrite <-elem_of_dom, Hdom; set_solver). exists v. split; [done|]. by eapply Hstar. }
    rewrite key_predicates_complete, path_keys_complete by done. rewrite app_nil_l.
    rewrite bool_decide_false; [by rewrite !app_assoc|].
    pose proof (map_choose m Hne) as (k & v & Hkv). apply elem_of_dom_2 in Hkv. rewrite Hdom in Hkv.
    destruct (Split (e_Key c) " "); [set_solver|done].
Qed.

(** Lists of lists are entered in turn. *)
Lemma findAllPaths_list mo fuel t prefix l :
  type_size t < fuel →
  ∃ fuel', fuel' + type_size t = fuel + type_size (list_elem t) ∧
    findAllPaths mo fuel (mkFinder t prefix) l = findAllPaths mo fuel' (mkFinder (list_elem t) prefix) l.
Proof.
  revert fuel. induction t as [t IH| |name fields|t IH|t IH|t IH|name]; intros fuel Hfuel; eauto.
  destruct fuel as [|fuel]; [lia|]. cbn [type_size list_elem] in *.
  destruct (IH fuel) as (fuel' & Hf & Heq); [lia|]. exists fuel'. split; [lia|].
  cbn [findAllPaths pf_t kind_map]. unfold getAllSchemaPaths. cbn [pf_t pf_path getAllSchemaPaths_go].
  by rewrite append_all_one.
Qed.

Lemma list_elem_not_list t : kind_map (list_elem t) = false.
Proof. by induction t. Qed.

Lemma list_elem_size t : type_size (list_elem t) ≤ type_size t.
Proof. induction t; cbn; lia. Qed.

Lemma field_type_size t n ct : field_type t n = Some ct → type_size ct < type_size t.
Proof.
  induction t as [t IH| |name fields|t|t|t|name]; cbn; intros Hf; try done.
  - specialize (IH Hf). lia.
  - apply tagged_field_size in Hf. lia.
Qed.

Lemma findAllPaths_data mo fuel prefix entry t l :
  Forall id_elem l → typed_path mo entry t l → type_size t + length l < fuel →
  ∃ ct ts, findAllPaths mo fuel (mkFinder t prefix) l = Ok [mkFinder ct (names_text prefix ts)] ∧
           findPaths prefix entry l = [names_text prefix ts].
Proof.
  intros Hid. revert fuel prefix entry t.
  induction Hid as [|x l Hx Hid IH]; intros fuel prefix entry t Ht Hfuel.
  { exists (list_elem t), []. rewrite names_text_nil. split; [|by destruct entry].
    destruct (findAllPaths_list mo fuel t prefix []) as (fuel' & Hf & ->); [lia|].
    pose proof (list_elem_size t). destruct fuel' as [|fuel']; [lia|].
    cbn [findAllPaths pf_t]. by rewrite list_elem_not_list. }
  destruct Ht as (Hsc & c & ct & Hc & Hct & Hk & Hmap & Ht). destruct (id_not_wild _ (proj1 Hx)) as [Hs Hd].
  cbn [length] in Hfuel. pose proof (list_elem_size t). pose proof (field_type_size _ _ _ Hct).
  destruct (findAllPaths_list mo fuel t prefix (x :: l)) as (fuel' & Hf & ->); [lia|].
  destruct fuel' as [|fuel']; [lia|].
  destruct (IH fuel' (prefix +:+ "/" +:+ path_name c x) c ct) as (ct' & ts & Hall & Hts); [done|lia|].
  exists ct', (path_name c x :: ts). rewrite names_text_cons. split.
  - cbn [findAllPaths pf_t]. rewrite list_elem_not_list, Hsc, !bool_decide_false by done.
    rewrite (findSchemaPath_field _ _ _ ct) by (done || apply idRe_nonempty, Hx).
    by rewrite (add_predicates_name mo c), outcome_bind_ret.
  - destruct entry as [n k dir]. unfold Dir in Hc. cbn [e_Dir] in Hc. cbn [findPaths].
    assert (dir ≠ []) as Hne by by intros ->. destruct dir as [|nc dir]; [done|].
    rewrite !bool_decide_false by done. rewrite on_child_fmap, Hc.
    cbn [fmap option_fmap option_map default from_option id].
    rewrite keys_complete_known by done. by rewrite Join_cons, Join_one.
Qed.
End data_paths.

(** ** Schema paths with predicates *)

(** The second text is a schema path; the first is the same path with
    predicates after some of its names. *)
Inductive with_predicates : string → string → Prop :=
  | wp_nil : with_predicates "" ""
  | wp_name s s' n : with_predicates s s' → with_predicates (s +:+ "/" +:+ n) (s' +:+ "/" +:+ n)
  | wp_keys s s' l : with_predicates s s' → with_predicates (s +:+ kvs_text l) s'.

(** The node of [findAllPaths] and that of [findAllSchemaPaths]. *)
Definition same_node (x y : pathFinder) : Prop :=
  pf_t x = pf_t y ∧ with_predicates (pf_path x) (pf_path y).

Section predicates.
Context `{YdbTypes}.

Lemma same_node_children x y :
  same_node x y →
  (getAllSchemaPaths x).2 = (getAllSchemaPaths y).2 ∧
  Forall2 same_node (getAllSchemaPaths x).1 (getAllSchemaPaths y).1.
Proof.
  destruct x as [t p], y as [t' q]. intros [Ht Hp]. cbn [pf_t pf_path] in *. subst t'.
  unfold getAllSchemaPaths. cbn [pf_t pf_path].
  induction t as [t IH| |name fields|t|t|t|name]; cbn [getAllSchemaPaths_go fst snd]; try by auto.
  - assert (Forall2 same_node (struct_paths p fields) (struct_paths q fields)) as Hall.
    { unfold struct_paths. induction fields as [|[[n tag] st] fields IH]; [done|]. cbn.
      apply Forall2_app; [|done]. destruct (IsStartedWithUpper n), tag; repeat constructor; done. }
    split; [|done]. by rewrite (Forall2_length _ _ _ Hall).
  - by repeat constructor.
  - by repeat constructor.
Qed.

Lemma findSchemaPath_same x y n :
  same_node x y →
  (findSchemaPath x n).2 = (findSchemaPath y n).2 ∧ same_node (findSchemaPath x n).1 (findSchemaPath y n).1.
Proof.
  destruct x as [t p], y as [t' q]. intros [Ht Hp]. cbn [pf_t pf_path] in *. subst t'.
  unfold findSchemaPath. cbn [pf_t pf_path].
  induction t as [t IH| |name fields|t|t|t|name]; cbn [findSchemaPath_go]; case_bool_decide; try done.
  destruct (tagged_field fields n); [|done]. split; [done|]. split; [done|]. by constructor.
Qed.

Lemma key_predicates_text npath knames m :
  key_predicates npath knames m = "" ∨ ∃ l, key_predicates npath knames m = npath +:+ kvs_text l.
Proof.
  revert npath. induction knames as [|k knames IH]; intros npath; [right; exists []; by rewrite app_nil_r|].
  cbn. destruct (m !! k) as [v|]; [|by left].
  destruct (IH (npath +:+ "[" +:+ k +:+ "=" +:+ v +:+ "]")) as [Hl|[l Hl]]; [by left|right].
  exists ((k, v) :: l). rewrite Hl. cbn [kvs_text fmap list_fmap foldr]. unfold kv_text.
  by rewrite ?app_assoc.
Qed.

(** [IsTypeMap] holds of maps only, so the element type exists. *)
Lemma add_predicates_same mo x y m :
  (∀ t, IsTypeMap t = true → kind_map t = true) → same_node x y →
  ∃ c, add_predicates mo x m = Ok c ∧ same_node c y.
Proof.
  intros Hmap Hxy. pose proof Hxy as [Ht Hp]. unfold add_predicates.
  case_bool_decide; [by exists x|]. cbn [negb].
  destruct (IsTypeMap (pf_t x)) eqn:Hm; [|by exists x]. apply Hmap in Hm.
  destruct (pf_t x) as [| | |e| | |] eqn:Hx; try done. cbn [type_Elem mret outcome_ret mbind outcome_bind].
  destruct (FindSchemaByType mo (Some e)) as [q|]; [|by exists x].
  destruct (key_predicates_text "" (Split (e_Key (ep_node q)) " ") m) as [->|[l ->]]; [by exists x|].
  rewrite app_nil_l. case_bool_decide as Hl; [by exists x|].
  eexists. split; [done|]. split; [done|]. by constructor.
Qed.

Lemma named_data_same mo x y e :
  (∀ t, IsTypeMap t = true → kind_map t = true) → same_node x y →
  ok_related (option_Forall2 same_node) (named_data mo x e) (named_path y e).
Proof.
  intros Hmap Hxy. unfold named_data, named_path.
  destruct (findSchemaPath_same x y (pe_Name e) Hxy) as [Hok Hc].
  destruct (findSchemaPath x (pe_Name e)) as [c ok], (findSchemaPath y (pe_Name e)) as [d ok'].
  cbn [fst snd] in *. subst ok'. destruct ok; [|by exists None, None; split; [done|]; split; [done|]; apply None_Forall2].
  destruct (add_predicates_same mo c d (keys e) Hmap Hc) as (c' & -> & ?).
  exists (Some c'), (Some d). split; [done|]. split; [done|]. by apply Some_Forall2.
Qed.
End predicates.

(** ** The types [ydb] finds *)

(** [TypeGetAll] and [TypeFind] of [ydb] give the types that
    [getAllSchemaPaths] and [findSchemaPath] give with their paths. *)
Definition ydb_agrees `{YdbTypes} : Prop :=
  (∀ sp, TypeGetAll (pf_t sp) = (pf_t <$> (getAllSchemaPaths sp).1, (getAllSchemaPaths sp).2)) ∧
  (∀ sp n, (TypeFind (pf_t sp) n).2 = (findSchemaPath sp n).2 ∧
           ((findSchemaPath sp n).2 = true → (TypeFind (pf_t sp) n).1 = pf_t (findSchemaPath sp n).1)).

(** ** The types of the schema nodes *)

(** A node below an entry, by the names that lead to it. *)
Inductive below : Entry → list string → Entry → Prop :=
  | below_here e : below e [] e
  | below_child e n c names d : (n, c) ∈ e_Dir e → below c names d → below e (n :: names) d.

(** The type [typeFind] reaches along names. *)
Fixpoint type_at (t : gotype) (names : list string) : option gotype :=
  match names with
  | [] => Some t
  | n :: names => t ← typeFind t n; type_at t names
  end.

(** Every write beyond the old ones is for a node below, with its type. *)
Definition explained (base : list string) (e : Entry) (t : gotype) (old new : list annotation) : Prop :=
  ∀ a, a ∈ new → a ∈ old ∨ ∃ names c, below e names c ∧ a.1 = base ++ names ∧ type_at t names = Some a.2.

(** What [updateType] did below a node: it wrote types found along names; it
    failed at a node that has no type, or wrote the type of every node. *)
Definition annotates (base : list string) (e : Entry) (t : gotype) (old : list annotation)
    (r : list annotation * option error) : Prop :=
  explained base e t old r.1 ∧
  (∀ a, a ∈ old → a ∈ r.1) ∧
  match r.2 with
  | None => ∀ names c, below e names c → ∃ t', type_at t names = Some t' ∧ (base ++ names, t') ∈ r.1
  | Some _ => ∃ names c, below e names c ∧ type_at t names = None
  end.

Lemma ptr_loc_child n e c up : ptr_loc (mkPtr c ((n, e) :: up)) = ptr_loc (mkPtr e up) ++ [n].
Proof. unfold ptr_loc. cbn [ep_up]. by rewrite fmap_cons, reverse_cons. Qed.

(** The loop over the children, for children whose walks annotate. *)
Lemma update_children_annotates base e t (old : list annotation) f err dir (ann : list annotation) :
  (∀ n c ct ann, (n, c) ∈ dir → annotates (base ++ [n]) c ct ann (f n c ct ann)) →
  (∀ nc, nc ∈ dir → nc ∈ e_Dir e) →
  explained base e t old ann →
  let r := update_children t f err dir ann in
  explained base e t old r.1 ∧
  (∀ a, a ∈ ann → a ∈ r.1) ∧
  match r.2 with
  | None => ∀ n c names d, (n, c) ∈ dir → below c names d →
              ∃ t', type_at t (n :: names) = Some t' ∧ (base ++ n :: names, t') ∈ r.1
  | Some _ => ∃ names c, below e names c ∧ type_at t names = None
  end.
Proof.
  revert ann. induction dir as [|[n c] dir IH]; intros ann Hf Hdir Hann; cbn [update_children].
  { split; [done|]. split; [done|]. set_solver. }
  assert ((n, c) ∈ e_Dir e) as Hin by (apply Hdir; set_solver).
  destruct (typeFind t n) as [ct|] eqn:Hct.
  2: { split; [done|]. split; [done|]. exists [n], c. split; [by repeat econstructor|]. cbn. by rewrite Hct. }
  destruct (Hf n c ct ann) as (Hnew & Hold & Hres); [set_solver|].
  assert (explained base e t old (f n c ct ann).1) as Hann'.
  { intros a [Ha|(names & d & Hb & Ha & Ht)]%Hnew; [by apply Hann|right].
    exists (n :: names), d. split; [by econstructor|]. cbn. by rewrite Hct, Ha, <-(assoc_L (++)). }
  destruct (f n c ct ann) as [ann' [er|]]; cbn [fst snd] in *.
  - split; [done|]. split; [done|]. destruct Hres as (names & d & Hb & Ht).
    exists (n :: names), d. split; [by econstructor|]. cbn. by rewrite Hct.
  - destruct (IH ann') as (Hnew' & Hold' & Hres'); [intros; apply Hf; set_solver|set_solver|done|].
    split; [done|]. split; [by intros a Ha%Hold%Hold'|].
    destruct (update_children t f err dir ann') as [ann'' [er|]]; cbn [fst snd] in *; [done|].
    intros m d names d' [[= -> ->]|Hm]%elem_of_cons Hb; [|by eapply Hres'].
    destruct (Hres names d' Hb) as (t' & Ht' & Ha). exists t'. cbn. rewrite Hct. split; [done|].
    apply Hold'. by rewrite <-(assoc_L (++)) in Ha.
Qed.

Lemma updateType_annotates e up t old :
  annotates (ptr_loc (mkPtr e up)) e t old (updateType e up t old).
Proof.
  revert up t old. induction e as [n k dir IH] using Entry_induction. rewrite Forall_forall in IH.
  intros up t old. cbn [updateType]. set (e := mkEntry n k dir). set (base := ptr_loc (mkPtr e up)).
  set (f := λ name schema ct ann, updateType schema ((name, e) :: up) ct ann). set (err := λ name schema, _ : error).
  destruct (update_children_annotates base e t old f err dir ((base, t) :: old)) as (Hnew & Hold & Hres).
  - intros m c ct ann Hm. unfold base. rewrite <-(ptr_loc_child m e c). apply (IH _ Hm).
  - done.
  - intros a [->|?]%elem_of_cons; [right|by left]. exists [], e. split; [constructor|].
    by rewrite (right_id_L [] (++)).
  - unfold annotates. destruct (update_children t f err dir _) as [ann [er|]]; cbn [fst snd] in *.
    + split; [done|]. split; [set_solver|done].
    + split; [done|]. split; [set_solver|]. intros names c Hb. inversion Hb; subst.
      * exists t. split; [done|]. rewrite (right_id_L [] (++)). apply Hold. set_solver.
      * by eapply Hres.
Qed.

(** ** Theorems *)

(** A device with a list of interfaces, keyed by name. *)
Definition example_interface : gotype :=
  TPtr (TStruct "Interface" [("Name", Some "name", TPtr (TBasic "string")); ("Mtu", Some "mtu", TPtr (TBasic "uint16"))]).

Definition example_device : gotype :=
  TStruct "Device" [("Interfaces", Some "interfaces",
    TPtr (TStruct "Interfaces" [("Interface", Some "interface", TMap example_interface)]))].

Definition example_list_entry : Entry :=
  mkEntry "interface" "name" [("name", mkEntry "name" "" []); ("mtu", mkEntry "mtu" "" [])].

Definition example_device_entry : Entry :=
  mkEntry "device" "" [("interfaces", mkEntry "interfaces" "" [("interface", example_list_entry)])].

Definition example_mo : MO :=
  mkMO {["Device" := mkPtr example_device_entry []; "Interface" := mkPtr example_list_entry []]}
    (Some (TPtr example_device)).

(** The predicates of [ydb] for the evaluations. *)
Definition basic_type (t : gotype) : bool :=
  match t with TBasic _ | TPtr (TBasic _) => true | _ => false end.

Definition example_ydb_predicates : YdbTypes := {|
  IsTypeScalar := basic_type;
  IsTypeMap := kind_map;
  IsStartedWithUpper := λ s, match s with String c _ => ((65 <=? nat_of_ascii c) && (nat_of_ascii c <=? 90))%nat | _ => false end;
  TypeGetAll := λ t, ([], false);
  TypeFind := λ t n, (t, false)
|}.

Definition example_ydb : YdbTypes := {|
  IsTypeScalar := basic_type;
  IsTypeMap := kind_map;
  IsStartedWithUpper := @IsStartedWithUpper example_ydb_predicates;
  TypeGetAll := λ t,
    let r := @getAllSchemaPaths example_ydb_predicates (mkFinder t "") in (pf_t <$> r.1, r.2);
  TypeFind := λ t n, let r := findSchemaPath (mkFinder t "") n in (pf_t r.1, r.2)
|}.

Lemma getAllSchemaPaths_types t p q :
  (pf_t <$> (@getAllSchemaPaths_go example_ydb_predicates t p).1,
   (@getAllSchemaPaths_go example_ydb_predicates t p).2) =
  (pf_t <$> (@getAllSchemaPaths_go example_ydb t q).1, (@getAllSchemaPaths_go example_ydb t q).2).
Proof.
  induction t as [t IH| |name fields|t|t|t|name]; cbn [getAllSchemaPaths_go fst snd]; try done.
  assert (pf_t <$> @struct_paths example_ydb_predicates p fields = pf_t <$> @struct_paths example_ydb q fields) as Hf.
  { unfold struct_paths. induction fields as [|[[n tag] st] fields IH]; [done|].
    rewrite !bind_cons, !fmap_app, IH. f_equal. cbn. by repeat case_match. }
  rewrite Hf. f_equal. by rewrite <-(length_fmap pf_t), Hf, length_fmap.
Qed.

Lemma example_ydb_agrees : @ydb_agrees example_ydb.
Proof.
  split; [intros [t p]; apply getAllSchemaPaths_types|].
  intros [t p] n. cbn [TypeFind example_ydb fst snd pf_t]. unfold findSchemaPath. cbn [pf_t pf_path].
  induction t as [t IH| |name fields|t|t|t|name]; cbn [findSchemaPath_go]; case_bool_decide; try done.
  by destruct (tagged_field fields n).
Qed.

Definition mtu_path (name : string) : Path :=
  mkPath "" None (Some [mkElem "interfaces" None; mkElem "interface" (Some {["name" := name]}); mkElem "mtu" None]) "".

(** The search for schema paths returns for every type and path, without a
    panic, and is sound and complete: for a non-empty path its results are the
    paths of exactly the nodes the path matches, where a list is entered
    without consuming an element, "*" stands for one child and "..." for any
    chain of children; the flag says whether there is a result. *)
Theorem FindAllSchemaPaths_found `{YdbTypes} (t : gotype) (p : option Path) :
  match elems p with
  | [] => FindAllSchemaPaths (Some t) p = Ok (["/"], true)
  | l => ∃ ps ok, FindAllSchemaPaths (Some t) p = Ok (ps, ok) ∧ (ok = true ↔ ps ≠ []) ∧
      ∀ s, s ∈ ps ↔ ∃ t', found pf_list pf_scalar getAllSchemaPaths named_path
                            (mkFinder t "") l (mkFinder t' s)
  end.
Proof.
  unfold FindAllSchemaPaths. destruct (elems p) as [|e l] eqn:Hl; [done|].
  destruct (search_found pf_list pf_scalar getAllSchemaPaths named_path pf_size
              getAllSchemaPaths_size named_path_Ok named_path_size
              (search_fuel t (e :: l)) (mkFinder t "") (e :: l)) as (rs & Hrs & Hfound).
  { unfold search_fuel, pf_size. cbn. lia. }
  rewrite findAllSchemaPaths_search, Hrs, outcome_bind_ret.
  exists (pf_path <$> rs), (negb (length rs =? 0)).
  split; [by destruct rs|]. split; [by destruct rs|].
  intros s. rewrite list_elem_of_fmap. split.
  - intros ([t' s'] & -> & Hin%Hfound). eauto.
  - intros (t' & Hf%Hfound). by exists (mkFinder t' s).
Qed.

(** The two searches over types agree: where the type functions of ydb give
    the types that the path functions give with their paths, FindAllSchemaTypes
    returns the types of the nodes whose paths FindAllSchemaPaths returns, in
    the same order. *)
Theorem FindAllSchemaTypes_paths `{YdbTypes} (t : gotype) (p : Path) :
  ydb_agrees → elems (Some p) ≠ [] →
  ∃ (nodes : list pathFinder) (ok : bool),
    FindAllSchemaPaths (Some t) (Some p) = Ok (pf_path <$> nodes, ok) ∧
    FindAllSchemaTypes (Some t) (Some p) = Ok (Some <$> (pf_t <$> nodes), ok).
Proof.
  intros [Hall Hfind] Hne. unfold FindAllSchemaTypes, FindAllSchemaPaths.
  destruct (elems (Some p)) as [|e l] eqn:Hl; [done|].
  rewrite findAllSchemaTypes_search, findAllSchemaPaths_search.
  destruct (search_related (λ x y, pf_t x = y) (λ _, True) pf_list pf_scalar getAllSchemaPaths named_path
              pf_size kind_map IsTypeScalar TypeGetAll named_type) with
    (fuel := search_fuel t (e :: l)) (x := mkFinder t "") (y := t) (l := e :: l)
    as (rs & ts & -> & -> & Hrs).
  - by intros x ? <-.
  - by intros x ? <-.
  - intros x ? <-. rewrite Hall. cbn [fst snd]. split; [done|]. apply Forall2_fmap_r, Forall_Forall2_diag.
    by apply Forall_true.
  - intros x ? n _ <-. unfold named_path, named_type. destruct (Hfind x (pe_Name n)) as [Hok Ht].
    destruct (TypeFind (pf_t x) (pe_Name n)) as [ct ok], (findSchemaPath x (pe_Name n)) as [c ok'].
    cbn [fst snd] in *. subst ok. eexists _, _. split; [done|]. split; [done|].
    destruct ok'; [apply Some_Forall2; by rewrite Ht|apply None_Forall2].
  - apply getAllSchemaPaths_size.
  - apply named_path_size.
  - unfold search_fuel, pf_size. cbn. lia.
  - by apply Forall_true.
  - done.
  - assert (ts = pf_t <$> rs) as -> by (induction Hrs; subst; [done|]; by f_equal/=).
    exists rs, (negb (length rs =? 0)). rewrite !outcome_bind_ret, length_fmap. by destruct rs.
Qed.

Lemma FindAllSchemaTypes_paths_witness :
  ∃ (nodes : list pathFinder) (ok : bool),
    @FindAllSchemaPaths example_ydb (Some example_device) (Some WildcardGNMIPathDot3) = Ok (pf_path <$> nodes, ok) ∧
    @FindAllSchemaTypes example_ydb (Some example_device) (Some WildcardGNMIPathDot3) = Ok (Some <$> (pf_t <$> nodes), ok).
Proof. apply (@FindAllSchemaTypes_paths example_ydb); [exact example_ydb_agrees|done]. Defined.

(** FindAllPaths differs from FindAllSchemaPaths only by predicates: where
    IsTypeMap holds of maps only, it finds the same nodes in the same order for
    every path, and each of its texts is the schema path of the node with
    predicates inserted. *)
Theorem FindAllPaths_predicates `{YdbTypes} (m : SchemaModel) (t : gotype) (p : Path) :
  (∀ t, IsTypeMap t = true → kind_map t = true) → Root (m_MO m) = Some (TPtr t) →
  ∃ ps qs ok, FindAllPaths m (Some p) = Ok (ps, ok) ∧ FindAllSchemaPaths (Some t) (Some p) = Ok (qs, ok) ∧
    (elems (Some p) ≠ [] → Forall2 with_predicates ps qs).
Proof.
  intros Hmap Hroot. unfold FindAllPaths, FindAllSchemaPaths, GetRootType. rewrite Hroot.
  destruct (elems (Some p)) as [|e l] eqn:Hl; [by exists ["/"], ["/"], true|].
  cbn [type_Elem]. rewrite outcome_bind_mret, findAllPaths_search, findAllSchemaPaths_search.
  destruct (search_related same_node (λ _, True) pf_list pf_scalar getAllSchemaPaths (named_data (m_MO m))
              pf_size pf_list pf_scalar getAllSchemaPaths named_path) with
    (fuel := search_fuel t (e :: l)) (x := mkFinder t "") (y := mkFinder t "") (l := e :: l)
    as (rs & qs & -> & -> & Hrs).
  - intros x y [Ht _]. unfold pf_list. by rewrite Ht.
  - intros x y [Ht _]. unfold pf_scalar. by rewrite Ht.
  - apply same_node_children.
  - intros x y n _. by apply named_data_same.
  - apply getAllSchemaPaths_size.
  - apply named_data_size.
  - unfold search_fuel, pf_size. cbn. lia.
  - by apply Forall_true.
  - split; [done|constructor].
  - exists (pf_path <$> rs), (pf_path <$> qs), (negb (length rs =? 0)).
    rewrite !outcome_bind_ret, <-(Forall2_length _ _ _ Hrs).
    split; [by destruct rs|]. split; [by destruct Hrs|]. intros _.
    apply Forall2_fmap_2. eapply Forall2_impl; [exact Hrs|]. by intros ?? [].
Qed.

Lemma FindAllPaths_predicates_witness :
  ∃ ps qs ok, @FindAllPaths example_ydb (mkSchemaModel example_mo []) (Some (mtu_path "eth0")) = Ok (ps, ok) ∧
    @FindAllSchemaPaths example_ydb (Some example_device) (Some (mtu_path "eth0")) = Ok (qs, ok) ∧
    (elems (Some (mtu_path "eth0")) ≠ [] → Forall2 with_predicates ps qs).
Proof.
  apply (@FindAllPaths_predicates example_ydb (mkSchemaModel example_mo []) example_device (mtu_path "eth0"));
    [by intros|reflexivity].
Defined.

(** C39. The two expansions of a data path agree: on a path of known nodes whose
    lists have complete keys, FindAllPaths (by Go types, for the telemetry
    registry) and FindPaths (by schema entries, for the state
    synchronisation) give the same single text, and ToGNMIPath parses it back
    to the elements of the path; names and keys are identifiers and the key
    values are not empty, hold no bracket and do not end in a backslash. *)
Theorem FindAllPaths_FindPaths `{GoRange, YdbTypes} (m : SchemaModel) (e : Entry) (t : gotype) (p : Path) :
  Root (m_MO m) = Some (TPtr t) → model_entry m = Ok (Some e) → elems (Some p) ≠ [] →
  Forall id_elem (elems (Some p)) → typed_path (m_MO m) e t (elems (Some p)) →
  ∃ s q, FindAllPaths m (Some p) = Ok ([s], true) ∧ FindPaths m (Some p) = Ok [s] ∧
         ToGNMIPath s = Ok q ∧ elems (Some q) ≡ elems (Some p).
Proof.
  intros Hroot He Hne Hid Ht.
  destruct (FindPaths_elems m p e) as (s & q & Hs & Hq & Hpq); [done..|by eapply typed_path_data|].
  exists s, q. split; [|done]. revert Hs. unfold FindAllPaths, FindPaths, GetRootType.
  rewrite Hroot, He, outcome_bind_ret. destruct (elems (Some p)) as [|x l] eqn:Hl; [done|].
  cbn [type_Elem length Nat.eqb]. rewrite outcome_bind_mret.
  destruct (findAllPaths_data (m_MO m) (search_fuel t (x :: l)) "" e t (x :: l)) as (ct & ts & -> & ->);
    [done|done|unfold search_fuel; cbn; lia|].
  by intros [= ->].
Qed.

Lemma FindAllPaths_FindPaths_witness :
  ∃ s q, @FindAllPaths example_ydb (mkSchemaModel example_mo []) (Some (mtu_path "eth0")) = Ok ([s], true) ∧
         @FindPaths canonical_range (mkSchemaModel example_mo []) (Some (mtu_path "eth0")) = Ok [s] ∧
         ToGNMIPath s = Ok q ∧ elems (Some q) ≡ elems (Some (mtu_path "eth0")).
Proof.
  apply (@FindAllPaths_FindPaths canonical_range example_ydb (mkSchemaModel example_mo []) example_device_entry
           example_device (mtu_path "eth0")).
  - reflexivity.
  - reflexivity.
  - discriminate.
  - apply (bool_decide_unpack _). vm_compute. exact I.
  - split; [reflexivity|]. eexists _, _. split; [reflexivity|]. split; [reflexivity|].
    split; [by left|]. split; [done|]. split; [reflexivity|]. eexists _, _.
    split; [reflexivity|]. split; [reflexivity|].
    split; [right; split; apply (bool_decide_unpack _); vm_compute; exact I|]. split.
    { intros _. split; [reflexivity|]. eexists _, _. split; [reflexivity|]. split; reflexivity. }
    split; [reflexivity|]. eexists _, _. split; [reflexivity|]. split; [reflexivity|].
    split; [by left|]. split; [done|]. exact I.
Defined.

(** UpdateType annotates the schema tree: every type it writes belongs to a
    node below the root and is the type reached along the names of the node;
    it ends without an error exactly when every node has a type, and has then
    written the type of every node. *)
Theorem UpdateType_annotates (mo : MO) (t : gotype) (e : Entry) :
  Root mo = Some (TPtr t) → SchemaTree mo !! type_Name t = Some (mkPtr e []) →
  ∃ ann r, UpdateType mo = Ok (ann, r) ∧
    (∀ loc t', (loc, t') ∈ ann → type_at t loc = Some t' ∧ ∃ c, below e loc c) ∧
    (r = None ↔ ∀ names c, below e names c → is_Some (type_at t names)) ∧
    (r = None → ∀ names c, below e names c → ∃ t', type_at t names = Some t' ∧ (names, t') ∈ ann).
Proof.
  intros Hroot Hs. unfold UpdateType, GetSchema, RootSchema, GetRootType. rewrite Hroot.
  cbn [type_Elem]. rewrite !outcome_bind_mret, Hs. cbn [ep_node ep_up].
  destruct (updateType_annotates e [] t []) as (Hnew & _ & Hres).
  destruct (updateType e [] t []) as [ann r]. cbn [fst snd] in *.
  exists ann, r. split; [done|]. split; [|split].
  - intros loc t' [?|(names & c & Hb & Ha & Ht)]%Hnew; [set_solver|]. cbn in Ha, Ht. subst. eauto.
  - destruct r as [er|]; split; [done| |intros _|done].
    + intros Hall. destruct Hres as (names & c & Hb%Hall & Ht). rewrite Ht in Hb. by destruct Hb.
    + intros names c Hb. destruct (Hres names c Hb) as (t' & -> & _). eauto.
  - intros ->. exact Hres.
Qed.

Lemma UpdateType_annotates_witness :
  ∃ ann r, UpdateType example_mo = Ok (ann, r) ∧
    (∀ loc t', (loc, t') ∈ ann → type_at example_device loc = Some t' ∧ ∃ c, below example_device_entry loc c) ∧
    (r = None ↔ ∀ names c, below example_device_entry names c → is_Some (type_at example_device names)) ∧
    (r = None → ∀ names c, below example_device_entry names c →
       ∃ t', type_at example_device names = Some t' ∧ (names, t') ∈ ann).
Proof. apply (UpdateType_annotates example_mo example_device example_device_entry); reflexivity. Defined.
