(* ===== verification/DataSearch.v ===== *)
(** * DataSearch: the searches over the data tree

    Models [findAllData], [getAllChildren] and [findChildren] of
    [gnmi/model/utilities.go], their callers [FindAllData], [Find] and
    [ListAll] ([mo.go]), and [FindAllDataNodes].

    The code passes [*dataAndPath] objects around, keeps them in result lists
    and overwrites their [Value] while it searches ([dpath.Value =
    dpath.Value.Elem()], [dpath.Value = cv]), also of objects that are already
    results.  The model therefore has a store of cells, and a result is the
    address of a cell. *)

From Stdlib Require Import Ascii.
From S2P Require Export TypeSearch.

(** ** Values

    What [reflect.Value] shows the code.  A pointer knows the name of the
    struct type it points to ([None] for other types) and may be nil; a struct
    field has its name, the tag under [ydb.TagLookupKey] and a value; a map
    lists its entries in the order of the iteration; [VInvalid] is the zero
    [Value]. *)
Inductive goval : Type :=
  | VInvalid
  | VPtr (struct : option string) (v : option goval)
  | VIface (v : option goval)
  | VStruct (name : string) (fields : list (string * option string * goval))
  | VMap (entries : list goval)
  | VSlice (l : list goval)
  | VScalar (text : string).

(** The size of a value bounds the depth of the search. *)
Fixpoint goval_size (v : goval) : nat :=
  match v with
  | VInvalid | VScalar _ => 1
  | VPtr _ o | VIface o => S match o with Some x => goval_size x | None => 0 end
  | VStruct _ fields => S (sum_list_with (λ f, goval_size f.2) fields)
  | VMap l | VSlice l => S (sum_list_with goval_size l)
  end.

(** Enough fuel for a search (theorem [Find_returns]). *)
Definition find_fuel (base : goval) (path : option Path) : nat :=
  S (S (goval_size base + length (elems path))).

(** [reflect.TypeOf(v)], as far as [FindSchemaByType] reads it. *)
Definition type_of (v : goval) : option gotype :=
  match v with
  | VInvalid => None
  | VPtr (Some n) _ => Some (TPtr (TStruct n []))
  | VStruct n _ => Some (TStruct n [])
  | _ => Some (TBasic "")
  end.

(** [v.(ygot.GoStruct)] succeeds on pointers to generated structs; the methods
    of the interface have pointer receivers. *)
Definition is_GoStruct (v : goval) : bool :=
  match v with VPtr (Some _) _ => true | _ => false end.

(** The functions of [ydb] and the generated method [ΛListKeyMap] (the keys of
    a list entry with their values as [%v] prints them; [None] when the value
    has no such method or the method fails). *)
Class DataOps := {
  ValFind : goval → string → option goval;
  IsValMap : goval → bool;
  IsValScalar : goval → bool;
  ValGetAll : goval → list goval * bool;
  ListKeyMap : goval → option (gmap string string);
  CanInterface : goval → bool
}.

(** ** The store of search objects *)
Record cell : Type := mkCell { c_Value : goval; c_Key : list string }.
Abbreviation store := (list cell).

Definition alloc (st : store) (c : cell) : store * nat := (st ++ [c], length st).

Definition set_value (st : store) (a : nat) (v : goval) : store :=
  alter (λ c, mkCell v (c_Key c)) a st.

Definition appendCopy (curkey : list string) (addkey : string) : list string := curkey ++ [addkey].

Section search.
Context `{GoRange, DataOps}.

(** The predicates of a list entry, in the order the map of keys is visited. *)
Definition key_suffix (keymap : gmap string string) : string :=
  foldl (λ key kv, key +:+ "[" +:+ kv.1 +:+ "=" +:+ kv.2 +:+ "]") "" (go_range keymap).

(** The loop over the entries of a list. *)
Fixpoint map_children (st : store) (key : list string) (prefix : string) (entries : list goval)
    (rval : list nat) : store * list nat :=
  match entries with
  | [] => (st, rval)
  | ev :: entries =>
      if CanInterface ev then
        match ListKeyMap ev with
        | None => map_children st key prefix entries rval
        | Some keymap =>
            let '(st, child) := alloc st (mkCell ev (appendCopy key (prefix +:+ key_suffix keymap))) in
            map_children st key prefix entries (rval ++ [child])
        end
      else map_children st key prefix entries rval
  end.

Fixpoint slice_children (st : store) (key : list string) (l : list goval) (rval : list nat)
    : store * list nat :=
  match l with
  | [] => (st, rval)
  | v :: l =>
      let '(st, child) := alloc st (mkCell v key) in
      slice_children st key l (rval ++ [child])
  end.

(** The key of a struct field. *)
Definition field_key (prefix name : string) (tag : option string) : string :=
  let key := match tag with Some tag => prefix +:+ tag | None => prefix end in
  if bool_decide (key = prefix) then name else key.

(** The loop over the fields of a struct: the children, and those found in the
    fields that are lists, which [rec] visits through an object of their own. *)
Definition struct_children
    (rec : goval → store → nat → list string → string → store * list nat * bool)
    (key : list string) (prefix : string) :
    list (string * option string * goval) → store → list nat → list nat →
    store * list nat * list nat :=
  fix go fields st rval more :=
    match fields with
    | [] => (st, rval, more)
    | (name, tag, fv) :: fields =>
        let k := field_key prefix name tag in
        if IsValMap fv then
          let '(st, child) := alloc st (mkCell fv key) in
          let '(st, rval', ok) := rec fv st child key (prefix +:+ k) in
          go fields st rval (if ok : bool then more ++ rval' else more)
        else
          let '(st, child) := alloc st (mkCell fv (appendCopy key k)) in
          go fields st (rval ++ [child]) more
    end.

(** [getAllChildren] of the object at [a], whose value is [v] and whose key is
    [key]: following a pointer or an interface overwrites the value. *)
Fixpoint getAllChildren_go (v : goval) (st : store) (a : nat) (key : list string) (prefix : string)
    {struct v} : store * list nat * bool :=
  match v with
  | VInvalid | VScalar _ => (st, [], false)
  | VPtr _ None | VIface None => (set_value st a VInvalid, [], false)
  | VPtr _ (Some x) | VIface (Some x) => getAllChildren_go x (set_value st a x) a key prefix
  | VStruct _ fields =>
      let '(st, rval, more) :=
        struct_children (λ v st a key prefix, getAllChildren_go v st a key prefix)
          key prefix fields st [] [] in
      (st, rval ++ more, negb ((length rval =? 0) && (length more =? 0)))
  | VMap entries =>
      let '(st, rval) := map_children st key prefix entries [] in
      (st, rval, negb (length rval =? 0))
  | VSlice l =>
      let '(st, rval) := slice_children st key l [] in
      (st, rval, negb (length rval =? 0))
  end.

(** The object at an address; there always is one. *)
Definition read (st : store) (a : nat) : cell := default (mkCell VInvalid []) (st !! a).

Definition getAllChildren (st : store) (a : nat) (prefix : string) : store * list nat * bool :=
  getAllChildren_go (c_Value (read st a)) st a (c_Key (read st a)) prefix.

Definition is_valid (v : goval) : bool := match v with VInvalid => false | _ => true end.

Definition findChildren (st : store) (a : nat) (key : string) : store * list nat * bool :=
  match ValFind (c_Value (read st a)) key with
  | None => (st, [], false)
  | Some cv =>
      if negb (is_valid cv) then (st, [], false)
      else if IsValMap cv then getAllChildren (set_value st a cv) a key
      else
        let '(st, child) := alloc st (mkCell cv (appendCopy (c_Key (read st a)) key)) in
        (st, [child], true)
  end.

(** The key of a path element: its predicates in the order of the iteration,
    none of them if a value is "*". *)
Fixpoint elem_key_loop (name : string) (ke : list string) (kvs : list (string * string)) : list string :=
  match kvs with
  | [] => ke
  | (k, kv) :: kvs =>
      if bool_decide (kv = "*") then [name]
      else elem_key_loop name (ke ++ ["[" +:+ k +:+ "=" +:+ kv +:+ "]"]) kvs
  end.

Definition elem_key (e : PathElem) : string :=
  Join (elem_key_loop (pe_Name e) [pe_Name e] (go_range (keys e))) "".

(** A loop that threads the store through the objects of a list and appends
    what it finds. *)
Fixpoint for_each (f : store → nat → outcome error (store * list nat)) (st : store) (l rpath : list nat)
    : outcome error (store * list nat) :=
  match l with
  | [] => mret (st, rpath)
  | a :: l => '(st, r) ← f st a; for_each f st l (rpath ++ r)
  end.

Fixpoint findAllData (fuel : nat) (st : store) (a : nat) (elems : list PathElem)
    : outcome error (store * list nat) :=
  match fuel with
  | O => Diverge
  | S fuel =>
      match elems with
      | [] => mret (st, [a])
      | elem :: celems =>
          if IsValScalar (c_Value (read st a)) then mret (st, [])
          else if bool_decide (pe_Name elem = "*") then
            let '(st, childlist, ok) := getAllChildren st a "" in
            if ok : bool then for_each (λ st child, findAllData fuel st child celems) st childlist []
            else mret (st, [])
          else if bool_decide (pe_Name elem = "...") then
            let '(st, childlist, ok) := getAllChildren st a "" in
            if ok : bool then
              '(st, rpath) ← for_each (λ st child, findAllData fuel st child celems) st childlist [];
              for_each (λ st child, findAllData fuel st child elems) st childlist rpath
            else mret (st, [])
          else
            let '(st, childlist, ok) := findChildren st a (elem_key elem) in
            if ok : bool then for_each (λ st child, findAllData fuel st child celems) st childlist []
            else mret (st, [])
      end
  end.

(** ** The callers *)
Record DataAndPath : Type := mkData { dp_Value : goval; dp_Path : string }.

(** [Interface()] of the values that have one, with their text. *)
Definition read_results (st : store) (founds : list nat) (text : list string → string) : list DataAndPath :=
  founds ≫= (λ a,
    let each := read st a in
    if CanInterface (c_Value each) then [mkData (c_Value each) (text (c_Key each))] else []).

Definition FindAllData (fuel : nat) (gs : goval) (path : option Path)
    : outcome error (list DataAndPath * bool) :=
  match elems path with
  | [] => mret ([mkData gs "/"], true)
  | l =>
      '(st, founds) ← findAllData fuel [mkCell gs [""]] 0 l;
      if length founds =? 0 then mret ([], false)
      else
        let rvalues := read_results st founds (λ key, Join key "/") in
        mret (rvalues, negb (length rvalues =? 0))
  end.

(** Options of a search. *)
Inductive FindOption : Type :=
  | AddFakePrefix (prefix : option Path)
  | FindAndSort.

Fixpoint hasAddFakePrefix (opts : list FindOption) : option Path :=
  match opts with
  | [] => None
  | AddFakePrefix p :: _ => p
  | FindAndSort :: opts => hasAddFakePrefix opts
  end.

(** The variable [ok] of the loop shadows the one tested after it, so the
    option is always appended as well. *)
Fixpoint replace_first (opts : list FindOption) (opt : FindOption) : list FindOption :=
  match opts with
  | [] => []
  | AddFakePrefix _ :: opts => opt :: opts
  | FindAndSort :: opts => FindAndSort :: replace_first opts opt
  end.
Definition replaceAddFakePrefix (opts : list FindOption) (opt : FindOption) : list FindOption :=
  replace_first opts opt ++ [opt].

Definition hasFindAndSort (opts : list FindOption) : bool :=
  existsb (λ o, match o with FindAndSort => true | AddFakePrefix _ => false end) opts.
End search.

(** [sort.Slice] by path: some sorted permutation (the sort is not stable). *)
Class GoSort := {
  sort_by_path : list DataAndPath → list DataAndPath;
  sort_by_path_perm : ∀ l, sort_by_path l ≡ₚ l
}.

Section callers.
Context `{GoRange, DataOps, GoSort}.

(** The loop of [Find] that follows the names of the path in the schema up to
    the first wildcard: false when a name or a key is unknown. *)
Fixpoint check_elems (entry : Entry) (l : list PathElem) : bool :=
  match l with
  | [] => true
  | e :: l =>
      if is_wild e then true
      else
        match Dir entry (pe_Name e) with
        | None => false
        | Some entry => if keys_known entry e then check_elems entry l else false
        end
  end.

Definition Find (mo : MO) (fuel : nat) (base : goval) (path : option Path) (opts : list FindOption)
    : outcome error (list DataAndPath * bool) :=
  match FindSchemaByType mo (type_of base) with
  | None => mret ([], false)
  | Some entry =>
      let fprefix := match hasAddFakePrefix opts with None => EmptyGNMIPath | Some p => p end in
      let prefix := ToXPath (Some fprefix) in
      match elems path with
      | [] => mret ([mkData base prefix], true)
      | l =>
          if negb (check_elems (ep_node entry) l) then mret ([], false)
          else
            '(st, founds) ← findAllData fuel [mkCell base [""]] 0 l;
            if length founds =? 0 then mret ([], false)
            else
              let text key :=
                if bool_decide (prefix = "/") then Join key "/" else prefix +:+ Join key "/" in
              let rvalues := read_results st founds text in
              mret (if hasFindAndSort opts then sort_by_path rvalues else rvalues, true)
      end
  end.

(** [Get]: from the root. *)
Definition Get (mo : MO) (fuel : nat) (root : goval) (path : option Path)
    : outcome error (list DataAndPath * bool) :=
  Find mo fuel root path [].

(** The loop of [ListAll] over the targets; the options change as it goes. *)
Fixpoint list_targets (mo : MO) (opts : list FindOption) (targets children : list DataAndPath)
    : outcome error (list DataAndPath) :=
  match targets with
  | [] => mret children
  | t :: targets =>
      if is_GoStruct (dp_Value t) then
        let tpath := match ToGNMIPath (dp_Path t) with Ok p => Some p | _ => None end in
        let opts := replaceAddFakePrefix opts (AddFakePrefix tpath) in
        let dots := Some WildcardGNMIPathDot3 in
        '(allNodes, _) ← Find mo (find_fuel (dp_Value t) dots) (dp_Value t) dots opts;
        list_targets mo opts targets (children ++ allNodes)
      else list_targets mo opts targets (children ++ [t])
  end.

Definition ListAll (mo : MO) (base : goval) (path : option Path) (opts : list FindOption)
    : outcome error (list DataAndPath) :=
  match path with
  | None =>
      let dots := Some WildcardGNMIPathDot3 in
      '(targetNodes, _) ← Find mo (find_fuel base dots) base dots opts;
      mret targetNodes
  | Some _ =>
      '(targetNodes, _) ← Find mo (find_fuel base path) base path opts;
      list_targets mo opts targetNodes []
  end.
End callers.

(** ** The search without paths *)
Section nodes.
Context `{GoRange, DataOps}.

Definition kind_vmap (v : goval) : bool := match v with VMap _ => true | _ => false end.

Fixpoint findAllDataNodes (fuel : nat) (v : goval) (elems : list PathElem) : outcome error (list goval) :=
  match fuel with
  | O => Diverge
  | S fuel =>
      if kind_vmap v then
        let '(cvlist, ok) := ValGetAll v in
        if ok : bool then append_all (λ cv, findAllDataNodes fuel cv elems) cvlist else mret []
      else
        match elems with
        | [] => mret [v]
        | elem :: celems =>
            if IsValScalar v then mret []
            else if bool_decide (pe_Name elem = "*") then
              let '(cvlist, ok) := ValGetAll v in
              if ok : bool then append_all (λ cv, findAllDataNodes fuel cv celems) cvlist else mret []
            else if bool_decide (pe_Name elem = "...") then
              let '(cvlist, ok) := ValGetAll v in
              if ok : bool then
                append_all (λ cv,
                  r ← findAllDataNodes fuel cv celems;
                  rs ← findAllDataNodes fuel cv elems;
                  mret (r ++ rs)) cvlist
              else mret []
            else
              match ValFind v (elem_key elem) with
              | None => mret []
              | Some cv => if is_valid cv then findAllDataNodes fuel cv celems else mret []
              end
        end
  end.

Definition FindAllDataNodes (fuel : nat) (gs : goval) (path : option Path)
    : outcome error (list goval * bool) :=
  match elems path with
  | [] => mret ([gs], true)
  | l =>
      rvlist ← findAllDataNodes fuel gs l;
      if length rvlist =? 0 then mret ([], false)
      else
        let rvalues := base.filter (λ v, CanInterface v = true) rvlist in
        mret (rvalues, negb (length rvalues =? 0))
  end.
End nodes.
