(* ===== verification/DataSearchSpec.v ===== *)
(** * DataSearchSpec: the theorems on the data searches

    [select] is the search on immutable values.  For paths without "..." the
    objects the search overwrites are never results, and the two agree; with
    "..." a result is overwritten after it was found. *)

From Stdlib Require Import Ascii ZArith Lia.
From S2P Require Export SchemaSpec TypeSearchSpec DataSearch.

Section search.
Context `{GoRange, DataOps}.

(** ** The children of an immutable value *)
Definition entry_cell (key : list string) (prefix : string) (ev : goval) : list cell :=
  if CanInterface ev then
    match ListKeyMap ev with
    | None => []
    | Some keymap => [mkCell ev (key ++ [prefix +:+ key_suffix keymap])]
    end
  else [].

Definition field_cells (rec : goval → list string → string → list cell) (key : list string) (prefix : string)
    : list (string * option string * goval) → list cell * list cell :=
  fix go fields :=
    match fields with
    | [] => ([], [])
    | (name, tag, fv) :: fields =>
        let k := field_key prefix name tag in
        let '(rval, more) := go fields in
        if IsValMap fv then (rval, rec fv key (prefix +:+ k) ++ more)
        else (mkCell fv (key ++ [k]) :: rval, more)
    end.

Fixpoint children (v : goval) (key : list string) (prefix : string) {struct v} : list cell :=
  match v with
  | VInvalid | VScalar _ | VPtr _ None | VIface None => []
  | VPtr _ (Some x) | VIface (Some x) => children x key prefix
  | VStruct _ fields =>
      let '(rval, more) := field_cells (λ v key prefix, children v key prefix) key prefix fields in
      rval ++ more
  | VMap entries => entries ≫= entry_cell key prefix
  | VSlice l => (λ v, mkCell v key) <$> l
  end.

(** What following pointers leaves in an object. *)
Fixpoint deref (v : goval) : goval :=
  match v with
  | VPtr _ (Some x) | VIface (Some x) => deref x
  | VPtr _ None | VIface None => VInvalid
  | v => v
  end.

(** ** The store

    [extends a v st st']: only the object at [a] was overwritten, with [v], and
    the rest is new. *)
Definition extends (a : nat) (v : goval) (st st' : store) : Prop :=
  ∃ new, st' = set_value st a v ++ new.

(** Fresh, distinct addresses that hold given objects. *)
Definition holds (st : store) (lo : nat) (l : list nat) (cs : list cell) : Prop :=
  NoDup l ∧ Forall (λ x, lo ≤ x) l ∧ Forall2 (λ x c, st !! x = Some c) l cs.

Lemma set_value_length st a v : length (set_value st a v) = length st.
Proof. apply length_alter. Qed.

Lemma set_value_eq st a v c : st !! a = Some c → set_value st a v !! a = Some (mkCell v (c_Key c)).
Proof. intros Ha. unfold set_value. by rewrite list_lookup_alter_eq, Ha. Qed.

Lemma set_value_ne st a v i : i ≠ a → set_value st a v !! i = st !! i.
Proof. intros Hi. unfold set_value. by rewrite list_lookup_alter_ne by congruence. Qed.

Lemma set_value_same st a v key : st !! a = Some (mkCell v key) → set_value st a v = st.
Proof.
  intros Ha. apply list_eq. intros i. destruct (decide (i = a)) as [->|]; [|by apply set_value_ne].
  by rewrite (set_value_eq _ _ _ _ Ha), Ha.
Qed.

Lemma set_value_twice st a v w : set_value (set_value st a v) a w = set_value st a w.
Proof. unfold set_value. by rewrite list_alter_alter_eq. Qed.

Lemma set_value_last st c v : set_value (st ++ [c]) (length st) v = st ++ [mkCell v (c_Key c)].
Proof. unfold set_value. rewrite alter_app_r_alt by lia. by rewrite Nat.sub_diag. Qed.

Lemma holds_nil st lo : holds st lo [] [].
Proof. repeat constructor. Qed.

Lemma holds_lower st lo lo' l cs : lo' ≤ lo → holds st lo l cs → holds st lo' l cs.
Proof.
  intros Hlo (Hnd & Hge & Hl). split; [done|]. split; [|done].
  eapply Forall_impl; [exact Hge|]. cbn. lia.
Qed.

Lemma holds_grow st new lo l cs : holds st lo l cs → holds (st ++ new) lo l cs.
Proof.
  intros (Hnd & Hge & Hl). split; [done|]. split; [done|].
  eapply Forall2_impl; [exact Hl|]. cbn. intros x c Hx. by apply lookup_app_l_Some.
Qed.

(** The addresses held in a store are below its length. *)
Lemma holds_below st lo l cs x : holds st lo l cs → x ∈ l → lo ≤ x < length st.
Proof.
  intros (_ & Hge & Hl) Hx. split; [by eapply Forall_forall in Hge|].
  apply list_elem_of_lookup in Hx as [i Hi]. destruct (Forall2_lookup_l _ _ _ _ _ Hl Hi) as (c & _ & Hc).
  by eapply lookup_lt_Some.
Qed.

(** Objects allocated later have other addresses. *)
Lemma holds_app st lo l1 cs1 new l2 cs2 :
  holds st lo l1 cs1 → lo ≤ length st → holds (st ++ new) (length st) l2 cs2 →
  holds (st ++ new) lo (l1 ++ l2) (cs1 ++ cs2).
Proof.
  intros H1 Hlo H2. pose proof (holds_grow st new lo l1 cs1 H1) as (Hnd1 & Hge1 & Hl1).
  destruct H2 as (Hnd2 & Hge2 & Hl2). split; [|split].
  - apply NoDup_app. split; [done|]. split; [|done]. intros x Hx1%(holds_below _ _ _ _ _ H1) Hx2.
    eapply Forall_forall in Hge2; [|done]. cbn in Hge2. lia.
  - apply Forall_app. split; [done|]. eapply Forall_impl; [exact Hge2|]. cbn. lia.
  - by apply Forall2_app.
Qed.

Lemma holds_join st lo l1 cs1 l2 cs2 :
  holds st lo l1 cs1 → holds st lo l2 cs2 → (∀ x, x ∈ l1 → x ∉ l2) → holds st lo (l1 ++ l2) (cs1 ++ cs2).
Proof.
  intros (Hnd1 & Hge1 & Hl1) (Hnd2 & Hge2 & Hl2) Hdis. split; [by apply NoDup_app|].
  split; [by apply Forall_app|by apply Forall2_app].
Qed.

Lemma holds_one st c : holds (st ++ [c]) (length st) [length st] [c].
Proof.
  split; [apply NoDup_singleton|]. split; [by repeat constructor|]. constructor; [|constructor].
  rewrite lookup_app_r by lia. by rewrite Nat.sub_diag.
Qed.

(** ** The loops that allocate children *)
Lemma map_children_spec entries st key prefix rval :
  ∃ new l, map_children st key prefix entries rval = (st ++ new, rval ++ l) ∧
    holds (st ++ new) (length st) l (entries ≫= entry_cell key prefix).
Proof.
  revert st rval. induction entries as [|ev entries IH]; intros st rval; cbn [map_children].
  { exists [], []. rewrite !(right_id_L [] (++)). split; [done|apply holds_nil]. }
  rewrite bind_cons. unfold entry_cell at 1.
  destruct (CanInterface ev); [|apply IH]. destruct (ListKeyMap ev) as [keymap|]; [|apply IH].
  cbn [alloc]. set (c := mkCell ev _).
  destruct (IH (st ++ [c]) (rval ++ [length st])) as (new & l & -> & Hl).
  exists ([c] ++ new), ([length st] ++ l). rewrite !(assoc_L (++)). split; [done|].
  apply (holds_app (st ++ [c]) (length st) [_] [_]); [apply holds_one|rewrite length_app; lia|done].
Qed.

Lemma slice_children_spec vs st key rval :
  ∃ new l, slice_children st key vs rval = (st ++ new, rval ++ l) ∧
    holds (st ++ new) (length st) l ((λ v, mkCell v key) <$> vs).
Proof.
  revert st rval. induction vs as [|v vs IH]; intros st rval; cbn [slice_children].
  { exists [], []. rewrite !(right_id_L [] (++)). split; [done|apply holds_nil]. }
  cbn [alloc]. set (c := mkCell v key).
  destruct (IH (st ++ [c]) (rval ++ [length st])) as (new & l & -> & Hl).
  exists ([c] ++ new), ([length st] ++ l). rewrite !(assoc_L (++)). split; [done|].
  apply (holds_app (st ++ [c]) (length st) [_] [_]); [apply holds_one|rewrite length_app; lia|done].
Qed.

(** A call of [getAllChildren] on the object at [a]. *)
Definition visits (v : goval) (r : store * list nat * bool) (st : store) (a : nat) (cs : list cell) : Prop :=
  ∃ st' l, r = (st', l, negb (length l =? 0)) ∧ extends a (deref v) st st' ∧ holds st' (length st) l cs.

Lemma visits_alloc fv r st key cs :
  visits fv r (st ++ [mkCell fv key]) (length st) cs →
  ∃ new l, r = (st ++ new, l, negb (length l =? 0)) ∧ 1 ≤ length new ∧
    holds (st ++ new) (S (length st)) l cs.
Proof.
  intros (st' & l & -> & [new Hst] & Hl). rewrite set_value_last, <-(assoc_L (++)) in Hst. cbn in Hst.
  subst st'. rewrite length_app, Nat.add_1_r in Hl.
  eexists _, l. split; [done|]. split; [cbn; lia|done].
Qed.

Lemma struct_children_spec rec rec' key prefix fields st rval more :
  (∀ f st a prefix, f ∈ fields → st !! a = Some (mkCell f.2 key) →
     visits f.2 (rec f.2 st a key prefix) st a (rec' f.2 key prefix)) →
  ∃ new l1 l2, struct_children rec key prefix fields st rval more = (st ++ new, rval ++ l1, more ++ l2) ∧
    holds (st ++ new) (length st) l1 (field_cells rec' key prefix fields).1 ∧
    holds (st ++ new) (length st) l2 (field_cells rec' key prefix fields).2 ∧
    (∀ x, x ∈ l1 → x ∉ l2).
Proof.
  revert st rval more. induction fields as [|[[name tag] fv] fields IH]; intros st rval more Hrec.
  { exists [], [], []. rewrite !(right_id_L [] (++)). split; [done|].
    split; [apply holds_nil|]. split; [apply holds_nil|set_solver]. }
  cbn [struct_children field_cells alloc]. set (k := field_key prefix name tag).
  destruct (field_cells rec' key prefix fields) as [c1 c2] eqn:Hcells. cbn [fst snd] in IH.
  destruct (IsValMap fv) eqn:Hmap.
  - destruct (visits_alloc fv (rec fv (st ++ [mkCell fv key]) (length st) key (prefix +:+ k)) st key
                (rec' fv key (prefix +:+ k))) as (new & l & -> & Hlen & Hl).
    { apply (Hrec (name, tag, fv)); [set_solver|].
      rewrite lookup_app_r by lia. by rewrite Nat.sub_diag. }
    assert ((if negb (length l =? 0) then more ++ l else more) = more ++ l) as ->
      by (destruct l; [by rewrite (right_id_L [] (++))|done]).
    destruct (IH (st ++ new) rval (more ++ l)) as (new' & l1 & l2 & -> & H1 & H2 & Hdis);
      [intros; apply Hrec; [set_solver|done]|].
    exists (new ++ new'), l1, (l ++ l2). rewrite !(assoc_L (++)). split; [done|].
    pose proof (holds_grow _ new' _ _ _ Hl) as Hl'%(holds_lower _ _ (length st)); [|lia].
    assert (∀ x, x ∈ l1 ∨ x ∈ l2 → length st + length new ≤ x) as Hge.
    { intros x [Hx|Hx]; [apply (holds_below _ _ _ _ _ H1) in Hx|apply (holds_below _ _ _ _ _ H2) in Hx];
        rewrite length_app in Hx; lia. }
    assert (∀ x, x ∈ l → x < length st + length new) as Hlt.
    { intros x Hx%(holds_below _ _ _ _ _ Hl). rewrite length_app in Hx. lia. }
    split; [|split].
    + eapply holds_lower; [|done]. rewrite length_app. lia.
    + apply holds_join; [done|eapply holds_lower; [|done]; rewrite length_app; lia|].
      intros x Hx%Hlt Hx2. specialize (Hge x (or_intror Hx2)). lia.
    + intros x Hx1 [Hx%Hlt|Hx]%elem_of_app; [|by eapply Hdis].
      specialize (Hge x (or_introl Hx1)). lia.
  - unfold appendCopy. set (c := mkCell fv (key ++ [k])).
    destruct (IH (st ++ [c]) (rval ++ [length st]) more) as (new' & l1 & l2 & -> & H1 & H2 & Hdis);
      [intros; apply Hrec; [set_solver|done]|].
    exists ([c] ++ new'), ([length st] ++ l1), l2. rewrite !(assoc_L (++)). split; [done|].
    split; [|split].
    + apply (holds_app (st ++ [c]) (length st) [_] [_]); [apply holds_one|rewrite length_app; lia|done].
    + eapply holds_lower; [|done]. rewrite length_app. lia.
    + intros x [->%list_elem_of_singleton|Hx]%elem_of_app Hx2; [|by eapply Hdis].
      apply (holds_below _ _ _ _ _ H2) in Hx2. rewrite length_app in Hx2. cbn in Hx2. lia.
Qed.

(** ** Children of an object *)

(** Induction with a hypothesis for every value the searches descend into. *)
Fixpoint goval_induction (P : goval → Prop) (Hinv : P VInvalid)
    (Hptr : ∀ s o, (∀ x, o = Some x → P x) → P (VPtr s o))
    (Hiface : ∀ o, (∀ x, o = Some x → P x) → P (VIface o))
    (Hstruct : ∀ n fields, Forall (λ f, P f.2) fields → P (VStruct n fields))
    (Hmap : ∀ es, Forall P es → P (VMap es)) (Hslice : ∀ l, Forall P l → P (VSlice l))
    (Hscalar : ∀ s, P (VScalar s)) (v : goval) {struct v} : P v :=
  let rec := goval_induction P Hinv Hptr Hiface Hstruct Hmap Hslice Hscalar in
  let all := fix all (l : list goval) : Forall P l :=
    match l with [] => Forall_nil_2 _ | x :: l => Forall_cons_2 _ x l (rec x) (all l) end in
  match v with
  | VInvalid => Hinv
  | VPtr s o =>
      Hptr s o match o with
               | None => λ x e, match e in _ = o' return match o' with None => True | Some y => P x end with eq_refl => I end
               | Some y => λ x e, match e in _ = o' return match o' with None => True | Some z => P z end with eq_refl => rec y end
               end
  | VIface o =>
      Hiface o match o with
               | None => λ x e, match e in _ = o' return match o' with None => True | Some y => P x end with eq_refl => I end
               | Some y => λ x e, match e in _ = o' return match o' with None => True | Some z => P z end with eq_refl => rec y end
               end
  | VStruct n fields =>
      Hstruct n fields
        ((fix fall (l : list (string * option string * goval)) : Forall (λ f, P f.2) l :=
            match l with [] => Forall_nil_2 _ | f :: l => Forall_cons_2 _ f l (rec f.2) (fall l) end) fields)
  | VMap es => Hmap es (all es)
  | VSlice l => Hslice l (all l)
  | VScalar s => Hscalar s
  end.

Lemma visits_follow v x r st a cs :
  deref v = deref x → visits x r (set_value st a x) a cs → visits v r st a cs.
Proof.
  intros Hv (st' & l & -> & [new ->] & Hl). rewrite set_value_length in Hl.
  eexists _, l. split; [done|]. split; [|done]. exists new. by rewrite set_value_twice, Hv.
Qed.

Lemma visits_nil v st a : deref v = VInvalid → visits v (set_value st a VInvalid, [], false) st a [].
Proof.
  intros Hv. exists (set_value st a VInvalid), []. split; [done|]. split; [|apply holds_nil].
  exists []. by rewrite (right_id_L [] (++)), Hv.
Qed.

Lemma getAllChildren_go_visits v st a key prefix :
  st !! a = Some (mkCell v key) →
  visits v (getAllChildren_go v st a key prefix) st a (children v key prefix).
Proof.
  revert st a key prefix. induction v as [|s o IH|o IH|n fields IH|es _|l _|text] using goval_induction;
    intros st a key prefix Ha; cbn [getAllChildren_go children].
  - exists st, []. split; [done|]. split; [|apply holds_nil]. exists [].
    by rewrite (right_id_L [] (++)), (set_value_same _ _ _ key).
  - destruct o as [x|]; [|by apply visits_nil]. apply (visits_follow _ x); [done|].
    apply IH; [done|]. by rewrite (set_value_eq _ _ _ _ Ha).
  - destruct o as [x|]; [|by apply visits_nil]. apply (visits_follow _ x); [done|].
    apply IH; [done|]. by rewrite (set_value_eq _ _ _ _ Ha).
  - destruct (struct_children_spec (λ v st a key prefix, getAllChildren_go v st a key prefix)
                (λ v key prefix, children v key prefix) key prefix fields st [] [])
      as (new & l1 & l2 & -> & H1 & H2 & Hdis).
    { intros f st' a' prefix' Hf Ha'. rewrite Forall_forall in IH. by apply (IH f Hf). }
    destruct (field_cells _ key prefix fields) as [c1 c2]. cbn [fst snd app] in *.
    exists (st ++ new), (l1 ++ l2). split; [by destruct l1, l2|]. split.
    + exists new. by rewrite (set_value_same _ _ _ key).
    + by apply holds_join.
  - destruct (map_children_spec es st key prefix []) as (new & l & -> & Hl).
    exists (st ++ new), l. split; [done|]. split; [|done]. exists new. by rewrite (set_value_same _ _ _ key).
  - destruct (slice_children_spec l st key []) as (new & l' & -> & Hl).
    exists (st ++ new), l'. split; [done|]. split; [|done]. exists new. by rewrite (set_value_same _ _ _ key).
  - exists st, []. split; [done|]. split; [|apply holds_nil]. exists [].
    by rewrite (right_id_L [] (++)), (set_value_same _ _ _ key).
Qed.
(** Only the objects in [l] and new ones were written. *)
Definition frame (l : list nat) (st st' : store) : Prop :=
  length st ≤ length st' ∧ ∀ i, i < length st → i ∉ l → st' !! i = st !! i.

Lemma frame_refl l st : frame l st st.
Proof. by split. Qed.

(** Writes one after the other. *)
Lemma frame_then l1 l2 l st st1 st2 :
  frame l1 st st1 → frame l2 st1 st2 → (∀ i, i ∈ l1 ∨ i ∈ l2 → i ∈ l) → frame l st st2.
Proof.
  intros [Hlen1 Hsame1] [Hlen2 Hsame2] Hl. split; [lia|]. intros i Hi Hni.
  rewrite Hsame2, Hsame1; [done|lia|naive_solver|lia|naive_solver].
Qed.

Lemma extends_frame a v st st' : extends a v st st' → frame [a] st st'.
Proof.
  intros [new ->]. split; [rewrite length_app, set_value_length; lia|]. intros i Hi Ha.
  rewrite lookup_app_l by by rewrite set_value_length. apply set_value_ne. set_solver.
Qed.

Lemma extends_at a v st st' c : st !! a = Some c → extends a v st st' → st' !! a = Some (mkCell v (c_Key c)).
Proof. intros Ha [new ->]. apply lookup_app_l_Some. by apply set_value_eq. Qed.

Lemma getAllChildren_spec st a c prefix :
  st !! a = Some c →
  visits (c_Value c) (getAllChildren st a prefix) st a (children (c_Value c) (c_Key c) prefix).
Proof.
  intros Ha. unfold getAllChildren, read. rewrite Ha. cbn [default from_option id].
  apply getAllChildren_go_visits. by destruct c.
Qed.

(** The children [findChildren] finds, of an immutable object. *)
Definition named_cells (c : cell) (key : string) : list cell :=
  match ValFind (c_Value c) key with
  | None => []
  | Some cv =>
      if negb (is_valid cv) then []
      else if IsValMap cv then children cv (c_Key c) key
      else [mkCell cv (c_Key c ++ [key])]
  end.

Lemma findChildren_spec st a c key :
  st !! a = Some c →
  ∃ st' l, findChildren st a key = (st', l, negb (length l =? 0)) ∧ frame [a] st st' ∧
           holds st' (length st) l (named_cells c key).
Proof.
  intros Ha. unfold findChildren, named_cells, read. rewrite Ha. cbn [default from_option id].
  destruct (ValFind (c_Value c) key) as [cv|]; [|exists st, []; split; [done|]; split; [apply frame_refl|apply holds_nil]].
  destruct (is_valid cv); cbn [negb]; [|exists st, []; split; [done|]; split; [apply frame_refl|apply holds_nil]].
  destruct (IsValMap cv).
  - destruct (getAllChildren_spec (set_value st a cv) a (mkCell cv (c_Key c)) key) as (st' & l & -> & Hext & Hl).
    { by apply set_value_eq. }
    exists st', l. split; [done|]. rewrite set_value_length in Hl. split; [|done].
    apply (extends_frame _ (deref cv)). destruct Hext as [new ->]. exists new. by rewrite set_value_twice.
  - cbn [alloc]. exists (st ++ [mkCell cv (c_Key c ++ [key])]), [length st]. split; [done|]. split.
    + apply (extends_frame _ (c_Value c)). eexists. rewrite (set_value_same _ _ _ (c_Key c)); [done|]. rewrite Ha. by destruct c.
    + apply holds_one.
Qed.

(** ** Loops over objects *)

(** The object at an address, with a property. *)
Definition at_object (Q : cell → Prop) (st : store) (a : nat) : Prop := ∃ c, st !! a = Some c ∧ Q c.

Lemma at_object_frame Q l (st st' : store) a : frame l st st' → a ∉ l → at_object Q st a → at_object Q st' a.
Proof.
  intros [_ Hsame] Ha (c & Hc & HQ). exists c. split; [|done].
  rewrite Hsame; [done|by eapply lookup_lt_Some|done].
Qed.

Lemma lookups_frame l (st st' : store) xs cs :
  frame l st st' → (∀ x, x ∈ xs → x ∉ l) → Forall2 (λ x c, st !! x = Some c) xs cs →
  Forall2 (λ x c, st' !! x = Some c) xs cs.
Proof.
  intros [_ Hsame] Hl. induction 1 as [|x c xs cs Hx Hxs IH]; constructor.
  - rewrite Hsame; [done|by eapply lookup_lt_Some|apply Hl; set_solver].
  - apply IH. intros; apply Hl; set_solver.
Qed.

Lemma lookups_below (st : store) xs cs x : Forall2 (λ x c, st !! x = Some c) xs cs → x ∈ xs → x < length st.
Proof.
  intros Hl Hx. apply list_elem_of_lookup in Hx as [i Hi].
  destruct (Forall2_lookup_l _ _ _ _ _ Hl Hi) as (c & _ & Hc). by eapply lookup_lt_Some.
Qed.

(** A step that searches one object: what it returns are that object or new
    ones, and they hold [g] of what the object held; [Q] relates what the
    object held and holds. *)
Definition searches (f : store → nat → outcome error (store * list nat)) (g : cell → list cell)
    (P : cell → Prop) (Q : cell → cell → Prop) : Prop :=
  ∀ st a c, st !! a = Some c → P c →
    ∃ st' l, f st a = Ok (st', l) ∧ frame [a] st st' ∧ at_object (Q c) st' a ∧
      Forall (λ y, y = a ∨ length st ≤ y) l ∧ Forall2 (λ y d, st' !! y = Some d) l (g c).

Lemma for_each_spec f g P Q st cl cs rpath :
  searches f g P Q → NoDup cl → Forall2 (λ x c, st !! x = Some c) cl cs → Forall P cs →
  ∃ st' l, for_each f st cl rpath = Ok (st', rpath ++ l) ∧ frame cl st st' ∧
    Forall2 (λ x c, at_object (Q c) st' x) cl cs ∧
    Forall (λ y, y ∈ cl ∨ length st ≤ y) l ∧ Forall2 (λ y d, st' !! y = Some d) l (cs ≫= g).
Proof.
  intros Hf Hnd Hcl HP. revert st rpath Hcl Hnd. revert cl. induction HP as [|c cs HPc HP IH]; intros cl st rpath Hcl Hnd.
  { inversion Hcl; subst. exists st, []. cbn. rewrite (right_id_L [] (++)).
    split; [done|]. split; [apply frame_refl|]. by repeat split. }
  inversion Hcl as [|x ? cl' ? Hx Hcs]; subst. apply NoDup_cons in Hnd as [Hnin Hnd].
  destruct (Hf st x c Hx HPc) as (st1 & l1 & Hr & Hframe1 & Hat & Hin1 & Hl1).
  assert (∀ y, y ∈ cl' → y < length st) as Hlt by (intros y; by eapply lookups_below).
  destruct (IH cl' st1 (rpath ++ l1)) as (st2 & l2 & Hr2 & Hframe2 & Hat2 & Hin2 & Hl2);
    [eapply lookups_frame; [done| |done]; set_solver|done|].
  exists st2, (l1 ++ l2). cbn [for_each]. rewrite Hr, outcome_bind_ret, Hr2, (assoc_L (++)).
  split; [done|]. split; [|split; [|split]].
  - eapply frame_then; [done..|set_solver].
  - constructor; [|done]. by eapply at_object_frame.
  - destruct Hframe1 as [Hlen1 _]. apply Forall_app. split.
    + eapply Forall_impl; [exact Hin1|]. cbn. intros y [->|?]; [left|right]; [set_solver|done].
    + eapply Forall_impl; [exact Hin2|]. cbn. intros y [?|?]; [left; set_solver|right; lia].
  - cbn. apply Forall2_app; [|done]. eapply lookups_frame; [done| |done]. intros y Hy Hin.
    eapply Forall_forall in Hin1; [|exact Hy]. cbn in Hin1. destruct Hin1 as [->|]; [done|].
    specialize (Hlt y Hin). lia.
Qed.

(** Writes to new objects leave the old ones alone. *)
Lemma frame_fresh a cl st st1 st' :
  frame [a] st st1 → frame cl st1 st' → Forall (λ y, length st ≤ y) cl → frame [a] st st'.
Proof.
  intros [Hlen Hsame] [Hlen' Hsame'] Hge. split; [lia|]. intros i Hi Hni.
  rewrite Hsame', Hsame; [done|done|done|lia|]. intros Hin'. eapply Forall_forall in Hge; [|done].
  cbn in Hge. lia.
Qed.

(** The loop over new children of the object at [a]. *)
Lemma for_each_children f g P Q a st st1 cl cs :
  searches f g P Q → frame [a] st st1 → holds st1 (length st) cl cs → Forall P cs →
  ∃ st' l, (if negb (length cl =? 0) then for_each f st1 cl [] else mret (st1, [])) = Ok (st', l) ∧
    frame [a] st st' ∧ Forall (λ y, length st ≤ y) l ∧
    Forall2 (λ y d, st' !! y = Some d) l (cs ≫= g).
Proof.
  intros Hf Hframe (Hnd & Hge & Hcl) HP.
  destruct (for_each_spec f g P Q st1 cl cs [] Hf Hnd Hcl HP) as (st' & l & Hr & Hframe' & _ & Hin & Hl).
  exists st', l. split; [|split; [|split]].
  - destruct cl; [|exact Hr]. cbn in *. by simplify_outcome.
  - by eapply frame_fresh.
  - destruct Hframe as [Hlen _]. rewrite Forall_forall in Hge. eapply Forall_impl; [exact Hin|].
    cbn. intros y [Hy%Hge|?]; [done|lia].
  - done.
Qed.

(** ** Paths without "..." *)

(** The search on immutable objects. *)
Fixpoint select (elems : list PathElem) (c : cell) : list cell :=
  match elems with
  | [] => [c]
  | e :: rest =>
      if IsValScalar (c_Value c) then []
      else if bool_decide (pe_Name e = "*")
      then children (c_Value c) (c_Key c) "" ≫= select rest
      else named_cells c (elem_key e) ≫= select rest
  end.

Definition no_dots (elems : list PathElem) : Prop := Forall (λ e, pe_Name e ≠ "...") elems.

Lemma findAllData_select fuel elems :
  no_dots elems → length elems < fuel →
  searches (λ st a, findAllData fuel st a elems) (select elems) (λ _, True) (λ _ _, True).
Proof.
  intros Hd. revert fuel. induction Hd as [|e elems He Hd IH]; intros fuel Hfuel st a c Ha _;
    (destruct fuel as [|fuel]; [cbn in Hfuel; lia|]); cbn [findAllData select].
  - exists st, [a]. split; [done|]. split; [apply frame_refl|]. split; [by exists c|].
    repeat constructor; auto.
  - cbn [length] in Hfuel. unfold read at 1. rewrite Ha. cbn [default from_option id].
    destruct (IsValScalar (c_Value c)).
    { exists st, []. split; [done|]. split; [apply frame_refl|]. split; [by exists c|]. by split. }
    rewrite (bool_decide_false (pe_Name e = "...")) by done.
    assert (∀ st1 cl cs, frame [a] st st1 → holds st1 (length st) cl cs → ∃ st' l,
      (if negb (length cl =? 0) then for_each (λ st child, findAllData fuel st child elems) st1 cl []
       else mret (st1, [])) = Ok (st', l) ∧
      frame [a] st st' ∧ at_object (λ _, True) st' a ∧ Forall (λ y, y = a ∨ length st ≤ y) l ∧
      Forall2 (λ y d, st' !! y = Some d) l (cs ≫= select elems)) as Hloop.
    { intros st1 cl cs Hframe Hcl.
      destruct (for_each_children _ _ _ _ a st st1 cl cs (IH fuel ltac:(lia)) Hframe Hcl)
        as (st' & l & Hr & Hframe' & Hin & Hl); [by apply Forall_true|].
      exists st', l. split; [done|]. split; [done|]. split; [|split; [|done]].
      - destruct (lookup_lt_is_Some_2 st' a) as [c' Hc']; [|by exists c'].
        apply lookup_lt_Some in Ha. destruct Hframe'. lia.
      - eapply Forall_impl; [exact Hin|]. auto. }
    case_bool_decide.
    + destruct (getAllChildren_spec st a c "" Ha) as (st1 & cl & -> & Hext & Hcl).
      apply Hloop; [by eapply extends_frame|done].
    + destruct (findChildren_spec st a c (elem_key e) Ha) as (st1 & cl & -> & Hframe & Hcl).
      by apply Hloop.
Qed.

(** ** The path "..." *)

Lemma sum_list_with_elem {A} (f : A → nat) l x : x ∈ l → f x ≤ sum_list_with f l.
Proof. induction 1 as [|x y l _ IH]; cbn; lia. Qed.

Lemma field_cells_size rec key prefix fields c :
  (∀ f key prefix, f ∈ fields → c ∈ rec f.2 key prefix → goval_size (c_Value c) < goval_size f.2) →
  c ∈ (field_cells rec key prefix fields).1 ∨ c ∈ (field_cells rec key prefix fields).2 →
  goval_size (c_Value c) < S (sum_list_with (λ f, goval_size f.2) fields).
Proof.
  induction fields as [|[[name tag] fv] fields IH]; intros Hrec; cbn [field_cells sum_list_with].
  { cbn. set_solver. }
  destruct (field_cells rec key prefix fields) as [c1 c2]. cbn [fst snd] in IH.
  assert (c ∈ c1 ∨ c ∈ c2 → goval_size (c_Value c) < S (sum_list_with (λ f, goval_size f.2) fields)) as IH'.
  { apply IH. intros f k p Hf. apply Hrec. set_solver. }
  destruct (IsValMap fv); cbn [fst snd].
  - intros [?|[Hc|?]%elem_of_app]; [specialize (IH' ltac:(auto)); lia| |specialize (IH' ltac:(auto)); lia].
    specialize (Hrec (name, tag, fv) _ _ ltac:(set_solver) Hc). cbn in Hrec. lia.
  - intros [[->|?]%elem_of_cons|?]; [cbn; lia|specialize (IH' ltac:(auto)); lia..].
Qed.

Lemma children_size v key prefix c : c ∈ children v key prefix → goval_size (c_Value c) < goval_size v.
Proof.
  revert key prefix. induction v as [|s o IH|o IH|n fields IH|es _|l _|text] using goval_induction;
    intros key prefix; cbn [children goval_size].
  - set_solver.
  - destruct o as [x|]; [|set_solver]. intros Hc. apply (IH x eq_refl) in Hc. lia.
  - destruct o as [x|]; [|set_solver]. intros Hc. apply (IH x eq_refl) in Hc. lia.
  - pose proof (field_cells_size (λ v key prefix, children v key prefix) key prefix fields c) as Hf.
    destruct (field_cells _ key prefix fields) as [c1 c2]. cbn [fst snd] in Hf.
    rewrite elem_of_app. apply Hf. intros f k p Hin. rewrite Forall_forall in IH. by apply (IH f Hin).
  - intros (ev & Hc & Hin)%list_elem_of_bind. unfold entry_cell in Hc.
    destruct (CanInterface ev), (ListKeyMap ev); try set_solver. apply list_elem_of_singleton in Hc as ->.
    apply (sum_list_with_elem goval_size) in Hin. cbn. lia.
  - intros (x & -> & Hin)%list_elem_of_fmap. apply (sum_list_with_elem goval_size) in Hin. cbn. lia.
  - set_solver.
Qed.

(** What the search for "..." leaves in an object it visits. *)
Definition settle (c : cell) : cell :=
  if IsValScalar (c_Value c) then c else mkCell (deref (c_Value c)) (c_Key c).

(** Every object below, as the search leaves it: first the children, then what
    is below each of them. *)
Fixpoint deep (fuel : nat) (c : cell) : list cell :=
  match fuel with
  | O => []
  | S fuel =>
      if IsValScalar (c_Value c) then []
      else
        let cs := children (c_Value c) (c_Key c) "" in
        (settle <$> cs) ++ (cs ≫= deep fuel)
  end.

Definition dots : list PathElem := [mkElem "..." None].

Lemma first_loop fuel st cl rpath :
  for_each (λ st child, findAllData (S fuel) st child []) st cl rpath = Ok (st, rpath ++ cl).
Proof.
  revert rpath. induction cl as [|a cl IH]; intros rpath; cbn; [by rewrite (right_id_L [] (++))|].
  by rewrite IH, <-(assoc_L (++)).
Qed.

Lemma findAllData_dots fuel :
  searches (λ st a, findAllData fuel st a dots) (deep fuel) (λ c, S (goval_size (c_Value c)) < fuel)
    (λ c c', c' = settle c).
Proof.
  induction fuel as [|fuel IH]; intros st a c Ha Hfuel; [lia|].
  destruct fuel as [|fuel]; [lia|]. set (n := S fuel) in *. cbn [findAllData deep].
  unfold dots at 1. cbn [pe_Name]. unfold read at 1. rewrite Ha. cbn [default from_option id]. unfold settle.
  destruct (IsValScalar (c_Value c)).
  { exists st, []. split; [done|]. split; [apply frame_refl|]. split; [by exists c|]. by split. }
  rewrite bool_decide_false, bool_decide_true by done.
  destruct (getAllChildren_spec st a c "" Ha) as (st1 & cl & -> & Hext & Hcl).
  pose proof (extends_frame _ _ _ _ Hext) as Hframe.
  assert (Forall (λ c, S (goval_size (c_Value c)) < n) (children (c_Value c) (c_Key c) "")) as Hsize.
  { apply Forall_forall. intros d Hd%children_size. lia. }
  destruct Hcl as (Hnd & Hge & Hcl). set (cs := children (c_Value c) (c_Key c) "") in *.
  destruct (for_each_spec _ _ _ _ st1 cl cs cl IH Hnd Hcl Hsize) as (st' & l & Hr & Hframe' & Hat & Hin & Hl).
  assert (a < length st) as Halt by by eapply lookup_lt_Some.
  exists st', (cl ++ l). split; [|split; [by eapply frame_fresh|split; [|split]]].
  - destruct cl as [|x cl]; cbn [length Nat.eqb negb]; [cbn in Hr; by simplify_outcome|].
    unfold n. rewrite first_loop, outcome_bind_ret. exact Hr.
  - apply (at_object_frame _ cl st1); [done| |].
    + intros Ha'. eapply Forall_forall in Hge; [|done]. cbn in Hge. lia.
    + eexists. split; [by eapply extends_at|done].
  - apply Forall_app. split; [eapply Forall_impl; [exact Hge|auto]|].
    rewrite Forall_forall in Hge. destruct Hframe as [Hlen _].
    eapply Forall_impl; [exact Hin|]. cbn. intros y [Hy%Hge|?]; right; [done|lia].
  - apply Forall2_app; [|done]. apply Forall2_fmap_r. eapply Forall2_impl; [exact Hat|].
    intros x d (d' & Hd & ->). done.
Qed.
End search.

(** ** Every search returns *)
Section returns.
Context `{GoRange, DataOps}.

(** What [ValFind] finds is part of the value, and [ValGetAll] gives parts. *)
Definition finds_parts : Prop := ∀ v key cv, ValFind v key = Some cv → goval_size cv ≤ goval_size v.

Definition size_at (B : nat) : store → nat → Prop := at_object (λ c, goval_size (c_Value c) ≤ B).

(** A step that returns on every object of bounded size, and leaves it bounded. *)
Definition total_step (f : store → nat → outcome error (store * list nat)) (B : nat) : Prop :=
  ∀ st a, size_at B st a → ∃ st' l, f st a = Ok (st', l) ∧ frame [a] st st' ∧ size_at B st' a.

Lemma for_each_total f B st cl rpath :
  total_step f B → NoDup cl → Forall (size_at B st) cl →
  ∃ st' l, for_each f st cl rpath = Ok (st', l) ∧ frame cl st st' ∧ Forall (size_at B st') cl.
Proof.
  intros Hf Hnd. revert st rpath. induction Hnd as [|x cl Hx Hnd IH]; intros st rpath Hcl.
  { exists st, rpath. split; [done|]. split; [apply frame_refl|done]. }
  apply Forall_cons in Hcl as [HB Hcl]. destruct (Hf st x HB) as (st1 & l1 & Hr & Hframe1 & Hat).
  destruct (IH st1 (rpath ++ l1)) as (st2 & l2 & Hr2 & Hframe2 & Hat2).
  { rewrite Forall_forall in Hcl |- *. intros y Hy. eapply at_object_frame; [done| |by apply Hcl]. set_solver. }
  exists st2, l2. cbn [for_each]. rewrite Hr, outcome_bind_ret. split; [done|]. split.
  - eapply frame_then; [done..|set_solver].
  - constructor; [|done]. by eapply at_object_frame.
Qed.

Lemma deref_size v : goval_size (deref v) ≤ goval_size v.
Proof.
  induction v as [|s o IH|o IH|n fields _|es _|l _|text] using goval_induction; cbn; try lia.
  - destruct o as [x|]; [pose proof (IH x eq_refl)|]; cbn; lia.
  - destruct o as [x|]; [pose proof (IH x eq_refl)|]; cbn; lia.
Qed.

(** The children an object gets are smaller than it. *)
Lemma visits_total v r st a c key prefix :
  st !! a = Some c → visits v r st a (children v key prefix) → goval_size v ≤ goval_size (c_Value c) →
  ∃ st1 cl, r = (st1, cl, negb (length cl =? 0)) ∧ frame [a] st st1 ∧ NoDup cl ∧
    Forall (λ y, length st ≤ y) cl ∧ Forall (size_at (pred (goval_size (c_Value c))) st1) cl ∧
    size_at (goval_size (c_Value c)) st1 a.
Proof.
  intros Ha (st1 & cl & -> & Hext & Hnd & Hge & Hcl) Hv. exists st1, cl. split; [done|].
  split; [by eapply extends_frame|]. split; [done|]. split; [done|]. split.
  - apply Forall_forall. intros y Hy. apply list_elem_of_lookup in Hy as [i Hi].
    destruct (Forall2_lookup_l _ _ _ _ _ Hcl Hi) as (d & Hd%list_elem_of_lookup_2 & Hy). exists d.
    split; [done|]. apply children_size in Hd. lia.
  - eexists. split; [by eapply extends_at|]. cbn. pose proof (deref_size v). lia.
Qed.

Lemma findChildren_total st a c key :
  finds_parts → st !! a = Some c →
  ∃ st1 cl, findChildren st a key = (st1, cl, negb (length cl =? 0)) ∧ frame [a] st st1 ∧ NoDup cl ∧
    Forall (λ y, length st ≤ y) cl ∧ Forall (size_at (goval_size (c_Value c)) st1) cl ∧
    size_at (goval_size (c_Value c)) st1 a.
Proof.
  intros Hparts Ha. unfold findChildren, read. rewrite Ha. cbn [default from_option id].
  assert (size_at (goval_size (c_Value c)) st a) as Hc by by exists c.
  destruct (ValFind (c_Value c) key) as [cv|] eqn:Hcv;
    [apply Hparts in Hcv|exists st, []; repeat split; try done; constructor].
  destruct (is_valid cv); cbn [negb]; [|exists st, []; repeat split; try done; constructor].
  destruct (IsValMap cv).
  - pose proof (set_value_eq st a cv c Ha) as Ha'.
    destruct (visits_total _ _ _ _ _ _ _ Ha' (getAllChildren_spec _ _ _ key Ha'))
      as (st1 & cl & -> & [Hlen Hsame] & Hnd & Hge & Hcl & Hat); [done|]. cbn [c_Value] in *.
    rewrite set_value_length in *. exists st1, cl. split; [done|]. split.
    { split; [done|]. intros i Hi Hni. rewrite Hsame by done. apply set_value_ne. set_solver. }
    split; [done|]. split; [done|]. split.
    + eapply Forall_impl; [exact Hcl|]. intros y (d & Hd & ?). exists d. split; [done|]. lia.
    + destruct Hat as (d & Hd & ?). exists d. split; [done|]. lia.
  - cbn [alloc]. set (d := mkCell cv _). exists (st ++ [d]), [length st]. split; [done|].
    assert (frame [a] st (st ++ [d])) as Hframe.
    { split; [rewrite length_app; lia|]. intros i Hi _. by apply lookup_app_l. }
    split; [done|]. split; [apply NoDup_singleton|]. split; [by repeat constructor|]. split.
    + constructor; [|done]. exists d. split; [|done]. rewrite lookup_app_r by lia. by rewrite Nat.sub_diag.
    + exists c. split; [by apply lookup_app_l_Some|done].
Qed.

Lemma findAllData_total fuel elems B :
  finds_parts → B + length elems < fuel → total_step (λ st a, findAllData fuel st a elems) B.
Proof.
  intros Hparts. revert elems B. induction fuel as [|fuel IH]; intros elems B Hfuel st a (c & Ha & HB); [lia|].
  cbn [findAllData]. destruct elems as [|e elems].
  { exists st, [a]. split; [done|]. split; [apply frame_refl|by exists c]. }
  cbn [length] in Hfuel. unfold read at 1. rewrite Ha. cbn [default from_option id].
  destruct (IsValScalar (c_Value c)).
  { exists st, []. split; [done|]. split; [apply frame_refl|by exists c]. }
  assert (goval_size (c_Value c) ≠ 0) as Hpos by (destruct (c_Value c); cbn; lia).
  assert (∀ (st1 : store) cl, frame [a] st st1 → Forall (λ y, length st ≤ y) cl → size_at (goval_size (c_Value c)) st1 a →
    ∀ st', frame cl st1 st' → frame [a] st st' ∧ size_at B st' a) as Hdone.
  { intros st1 cl Hframe Hge Hat st' Hframe'. split; [by eapply frame_fresh|].
    apply (at_object_frame _ cl st1); [done| |].
    - intros Ha'. eapply Forall_forall in Hge; [|done]. apply lookup_lt_Some in Ha. cbn in Hge. lia.
    - destruct Hat as (d & Hd & ?). exists d. split; [done|]. lia. }
  case_bool_decide; [|case_bool_decide].
  - destruct (visits_total _ _ _ _ _ _ _ Ha (getAllChildren_spec _ _ _ "" Ha))
      as (st1 & cl & -> & Hframe & Hnd & Hge & Hcl & Hat); [done|].
    destruct cl as [|x cl]; [exists st1, []; split; [done|]; eapply Hdone; eauto using frame_refl|].
    cbn [length Nat.eqb negb].
    destruct (for_each_total _ _ st1 (x :: cl) [] (IH elems (pred (goval_size (c_Value c))) ltac:(lia)) Hnd Hcl)
      as (st' & l & -> & Hframe' & _). exists st', l. split; [done|]. by eapply Hdone.
  - destruct (visits_total _ _ _ _ _ _ _ Ha (getAllChildren_spec _ _ _ "" Ha))
      as (st1 & cl & -> & Hframe & Hnd & Hge & Hcl & Hat); [done|].
    destruct cl as [|x cl]; [exists st1, []; split; [done|]; eapply Hdone; eauto using frame_refl|].
    cbn [length Nat.eqb negb]. remember (x :: cl) as cl' eqn:Hcleq.
    destruct (for_each_total _ _ st1 cl' [] (IH elems (pred (goval_size (c_Value c))) ltac:(lia)) Hnd Hcl)
      as (st2 & l & -> & Hframe2 & Hcl2). rewrite outcome_bind_ret.
    destruct (for_each_total _ _ st2 cl' l (IH (e :: elems) (pred (goval_size (c_Value c))) ltac:(cbn; lia)) Hnd Hcl2)
      as (st3 & l3 & -> & Hframe3 & _). exists st3, l3. split; [done|]. eapply Hdone; [done..|].
    eapply frame_then; [done..|set_solver].
  - destruct (findChildren_total st a c (elem_key e) Hparts Ha) as (st1 & cl & -> & Hframe & Hnd & Hge & Hcl & Hat).
    destruct cl as [|x cl]; [exists st1, []; split; [done|]; eapply Hdone; eauto using frame_refl|].
    cbn [length Nat.eqb negb].
    destruct (for_each_total _ _ st1 (x :: cl) [] (IH elems (goval_size (c_Value c)) ltac:(lia)) Hnd Hcl)
      as (st' & l & -> & Hframe' & _). exists st', l. split; [done|]. by eapply Hdone.
Qed.
End returns.

(** ** Results *)
Section results.
Context `{GoRange, DataOps}.

(** The results of a search, from the objects found. *)
Definition results (cs : list cell) (text : list string → string) : list DataAndPath :=
  cs ≫= (λ c, if CanInterface (c_Value c) then [mkData (c_Value c) (text (c_Key c))] else []).

Lemma read_results_held st l cs text :
  Forall2 (λ y d, st !! y = Some d) l cs → read_results st l text = results cs text.
Proof.
  unfold read_results, results. induction 1 as [|y d l cs Hy Hl IH]; [done|]. cbn. rewrite IH.
  unfold read. by rewrite Hy.
Qed.

Lemma ToXPath_empty : ToXPath (Some EmptyGNMIPath) = "".
Proof. done. Qed.

Lemma elem_of_results cs text d :
  d ∈ results cs text ↔ ∃ c, c ∈ cs ∧ CanInterface (c_Value c) = true ∧ d = mkData (c_Value c) (text (c_Key c)).
Proof.
  unfold results. rewrite list_elem_of_bind. split.
  - intros (c & Hd & Hc). destruct (CanInterface (c_Value c)) eqn:?; set_solver.
  - intros (c & Hc & Hi & ->). exists c. rewrite Hi. set_solver.
Qed.

Lemma deref_not_GoStruct v : is_GoStruct (deref v) = false.
Proof.
  induction v as [|s o IH|o IH|n fields _|es _|l _|text] using goval_induction; try done; cbn;
    (destruct o as [x|]; [by apply IH|done]).
Qed.

Lemma deep_settled fuel c d : d ∈ deep fuel c → IsValScalar (c_Value d) = true ∨ is_GoStruct (c_Value d) = false.
Proof.
  revert c. induction fuel as [|fuel IH]; intros c; cbn [deep]; [set_solver|].
  destruct (IsValScalar (c_Value c)); [set_solver|].
  intros [(e & -> & He)%list_elem_of_fmap|(e & He & _)%list_elem_of_bind]%elem_of_app; [|by eapply IH].
  unfold settle. destruct (IsValScalar (c_Value e)) eqn:Hs; [by left|right]. apply deref_not_GoStruct.
Qed.
End results.

(** ** Whole searches *)
Section find.
Context `{GoRange, DataOps, GoSort}.

Lemma Find_total (mo : MO) base p opts fuel :
  finds_parts → goval_size base + length (elems p) < fuel → ∃ r ok, Find mo fuel base p opts = Ok (r, ok).
Proof.
  intros Hparts Hfuel. unfold Find. destruct (FindSchemaByType mo _) as [e|]; [|by eexists _, _].
  destruct (elems p) as [|x l] eqn:Hl; [by eexists _, _|].
  destruct (check_elems _ _); cbn [negb]; [|by eexists _, _].
  destruct (findAllData_total fuel (x :: l) (goval_size base) Hparts Hfuel [mkCell base [""]] 0)
    as (st & founds & -> & _); [by eexists|].
  rewrite outcome_bind_ret. destruct (length founds =? 0); by eexists _, _.
Qed.

Lemma find_fuel_enough base p : goval_size base + length (elems p) < find_fuel base p.
Proof. unfold find_fuel. lia. Qed.

Lemma list_targets_total (mo : MO) opts targets children :
  finds_parts → ∃ l, list_targets mo opts targets children = Ok l.
Proof.
  intros Hparts. revert opts children. induction targets as [|t targets IH]; intros opts children; [by eexists|].
  cbn [list_targets]. destruct (is_GoStruct (dp_Value t)); [|apply IH]. cbn zeta.
  destruct (Find_total mo (dp_Value t) (Some WildcardGNMIPathDot3)
    (replaceAddFakePrefix opts (AddFakePrefix (match ToGNMIPath (dp_Path t) with Ok p => Some p | _ => None end))) _
    Hparts (find_fuel_enough _ _)) as (r & ok & ->). rewrite outcome_bind_ret. apply IH.
Qed.

(** A search without "..." gives what [select] finds. *)
Lemma Find_no_dots (mo : MO) base p e fuel :
  FindSchemaByType mo (type_of base) = Some e → elems (Some p) ≠ [] → no_dots (elems (Some p)) →
  check_elems (ep_node e) (elems (Some p)) = true → length (elems (Some p)) < fuel →
  let cs := select (elems (Some p)) (mkCell base [""]) in
  Find mo fuel base (Some p) [] = Ok (results cs (λ key, Join key "/"), negb (length cs =? 0)).
Proof.
  intros He Hne Hdots Hcheck Hfuel. cbn zeta.
  destruct (findAllData_select fuel (elems (Some p)) Hdots Hfuel [mkCell base [""]] 0 (mkCell base [""]))
    as (st & l & Hr & _ & _ & _ & Hl); [done..|].
  pose proof (read_results_held _ _ _ (λ key, Join key "/") Hl) as Hres.
  pose proof (Forall2_length _ _ _ Hl) as Hlen.
  unfold Find. rewrite He. cbn [hasAddFakePrefix hasFindAndSort existsb]. rewrite ToXPath_empty.
  destruct (elems (Some p)) as [|x rest]; [done|]. rewrite Hcheck, Hr, !outcome_bind_ret. cbn [negb].
  assert (read_results st l (λ key, if bool_decide ("" = "/") then Join key "/" else "" +:+ Join key "/")
          = read_results st l (λ key, Join key "/")) as -> by done.
  rewrite Hres, Hlen. by destruct (select _ _).
Qed.
End find.

(** ** Theorems *)

(** A device with an interface and a group that repeats the list. *)
Definition example_if (n : string) : goval :=
  VPtr (Some "Interface") (Some (VStruct "Interface" [
    ("Name", Some "name", VPtr None (Some (VScalar n)));
    ("Mtu", Some "mtu", VPtr None (Some (VScalar "1500")))])).

Definition example_root : goval :=
  VPtr (Some "Device") (Some (VStruct "Device" [
    ("Interfaces", Some "interfaces", VPtr (Some "Interfaces") (Some (VStruct "Interfaces" [
      ("Interface", Some "interface", VMap [example_if "eth0"]);
      ("Group", Some "group", VPtr (Some "Group") (Some (VStruct "Group" [
        ("Interface", Some "interface", VMap [example_if "eth1"])])))])))])).

(** A field by its tag, through pointers; the values below a value. *)
Fixpoint example_find (v : goval) (key : string) : option goval :=
  match v with
  | VPtr _ (Some x) | VIface (Some x) => example_find x key
  | VStruct _ fields => snd <$> List.find (λ f, bool_decide (f.1.2 = Some key)) fields
  | _ => None
  end.

Fixpoint example_all (v : goval) : list goval :=
  match v with
  | VPtr _ (Some x) | VIface (Some x) => example_all x
  | VStruct _ fields => snd <$> fields
  | VMap l | VSlice l => l
  | _ => []
  end.

Definition example_ops : DataOps := {|
  ValFind := example_find;
  IsValMap := kind_vmap;
  IsValScalar := λ v, match v with VScalar _ | VPtr None _ => true | _ => false end;
  ValGetAll := λ v, (example_all v, negb (length (example_all v) =? 0));
  ListKeyMap := λ v,
    match example_find v "name" with
    | Some (VPtr _ (Some (VScalar n))) => Some {["name" := n]}
    | _ => None
    end;
  CanInterface := is_valid
|}.

Lemma example_finds_parts : @finds_parts example_ops.
Proof.
  intros v key cv. cbn [ValFind example_ops].
  induction v as [|s o IH|o IH|n fields _|es _|l _|text] using goval_induction; cbn; try done.
  - destruct o as [x|]; [|done]. intros Hc. apply (IH x eq_refl) in Hc. lia.
  - destruct o as [x|]; [|done]. intros Hc. apply (IH x eq_refl) in Hc. lia.
  - destruct (List.find _ fields) as [f|] eqn:Hf; [|done]. intros [= <-].
    apply List.find_some in Hf as [Hf%list_elem_of_In _].
    apply (sum_list_with_elem (λ f, goval_size f.2)) in Hf. lia.
Qed.

Definition names_path (l : list string) : Path := mkPath "" None (Some ((λ n, mkElem n None) <$> l)) "".

Definition example_data_mo : MO :=
  mkMO {["Device" := mkPtr (mkEntry "device" "" [("interfaces", mkEntry "interfaces" "" [
          ("interface", example_list_entry); ("group", mkEntry "group" "" [("interface", example_list_entry)])])]) []]}
    (Some (TPtr (TStruct "Device" []))).


Definition identity_sort : GoSort := {| sort_by_path := λ l, l; sort_by_path_perm := λ l, Permutation_refl l |}.


(** C15. Without "..." in the path, the search that overwrites its objects gives
    what a search on immutable values gives: on a base whose schema has the
    names of the path, Find and FindAllData both return the objects that
    select finds, with their paths, in the same order. *)
Theorem Find_select `{GoRange, DataOps, GoSort} (mo : MO) (base : goval) (p : Path) (e : EntryPtr) (fuel : nat) :
  FindSchemaByType mo (type_of base) = Some e → elems (Some p) ≠ [] → no_dots (elems (Some p)) →
  check_elems (ep_node e) (elems (Some p)) = true → length (elems (Some p)) < fuel →
  let cs := select (elems (Some p)) (mkCell base [""]) in
  let r := results cs (λ key, Join key "/") in
  Find mo fuel base (Some p) [] = Ok (r, negb (length cs =? 0)) ∧
  FindAllData fuel base (Some p) = Ok (r, negb (length r =? 0)).
Proof.
  intros He Hne Hdots Hcheck Hfuel. cbn zeta. split; [by apply (Find_no_dots mo base p e)|].
  destruct (findAllData_select fuel (elems (Some p)) Hdots Hfuel [mkCell base [""]] 0 (mkCell base [""]))
    as (st & l & Hr & _ & _ & _ & Hl); [done..|].
  unfold FindAllData. destruct (elems (Some p)) as [|x rest]; [done|]. rewrite Hr, outcome_bind_ret.
  rewrite (Forall2_length _ _ _ Hl), (read_results_held _ _ _ _ Hl). by destruct (select _ _).
Qed.

Lemma Find_select_witness :
  let p := names_path ["*"; "interface"; "mtu"] in
  let cs := @select canonical_range example_ops (elems (Some p)) (mkCell example_root [""]) in
  let r := @results example_ops cs (λ key, Join key "/") in
  @Find canonical_range example_ops identity_sort example_data_mo 9 example_root (Some p) [] = Ok (r, negb (length cs =? 0)) ∧
  @FindAllData canonical_range example_ops 9 example_root (Some p) = Ok (r, negb (length r =? 0)).
Proof.
  refine (@Find_select canonical_range example_ops identity_sort example_data_mo example_root
            (names_path ["*"; "interface"; "mtu"]) _ 9 eq_refl _ _ eq_refl _).
  - discriminate.
  - repeat (constructor; [discriminate|]). constructor.
  - vm_compute. lia.
Defined.

(** The search for "..." hands out dereferenced structs: every result of
    Find for the path "..." is a scalar or a value that is not a pointer to a
    struct, because the second loop follows the pointer in each object the
    first loop has already returned; the type assertion to ygot.GoStruct fails
    on every container and list entry of the result. *)
Theorem Find_dots_dereferences `{GoRange, DataOps, GoSort} (mo : MO) (base : goval) (opts : list FindOption) (fuel : nat) :
  S (goval_size base) < fuel →
  ∃ r ok, Find mo fuel base (Some WildcardGNMIPathDot3) opts = Ok (r, ok) ∧
    ∀ d, d ∈ r → IsValScalar (dp_Value d) = true ∨ is_GoStruct (dp_Value d) = false.
Proof.
  intros Hfuel. unfold Find. destruct (FindSchemaByType mo _) as [e|]; [|by exists [], false; split; [|set_solver]].
  set (prefix := ToXPath _).
  change (elems (Some WildcardGNMIPathDot3)) with dots. unfold dots at 1. cbn [check_elems is_wild pe_Name negb].
  destruct (findAllData_dots fuel [mkCell base [""]] 0 (mkCell base [""])) as (st & l & Hr & _ & _ & _ & Hl);
    [done..|]. change [mkElem "..." None] with dots. rewrite Hr, outcome_bind_ret.
  destruct (length l =? 0); [by exists [], false; split; [|set_solver]|].
  eexists _, true. split; [done|]. intros d Hd.
  assert (d ∈ read_results st l (λ key, if bool_decide (prefix = "/") then Join key "/" else prefix +:+ Join key "/")) as Hin.
  { destruct (hasFindAndSort opts); [|done]. by rewrite <-(sort_by_path_perm (read_results _ _ _)). }
  rewrite (read_results_held _ _ _ _ Hl) in Hin.
  apply elem_of_results in Hin as (c & Hc & _ & ->). by eapply deep_settled.
Qed.

Lemma Find_dots_dereferences_witness :
  ∃ r ok, @Find canonical_range example_ops identity_sort example_data_mo 40 example_root (Some WildcardGNMIPathDot3) [] = Ok (r, ok) ∧
    ∀ d, d ∈ r → @IsValScalar example_ops (dp_Value d) = true ∨ is_GoStruct (dp_Value d) = false.
Proof. apply (@Find_dots_dereferences canonical_range example_ops identity_sort). vm_compute. lia. Defined.

(** The overwriting loses results: for "..." followed by the name of a
    list, the two searches of the package differ.  On a container that holds
    the list and a group with the same list, FindAllDataNodes finds both
    entries; FindAllData replaces the container by its list when it looks up
    the name, so it never reaches the group. *)
Theorem FindAllData_dots_misses :
  let path := Some (names_path ["..."; "interface"]) in
  @FindAllDataNodes canonical_range example_ops 40 example_root path =
    Ok ([example_if "eth0"; example_if "eth1"], true) ∧
  @FindAllData canonical_range example_ops 40 example_root path =
    Ok ([mkData (example_if "eth0") "/interfaces/interface[name=eth0]"], true).
Proof. split; vm_compute; reflexivity. Qed.
