(* ===== verification/Gtrie.v ===== *)
(** * Gtrie: the interface of the string-keyed tries

    [github.com/neoul/gtrie] is not part of the repository.  The class [Gtrie]
    lists the methods the code calls, and states what they promise through
    [entries], the map a trie denotes: [Find], [Add], [Remove], [Size] are the
    map operations, [All("")] is the whole map, and [All], [FindAll] and
    [PrefixSearch] give entries of the trie.  Nothing is assumed about which
    entries [FindAll] selects for a key. *)

From S2P Require Export GoStrings Prelude.

Class Gtrie := {
  trie : Type → Type;
  trie_New : ∀ {A}, trie A;
  trie_Find : ∀ {A}, trie A → string → option A;
  trie_Add : ∀ {A}, trie A → string → A → trie A;
  trie_Remove : ∀ {A}, trie A → string → trie A;
  trie_Size : ∀ {A}, trie A → nat;
  trie_All : ∀ {A}, trie A → string → gmap string A;
  trie_FindAll : ∀ {A}, trie A → string → gmap string A;
  trie_PrefixSearch : ∀ {A}, trie A → string → list string;
  entries : ∀ {A}, trie A → gmap string A;
  entries_New : ∀ {A}, entries (trie_New (A:=A)) = ∅;
  trie_Find_entries : ∀ {A} (t : trie A) k, trie_Find t k = entries t !! k;
  entries_Add : ∀ {A} (t : trie A) k v, entries (trie_Add t k v) = <[k := v]> (entries t);
  entries_Remove : ∀ {A} (t : trie A) k, entries (trie_Remove t k) = delete k (entries t);
  trie_Size_entries : ∀ {A} (t : trie A), trie_Size t = size (entries t);
  trie_All_entries : ∀ {A} (t : trie A), trie_All t "" = entries t;
  trie_All_part : ∀ {A} (t : trie A) k, trie_All t k ⊆ entries t;
  trie_FindAll_part : ∀ {A} (t : trie A) k, trie_FindAll t k ⊆ entries t;
  trie_PrefixSearch_part : ∀ {A} (t : trie A) p k,
    k ∈ trie_PrefixSearch t p → is_Some (entries t !! k) ∧ HasPrefix k p = true
}.

#[export] Hint Rewrite @entries_New @trie_Find_entries @entries_Add @entries_Remove @trie_Size_entries
  @trie_All_entries : gnxi.

(** ** A trie that is a map: the interface can be met *)

(** The entries with a prefix, and the entries whose key is a prefix of the
    key or has it as a prefix. *)
Definition map_All {A} (t : gmap string A) (p : string) : gmap string A :=
  base.filter (λ kv, HasPrefix kv.1 p = true) t.

Definition map_FindAll {A} (t : gmap string A) (key : string) : gmap string A :=
  base.filter (λ kv, HasPrefix kv.1 key || HasPrefix key kv.1 = true) t.

Definition map_PrefixSearch {A} (t : gmap string A) (p : string) : list string :=
  (map_to_list (map_All t p)).*1.

Lemma HasPrefix_empty s : HasPrefix s "" = true.
Proof. unfold HasPrefix. by destruct s. Qed.

Lemma map_All_empty {A} (t : gmap string A) : map_All t "" = t.
Proof. apply map_filter_id. intros k v _. apply HasPrefix_empty. Qed.

Lemma map_All_part {A} (t : gmap string A) p : map_All t p ⊆ t.
Proof. apply map_filter_subseteq. Qed.

Lemma map_FindAll_part {A} (t : gmap string A) k : map_FindAll t k ⊆ t.
Proof. apply map_filter_subseteq. Qed.

Lemma map_PrefixSearch_part {A} (t : gmap string A) p k :
  k ∈ map_PrefixSearch t p → is_Some (t !! k) ∧ HasPrefix k p = true.
Proof.
  intros ([k' v] & -> & Hin)%list_elem_of_fmap. apply elem_of_map_to_list in Hin.
  apply map_lookup_filter_Some in Hin as [Ht Hp]. by eauto.
Qed.

Definition map_trie : Gtrie := {|
  trie := λ A, gmap string A;
  trie_New := λ A, ∅;
  trie_Find := λ A t k, t !! k;
  trie_Add := λ A t k v, <[k := v]> t;
  trie_Remove := λ A t k, delete k t;
  trie_Size := λ A t, size t;
  trie_All := λ A t p, map_All t p;
  trie_FindAll := λ A t p, map_FindAll t p;
  trie_PrefixSearch := λ A t p, map_PrefixSearch t p;
  entries := λ A t, t;
  entries_New := λ A, eq_refl;
  trie_Find_entries := λ A t k, eq_refl;
  entries_Add := λ A t k v, eq_refl;
  entries_Remove := λ A t k, eq_refl;
  trie_Size_entries := λ A t, eq_refl;
  trie_All_entries := λ A t, map_All_empty t;
  trie_All_part := λ A t k, map_All_part t k;
  trie_FindAll_part := λ A t k, map_FindAll_part t k;
  trie_PrefixSearch_part := λ A t p k, map_PrefixSearch_part t p k
|}.

Section parts.
Context `{Gtrie} {A : Type}.
Implicit Types t : trie A.

Lemma FindAll_lookup t key k v : trie_FindAll t key !! k = Some v → entries t !! k = Some v.
Proof. intros Hk. eapply lookup_weaken; [exact Hk|apply trie_FindAll_part]. Qed.
End parts.
