(* ===== verification/StateSync.v ===== *)
(** * StateSync: which data to refresh before a read

    Models [gnmi/model/get.go].  The external system registers the schema paths
    whose data it only pushes on request.  Every such path gets a trie of the
    data paths that exist below it; a schema node knows the tries of the
    registered paths above and below it.  Tries are shared between nodes, so
    they live in a store and are referred to by their address; a node is
    identified by its location in the schema tree. *)

From Stdlib Require Import Ascii.
From S2P Require Export Schema Gtrie.

Record stateSyncCtrl : Type := mkCtrl { pathtrees : list nat; syncRequired : bool }.

Section statesync.
Context `{GoRange, ProtoClone, Gtrie}.

(** The fields of [Model] the functions use; [UpdateSyncPath] is what the
    external system answers when the model is made. *)
Record SyncState : Type := mkSync {
  trees : list (trie bool);
  stateSyncPath : gmap (list string) stateSyncCtrl;
  stateSyncSchemaPath : trie nat
}.

(** A node that is not in the map gets a fresh control first. *)
Definition add_tree (loc : list string) (tree : nat) (ctrls : gmap (list string) stateSyncCtrl)
    : gmap (list string) stateSyncCtrl :=
  let s := default (mkCtrl [] false) (ctrls !! loc) in
  <[loc := mkCtrl (pathtrees s ++ [tree]) (syncRequired s)]> ctrls.

Fixpoint addStateSyncSchema (entry : Entry) (loc : list string) (tree : nat)
    (ctrls : gmap (list string) stateSyncCtrl) : gmap (list string) stateSyncCtrl :=
  match entry with
  | mkEntry _ _ dir =>
      foldl (λ ctrls nc, addStateSyncSchema nc.2 (loc ++ [nc.1]) tree (add_tree (loc ++ [nc.1]) tree ctrls))
        ctrls dir
  end.

(** The loop over the ancestors of the node. *)
Fixpoint add_parents (up : list (string * Entry)) (tree : nat)
    (ctrls : gmap (list string) stateSyncCtrl) : gmap (list string) stateSyncCtrl :=
  match up with
  | [] => ctrls
  | (_, e) :: up => add_parents up tree (add_tree (ptr_loc (mkPtr e up)) tree ctrls)
  end.

(** One registered path: the control of the node itself is replaced. *)
Definition add_sync_path (p : string) (entry : EntryPtr) (st : SyncState) : SyncState :=
  let pathtree := length (trees st) in
  let ctrls := <[ptr_loc entry := mkCtrl [pathtree] true]> (stateSyncPath st) in
  let ctrls := add_parents (ep_up entry) pathtree ctrls in
  let ctrls := addStateSyncSchema (ep_node entry) (ptr_loc entry) pathtree ctrls in
  mkSync (trees st ++ [trie_New]) ctrls (trie_Add (stateSyncSchemaPath st) p pathtree).

Fixpoint init_loop (m : SchemaModel) (paths : list string) (st : SyncState) : outcome error SyncState :=
  match paths with
  | [] => mret st
  | p :: paths =>
      entry ← FindSchemaByXPath (m_MO m) p;
      match entry with
      | None => init_loop m paths st
      | Some entry => init_loop m paths (add_sync_path p entry st)
      end
  end.

Definition initStateSync (m : SchemaModel) (UpdateSyncPath : list string) : outcome error SyncState :=
  init_loop m UpdateSyncPath (mkSync [] ∅ trie_New).

(** [syncctrl.pathtrees[0]] panics on an empty list. *)
Definition update_sync_path (f : trie bool → trie bool) (st : SyncState) (entry : option EntryPtr)
    : outcome error SyncState :=
  match entry with
  | None => mret st
  | Some entry =>
      match stateSyncPath st !! ptr_loc entry with
      | Some syncctrl =>
          if syncRequired syncctrl then
            match pathtrees syncctrl with
            | [] => Panic
            | n :: _ => mret (mkSync (alter f n (trees st)) (stateSyncPath st) (stateSyncSchemaPath st))
            end
          else mret st
      | None => mret st
      end
  end.

(** [m.StateSync] is nil when the system registered no callback: [None]. *)
Definition addStateSyncPath (m : option SyncState) (entry : option EntryPtr) (path : string)
    : outcome error (option SyncState) :=
  match m with
  | None => mret None
  | Some st => Some <$> update_sync_path (λ n, trie_Add n path true) st entry
  end.

Definition deleteStateSyncPath (m : option SyncState) (entry : option EntryPtr) (path : string)
    : outcome error (option SyncState) :=
  match m with
  | None => mret None
  | Some st => Some <$> update_sync_path (λ n, trie_Remove n path) st entry
  end.

(** ** Requests *)

(** The keys [FindAll] gives in the order they are visited. *)
Definition found_keys (st : SyncState) (tree : nat) (key : string) : list string :=
  (go_range (trie_FindAll (default trie_New (trees st !! tree)) key)).*1.

(** A schema path: every data path below the registered paths that match. *)
Definition sync_schema (st : SyncState) (s : string) : list string :=
  go_range (trie_FindAll (stateSyncSchemaPath st) s) ≫= (λ kt, found_keys st kt.2 "").

(** A data path: the tries of its schema node. *)
Definition sync_data (m : SchemaModel) (st : SyncState) (s : string) : outcome error (list string) :=
  entry ← FindSchemaByXPath (m_MO m) s;
  mret (match entry with
        | None => []
        | Some entry =>
            match stateSyncPath st !! ptr_loc entry with
            | None => []
            | Some syncnode => pathtrees syncnode ≫= (λ pathtree, found_keys st pathtree s)
            end
        end).

(** The calls to [UpdateSync], and the result. *)
Definition request (syncpath : list string) : list (list string) * bool :=
  if 0 <? length syncpath then ([syncpath], true) else ([], false).

Definition sync_paths (m : SchemaModel) (st : SyncState) (prefix path : option Path)
    : outcome error (list string) :=
  fullpath ← GNMIFullPath prefix path;
  let isSchemaPath := IsSchemaPath fullpath in
  strpath ← FindPaths m fullpath;
  append_all (λ s, if isSchemaPath then mret (sync_schema st s) else sync_data m st s) strpath.

Definition RequestStateSync (m : SchemaModel) (sync : option SyncState) (prefix : option Path)
    (paths : list (option Path)) : outcome error (list (list string) * bool) :=
  match sync with
  | None => mret ([], false)
  | Some st => syncpath ← append_all (sync_paths m st prefix) paths; mret (request syncpath)
  end.

(** The variant for subscription lists.  The index of its inner loop hides the
    outer one: the [i]-th trie is searched with the [i]-th path text. *)
Fixpoint sync_data_list (st : SyncState) (strpath : list string) (i : nat) (pathtrees : list nat)
    : outcome error (list string) :=
  match pathtrees with
  | [] => mret []
  | pathtree :: pathtrees =>
      match strpath !! i with
      | None => Panic
      | Some s => rs ← sync_data_list st strpath (S i) pathtrees; mret (found_keys st pathtree s ++ rs)
      end
  end.

Definition sync_paths_list (m : SchemaModel) (st : SyncState) (prefix path : option Path)
    : outcome error (list string) :=
  fullpath ← GNMIFullPath prefix path;
  let isSchemaPath := IsSchemaPath fullpath in
  strpath ← FindPaths m fullpath;
  append_all (λ s,
    if isSchemaPath then mret (sync_schema st s)
    else
      entry ← FindSchemaByXPath (m_MO m) s;
      match entry with
      | None => mret []
      | Some entry =>
          match stateSyncPath st !! ptr_loc entry with
          | None => mret []
          | Some syncnode => sync_data_list st strpath 0 (pathtrees syncnode)
          end
      end) strpath.

(** The prefix of the list and the paths of its subscriptions. *)
Definition RequestStateSyncBySubscriptionList (m : SchemaModel) (sync : option SyncState)
    (Prefix : option Path) (Subscription : list (option Path)) : outcome error (list (list string) * bool) :=
  match sync with
  | None => mret ([], false)
  | Some st => syncpath ← append_all (sync_paths_list m st Prefix) Subscription; mret (request syncpath)
  end.
End statesync.
