(* ===== verification/StateSyncSpec.v ===== *)
(** * StateSyncSpec: the theorems on the state synchronisation *)

From Stdlib Require Import Ascii Lia.
From S2P Require Export TypeSearchSpec StateSync.

Section statesync.
Context `{GoRange, ProtoClone, Gtrie}.

(** ** The controls *)

(** Every control refers to tries that exist, and to at least one. *)
Definition sync_ok (st : SyncState) : Prop :=
  map_Forall (λ _ c, pathtrees c ≠ [] ∧ Forall (λ a, a < length (trees st)) (pathtrees c)) (stateSyncPath st).

(** The controls while a path is registered: [n] tries so far, the new one included. *)
Definition ctrls_ok (n : nat) (ctrls : gmap (list string) stateSyncCtrl) : Prop :=
  map_Forall (λ _ c, pathtrees c ≠ [] ∧ Forall (λ a, a < n) (pathtrees c)) ctrls.

Lemma ctrls_ok_add_tree n loc tree ctrls : tree < n → ctrls_ok n ctrls → ctrls_ok n (add_tree loc tree ctrls).
Proof.
  intros Ht Hok. apply map_Forall_insert_2; [|done]. cbn. split; [by destruct (pathtrees _)|].
  apply Forall_app. split; [|by repeat constructor].
  destruct (ctrls !! loc) as [c|] eqn:Hc; [|constructor]. by apply (Hok loc c).
Qed.

Lemma ctrls_ok_schema n e loc tree ctrls :
  tree < n → ctrls_ok n ctrls → ctrls_ok n (addStateSyncSchema e loc tree ctrls).
Proof.
  intros Ht. revert loc ctrls. induction e as [nm k dir IH] using Entry_induction. intros loc ctrls Hok.
  cbn [addStateSyncSchema]. revert ctrls Hok. induction IH as [|nc dir Hnc _ IH]; intros ctrls Hok; [done|].
  cbn [foldl]. by apply IH, Hnc, ctrls_ok_add_tree.
Qed.

Lemma ctrls_ok_parents n up tree ctrls : tree < n → ctrls_ok n ctrls → ctrls_ok n (add_parents up tree ctrls).
Proof.
  intros Ht. revert ctrls. induction up as [|[nm e] up IH]; intros ctrls Hok; [done|].
  cbn [add_parents]. by apply IH, ctrls_ok_add_tree.
Qed.

Lemma sync_ok_add p entry st : sync_ok st → sync_ok (add_sync_path p entry st).
Proof.
  intros Hok. unfold sync_ok, add_sync_path. cbn [trees stateSyncPath]. rewrite length_app. cbn [length].
  apply ctrls_ok_schema, ctrls_ok_parents; [lia..|]. apply map_Forall_insert_2; [|].
  - split; [done|]. repeat constructor. lia.
  - intros loc c [Hne Hc]%Hok. split; [done|]. eapply Forall_impl; [exact Hc|]. cbn. lia.
Qed.

(** No data path is known yet. *)
Definition trees_empty (st : SyncState) : Prop := Forall (λ t, entries t = ∅) (trees st).

Lemma init_loop_ok m paths st st' :
  init_loop m paths st = Ok st' → sync_ok st → trees_empty st → sync_ok st' ∧ trees_empty st'.
Proof.
  revert st. induction paths as [|p paths IH]; intros st; cbn [init_loop]; intros Hr Hok He; [by simplify_outcome|].
  apply outcome_bind_Ok in Hr as ([entry|] & _ & Hr); [|by eapply IH].
  eapply IH; [exact Hr|by apply sync_ok_add|].
  apply Forall_app. split; [done|]. repeat constructor. apply entries_New.
Qed.

Lemma initStateSync_ok m paths st : initStateSync m paths = Ok st → sync_ok st ∧ trees_empty st.
Proof. intros Hr. eapply init_loop_ok; [exact Hr| |by constructor]. apply map_Forall_empty. Qed.

(** ** Updates from the system *)

(** The part of a model update that concerns the synchronisation. *)
Inductive sync_op : Type := SCreate (path : string) | SDelete (path : string).

Definition op_path (op : sync_op) : string := match op with SCreate p | SDelete p => p end.

Definition run_op (m : SchemaModel) (sync : option SyncState) (op : sync_op) : outcome error (option SyncState) :=
  entry ← FindSchemaByXPath (m_MO m) (op_path op);
  match op with
  | SCreate path => addStateSyncPath sync entry path
  | SDelete path => deleteStateSyncPath sync entry path
  end.

(** The updates, the first one first. *)
Fixpoint run_ops (m : SchemaModel) (sync : option SyncState) (ops : list sync_op)
    : outcome error (option SyncState) :=
  match ops with
  | [] => mret sync
  | op :: ops => sync ← run_op m sync op; run_ops m sync ops
  end.

(** The change an update makes to a trie. *)
Definition op_change (op : sync_op) (n : trie bool) : trie bool :=
  match op with SCreate p => trie_Add n p true | SDelete p => trie_Remove n p end.

Lemma run_op_inv m st op r :
  run_op m (Some st) op = Ok r →
  ∃ entry st', FindSchemaByXPath (m_MO m) (op_path op) = Ok entry ∧ r = Some st' ∧
    update_sync_path (op_change op) st entry = Ok st'.
Proof.
  intros Hr. apply outcome_bind_Ok in Hr as (entry & He & Hr). exists entry.
  destruct op as [q|q]; cbn [op_change addStateSyncPath deleteStateSyncPath] in *;
    (destruct (update_sync_path _ st entry) as [st'| | |]; [|done..]; exists st'; cbn in Hr; by simplify_outcome).
Qed.

(** The last update of a path created it; [b] is what was known before. *)
Fixpoint live (b : bool) (p : string) (ops : list sync_op) : bool :=
  match ops with
  | [] => b
  | SCreate q :: ops => live (bool_decide (q = p) || b) p ops
  | SDelete q :: ops => live (negb (bool_decide (q = p)) && b) p ops
  end.

(** A data path is recorded in a trie. *)
Definition recorded (st : SyncState) (p : string) : Prop :=
  ∃ a t, trees st !! a = Some t ∧ is_Some (entries t !! p).

(** The trie that records the data paths of an entry. *)
Definition own_tree (st : SyncState) (entry : option EntryPtr) (a : nat) : Prop :=
  ∃ e c, entry = Some e ∧ stateSyncPath st !! ptr_loc e = Some c ∧ syncRequired c = true ∧ head (pathtrees c) = Some a.

(** What is recorded is live, and recorded in the trie of its own entry only. *)
Definition records (m : SchemaModel) (known : string → bool) (st : SyncState) : Prop :=
  ∀ a t p, trees st !! a = Some t → is_Some (entries t !! p) →
    known p = true ∧ ∃ entry, FindSchemaByXPath (m_MO m) p = Ok entry ∧ own_tree st entry a.

(** An update changes the own trie of the entry, or nothing. *)
Lemma update_sync_path_cases f st entry st' :
  update_sync_path f st entry = Ok st' →
  (∃ n, own_tree st entry n ∧ st' = mkSync (alter f n (trees st)) (stateSyncPath st) (stateSyncSchemaPath st)) ∨
  (st' = st ∧ ∀ n, ¬ own_tree st entry n).
Proof.
  unfold update_sync_path. destruct entry as [e|]; [|intros; simplify_outcome; right; split; [done|]; by intros n (?&?&?&?)].
  destruct (stateSyncPath st !! ptr_loc e) as [c|] eqn:Hc.
  2: { intros; simplify_outcome. right. split; [done|]. intros n (? & ? & [= <-] & ? & _). congruence. }
  destruct (syncRequired c) eqn:Hs.
  2: { intros; simplify_outcome. right. split; [done|]. intros n (? & ? & [= <-] & Hc' & Hs' & _). congruence. }
  destruct (pathtrees c) as [|n l] eqn:Hp; [done|]. intros; simplify_outcome. left. exists n. split; [|done].
  exists e, c. by rewrite Hp.
Qed.

Lemma own_tree_unique st entry a b : own_tree st entry a → own_tree st entry b → a = b.
Proof. intros (e & c & -> & Hc & _ & Ha) (e' & c' & [= <-] & Hc' & _ & Hb). congruence. Qed.

Lemma own_tree_same st st' entry a : stateSyncPath st' = stateSyncPath st → own_tree st entry a → own_tree st' entry a.
Proof. intros Heq (e & c & ? & ? & ? & ?). exists e, c. by rewrite Heq. Qed.

Lemma run_op_records m known st op st' :
  run_op m (Some st) op = Ok (Some st') → records m known st → records m (λ p, live (known p) p [op]) st'.
Proof.
  intros (entry & st1 & He & [= <-] & Hr)%run_op_inv Hrec.
  destruct op as [q|q]; cbn [op_path op_change live] in *;
    apply update_sync_path_cases in Hr as [(n & Hn & ->)|[-> Hno]].
  - intros a t p. cbn [trees]. intros Ha Hp. destruct (decide (a = n)) as [->|Hne].
    + rewrite list_lookup_alter_eq in Ha. apply fmap_Some in Ha as (t0 & Ht0 & ->).
      cbn [op_change] in Hp. rewrite entries_Add in Hp. destruct (decide (p = q)) as [->|Hpq].
      * rewrite bool_decide_true by done. split; [done|]. exists entry. split; [done|]. by eapply own_tree_same.
      * rewrite lookup_insert_ne in Hp by done. destruct (Hrec _ _ _ Ht0 Hp) as (Hk & e & ? & ?).
        rewrite Hk, orb_true_r. split; [done|]. exists e. split; [done|]. by eapply own_tree_same.
    + rewrite list_lookup_alter_ne in Ha by done. destruct (Hrec _ _ _ Ha Hp) as (Hk & e & ? & ?).
      rewrite Hk, orb_true_r. split; [done|]. exists e. split; [done|]. by eapply own_tree_same.
  - intros a t p Ha Hp. destruct (Hrec _ _ _ Ha Hp) as (Hk & ?). by rewrite Hk, orb_true_r.
  - intros a t p. cbn [trees]. intros Ha Hp. destruct (decide (a = n)) as [->|Hne].
    + rewrite list_lookup_alter_eq in Ha. apply fmap_Some in Ha as (t0 & Ht0 & ->).
      cbn [op_change] in Hp. rewrite entries_Remove in Hp. destruct (decide (p = q)) as [->|Hpq];
        [rewrite lookup_delete_eq in Hp; by destruct Hp|].
      rewrite lookup_delete_ne in Hp by done. destruct (Hrec _ _ _ Ht0 Hp) as (Hk & e & ? & ?).
      rewrite Hk, bool_decide_false by done. split; [done|]. exists e. split; [done|]. by eapply own_tree_same.
    + rewrite list_lookup_alter_ne in Ha by done. destruct (Hrec _ _ _ Ha Hp) as (Hk & e & He' & Hown).
      rewrite Hk, bool_decide_false; [split; [done|]; exists e; split; [done|]; by eapply own_tree_same|].
      intros ->. rewrite He in He'. simplify_outcome. apply Hne. by eapply own_tree_unique.
  - intros a t p Ha Hp. destruct (Hrec _ _ _ Ha Hp) as (Hk & e & He' & Hown).
    rewrite Hk, bool_decide_false; [by eauto|]. intros ->. rewrite He in He'. simplify_outcome. by eapply Hno.
Qed.

Lemma run_ops_records m known st ops st' :
  run_ops m (Some st) ops = Ok (Some st') → records m known st → records m (λ p, live (known p) p ops) st'.
Proof.
  revert known st. induction ops as [|op ops IH]; intros known st; cbn [run_ops]; intros Hr Hrec; [by simplify_outcome|].
  apply outcome_bind_Ok in Hr as (r1 & Hr1 & Hr).
  destruct (run_op_inv _ _ _ _ Hr1) as (_ & st1 & _ & -> & _). pose proof (run_op_records _ _ _ _ _ Hr1 Hrec) as Hrec1.
  pose proof (IH _ _ Hr Hrec1) as Hrec2. intros a t p Ha Hp. destruct (Hrec2 a t p Ha Hp) as (Hk & ?).
  split; [|done]. by destruct op.
Qed.

(** An update of a well-formed state succeeds, and keeps it well formed. *)
Lemma update_sync_path_ok f st entry :
  sync_ok st → ∃ st', update_sync_path f st entry = Ok st' ∧ sync_ok st'.
Proof.
  intros Hok. unfold update_sync_path. destruct entry as [e|]; [|by exists st].
  destruct (stateSyncPath st !! ptr_loc e) as [c|] eqn:Hc; [|by exists st].
  destruct (syncRequired c); [|by exists st].
  destruct (Hok _ _ Hc) as [Hne _]. destruct (pathtrees c) as [|n l]; [done|].
  eexists. split; [done|]. unfold sync_ok. cbn [trees stateSyncPath]. by rewrite length_alter.
Qed.
End statesync.

(** ** Requests *)
Section requests.
Context `{GoRange, ProtoClone, Gtrie}.

Lemma found_keys_recorded st tree key p : p ∈ found_keys st tree key → recorded st p.
Proof.
  unfold found_keys. intros ([k v] & -> & Hin%elem_of_go_range)%list_elem_of_fmap.
  apply FindAll_lookup in Hin. cbn [fst]. destruct (trees st !! tree) as [t|] eqn:Ht.
  - exists tree, t. by split; [|eexists].
  - cbn in Hin. by rewrite entries_New, lookup_empty in Hin.
Qed.

Lemma append_all_from {A B E} (P : B → Prop) (f : A → outcome E (list B)) l rs :
  (∀ x r, f x = Ok r → Forall P r) → append_all f l = Ok rs → Forall P rs.
Proof.
  intros Hf. revert rs. induction l as [|x l IH]; intros rs Hr; cbn in Hr; [by simplify_outcome; constructor|].
  apply outcome_bind_Ok in Hr as (r & Hx & Hr). apply outcome_bind_Ok in Hr as (rs' & Hl & Hr). simplify_outcome.
  apply Forall_app. eauto.
Qed.

Lemma sync_paths_recorded m st prefix path l : sync_paths m st prefix path = Ok l → Forall (recorded st) l.
Proof.
  unfold sync_paths. intros Hr. apply outcome_bind_Ok in Hr as (full & _ & Hr).
  apply outcome_bind_Ok in Hr as (strpath & _ & Hr). eapply append_all_from; [|exact Hr].
  intros s r. cbn beta. destruct (IsSchemaPath full).
  - intros; simplify_outcome. apply Forall_forall. unfold sync_schema.
    intros p (kt & Hp & _)%list_elem_of_bind. by eapply found_keys_recorded.
  - unfold sync_data. intros Hs. apply outcome_bind_Ok in Hs as (entry & _ & Hs). simplify_outcome.
    apply Forall_forall. intros p. destruct entry as [e|]; [|set_solver].
    destruct (stateSyncPath st !! ptr_loc e); [|set_solver].
    intros (kt & Hp & _)%list_elem_of_bind. by eapply found_keys_recorded.
Qed.
End requests.

(** ** Theorems *)

(** Two registered paths, one above the other, over a list of interfaces. *)
Definition example_sync_model : SchemaModel := mkSchemaModel example_mo [].
Definition example_sync_paths : list string := ["/interfaces/interface/mtu"; "/interfaces"].
Definition or_no_sync (r : outcome error (@SyncState map_trie)) : @SyncState map_trie :=
  match r with Ok st => st | _ => @mkSync map_trie [] ∅ trie_New end.
Definition example_sync_state : @SyncState map_trie :=
  or_no_sync (@initStateSync map_trie example_sync_model example_sync_paths).

(** C22. A read asks the system only for data that exists: after any sequence of
    updates from the system, every path RequestStateSync passes to UpdateSync
    was created by the system and not deleted since; UpdateSync is called at
    most once, and exactly when the result is true. *)
Theorem RequestStateSync_live `{GoRange, ProtoClone, Gtrie} (m : SchemaModel) (sp : list string)
    (st st' : SyncState) (ops : list sync_op) (prefix : option Path) (paths : list (option Path)) calls b :
  initStateSync m sp = Ok st → run_ops m (Some st) ops = Ok (Some st') →
  RequestStateSync m (Some st') prefix paths = Ok (calls, b) →
  length calls = (if b then 1 else 0) ∧ ∀ l p, l ∈ calls → p ∈ l → live false p ops = true.
Proof.
  intros [_ Hempty]%initStateSync_ok Hops Hr.
  assert (records m (λ _, false) st) as Hrec.
  { intros a t p Ha Hp. eapply Forall_lookup_1 in Hempty; [|exact Ha]. cbn in Hempty.
    rewrite Hempty, lookup_empty in Hp. by destruct Hp. }
  apply (run_ops_records _ _ _ _ _ Hops) in Hrec.
  cbn [RequestStateSync] in Hr. apply outcome_bind_Ok in Hr as (syncpath & Hs & Hr). simplify_outcome.
  apply (append_all_from (recorded st')) in Hs; [|intros; by eapply sync_paths_recorded].
  unfold request in Hr. destruct (0 <? length syncpath); injection Hr as <- <-; split; try done; [|set_solver].
  intros l p ->%list_elem_of_singleton Hp. eapply Forall_forall in Hs; [|exact Hp].
  destruct Hs as (a & t & Ha & Hin). by destruct (Hrec _ _ _ Ha Hin).
Qed.

Definition example_updates : list sync_op :=
  [SCreate "/interfaces"; SCreate "/interfaces/interface[name=eth0]/mtu"; SDelete "/interfaces"].

(** The data path is created under both registered paths, and the deletion of
    the outer one leaves it recorded. *)
Lemma RequestStateSync_live_witness :
  ∃ st st' calls b,
    @initStateSync map_trie example_sync_model example_sync_paths = Ok st ∧
    @run_ops map_trie example_sync_model (Some st) example_updates = Ok (Some st') ∧
    @RequestStateSync canonical_range identity_clone map_trie example_sync_model (Some st')
      None [Some (mtu_path "eth0")] = Ok (calls, b) ∧
    calls = [["/interfaces/interface[name=eth0]/mtu"]] ∧
    length calls = (if b then 1 else 0) ∧
    ∀ l p, l ∈ calls → p ∈ l → live false p example_updates = true.
Proof.
  destruct (ok_and_true (@initStateSync map_trie example_sync_model example_sync_paths)
    (λ st, ok_and (@run_ops map_trie example_sync_model (Some st) example_updates)
      (λ st', ok_and (@RequestStateSync canonical_range identity_clone map_trie example_sync_model st'
                        None [Some (mtu_path "eth0")])
        (λ cb, some_bool st' && bool_decide (cb.1 = [["/interfaces/interface[name=eth0]/mtu"]])))))
    as (st & Hst & (st' & Hst' & ([calls b] & Hr & [Hs Hc]%andb_true_iff)%ok_and_true)%ok_and_true).
  { by_vm. }
  destruct st' as [st'|]; [|discriminate Hs]. exists st, st', calls, b.
  apply bool_decide_eq_true in Hc. do 4 (split; [assumption|]).
  exact (@RequestStateSync_live canonical_range identity_clone map_trie example_sync_model example_sync_paths
           st st' example_updates None [Some (mtu_path "eth0")] calls b Hst Hst' Hr).
Defined.

(** The record keeping never panics: in every state reached from
    initStateSync by updates, addStateSyncPath and deleteStateSyncPath succeed
    for every node and path, since a control always has a first trie. *)
Theorem StateSyncPath_total `{GoRange, ProtoClone, Gtrie} (m : SchemaModel) (sp : list string)
    (st st' : SyncState) (ops : list sync_op) (entry : option EntryPtr) (path : string) :
  initStateSync m sp = Ok st → run_ops m (Some st) ops = Ok (Some st') →
  (∃ s, addStateSyncPath (Some st') entry path = Ok (Some s)) ∧
  (∃ s, deleteStateSyncPath (Some st') entry path = Ok (Some s)).
Proof.
  intros [Hok _]%initStateSync_ok Hops.
  assert (sync_ok st') as Hok'.
  { revert st Hok Hops. induction ops as [|op ops IH]; intros st Hok Hops; cbn [run_ops] in Hops; [by simplify_outcome|].
    apply outcome_bind_Ok in Hops as (r1 & Hop & Hops).
    destruct (run_op_inv _ _ _ _ Hop) as (e & st1 & _ & -> & Hst1). apply (IH st1); [|done].
    destruct (update_sync_path_ok (op_change op) st e Hok) as (s & Hs & ?).
    rewrite Hs in Hst1. by simplify_outcome. }
  cbn [addStateSyncPath deleteStateSyncPath].
  destruct (update_sync_path_ok (λ n, trie_Add n path true) st' entry Hok') as (s & -> & _).
  destruct (update_sync_path_ok (λ n, trie_Remove n path) st' entry Hok') as (s' & -> & _).
  split; by eexists.
Qed.

(** The two requests differ by an index: for a data path with one text whose
    schema node has one trie, RequestStateSyncBySubscriptionList asks for what
    RequestStateSync asks for; where the node has two tries, because
    registered paths are nested, it panics, and RequestStateSync returns. *)
Theorem RequestStateSyncBySubscriptionList_index `{GoRange, ProtoClone, Gtrie} (m : SchemaModel) (st : SyncState)
    (prefix path full : option Path) (s : string) (e : EntryPtr) (c : stateSyncCtrl) :
  GNMIFullPath prefix path = Ok full → IsSchemaPath full = false → FindPaths m full = Ok [s] →
  FindSchemaByXPath (m_MO m) s = Ok (Some e) → stateSyncPath st !! ptr_loc e = Some c →
  (length (pathtrees c) = 1 →
     RequestStateSyncBySubscriptionList m (Some st) prefix [path] = RequestStateSync m (Some st) prefix [path]) ∧
  (2 ≤ length (pathtrees c) →
     RequestStateSyncBySubscriptionList m (Some st) prefix [path] = Panic ∧
     ∃ calls b, RequestStateSync m (Some st) prefix [path] = Ok (calls, b)).
Proof.
  intros Hfull Hschema Hpaths Hfind Hc.
  cbn [RequestStateSyncBySubscriptionList RequestStateSync]. rewrite !append_all_one.
  unfold sync_paths_list, sync_paths. rewrite Hfull, !outcome_bind_ret, Hschema, Hpaths, !outcome_bind_ret, !append_all_one.
  unfold sync_data. rewrite Hfind, !outcome_bind_ret, Hc. split; intros Hlen.
  - by destruct (pathtrees c) as [|t [|t' l]].
  - destruct (pathtrees c) as [|t [|t' l]]; cbn in Hlen; [lia..|]. cbn [sync_data_list lookup list_lookup].
    split; [done|]. rewrite outcome_bind_mret. destruct (request _) as [calls b]. by exists calls, b.
Qed.

(** Registering a path replaces the control of its node, so the order of the
    registered paths matters: after the outer path, the inner one forgets the
    trie of the outer, and a read of the inner node no longer refreshes the
    data recorded there. *)
Theorem initStateSync_order `{Gtrie} :
  let loc := ["interfaces"; "interface"; "mtu"] in
  let nodes := λ sp, r ← initStateSync example_sync_model sp; mret (pathtrees <$> stateSyncPath r !! loc) in
  nodes ["/interfaces/interface/mtu"; "/interfaces"] = Ok (Some [0; 1]) ∧
  nodes ["/interfaces"; "/interfaces/interface/mtu"] = Ok (Some [1]).
Proof. split; vm_compute; reflexivity. Qed.
