(* ===== verification/Server.v ===== *)
(** * Server: the Get RPC and the messages of the server

    Models the Get path of [gnmi/server/server.go] ([get], [CheckEncoding],
    [capabilities], the request counter) and the notifications of
    [gnmi/server/message.go].  Time stamps are left out of the messages.  The
    encoding of a value ([ygot.EncodeTypedValue]) is an argument. *)

From Stdlib Require Import ZArith.
From S2P Require Export DataSearch StateSync.

(** ** Encodings

    [gnmipb.Encoding] and its names, as the gNMI protocol defines them. *)
Definition Encoding_JSON : Z := 0.
Definition Encoding_JSON_IETF : Z := 4.

Definition Encoding_name (e : Z) : string :=
  match e with
  | 0 => "JSON" | 1 => "BYTES" | 2 => "PROTO" | 3 => "ASCII" | 4 => "JSON_IETF" | _ => ""
  end%Z.

Definition supportedEncodings : list Z := [Encoding_JSON; Encoding_JSON_IETF].

(** The loop leaves at the first supported encoding that is equal. *)
Definition CheckEncoding (encoding : Z) : outcome error unit :=
  if existsb (λ supportedEncoding, bool_decide (encoding = supportedEncoding)) supportedEncodings then mret tt
  else
    Err (TaggedErrorf codes.Unimplemented TagNotSupport "unsupported encoding: %s"
           [AStr (Encoding_name encoding)]).

(** ** Messages *)
Section messages.
Context {typed : Type}.

Record Update : Type := mkUpdate { u_Path : Path; u_Val : option typed; u_Duplicates : Z }.

(** A nil list of updates or deletes is [None]. *)
Record Notification : Type := mkNotification {
  n_Prefix : option Path; n_Alias : string;
  n_Update : option (list Update); n_Delete : option (list Path)
}.

Inductive SubscribeResponse : Type :=
  | ResponseUpdate (n : Notification)
  | SyncResponse (b : bool).

Definition buildAliasResponse (prefix : option Path) (alias : string) : list SubscribeResponse :=
  if bool_decide (prefix = None) || bool_decide (alias = "") then []
  else [ResponseUpdate (mkNotification prefix alias None None)].

Definition buildSubscribeResponse (prefix : option Path) (update : option (list Update))
    (delete : option (list Path)) : list SubscribeResponse :=
  match update, delete with
  | None, None => []
  | _, _ => [ResponseUpdate (mkNotification prefix "" update delete)]
  end.

Definition buildSyncResponse : list SubscribeResponse := [SyncResponse true].
End messages.
Arguments Update : clear implicits.
Arguments Notification : clear implicits.
Arguments SubscribeResponse : clear implicits.

(** ** Requests *)

(** [GetRequest]: the type (0 is ALL), the models and the encoding to use, the
    prefix and the paths. *)
Record GetRequest : Type := mkGetRequest {
  g_Type : Z; g_UseModels : list ModelData; g_Encoding : Z;
  g_Prefix : option Path; g_Path : list (option Path)
}.

(** The fields of [Server] and [Model] the RPCs use. *)
Record Server `{Gtrie} : Type := mkServer {
  s_Model : SchemaModel;
  s_StateSync : option SyncState;
  s_Root : goval;
  reqSeq : Z;
  disabledSet : bool
}.

Arguments mkServer {_}.
Arguments Server {_}.

(** A 64-bit counter. *)
Definition getReqSequence `{Gtrie} (s : Server) : Server * Z :=
  let n := ((reqSeq s + 1) mod 2 ^ 64)%Z in
  (mkServer (s_Model s) (s_StateSync s) (s_Root s) n (disabledSet s), n).

(** [getGNMIServiceVersion]: the version in the compressed descriptor of the
    protocol's generated code; unpacking it is done by compress/gzip, ioutil and
    the protobuf library. *)
Definition getGNMIServiceVersion {reader desc : Type} (Descriptor : string) (gzip_NewReader : string → reader + msg)
    (ReadAll : reader → string + msg) (proto_Unmarshal : string → desc + msg) (GetExtension : desc → string + msg)
    : string + msg :=
  let failed format err := inr (Fmt format [AMsg err]) in
  match gzip_NewReader Descriptor with
  | inr err => failed "error in initializing gzip reader: %v" err
  | inl r =>
      match ReadAll r with
      | inr err => failed "error in reading gzip data: %v" err
      | inl b =>
          match proto_Unmarshal b with
          | inr err => failed "error in unmarshaling proto: %v" err
          | inl desc =>
              match GetExtension desc with
              | inr err => failed "error in getting version from proto extension: %v" err
              | inl ver => inl ver
              end
          end
      end
  end.

(** [capabilities]: [ver] is what [getGNMIServiceVersion] returns. *)
Record CapabilityResponse : Type := mkCapabilities {
  SupportedModels : list ModelData; SupportedEncodings : list Z; GNMIVersion : string
}.

Definition capabilities `{Gtrie} (s : Server) (ver : string + msg) : outcome error CapabilityResponse :=
  match ver with
  | inr err => Err (TaggedErrorf codes.Internal TagOperationFail "gnmi service version error: %v" [AMsg err])
  | inl ver => mret (mkCapabilities (GetModelData (s_Model s)) supportedEncodings ver)
  end.

(** ** Get *)
Section get.
Context `{GoRange, ProtoClone, DataOps, GoSort, Gtrie}.
Context {typed : Type} (EncodeTypedValue : goval → Z → option typed + msg).

(** [Find] with fuel for the search. *)
Definition model_Find (m : SchemaModel) (base : goval) (path : option Path)
    : outcome error (list DataAndPath * bool) :=
  Find (m_MO m) (find_fuel base path) base path [].

(** The update of one value found. *)
Definition get_update (encoding : Z) (data : DataAndPath) : outcome error (Update typed) :=
  match EncodeTypedValue (dp_Value data) encoding with
  | inr err =>
      Err (TaggedErrorf codes.Internal TagBadData "typed-value encoding error in %s: %v"
             [AStr (dp_Path data); AMsg err])
  | inl typedValue =>
      match ToGNMIPath (dp_Path data) with
      | Err _ =>
          Err (TaggedErrorf codes.Internal TagInvalidPath "path.converting error for %s" [AStr (dp_Path data)])
      | Ok datapath => mret (mkUpdate datapath typedValue 0)
      | Panic => Panic
      | Diverge => Diverge
      end
  end.

(** One path below a top node: a notification if there is data. *)
Definition get_path (s : Server) (req : GetRequest) (branch : goval) (bprefix : Path) (path : option Path)
    : outcome error (list (Notification typed)) :=
  _ ← ValidateGNMIPath (s_Model s) [g_Prefix req; path];
  '(datalist, ok) ← model_Find (s_Model s) branch path;
  if negb ok || (length datalist =? 0) then mret []
  else
    update ← append_all (λ data, u ← get_update (g_Encoding req) data; mret [u]) datalist;
    mret [mkNotification (Some bprefix) "" (Some update) None].

(** One top node: the type assertion comes first. *)
Definition get_top (s : Server) (req : GetRequest) (top : DataAndPath)
    : outcome error (list (Notification typed)) :=
  if negb (is_GoStruct (dp_Value top)) then Panic
  else
    match ToGNMIPath (dp_Path top) with
    | Err _ =>
        Err (TaggedErrorf codes.Internal TagInvalidPath "path.converting error for %s" [AStr (dp_Path top)])
    | Ok bprefix => append_all (get_path s req (dp_Value top) bprefix) (g_Path req)
    | Panic => Panic
    | Diverge => Diverge
    end.

(** The calls to [UpdateSync] come with the response.  The name in the message
    is the name of the supported type. *)
Definition server_get (s : Server) (req : GetRequest)
    : outcome error (list (list string) * list (Notification typed)) :=
  if negb (bool_decide (g_Type req = 0%Z)) then
    Err (TaggedErrorf codes.Unimplemented TagNotSupport "unsupported request type: %s" [AStr "ALL"])
  else
    _ ← CheckModels (s_Model s) (g_UseModels req);
    _ ← CheckEncoding (g_Encoding req);
    '(calls, _) ← RequestStateSync (s_Model s) (s_StateSync s) (g_Prefix req) (g_Path req);
    _ ← ValidateGNMIPath (s_Model s) [g_Prefix req];
    '(toplist, ok) ← model_Find (s_Model s) (s_Root s) (g_Prefix req);
    if negb ok || (length toplist =? 0) then mret (calls, [])
    else
      notifications ← append_all (get_top s req) toplist;
      mret (calls, notifications).

(** The RPCs count the request and call the handler. *)
Definition Get (s : Server) (req : GetRequest)
    : Server * outcome error (list (list string) * list (Notification typed)) :=
  let '(s, _) := getReqSequence s in (s, server_get s req).

Definition Capabilities (s : Server) (ver : string + msg) : Server * outcome error CapabilityResponse :=
  let '(s, _) := getReqSequence s in (s, capabilities s ver).

(** [Set]: [set] is the handler of the transaction. *)
Definition Set_ {A} (set : Server → outcome error A) (s : Server) : Server * outcome error A :=
  let '(s, _) := getReqSequence s in
  if disabledSet s
  then (s, Err (TaggedErrorf codes.Unimplemented TagNotSupport "set not supported" []))
  else (s, set s).
End get.
