(* ===== verification/ServerSpec.v ===== *)
(** * ServerSpec: the theorems on the Get RPC *)

From Stdlib Require Import ZArith Lia.
From S2P Require Export DataSearchSpec StateSyncSpec Server.

Section get.
Context `{GoRange, ProtoClone, DataOps, GoSort, Gtrie}.
Context {typed : Type} (EncodeTypedValue : goval → Z → option typed + msg).

(** An update for a value below a node that the prefix selects. *)
Definition answers (s : Server) (req : GetRequest) (bprefix : Path) (u : Update typed) : Prop :=
  ∃ tops top path datas data,
    model_Find (s_Model s) (s_Root s) (g_Prefix req) = Ok (tops, true) ∧ top ∈ tops ∧
    ToGNMIPath (dp_Path top) = Ok bprefix ∧ path ∈ g_Path req ∧
    model_Find (s_Model s) (dp_Value top) path = Ok (datas, true) ∧ data ∈ datas ∧
    get_update EncodeTypedValue (g_Encoding req) data = Ok u.

Lemma get_update_list encoding datas us u :
  append_all (λ data, u ← get_update EncodeTypedValue encoding data; mret [u]) datas = Ok us →
  (u ∈ us ↔ ∃ data, data ∈ datas ∧ get_update EncodeTypedValue encoding data = Ok u).
Proof.
  intros Hus. rewrite (append_all_inv _ _ _ _ Hus). split.
  - intros (d & r & Hd & Hr & Hu). apply outcome_bind_Ok in Hr as (u' & Hu' & [= <-]).
    apply list_elem_of_singleton in Hu as ->. eauto.
  - intros (d & Hd & Hu). exists d, [u]. rewrite Hu. set_solver.
Qed.

(** The notifications of one path. *)
Lemma get_path_inv s req branch bprefix path ns n :
  get_path EncodeTypedValue s req branch bprefix path = Ok ns →
  (n ∈ ns ↔ ∃ datas us, model_Find (s_Model s) branch path = Ok (datas, true) ∧ datas ≠ [] ∧
     append_all (λ data, u ← get_update EncodeTypedValue (g_Encoding req) data; mret [u]) datas = Ok us ∧
     n = mkNotification (Some bprefix) "" (Some us) None).
Proof.
  intros Hr. unfold get_path in Hr. apply outcome_bind_Ok in Hr as (_ & _ & Hr).
  apply outcome_bind_Ok in Hr as ([datas ok] & Hf & Hr). rewrite Hf.
  destruct ok; cbn [negb orb] in Hr.
  - destruct datas as [|d datas]; cbn [length Nat.eqb] in Hr; [injection Hr as <-|].
    + split; [set_solver|]. intros (? & ? & [= <-] & ? & _). done.
    + apply outcome_bind_Ok in Hr as (us & Hus & [= <-]). rewrite list_elem_of_singleton. split.
      * intros ->. exists (d :: datas), us. done.
      * intros (? & us' & [= <-] & _ & Hus' & ->). rewrite Hus in Hus'. by injection Hus' as <-.
  - injection Hr as <-. split; [set_solver|]. intros (? & ? & [=] & _).
Qed.

Lemma get_path_encodes s req branch bprefix path ns datas :
  get_path EncodeTypedValue s req branch bprefix path = Ok ns →
  model_Find (s_Model s) branch path = Ok (datas, true) →
  ∃ us, append_all (λ data, u ← get_update EncodeTypedValue (g_Encoding req) data; mret [u]) datas = Ok us.
Proof.
  unfold get_path. intros Hp Hfind. rewrite Hfind in Hp. apply outcome_bind_Ok in Hp as (_ & _ & Hp).
  destruct datas as [|d datas]; [by eexists|]. cbn [mbind outcome_bind negb orb length Nat.eqb] in Hp.
  apply outcome_bind_Ok in Hp as (us & Hus & _). by exists us.
Qed.

Lemma get_top_inv s req top ns n :
  get_top EncodeTypedValue s req top = Ok ns →
  (n ∈ ns ↔ ∃ bprefix path r, ToGNMIPath (dp_Path top) = Ok bprefix ∧ path ∈ g_Path req ∧
     get_path EncodeTypedValue s req (dp_Value top) bprefix path = Ok r ∧ n ∈ r).
Proof.
  unfold get_top. destruct (is_GoStruct _); cbn [negb]; [|done].
  destruct (ToGNMIPath (dp_Path top)) as [bprefix| | |]; try done. intros Hr.
  rewrite (append_all_inv _ _ _ _ Hr). naive_solver.
Qed.
End get.

(** ** Theorems *)
Section theorems.
Context `{GoRange, ProtoClone, DataOps, GoSort, Gtrie}.

(** C9. Get is sound and complete: when it answers, the updates of the response
    are exactly the encoded values that the search finds for a requested path
    below a node the prefix selects, each under the path of that node; no
    notification is empty, and none has deletes or an alias. *)
Theorem Get_sound_complete {typed} (EncodeTypedValue : goval → Z → option typed + msg)
    (s : Server) (req : GetRequest) calls ns :
  server_get EncodeTypedValue s req = Ok (calls, ns) →
  (∀ n, n ∈ ns → ∃ bprefix us, us ≠ [] ∧ n = mkNotification (Some bprefix) "" (Some us) None) ∧
  ∀ bprefix u,
    (∃ us, mkNotification (Some bprefix) "" (Some us) None ∈ ns ∧ u ∈ us) ↔
    answers EncodeTypedValue s req bprefix u.
Proof.
  unfold server_get. case_bool_decide; cbn [negb]; [|done]. intros Hr.
  apply outcome_bind_Ok in Hr as (_ & _ & Hr). apply outcome_bind_Ok in Hr as (_ & _ & Hr).
  apply outcome_bind_Ok in Hr as ([calls' b] & _ & Hr). apply outcome_bind_Ok in Hr as (_ & _ & Hr).
  apply outcome_bind_Ok in Hr as ([tops ok] & Hf & Hr). unfold answers. rewrite Hf.
  destruct ok; cbn [negb orb] in Hr.
  2: { injection Hr as <- <-. split; [set_solver|]. intros. split; [set_solver|]. naive_solver. }
  assert (append_all (get_top EncodeTypedValue s req) tops = Ok ns) as Hns.
  { destruct tops; cbn [length Nat.eqb] in Hr; [by injection Hr as <- <-|].
    apply outcome_bind_Ok in Hr as (ns' & Hns & [= <- <-]). exact Hns. }
  split.
  - intros n (top & r & _ & Hr' & Hn)%(append_all_inv _ _ _ _ Hns).
    apply (get_top_inv _ _ _ _ _ _ Hr') in Hn as (bprefix & path & r' & _ & _ & Hp & Hn).
    apply (get_path_inv _ _ _ _ _ _ _ _ Hp) in Hn as (datas & us & _ & Hne & Hus & ->).
    exists bprefix, us. split; [|done]. destruct datas as [|d datas]; [done|]. cbn in Hus.
    apply outcome_bind_Ok in Hus as (r1 & Hr1 & Hus). apply outcome_bind_Ok in Hus as (? & _ & [= <-]).
    apply outcome_bind_Ok in Hr1 as (? & _ & [= <-]). done.
  - intros bprefix u. split.
    + intros (us & (top & r & Htop & Hr' & Hn)%(append_all_inv _ _ _ _ Hns) & Hu).
      apply (get_top_inv _ _ _ _ _ _ Hr') in Hn as (bprefix' & path & r' & Hb & Hpath & Hp & Hn).
      apply (get_path_inv _ _ _ _ _ _ _ _ Hp) in Hn as (datas & us' & Hfind & _ & Hus & [= -> ->]).
      apply (get_update_list _ _ _ _ _ Hus) in Hu as (data & ? & ?).
      by exists tops, top, path, datas, data.
    + intros (tops' & top & path & datas & data & [= <-] & Htop & Hb & Hpath & Hfind & Hdata & Hu).
      destruct (append_all_steps _ _ _ top Hns Htop) as (r & Hr').
      assert (∃ rp, get_path EncodeTypedValue s req (dp_Value top) bprefix path = Ok rp) as (rp & Hp).
      { unfold get_top in Hr'. rewrite Hb in Hr'. destruct (is_GoStruct _); [|done]. cbn [negb] in Hr'.
        by apply (append_all_steps _ _ _ _ Hr'). }
      destruct (get_path_encodes _ _ _ _ _ _ _ _ Hp Hfind) as (us & Hus).
      exists us. split; [|apply (get_update_list _ _ _ _ _ Hus); by eexists].
      apply (append_all_inv _ _ _ _ Hns). exists top, r. split; [done|]. split; [done|].
      apply (get_top_inv _ _ _ _ _ _ Hr'). exists bprefix, path, rp. split; [done|]. split; [done|].
      split; [done|]. apply (get_path_inv _ _ _ _ _ _ _ _ Hp). exists datas, us. split; [done|].
      split; [by intros ->; set_solver|done].
Qed.

End theorems.

(** A server with the example device, whose encoding hands out the value. *)
Definition example_interfaces_entry : Entry :=
  mkEntry "interfaces" "" [("interface", example_list_entry); ("group", mkEntry "group" "" [("interface", example_list_entry)])].
Definition example_server_mo : MO :=
  mkMO {["Device" := mkPtr (mkEntry "device" "" [("interfaces", example_interfaces_entry)]) [];
         "Interfaces" := mkPtr example_interfaces_entry [("interfaces", mkEntry "device" "" [("interfaces", example_interfaces_entry)])]]}
    (Some (TPtr (TStruct "Device" []))).
Definition example_server : @Server map_trie :=
  mkServer (mkSchemaModel example_server_mo []) None example_root 0 false.
Definition example_encode (v : goval) (e : Z) : option goval + msg := inl (Some v).

Definition example_get (prefix : list string) (paths : list (list string)) : GetRequest :=
  mkGetRequest 0 [] Encoding_JSON_IETF (Some (names_path prefix)) ((λ l, Some (names_path l)) <$> paths).

Definition example_answer : list (Notification goval) :=
  match @server_get canonical_range identity_clone example_ops identity_sort map_trie goval example_encode
          example_server (example_get ["interfaces"] [["interface"; "mtu"]; ["group"]]) with
  | Ok (_, ns) => ns
  | _ => []
  end.

Lemma Get_sound_complete_witness :
  length example_answer = 2 ∧
  (∀ n, n ∈ example_answer → ∃ bprefix us, us ≠ [] ∧ n = mkNotification (Some bprefix) "" (Some us) None) ∧
  ∀ bprefix u,
    (∃ us, mkNotification (Some bprefix) "" (Some us) None ∈ example_answer ∧ u ∈ us) ↔
    @answers canonical_range example_ops identity_sort map_trie goval example_encode example_server
      (example_get ["interfaces"] [["interface"; "mtu"]; ["group"]]) bprefix u.
Proof.
  split; [by_vm|].
  apply (@Get_sound_complete canonical_range identity_clone example_ops identity_sort map_trie goval example_encode
           example_server (example_get ["interfaces"] [["interface"; "mtu"]; ["group"]]) []).
  by_vm.
Defined.

Section leaf.
Context `{GoRange, ProtoClone, DataOps, GoSort, Gtrie}.

(** A prefix that names a leaf stops the server: when the search for the
    prefix finds a value that is not a pointer to a struct first, Get panics
    in the type assertion, for every list of paths, after the request passed
    all checks. *)
Theorem Get_leaf_prefix_panics {typed} (EncodeTypedValue : goval → Z → option typed + msg)
    (s : Server) (req : GetRequest) calls top tops :
  g_Type req = 0%Z → CheckModels (s_Model s) (g_UseModels req) = Ok tt → CheckEncoding (g_Encoding req) = Ok tt →
  RequestStateSync (s_Model s) (s_StateSync s) (g_Prefix req) (g_Path req) = Ok calls →
  ValidateGNMIPath (s_Model s) [g_Prefix req] = Ok tt →
  model_Find (s_Model s) (s_Root s) (g_Prefix req) = Ok (top :: tops, true) →
  is_GoStruct (dp_Value top) = false →
  server_get EncodeTypedValue s req = Panic.
Proof.
  intros Ht Hm He Hs Hv Hf Htop. unfold server_get. rewrite Ht, bool_decide_true by done. cbn [negb].
  rewrite Hm, outcome_bind_ret, He, outcome_bind_ret, Hs, outcome_bind_ret. destruct calls as [calls b].
  rewrite Hv, outcome_bind_ret, Hf, outcome_bind_ret. cbn [negb orb length Nat.eqb append_all].
  unfold get_top. by rewrite Htop.
Qed.
End leaf.

Lemma Get_leaf_prefix_panics_witness :
  @server_get canonical_range identity_clone example_ops identity_sort map_trie goval example_encode
    example_server (example_get ["interfaces"; "interface"; "mtu"] []) = Panic.
Proof.
  refine (@Get_leaf_prefix_panics canonical_range identity_clone example_ops identity_sort map_trie goval example_encode
            example_server (example_get ["interfaces"; "interface"; "mtu"] []) ([], false)
            (mkData (VPtr None (Some (VScalar "1500"))) "/interfaces/interface[name=eth0]/mtu") [] _ _ _ _ _ _ _);
    by_vm.
Defined.
