(* ===== verification/Telemetry.v ===== *)
(** * Telemetry: the registry of subscriptions and the events of a data change

    Models the control block of [gnmi/server/subscribe.go]: [register],
    [unregister] and the change notifications.  The registry is a trie from
    path texts to the subscribers of the path; the map stored at a path is made
    for that path alone, so that writing into it is an update at that path.
    The mutex makes every operation atomic. *)

From Stdlib Require Import Ascii ZArith.
From S2P Require Export TypeSearch DataSearch Gtrie.

(** [TeleID] is a 64-bit counter. *)
Abbreviation TeleID := Z (only parsing).

(** A pointer to a subscription: its address, and the identifier the object got
    when it was made, which is never written again. *)
Record subptr : Type := mkSub { sp_addr : nat; sp_ID : TeleID }.

Record teleEvent : Type := mkEvent {
  ev_sub : subptr;
  updatedroot : option goval;
  updatedPath : list string;
  deletedPath : list string
}.

Section telemetry.
Context `{GoRange, ProtoClone, YdbTypes, Gtrie}.

Record teleCtrl : Type := mkTeleCtrl {
  lookup : trie (gmap TeleID subptr);
  ready : gmap TeleID teleEvent
}.

Definition newTeleCtrl : teleCtrl := mkTeleCtrl trie_New ∅.

(** ** Registration *)

(** One target path of a subscription. *)
Definition register_path (sub : subptr) (lookup : trie (gmap TeleID subptr)) (p : string)
    : trie (gmap TeleID subptr) :=
  match trie_Find lookup p with
  | Some subscriber => trie_Add lookup p (<[sp_ID sub := sub]> subscriber)
  | None => trie_Add lookup p {[sp_ID sub := sub]}
  end.

(** The paths of the subscription in turn; the flag of [FindAllPaths] is
    dropped. *)
Fixpoint register_paths (m : SchemaModel) (sub : subptr) (Prefix : option Path)
    (Paths : list (option Path)) (lookup : trie (gmap TeleID subptr))
    : outcome error (trie (gmap TeleID subptr)) :=
  match Paths with
  | [] => mret lookup
  | path :: Paths =>
      fullpath ← GNMIFullPath Prefix path;
      '(targetpaths, _) ← FindAllPaths m fullpath;
      register_paths m sub Prefix Paths (foldl (register_path sub) lookup targetpaths)
  end.

Definition register (tcb : teleCtrl) (m : SchemaModel) (sub : subptr) (Prefix : option Path)
    (Paths : list (option Path)) : outcome error teleCtrl :=
  l ← register_paths m sub Prefix Paths (lookup tcb);
  mret (mkTeleCtrl l (ready tcb)).

(** The loop over all entries of the trie, as they were before it. *)
Definition unregister_path (ID : TeleID) (lookup : trie (gmap TeleID subptr))
    (entry : string * gmap TeleID subptr) : trie (gmap TeleID subptr) :=
  let '(p, subscriber) := entry in
  match subscriber !! ID with
  | Some _ =>
      let subscriber := delete ID subscriber in
      if size subscriber =? 0 then trie_Remove lookup p else trie_Add lookup p subscriber
  | None => lookup
  end.

Definition unregister (tcb : teleCtrl) (sub : subptr) : teleCtrl :=
  mkTeleCtrl
    (foldl (unregister_path (sp_ID sub)) (lookup tcb) (go_range (trie_All (lookup tcb) "")))
    (ready tcb).

(** ** Change notifications

    The operations are the runes 'C', 'R' and 'D'. *)
Inductive tele_op : Type := OpCreate | OpReplace | OpDelete.

Definition add_paths (op : tele_op) (datapath : string) (event : teleEvent) : teleEvent :=
  match op with
  | OpCreate => mkEvent (ev_sub event) (updatedroot event) (updatedPath event ++ [datapath]) (deletedPath event)
  | OpReplace =>
      mkEvent (ev_sub event) (updatedroot event) (updatedPath event ++ [datapath]) (deletedPath event ++ [datapath])
  | OpDelete => mkEvent (ev_sub event) (updatedroot event) (updatedPath event) (deletedPath event ++ [datapath])
  end.

(** The body of the loops: the event of a subscriber, made if there is none. *)
Definition add_event (op : tele_op) (datapath : string) (ready : gmap TeleID teleEvent) (sub : subptr)
    : gmap TeleID teleEvent :=
  let event := default (mkEvent sub None [] []) (ready !! sp_ID sub) in
  <[sp_ID sub := add_paths op datapath event]> ready.

Definition add_group (op : tele_op) (datapath : string) (ready : gmap TeleID teleEvent)
    (subscribers : gmap TeleID subptr) : gmap TeleID teleEvent :=
  foldl (add_event op datapath) ready (go_range subscribers).*2.

Definition updateTeleEvent (op : tele_op) (datapath searchpath : string) (tcb : teleCtrl) : teleCtrl :=
  mkTeleCtrl (lookup tcb)
    (foldl (add_group op datapath) (ready tcb) (go_range (trie_FindAll (lookup tcb) searchpath)).*2).

(** [ChangeStarted] drops what an unfinished change left. *)
Definition ChangeStarted (tcb : teleCtrl) : teleCtrl := mkTeleCtrl (lookup tcb) ∅.

(** [ChangeCreated], [ChangeReplaced] and [ChangeDeleted] differ by the
    operation. *)
Definition change (op : tele_op) (datapath : string) (tcb : teleCtrl) : teleCtrl :=
  match ToGNMIPath datapath with
  | Ok gpath =>
      let tcb := updateTeleEvent op datapath datapath tcb in
      if IsSchemaPath (Some gpath) then tcb
      else updateTeleEvent op datapath (PathElemToXPATH (GetElem (Some gpath)) true) tcb
  | _ => tcb
  end.

Definition ChangeCreated (datapath : string) (tcb : teleCtrl) : teleCtrl := change OpCreate datapath tcb.
Definition ChangeReplaced (datapath : string) (tcb : teleCtrl) : teleCtrl := change OpReplace datapath tcb.
Definition ChangeDeleted (datapath : string) (tcb : teleCtrl) : teleCtrl := change OpDelete datapath tcb.

(** The events to send, in the order of the iteration; each send may block on
    the queue of its subscription. *)
Definition ChangeCompleted (changes : option goval) (tcb : teleCtrl) : teleCtrl * list teleEvent :=
  (mkTeleCtrl (lookup tcb) ∅,
   (λ event, mkEvent (ev_sub event) changes (updatedPath event) (deletedPath event)) <$>
     (go_range (ready tcb)).*2).
End telemetry.
