(* ===== verification/TelemetrySpec.v ===== *)
(** * TelemetrySpec: the theorems on the registry and its events *)

From Stdlib Require Import Ascii ZArith Lia.
From S2P Require Export TypeSearchSpec DataSearchSpec Telemetry.

Section telemetry.
Context `{GoRange, ProtoClone, YdbTypes, Gtrie}.

(** ** The registry

    The subscribers of a path; a path without an entry has none. *)
Definition group (lookup : trie (gmap Z subptr)) (p : string) : gmap Z subptr :=
  default ∅ (entries lookup !! p).

(** Subscribers are stored under their own identifier, and no stored group is
    empty. *)
Definition registry_ok (lookup : trie (gmap Z subptr)) : Prop :=
  ∀ p g, entries lookup !! p = Some g → g ≠ ∅ ∧ ∀ id sub, g !! id = Some sub → sp_ID sub = id.

Lemma registry_ok_new : registry_ok trie_New.
Proof. intros p g. by rewrite entries_New, lookup_empty. Qed.

Lemma registry_ok_entries l p : registry_ok l → entries l !! p = if decide (group l p = ∅) then None else Some (group l p).
Proof.
  intros Hok. unfold group. destruct (entries l !! p) as [g|] eqn:Hg; cbn.
  - rewrite decide_False; [done|]. by eapply Hok.
  - by rewrite decide_True.
Qed.

Lemma register_path_group sub l p q :
  group (register_path sub l p) q = if decide (q = p) then <[sp_ID sub := sub]> (group l q) else group l q.
Proof.
  unfold group, register_path. rewrite trie_Find_entries. destruct (entries l !! p) as [g|] eqn:Hp; rewrite entries_Add;
    (destruct (decide (q = p)) as [->|Hne]; [rewrite lookup_insert_eq, Hp|by rewrite lookup_insert_ne]); done.
Qed.

Lemma register_path_ok sub l p : registry_ok l → registry_ok (register_path sub l p).
Proof.
  intros Hok q g. unfold register_path. rewrite trie_Find_entries.
  destruct (entries l !! p) as [g0|] eqn:Hp; rewrite entries_Add;
    (destruct (decide (q = p)) as [->|Hne]; [rewrite lookup_insert_eq|rewrite lookup_insert_ne by done; by apply Hok]);
    intros [= <-].
  - split; [apply insert_non_empty|]. intros id s. destruct (decide (id = sp_ID sub)) as [Heq|Hne]; [rewrite Heq|].
    + rewrite lookup_insert_eq. by intros [= <-].
    + rewrite lookup_insert_ne by done. by apply (Hok p g0).
  - split; [apply map_non_empty_singleton|]. by intros id s [<- <-]%lookup_singleton_Some.
Qed.

Lemma register_fold_group sub l ps q :
  group (foldl (register_path sub) l ps) q = if decide (q ∈ ps) then <[sp_ID sub := sub]> (group l q) else group l q.
Proof.
  revert l. induction ps as [|p ps IH]; intros l; cbn [foldl]; [by rewrite decide_False by set_solver|].
  rewrite IH, register_path_group. repeat case_decide; rewrite ?insert_insert_eq; set_solver.
Qed.

Lemma register_fold_ok sub l ps : registry_ok l → registry_ok (foldl (register_path sub) l ps).
Proof. revert l. induction ps as [|p ps IH]; intros l Hok; [done|]. by apply IH, register_path_ok. Qed.

(** The paths a subscription is to be registered at. *)
Definition target_path (m : SchemaModel) (Prefix : option Path) (Paths : list (option Path)) (q : string) : Prop :=
  ∃ path full ps ok, path ∈ Paths ∧ GNMIFullPath Prefix path = Ok full ∧ FindAllPaths m full = Ok (ps, ok) ∧ q ∈ ps.

Lemma register_paths_fold m sub Prefix Paths l l' :
  register_paths m sub Prefix Paths l = Ok l' →
  ∃ ps, l' = foldl (register_path sub) l ps ∧ ∀ q, q ∈ ps ↔ target_path m Prefix Paths q.
Proof.
  unfold target_path. revert l. induction Paths as [|path Paths IH]; intros l Hr; cbn [register_paths] in Hr.
  { simplify_outcome. exists []. split; [done|]. set_solver. }
  apply outcome_bind_Ok in Hr as (full & Hfull & Hr). apply outcome_bind_Ok in Hr as ([ps1 ok] & Hps & Hr).
  destruct (IH _ Hr) as (ps & -> & Hin). exists (ps1 ++ ps). split; [by rewrite foldl_app|].
  intros q. rewrite elem_of_app, Hin. split.
  - intros [?|(path' & full' & ps' & ok' & ? & ?)]; [exists path, full, ps1, ok|exists path', full', ps', ok']; set_solver.
  - intros (path' & full' & ps' & ok' & [->|Hp]%elem_of_cons & Hf' & Hp' & Hq); [left|right; by exists path', full', ps', ok'].
    rewrite Hfull in Hf'. injection Hf' as <-. rewrite Hps in Hp'. by injection Hp' as <- <-.
Qed.

(** *** Removal *)
Lemma unregister_path_entries id l p g q :
  entries l !! p = Some g →
  entries (unregister_path id l (p, g)) !! q =
  if decide (q = p) then (if decide (delete id g = ∅ ∧ is_Some (g !! id)) then None else Some (delete id g))
  else entries l !! q.
Proof.
  intros Hp. cbn [unregister_path]. destruct (g !! id) as [sub|] eqn:Hid.
  - destruct (size (delete id g) =? 0) eqn:Hs.
    + apply Nat.eqb_eq, map_size_empty_iff in Hs. rewrite entries_Remove.
      destruct (decide (q = p)) as [->|]; [rewrite lookup_delete_eq|by rewrite lookup_delete_ne].
      rewrite decide_True; [done|]. split; [done|by eexists].
    + apply Nat.eqb_neq in Hs. rewrite entries_Add.
      destruct (decide (q = p)) as [->|]; [rewrite lookup_insert_eq|by rewrite lookup_insert_ne].
      rewrite decide_False; [done|]. intros [Hd _]. rewrite Hd, map_size_empty in Hs. done.
  - destruct (decide (q = p)) as [->|]; [|done]. rewrite decide_False by (intros [_ [? ?]]; congruence).
    by rewrite delete_id.
Qed.

(** The entry of a path after the removal: the other subscribers, if any. *)
Definition without (id : Z) (o : option (gmap Z subptr)) : option (gmap Z subptr) :=
  g ← o; if decide (delete id g = ∅ ∧ is_Some (g !! id)) then None else Some (delete id g).

Lemma unregister_fold id kvs l :
  NoDup kvs.*1 → (∀ p g, (p, g) ∈ kvs → entries l !! p = Some g) →
  ∀ q, entries (foldl (unregister_path id) l kvs) !! q =
       if decide (q ∈ kvs.*1) then without id (entries l !! q) else entries l !! q.
Proof.
  revert l. induction kvs as [|[p g] kvs IH]; intros l Hnd Hl q; [by rewrite decide_False by set_solver|].
  rewrite fmap_cons in *. cbn [fst] in *. apply NoDup_cons in Hnd as [Hp Hnd]. cbn [foldl].
  assert (entries l !! p = Some g) as Hpg by (apply Hl; set_solver). rewrite IH; [|done|].
  - rewrite (unregister_path_entries id l p g) by done. destruct (decide (q = p)) as [->|Hne].
    + rewrite decide_False by done. rewrite (decide_True (P := p ∈ p :: _)) by set_solver. by rewrite Hpg.
    + destruct (decide (q ∈ kvs.*1)); [rewrite decide_True by set_solver|rewrite decide_False by set_solver]; done.
  - intros p' g' Hin. rewrite (unregister_path_entries id l p g) by done. rewrite decide_False.
    + apply Hl. set_solver.
    + intros ->. apply Hp. apply list_elem_of_fmap. by exists (p, g').
Qed.

Lemma unregister_entries tcb sub q :
  entries (lookup (unregister tcb sub)) !! q = without (sp_ID sub) (entries (lookup tcb) !! q).
Proof.
  unfold unregister. cbn [lookup]. rewrite unregister_fold.
  - case_decide as Hin; [done|]. destruct (entries (lookup tcb) !! q) as [g|] eqn:Hq; [|done]. destruct Hin.
    apply list_elem_of_fmap. exists (q, g). split; [done|]. apply elem_of_go_range. by rewrite trie_All_entries.
  - apply go_range_NoDup.
  - intros p g Hin%elem_of_go_range. by rewrite trie_All_entries in Hin.
Qed.

Lemma unregister_group tcb sub q :
  group (lookup (unregister tcb sub)) q = delete (sp_ID sub) (group (lookup tcb) q).
Proof.
  unfold group. rewrite unregister_entries. unfold without. destruct (entries (lookup tcb) !! q) as [g|]; cbn.
  - case_decide as Hd; [destruct Hd as [-> _]|]; done.
  - by rewrite delete_empty.
Qed.

Lemma unregister_ok tcb sub : registry_ok (lookup tcb) → registry_ok (lookup (unregister tcb sub)).
Proof.
  intros Hok q g. rewrite unregister_entries. unfold without. destruct (entries (lookup tcb) !! q) as [g0|] eqn:Hq; [|done].
  destruct (Hok _ _ Hq) as [Hne Hid]. cbn. case_decide as Hd; [done|]. intros [= <-]. split.
  - intros He. apply Hd. split; [done|]. destruct (g0 !! sp_ID sub) eqn:Hs; [done|]. by rewrite delete_id in He.
  - intros id s [_ ?]%lookup_delete_Some. by apply Hid.
Qed.

(** ** Events *)

(** What one change adds to the events of a subscriber. *)
Definition op_updated (op : tele_op) (datapath : string) : list string :=
  match op with OpDelete => [] | _ => [datapath] end.
Definition op_deleted (op : tele_op) (datapath : string) : list string :=
  match op with OpCreate => [] | _ => [datapath] end.

Fixpoint times {A} (n : nat) (l : list A) : list A :=
  match n with O => [] | S n => l ++ times n l end.

Lemma times_add {A} n k (l : list A) : times (n + k) l = times n l ++ times k l.
Proof. induction n as [|n IH]; cbn; [done|]. by rewrite IH, (assoc_L (++)). Qed.

(** The paths an event holds; no event holds none. *)
Definition event_updated (o : option teleEvent) : list string := from_option updatedPath [] o.
Definition event_deleted (o : option teleEvent) : list string := from_option deletedPath [] o.

(** The events are stored under their subscriber, which is registered
    somewhere, and hold a path. *)
Definition ready_ok (l : trie (gmap Z subptr)) (ready : gmap Z teleEvent) : Prop :=
  ∀ id e, ready !! id = Some e →
    (∃ p g, entries l !! p = Some g ∧ g !! id = Some (ev_sub e)) ∧ (updatedPath e, deletedPath e) ≠ ([], []).

Lemma add_event_lookup op dp r sub id :
  event_updated (add_event op dp r sub !! id) = event_updated (r !! id) ++ (if decide (id = sp_ID sub) then op_updated op dp else []) ∧
  event_deleted (add_event op dp r sub !! id) = event_deleted (r !! id) ++ (if decide (id = sp_ID sub) then op_deleted op dp else []).
Proof.
  unfold add_event. case_decide as Hid.
  - subst id. rewrite lookup_insert_eq. destruct (r !! sp_ID sub), op; cbn; by rewrite ?app_nil_r.
  - rewrite lookup_insert_ne by done. by rewrite !app_nil_r.
Qed.

Lemma add_event_ok op dp l r p g sub :
  entries l !! p = Some g → g !! sp_ID sub = Some sub → ready_ok l r → ready_ok l (add_event op dp r sub).
Proof.
  intros Hp Hg Hr id e. unfold add_event. destruct (decide (id = sp_ID sub)) as [->|Hne].
  - rewrite lookup_insert_eq. intros [= <-]. split.
    + destruct (r !! sp_ID sub) as [e0|] eqn:He; [|by destruct op; eauto].
      destruct (Hr _ _ He) as [? _]. by destruct op.
    + intros [= Hu Hd]. destruct op; cbn in *; by destruct (updatedPath _), (deletedPath _).
  - rewrite lookup_insert_ne by done. apply Hr.
Qed.

(** A list of subscribers in turn: the identifier counts as often as it
    occurs. *)
Lemma add_events_lookup op dp subs r id :
  let n := length (base.filter (λ sub, sp_ID sub = id) subs) in
  let r' := foldl (add_event op dp) r subs in
  event_updated (r' !! id) = event_updated (r !! id) ++ times n (op_updated op dp) ∧
  event_deleted (r' !! id) = event_deleted (r !! id) ++ times n (op_deleted op dp).
Proof.
  revert r. induction subs as [|sub subs IH]; intros r; cbn [foldl]; [by rewrite !app_nil_r|].
  destruct (IH (add_event op dp r sub)) as [-> ->]. destruct (add_event_lookup op dp r sub id) as [-> ->].
  rewrite filter_cons. repeat case_decide; try congruence; by rewrite ?app_nil_r, <-?(assoc_L (++)).
Qed.

Lemma add_events_ok op dp l p g subs r :
  entries l !! p = Some g → (∀ sub, sub ∈ subs → g !! sp_ID sub = Some sub) → ready_ok l r →
  ready_ok l (foldl (add_event op dp) r subs).
Proof.
  intros Hp. revert r. induction subs as [|sub subs IH]; intros r Hg Hr; cbn [foldl]; [done|].
  apply IH; [set_solver|]. eapply add_event_ok; [done| |done]. apply Hg. set_solver.
Qed.

(** A group has a subscriber at most once. *)
Lemma group_count (g : gmap Z subptr) id :
  (∀ id sub, g !! id = Some sub → sp_ID sub = id) →
  length (base.filter (λ sub, sp_ID sub = id) (go_range g).*2) = if decide (is_Some (g !! id)) then 1 else 0.
Proof.
  intros Hg. transitivity (length (base.filter (λ kv : Z * subptr, kv.1 = id) (go_range g))).
  - assert (∀ kv, kv ∈ go_range g → sp_ID kv.2 = kv.1) as Hkv by (intros [k v] Hin; by apply Hg, elem_of_go_range).
    induction (go_range g) as [|[k v] kvs IH]; [done|]. rewrite fmap_cons, !filter_cons. cbn [fst snd].
    pose proof (Hkv (k, v) ltac:(set_solver)) as Hk. cbn in Hk. rewrite Hk.
    destruct (decide (k = id)); cbn [length]; rewrite IH by set_solver; done.
  - rewrite go_range_filter_key. destruct (g !! id); by cbn.
Qed.

(** The groups the search for a text finds that have the subscriber. *)
Definition group_hits (l : trie (gmap Z subptr)) (searchpath : string) (id : Z) : nat :=
  size (base.filter (λ kv : string * gmap Z subptr, is_Some (kv.2 !! id)) (trie_FindAll l searchpath)).

Lemma add_groups_lookup op dp (kvs : list (string * gmap Z subptr)) r id :
  (∀ kv, kv ∈ kvs → ∀ id sub, kv.2 !! id = Some sub → sp_ID sub = id) →
  let n := length (base.filter (λ kv : string * gmap Z subptr, is_Some (kv.2 !! id)) kvs) in
  let r' := foldl (add_group op dp) r kvs.*2 in
  event_updated (r' !! id) = event_updated (r !! id) ++ times n (op_updated op dp) ∧
  event_deleted (r' !! id) = event_deleted (r !! id) ++ times n (op_deleted op dp).
Proof.
  revert r. induction kvs as [|[p g] kvs IH]; intros r Hk; cbn [foldl fmap list_fmap snd]; [by rewrite !app_nil_r|].
  destruct (IH (add_group op dp r g)) as [-> ->]; [intros; eapply Hk; [|done]; set_solver|].
  unfold add_group. destruct (add_events_lookup op dp (go_range g).*2 r id) as [-> ->].
  rewrite group_count by (apply (Hk (p, g)); set_solver). rewrite filter_cons. cbn [snd].
  case_decide; cbn [length times]; by rewrite ?app_nil_r, <-?(assoc_L (++)).
Qed.

Lemma updateTeleEvent_ready op dp sp tcb id :
  registry_ok (lookup tcb) →
  event_updated (ready (updateTeleEvent op dp sp tcb) !! id) =
    event_updated (ready tcb !! id) ++ times (group_hits (lookup tcb) sp id) (op_updated op dp) ∧
  event_deleted (ready (updateTeleEvent op dp sp tcb) !! id) =
    event_deleted (ready tcb !! id) ++ times (group_hits (lookup tcb) sp id) (op_deleted op dp).
Proof.
  intros Hok. unfold group_hits. rewrite <-go_range_filter_length. apply add_groups_lookup.
  intros [p g] Hin%elem_of_go_range. by apply (Hok p g), (FindAll_lookup _ sp).
Qed.

Lemma updateTeleEvent_ok op dp sp tcb :
  registry_ok (lookup tcb) → ready_ok (lookup tcb) (ready tcb) →
  ready_ok (lookup tcb) (ready (updateTeleEvent op dp sp tcb)).
Proof.
  intros Hok. cbn [ready updateTeleEvent].
  assert (∀ kv, kv ∈ go_range (trie_FindAll (lookup tcb) sp) → entries (lookup tcb) !! kv.1 = Some kv.2) as Hkv
    by (intros [p g] Hin%elem_of_go_range; by eapply FindAll_lookup).
  generalize (ready tcb). induction (go_range _) as [|[p g] kvs IH]; intros r Hr; [done|]. cbn [foldl fmap list_fmap snd].
  apply IH; [set_solver|]. pose proof (Hkv (p, g) ltac:(set_solver)) as Hp. eapply add_events_ok; [exact Hp| |done].
  intros sub ([k s] & -> & Hin%elem_of_go_range)%list_elem_of_fmap. cbn in *. by rewrite (proj2 (Hok p g Hp) k s Hin).
Qed.

(** The texts a change of a data path searches for: the path and, if it has
    keys, its schema path. *)
Definition search_texts (datapath : string) : list string :=
  match ToGNMIPath datapath with
  | Ok gpath =>
      datapath :: if IsSchemaPath (Some gpath) then [] else [PathElemToXPATH (GetElem (Some gpath)) true]
  | _ => []
  end.

Lemma change_search op dp tcb :
  change op dp tcb = foldl (λ tcb sp, updateTeleEvent op dp sp tcb) tcb (search_texts dp).
Proof. unfold change, search_texts. destruct (ToGNMIPath dp); [|done..]. by destruct (IsSchemaPath _). Qed.

(** How often a change counts for a subscriber. *)
Definition hits (l : trie (gmap Z subptr)) (datapath : string) (id : Z) : nat :=
  sum_list ((λ sp, group_hits l sp id) <$> search_texts datapath).

Lemma change_ready op dp tcb :
  registry_ok (lookup tcb) → ready_ok (lookup tcb) (ready tcb) →
  lookup (change op dp tcb) = lookup tcb ∧ ready_ok (lookup tcb) (ready (change op dp tcb)) ∧
  ∀ id,
    event_updated (ready (change op dp tcb) !! id) =
      event_updated (ready tcb !! id) ++ times (hits (lookup tcb) dp id) (op_updated op dp) ∧
    event_deleted (ready (change op dp tcb) !! id) =
      event_deleted (ready tcb !! id) ++ times (hits (lookup tcb) dp id) (op_deleted op dp).
Proof.
  rewrite change_search. unfold hits. revert tcb. induction (search_texts dp) as [|sp sps IH]; intros tcb Hok Hr.
  { split; [done|]. split; [done|]. intros id. by rewrite !app_nil_r. }
  cbn [foldl]. destruct (IH (updateTeleEvent op dp sp tcb)) as (Hl & Hr' & Hid); [done|exact (updateTeleEvent_ok op dp sp tcb Hok Hr)|].
  split; [exact Hl|]. split; [exact Hr'|]. intros id. destruct (Hid id) as [-> ->].
  destruct (updateTeleEvent_ready op dp sp tcb id Hok) as [-> ->].
  cbn [lookup updateTeleEvent fmap list_fmap sum_list]. by rewrite !times_add, !(assoc_L (++)).
Qed.

(** A whole update: the changes between [ChangeStarted] and
    [ChangeCompleted]. *)
Definition changes_run (tcb : teleCtrl) (cs : list (tele_op * string)) : teleCtrl :=
  foldl (λ tcb c, change c.1 c.2 tcb) tcb cs.

Definition updated_of (l : trie (gmap Z subptr)) (cs : list (tele_op * string)) (id : Z) : list string :=
  cs ≫= λ c, times (hits l c.2 id) (op_updated c.1 c.2).
Definition deleted_of (l : trie (gmap Z subptr)) (cs : list (tele_op * string)) (id : Z) : list string :=
  cs ≫= λ c, times (hits l c.2 id) (op_deleted c.1 c.2).

Lemma changes_ready cs tcb :
  registry_ok (lookup tcb) → ready_ok (lookup tcb) (ready tcb) →
  lookup (changes_run tcb cs) = lookup tcb ∧ ready_ok (lookup tcb) (ready (changes_run tcb cs)) ∧
  ∀ id,
    event_updated (ready (changes_run tcb cs) !! id) = event_updated (ready tcb !! id) ++ updated_of (lookup tcb) cs id ∧
    event_deleted (ready (changes_run tcb cs) !! id) = event_deleted (ready tcb !! id) ++ deleted_of (lookup tcb) cs id.
Proof.
  revert tcb. induction cs as [|[op dp] cs IH]; intros tcb Hok Hr.
  { split; [done|]. split; [done|]. intros id. by rewrite !app_nil_r. }
  destruct (change_ready op dp tcb Hok Hr) as (Hl & Hr' & Hid). unfold changes_run. cbn [foldl fst snd].
  destruct (IH (change op dp tcb)) as (Hl' & Hr'' & Hid'); [by rewrite Hl..|].
  rewrite Hl in *. split; [exact Hl'|]. split; [exact Hr''|]. intros id. unfold changes_run in Hid'.
  destruct (Hid' id) as [-> ->], (Hid id) as [-> ->]. unfold updated_of, deleted_of. cbn [mbind list_bind fst snd].
  by rewrite !(assoc_L (++)).
Qed.

(** The events delivered to one subscriber. *)
Lemma delivered_to l root r id :
  ready_ok l r → registry_ok l →
  base.filter (λ e, sp_ID (ev_sub e) = id) (snd (ChangeCompleted root (mkTeleCtrl l r))) =
  match r !! id with Some e => [mkEvent (ev_sub e) root (updatedPath e) (deletedPath e)] | None => [] end.
Proof.
  intros Hr Hok. cbn [snd ChangeCompleted ready].
  assert (∀ kv, kv ∈ go_range r → sp_ID (ev_sub kv.2) = kv.1) as Hkv.
  { intros [k e] Hin%elem_of_go_range. destruct (Hr k e Hin) as [(p & g & Hp & Hg) _]. by apply (Hok p g Hp). }
  set (f := λ event, mkEvent (ev_sub event) root (updatedPath event) (deletedPath event)).
  transitivity ((λ kv : Z * teleEvent, f kv.2) <$> base.filter (λ kv : Z * teleEvent, kv.1 = id) (go_range r)).
  - induction (go_range r) as [|[k e] kvs IH]; [done|]. rewrite !fmap_cons, !filter_cons. cbn [fst snd].
    pose proof (Hkv (k, e) ltac:(set_solver)) as Hk. cbn in Hk |- *. rewrite Hk.
    destruct (decide (k = id)); rewrite ?fmap_cons, IH by set_solver; done.
  - rewrite go_range_filter_key. by destruct (r !! id).
Qed.
End telemetry.

(** ** Theorems *)
Section theorems.
Context `{GoRange, ProtoClone, YdbTypes, Gtrie}.

(** C28. Registration is exact and can be undone: register puts the
    subscription into the groups of its target paths, and of no other path;
    unregister takes its identifier out of every group and leaves the other
    subscribers alone.  Both keep the registry well formed (subscribers under
    their own identifier, no empty group), and unregister restores the
    registry that register found if the subscription was not in it. *)
Theorem register_unregister (tcb tcb' : teleCtrl) (m : SchemaModel) (sub : subptr) (Prefix : option Path)
    (Paths : list (option Path)) :
  registry_ok (lookup tcb) → register tcb m sub Prefix Paths = Ok tcb' →
  let undone := unregister tcb' sub in
  registry_ok (lookup tcb') ∧ registry_ok (lookup undone) ∧ ready tcb' = ready tcb ∧ ready undone = ready tcb ∧
  (∀ q, (target_path m Prefix Paths q → group (lookup tcb') q = <[sp_ID sub := sub]> (group (lookup tcb) q)) ∧
        (¬ target_path m Prefix Paths q → group (lookup tcb') q = group (lookup tcb) q)) ∧
  (∀ q, group (lookup undone) q = delete (sp_ID sub) (group (lookup tcb') q)) ∧
  ((∀ q, group (lookup tcb) q !! sp_ID sub = None) → entries (lookup undone) = entries (lookup tcb)).
Proof.
  intros Hok Hr. unfold register in Hr. apply outcome_bind_Ok in Hr as (l & Hl & [= <-]).
  apply register_paths_fold in Hl as (ps & -> & Hps). cbn [lookup ready].
  pose proof (register_fold_ok sub _ ps Hok) as Hok'.
  assert (∀ q, group (lookup (unregister (mkTeleCtrl (foldl (register_path sub) (lookup tcb) ps) (ready tcb)) sub)) q =
               delete (sp_ID sub) (group (foldl (register_path sub) (lookup tcb) ps) q)) as Hun
    by (intros; apply unregister_group).
  split; [done|]. split; [by apply unregister_ok|]. split; [done|]. split; [done|]. split; [|split; [done|]].
  - intros q. rewrite register_fold_group. split; intros Hq.
    + by rewrite decide_True by by apply Hps.
    + by rewrite decide_False by by rewrite Hps.
  - intros Hnew. apply map_eq. intros q. rewrite !registry_ok_entries by (done || by apply unregister_ok).
    rewrite Hun, register_fold_group.
    assert (delete (sp_ID sub) (if decide (q ∈ ps) then <[sp_ID sub:=sub]> (group (lookup tcb) q) else group (lookup tcb) q)
            = group (lookup tcb) q) as ->; [|done].
    case_decide; [by rewrite delete_insert_id|by rewrite delete_id].
Qed.

(** Every subscriber gets one event with the paths of its hits, or none. *)
Definition delivers (l : trie (gmap Z subptr)) (cs : list (tele_op * string)) (root : option goval)
    (events : list teleEvent) : Prop :=
  ∀ id, let u := updated_of l cs id in let d := deleted_of l cs id in
    ((u, d) = ([], []) → base.filter (λ e, sp_ID (ev_sub e) = id) events = []) ∧
    ((u, d) ≠ ([], []) → ∃ sub p, group l p !! id = Some sub ∧
       base.filter (λ e, sp_ID (ev_sub e) = id) events = [mkEvent sub root u d]).

(** What an update delivers, for the property and for the updates of the
    model. *)
Lemma changes_delivered (tcb : teleCtrl) (cs : list (tele_op * string)) (root : option goval) :
  registry_ok (lookup tcb) →
  let '(tcb', events) := ChangeCompleted root (changes_run (ChangeStarted tcb) cs) in
  lookup tcb' = lookup tcb ∧ ready tcb' = ∅ ∧
  delivers (lookup tcb) cs root events.
Proof.
  intros Hok. destruct (changes_ready cs (ChangeStarted tcb)) as (Hl & Hr & Hid); [done|by intros ? ?|].
  cbn [lookup ready ChangeStarted] in *.
  destruct (changes_run (ChangeStarted tcb) cs) as [l r] eqn:Hrun. cbn [lookup ready] in *. subst l.
  destruct (ChangeCompleted root _) as [tcb' events] eqn:Hc.
  pose proof (delivered_to (lookup tcb) root r) as Hdel. rewrite Hc in Hdel. cbn [snd] in Hdel.
  injection Hc as <- Hev. cbn [lookup ready]. split; [done|]. split; [done|]. intros id.
  rewrite Hdel by done. destruct (Hid id) as [Hu Hd]. rewrite lookup_empty in Hu, Hd. cbn [event_updated event_deleted from_option] in Hu, Hd.
  destruct (r !! id) as [e|] eqn:He; cbn [event_updated event_deleted from_option app] in Hu, Hd.
  - destruct (Hr id e He) as [(p & g & Hp & Hg) Hne]. rewrite Hu, Hd in Hne. split; [done|]. intros _.
    exists (ev_sub e), p. unfold group. rewrite Hp, Hu, Hd. done.
  - rewrite <-Hu, <-Hd. split; [done|]. intros Hne. by destruct Hne.
Qed.

(** C8. Delivery is exact: after ChangeStarted and any creations, replacements
    and deletions, ChangeCompleted hands every subscriber at most one event;
    the event lists, in order, the data path of every change once for each
    registered group of the subscriber that the change's searches find
    (created and replaced paths as updated, replaced and deleted paths as
    deleted) and carries the changed tree; a subscriber without a hit gets
    none.  The registry is unchanged, nothing stays pending, and what an
    earlier, unfinished update left is dropped. *)
Theorem ChangeCompleted_delivers (tcb : teleCtrl) (cs : list (tele_op * string)) (root : option goval) :
  registry_ok (lookup tcb) →
  let '(tcb', events) := ChangeCompleted root (changes_run (ChangeStarted tcb) cs) in
  lookup tcb' = lookup tcb ∧ ready tcb' = ∅ ∧
  delivers (lookup tcb) cs root events.
Proof. apply changes_delivered. Qed.
End theorems.

(** ** A registry with two subscribers of one interface *)
Definition example_teleModel : SchemaModel := mkSchemaModel example_mo [].
Definition sub1 : subptr := mkSub 0 1.
Definition sub2 : subptr := mkSub 1 2.

Definition example_register (tcb : @teleCtrl map_trie) (sub : subptr) (paths : list (option Path)) : @teleCtrl map_trie :=
  match @register identity_clone example_ydb map_trie tcb example_teleModel sub None paths with
  | Ok tcb' => tcb'
  | _ => tcb
  end.

(** The second subscriber is registered at the interface and all it holds. *)
Definition example_tcb : @teleCtrl map_trie := example_register newTeleCtrl sub1 [Some (mtu_path "eth0")].
Definition example_tcb2 : @teleCtrl map_trie :=
  example_register example_tcb sub2 [Some (mtu_path "eth0"); Some (names_path ["interfaces"; "interface"; "mtu"])].

Lemma example_tcb_ok : @registry_ok map_trie (lookup example_tcb).
Proof.
  unfold example_tcb, example_register. destruct (register _ _ _ _ _) as [tcb'| | |] eqn:Hr; try apply registry_ok_new.
  unfold register in Hr. apply outcome_bind_Ok in Hr as (l & Hl & [= <-]).
  apply register_paths_fold in Hl as (ps & -> & _). apply register_fold_ok, registry_ok_new.
Qed.

Lemma register_unregister_witness :
  @registry_ok map_trie (lookup example_tcb2) ∧
  @entries map_trie _ (lookup (@unregister canonical_range map_trie example_tcb2 sub2)) = entries (lookup example_tcb).
Proof.
  assert (@register identity_clone example_ydb map_trie example_tcb example_teleModel
            sub2 None [Some (mtu_path "eth0"); Some (names_path ["interfaces"; "interface"; "mtu"])] = Ok example_tcb2)
    as Hr by by_vm.
  destruct (@register_unregister canonical_range identity_clone example_ydb map_trie _ _ _ _ _ _ example_tcb_ok Hr)
    as (Hok & _ & _ & _ & _ & _ & Hback).
  split; [exact Hok|]. apply Hback. intros q. unfold group. cbn [entries map_trie].
  assert (map_Forall (λ _ g, g !! 2%Z = None) (lookup example_tcb : gmap string (gmap Z subptr))) as Hnone
    by (apply (bool_decide_unpack _); vm_compute; exact I).
  destruct ((lookup example_tcb : gmap string (gmap Z subptr)) !! q) as [g|] eqn:Hg; [|done]. exact (Hnone q g Hg).
Defined.

Lemma ChangeCompleted_delivers_witness :
  ∃ tcb' events sub p,
    @ChangeCompleted canonical_range map_trie None
      (@changes_run canonical_range map_trie (ChangeStarted example_tcb)
         [(OpReplace, "/interfaces/interface[name=eth0]/mtu"); (OpDelete, "/interfaces/interface[name=eth1]/mtu")])
      = (tcb', events) ∧
    @group map_trie (lookup example_tcb) p !! 1%Z = Some sub ∧
    base.filter (λ e, sp_ID (ev_sub e) = 1%Z) events =
      [mkEvent sub None ["/interfaces/interface[name=eth0]/mtu"] ["/interfaces/interface[name=eth0]/mtu"]].
Proof.
  pose proof (@ChangeCompleted_delivers canonical_range map_trie example_tcb
    [(OpReplace, "/interfaces/interface[name=eth0]/mtu"); (OpDelete, "/interfaces/interface[name=eth1]/mtu")] None
    example_tcb_ok) as Hd.
  destruct (ChangeCompleted _ _) as [tcb' events]. destruct Hd as (_ & _ & Hd).
  destruct (Hd 1%Z) as [_ (sub & p & Hg & He)]; [vm_compute; discriminate|].
  exists tcb', events, sub, p. split; [done|]. split; [exact Hg|]. exact He.
Defined.
