(* ===== verification/Subscribe.v ===== *)
(** * Subscribe: the sessions of the Subscribe RPC

    Models the request side of [gnmi/server/subscribe.go], [internal.go] and the
    loop of [Subscribe] in [server.go].  Subscriptions are shared between the
    session, the registry and the runners, so they live in a heap and are
    referred to by address.  A handler is a program in a state and error monad:
    it keeps what it wrote when it fails.  What leaves the server (responses,
    texts for the internal update interface, synchronisation requests, the start
    of a runner) is logged in order.  The handlers of one session run one after
    the other; locks and the goroutine that forwards the responses are not part
    of the state. *)

From Stdlib Require Import Ascii ZArith.
From stdpp Require Import pretty.
From S2P Require Export Aliases Server Telemetry.

(** ** The texts of [fmt] for numbers, booleans and enumerations *)
Definition fmt_d (n : Z) : string := pretty n.
Definition fmt_t (b : bool) : string := if b then "true" else "false".

(** The [String] method of a protocol enumeration: the name, or the number. *)
Definition enum_String (name : Z → string) (n : Z) : string :=
  if bool_decide (name n = "") then fmt_d n else name n.

Definition SubscriptionList_Mode_name (n : Z) : string :=
  match n with 0 => "STREAM" | 1 => "ONCE" | 2 => "POLL" | _ => "" end%Z.
Definition SubscriptionMode_name (n : Z) : string :=
  match n with 0 => "TARGET_DEFINED" | 1 => "ON_CHANGE" | 2 => "SAMPLE" | _ => "" end%Z.

Definition defaultInterval : Z := 60000000000.
Definition minimumInterval : Z := 1000000000.

(** ** Messages *)

(** [gnmipb.Subscription], an entry of the list. *)
Record SubscriptionEntry : Type := mkSubEntry {
  se_Path : option Path; se_Mode : Z; se_SampleInterval : Z;
  se_SuppressRedundant : bool; se_HeartbeatInterval : Z
}.

Record SubscriptionList : Type := mkSubList {
  sl_Prefix : option Path; sl_Subscription : list SubscriptionEntry; sl_UseAliases : bool;
  sl_Mode : Z; sl_AllowAggregation : bool; sl_UseModels : list ModelData;
  sl_Encoding : Z; sl_UpdatesOnly : bool
}.

Definition set_Prefix (p : option Path) (sl : SubscriptionList) : SubscriptionList :=
  mkSubList p (sl_Subscription sl) (sl_UseAliases sl) (sl_Mode sl) (sl_AllowAggregation sl)
    (sl_UseModels sl) (sl_Encoding sl) (sl_UpdatesOnly sl).

(** The alternatives of the request; [ReqNone] is a request without one. *)
Inductive SubscribeRequest : Type :=
  | ReqPoll
  | ReqAliases (l : list Alias)
  | ReqSubscribe (l : SubscriptionList)
  | ReqNone.

(** ** Subscriptions *)
Record SubConfig : Type := mkConfig {
  c_StreamMode : Z; c_SampleInterval : Z; c_SuppressRedundant : bool; c_HeartbeatInterval : Z
}.

Record PollSubscription : Type := mkPoll { ps_ID : TeleID; ps_SessionID : TeleID; SubList : SubscriptionList }.

(** [startSubSession] splits the address at the last colon; [Atoi] gives 0 for
    a text that is no number and the nearest bound out of range. *)
Definition digit (c : ascii) : option Z :=
  let n := Z.of_N (N_of_ascii c) in if ((48 <=? n) && (n <=? 57))%Z then Some (n - 48)%Z else None.

Fixpoint digits (s : string) (acc : Z) : option Z :=
  match s with
  | "" => Some acc
  | String c s => d ← digit c; digits s (10 * acc + d)%Z
  end.

Definition Atoi (s : string) : Z :=
  let clamp n := Z.max (- 2 ^ 63) (Z.min n (2 ^ 63 - 1)) in
  let number s := if bool_decide (s = "") then None else digits s 0 in
  match s with
  | String "-" s => from_option (λ n, clamp (- n)%Z) 0%Z (number s)
  | String "+" s => from_option clamp 0%Z (number s)
  | _ => from_option clamp 0%Z (number s)
  end.

Definition split_addr (addr : string) : string * Z :=
  match LastIndex addr ":" with
  | Some e => (String.substring 0 e addr, Atoi (String.substring (S e) (strlen addr) addr) mod 2 ^ 16)%Z
  | None => ("", 0%Z)
  end.

Section subscribe.
Context `{GoRange, ProtoClone, YdbTypes, DataOps, GoSort, Gtrie}.
Context {typed : Type} (EncodeTypedValue : goval → Z → option typed + msg).

(** The fields of the request that is met come first, then the configuration
    in force and the state of the runner. *)
Record Subscription : Type := mkSubscription {
  sub_ID : TeleID; sub_SessionID : TeleID; sub_key : string;
  sub_Prefix : option Path; UseAliases : bool; sub_Mode : Z; AllowAggregation : bool; sub_Encoding : Z;
  sub_Paths : list (option Path); StreamMode : Z; SampleInterval : Z; SuppressRedundant : bool;
  HeartbeatInterval : Z;
  Configured : SubConfig;
  stateSync : bool; updatedList : trie Z; deletedList : trie Z; started : bool
}.

Record SubSession : Type := mkSession {
  ses_ID : TeleID; Address : string; Port : Z;
  StreamSub : gmap string nat; PollSub : list PollSubscription;
  ses_aliases : clientAliases; respchan_closed : bool
}.

(** What the handlers send out of the server. *)
Inductive effect : Type :=
  | Respond (r : SubscribeResponse typed)
  | IWrite (data : string)
  | IDelete (data : string)
  | CallSync (paths : list string)
  | GoRun (sub : nat)
  | CloseSession.

(** The server, its registry, the counter of identifiers, the heap of
    subscriptions, the session, and the log. *)
Record World : Type := mkWorld {
  w_server : Server; w_serverAliases : gmap string string; w_tele : teleCtrl;
  w_subID : TeleID; w_subs : list Subscription; w_ses : SubSession; w_log : list effect
}.

(** ** The monad *)
Definition M (A : Type) : Type := World → World * outcome error A.

#[global] Instance M_ret : MRet M := λ A a w, (w, Ok a).
#[global] Instance M_bind : MBind M := λ A B k m w,
  let '(w, r) := m w in
  match r with
  | Ok a => k a w
  | Err e => (w, Err e)
  | Panic => (w, Panic)
  | Diverge => (w, Diverge)
  end.

Definition gets {A} (f : World → A) : M A := λ w, (w, Ok (f w)).
Definition modify (f : World → World) : M unit := λ w, (f w, Ok tt).
Definition lift {A} (o : outcome error A) : M A := λ w, (w, o).
(** The error of a call that is only logged. *)
Definition ignore_error (m : M unit) : M unit := λ w,
  let '(w, r) := m w in match r with Err _ => (w, Ok tt) | _ => (w, r) end.

Fixpoint each {A} (f : A → M unit) (l : list A) : M unit :=
  match l with [] => mret tt | x :: l => _ ← f x; each f l end.

Definition emit (e : effect) : M unit :=
  modify (λ w, mkWorld (w_server w) (w_serverAliases w) (w_tele w) (w_subID w) (w_subs w) (w_ses w) (w_log w ++ [e])).
Definition set_server (s : Server) : M unit :=
  modify (λ w, mkWorld s (w_serverAliases w) (w_tele w) (w_subID w) (w_subs w) (w_ses w) (w_log w)).
Definition set_tele (t : teleCtrl) : M unit :=
  modify (λ w, mkWorld (w_server w) (w_serverAliases w) t (w_subID w) (w_subs w) (w_ses w) (w_log w)).
Definition update_ses (f : SubSession → SubSession) : M unit :=
  modify (λ w, mkWorld (w_server w) (w_serverAliases w) (w_tele w) (w_subID w) (w_subs w) (f (w_ses w)) (w_log w)).
Definition update_sub (a : nat) (f : Subscription → Subscription) : M unit :=
  modify (λ w, mkWorld (w_server w) (w_serverAliases w) (w_tele w) (w_subID w) (alter f a (w_subs w)) (w_ses w) (w_log w)).
Definition next_subID : M TeleID := λ w,
  let n := ((w_subID w + 1) mod 2 ^ 64)%Z in
  (mkWorld (w_server w) (w_serverAliases w) (w_tele w) n (w_subs w) (w_ses w) (w_log w), Ok n).
Definition alloc (sub : Subscription) : M nat := λ w,
  (mkWorld (w_server w) (w_serverAliases w) (w_tele w) (w_subID w) (w_subs w ++ [sub]) (w_ses w) (w_log w),
   Ok (length (w_subs w))).
Definition deref (a : nat) : M Subscription := λ w,
  (w, match w_subs w !! a with Some sub => Ok sub | None => Panic end).

Definition set_aliases (cas : clientAliases) (s : SubSession) : SubSession :=
  mkSession (ses_ID s) (Address s) (Port s) (StreamSub s) (PollSub s) cas (respchan_closed s).
Definition set_StreamSub (m : gmap string nat) (s : SubSession) : SubSession :=
  mkSession (ses_ID s) (Address s) (Port s) m (PollSub s) (ses_aliases s) (respchan_closed s).
Definition set_PollSub (l : list PollSubscription) (s : SubSession) : SubSession :=
  mkSession (ses_ID s) (Address s) (Port s) (StreamSub s) l (ses_aliases s) (respchan_closed s).

(** A type assertion [.( *gnmipb.Path)]. *)
Definition as_path (o : name_or_path) : outcome error (option Path) :=
  match o with NPath p => mret p | NString _ => Panic end.

(** ** Sending *)

(** A send on a closed channel panics. *)
Definition send (response : SubscribeResponse typed) : M unit :=
  closed ← gets (λ w, respchan_closed (w_ses w));
  if closed : bool then lift Panic else emit (Respond response).

Definition sendTelemetryUpdate (responses : list (SubscribeResponse typed)) : M unit := each send responses.

Definition send_alias (name : string) : M unit :=
  cas ← gets (λ w, ses_aliases (w_ses w));
  path ← lift (o ← ToPath cas (NString name) true; as_path o);
  sendTelemetryUpdate (buildAliasResponse path name).

(** The responses for the aliases set before an error are sent. *)
Definition clientAliasesUpdate (aliaslist : list Alias) : M unit :=
  cas ← gets (λ w, ses_aliases (w_ses w));
  '(cas, aliasnames, err) ← lift (updateClientAliases cas aliaslist);
  _ ← update_ses (set_aliases cas);
  _ ← each send_alias aliasnames;
  match err with None => mret tt | Some err => lift (Err err) end.

(** [sort.Slice] by byte order; the names are different. *)
Fixpoint insert_sorted (s : string) (l : list string) : list string :=
  match l with
  | [] => [s]
  | t :: l => match String.compare s t with Gt => t :: insert_sorted s l | _ => s :: t :: l end
  end.
Definition sort_strings (l : list string) : list string := foldr insert_sorted [] l.

Definition serverAliasesUpdate : M unit :=
  serverAliases ← gets w_serverAliases;
  cas ← gets (λ w, ses_aliases (w_ses w));
  '(cas, aliases) ← lift (updateServerAliases cas serverAliases true);
  _ ← update_ses (set_aliases cas);
  each send_alias (sort_strings aliases).

(** ** Updates and deletes *)

(** The deleted paths that start with the text of [path]. *)
Fixpoint getDeletes_loop (sub : Subscription) (deleteOnly : bool) (dpaths : list string)
    : outcome error (list Path) :=
  match dpaths with
  | [] => mret []
  | dpath :: dpaths =>
      if deleteOnly && bool_decide (is_Some (trie_Find (updatedList sub) dpath))
      then getDeletes_loop sub deleteOnly dpaths
      else
        match ToGNMIPath dpath with
        | Ok datapath => deletes ← getDeletes_loop sub deleteOnly dpaths; mret (datapath :: deletes)
        | Err _ =>
            Err (TaggedErrorf codes.Internal TagInvalidPath "path.converting error for %s" [AStr dpath])
        | Panic => Panic
        | Diverge => Diverge
        end
  end.

Definition getDeletes (sub : Subscription) (path : string) (deleteOnly : bool) : outcome error (list Path) :=
  getDeletes_loop sub deleteOnly (trie_PrefixSearch (deletedList sub) path).

(** [duplicates]: a 32-bit sum. *)
Definition count_duplicates (sub : option Subscription) (path : string) : Z :=
  match sub with
  | None => 0
  | Some sub => foldl (λ d v, (d + v) mod 2 ^ 32)%Z 0%Z (go_range (trie_All (updatedList sub) path)).*2
  end.

Definition getUpdates (sub : option Subscription) (data : DataAndPath) (encoding : Z)
    : outcome error (option (Update typed)) :=
  match EncodeTypedValue (dp_Value data) encoding with
  | inr err =>
      Err (TaggedErrorf codes.Internal TagBadData "typed-value encoding error in %s: %v"
             [AStr (dp_Path data); AMsg err])
  | inl None => mret None
  | inl (Some typedValue) =>
      match ToGNMIPath (dp_Path data) with
      | Err _ =>
          Err (TaggedErrorf codes.Internal TagInvalidPath "path.converting error for %s" [AStr (dp_Path data)])
      | Ok datapath => mret (Some (mkUpdate datapath (Some typedValue) (count_duplicates sub (dp_Path data))))
      | Panic => Panic
      | Diverge => Diverge
      end
  end.

(** The updates of one path below a top node: nil updates are skipped. *)
Definition path_updates (s : Server) (prefix : option Path) (sub : option Subscription) (encoding : Z)
    (branch : goval) (path : option Path) : outcome error (list (Update typed)) :=
  _ ← ValidateGNMIPath (s_Model s) [prefix; path];
  '(datalist, ok) ← model_Find (s_Model s) branch path;
  if negb ok || (length datalist =? 0) then mret []
  else append_all (λ data, u ← getUpdates sub data encoding; mret (option_list u)) datalist.

(** [top.Value.(ygot.GoStruct)]. *)
Definition as_branch (top : DataAndPath) : outcome error goval :=
  if is_GoStruct (dp_Value top) then mret (dp_Value top) else Panic.

Definition init_top (s : Server) (prefix prefixAlias : option Path) (encoding : Z)
    (subList : list SubscriptionEntry) (top : DataAndPath) : M unit :=
  branch ← lift (as_branch top);
  updates ← lift (append_all (λ e, path_updates s prefix None encoding branch (se_Path e)) subList);
  if 0 <? length updates
  then sendTelemetryUpdate (buildSubscribeResponse prefixAlias (Some updates) None)
  else mret tt.

(** The responses are sent while the tree is searched: an error leaves those
    of the top nodes before it sent. *)
Definition initTelemetryUpdate (subscriptionList : SubscriptionList) : M unit :=
  if sl_UpdatesOnly subscriptionList then sendTelemetryUpdate buildSyncResponse
  else
    cas ← gets (λ w, ses_aliases (w_ses w));
    prefix ← lift (o ← ToPath cas (NPath (sl_Prefix subscriptionList)) false; as_path o);
    prefixAlias ← lift (o ← ToAlias cas (NPath prefix) false; as_path o);
    s ← gets w_server;
    _ ← lift (ValidateGNMIPath (s_Model s) [prefix]);
    '(toplist, ok) ← lift (model_Find (s_Model s) (s_Root s) prefix);
    if negb ok || (length toplist =? 0) then sendTelemetryUpdate buildSyncResponse
    else
      _ ← each (init_top s prefix prefixAlias (sl_Encoding subscriptionList) (sl_Subscription subscriptionList)) toplist;
      sendTelemetryUpdate buildSyncResponse.

Definition telemetry_top (s : Server) (sub : Subscription) (prefixAlias : option Path) (top : DataAndPath) : M unit :=
  branch ← lift (as_branch top);
  deletes ← lift (getDeletes sub (dp_Path top) false);
  updates ← lift (append_all (path_updates s (sub_Prefix sub) (Some sub) (sub_Encoding sub) branch) (sub_Paths sub));
  sendTelemetryUpdate (buildSubscribeResponse prefixAlias (Some updates) (Some deletes)).

Definition telemetryUpdate (sub : Subscription) (updatedroot : option goval) : M unit :=
  cas ← gets (λ w, ses_aliases (w_ses w));
  prefixAlias ← lift (o ← ToAlias cas (NPath (sub_Prefix sub)) false; as_path o);
  s ← gets w_server;
  let updatedroot := default (s_Root s) updatedroot in
  _ ← lift (ValidateGNMIPath (s_Model s) [sub_Prefix sub]);
  '(toplist, ok) ← lift (model_Find (s_Model s) updatedroot (sub_Prefix sub));
  if negb ok || (length toplist =? 0) then mret tt
  else each (telemetry_top s sub prefixAlias) toplist.

(** ** Stream subscriptions *)

(** The key of [fmt.Sprintf]: subscriptions with the same key are one. *)
Definition subscription_key (ses : TeleID) (prefix : option Path) (useAliases : bool) (Mode : Z)
    (allowAggregation : bool) (Encoding StreamMode SampleInterval : Z) (SuppressRedundant : bool)
    (HeartbeatInterval : Z) : string :=
  GoStrings.Join [fmt_d ses; enum_String SubscriptionList_Mode_name Mode; enum_String Encoding_name Encoding;
        enum_String SubscriptionMode_name StreamMode; ToXPath prefix; fmt_d SampleInterval;
        fmt_d HeartbeatInterval; fmt_t useAliases; fmt_t allowAggregation; fmt_t SuppressRedundant] "-".

(** The switch over the stream mode: the configuration in force. *)
Definition configure (StreamMode SampleInterval : Z) (SuppressRedundant : bool) (HeartbeatInterval : Z)
    : outcome error SubConfig :=
  match StreamMode with
  | 0 => mret (mkConfig 2 defaultInterval true 0)
  | 1 =>
      if (HeartbeatInterval <? minimumInterval) && negb (HeartbeatInterval =? 0) then
        Err (TaggedErrorf codes.OutOfRange TagInvalidConfig
               "heartbeat_interval(!= 0sec and < 1sec) is not supported" [])
      else if negb (SampleInterval =? 0) then
        Err (TaggedErrorf codes.InvalidArgument TagInvalidConfig
               "sample_interval not allowed on on_change mode" [])
      else mret (mkConfig 1 0 false HeartbeatInterval)
  | 2 =>
      if (SampleInterval <? minimumInterval) && negb (SampleInterval =? 0) then
        Err (TaggedErrorf codes.OutOfRange TagInvalidConfig
               "sample_interval(!= 0sec and < 1sec) is not supported" [])
      else if negb (HeartbeatInterval =? 0) && (HeartbeatInterval <? minimumInterval) then
        Err (TaggedErrorf codes.OutOfRange TagInvalidConfig
               "heartbeat_interval(!= 0sec and < 1sec) is not supported" [])
      else if negb (HeartbeatInterval =? 0) && (HeartbeatInterval <? SampleInterval) then
        Err (TaggedErrorf codes.OutOfRange TagInvalidConfig
               "heartbeat_interval should be larger than sample_interval" [])
      else
        mret (mkConfig 2 (if SampleInterval =? 0 then minimumInterval else SampleInterval)
                SuppressRedundant HeartbeatInterval)
  | _ => mret (mkConfig 0 0 false 0)
  end%Z.

Definition add_path (path : option Path) (sync : bool) (sub : Subscription) : Subscription :=
  mkSubscription (sub_ID sub) (sub_SessionID sub) (sub_key sub) (sub_Prefix sub) (UseAliases sub) (sub_Mode sub)
    (AllowAggregation sub) (sub_Encoding sub) (sub_Paths sub ++ [path]) (StreamMode sub) (SampleInterval sub)
    (SuppressRedundant sub) (HeartbeatInterval sub) (Configured sub) (stateSync sub || sync)
    (updatedList sub) (deletedList sub) (started sub).
Definition set_Configured (c : SubConfig) (sub : Subscription) : Subscription :=
  mkSubscription (sub_ID sub) (sub_SessionID sub) (sub_key sub) (sub_Prefix sub) (UseAliases sub) (sub_Mode sub)
    (AllowAggregation sub) (sub_Encoding sub) (sub_Paths sub) (StreamMode sub) (SampleInterval sub)
    (SuppressRedundant sub) (HeartbeatInterval sub) c (stateSync sub) (updatedList sub) (deletedList sub) (started sub).
Definition set_started (b : bool) (sub : Subscription) : Subscription :=
  mkSubscription (sub_ID sub) (sub_SessionID sub) (sub_key sub) (sub_Prefix sub) (UseAliases sub) (sub_Mode sub)
    (AllowAggregation sub) (sub_Encoding sub) (sub_Paths sub) (StreamMode sub) (SampleInterval sub)
    (SuppressRedundant sub) (HeartbeatInterval sub) (Configured sub) (stateSync sub) (updatedList sub) (deletedList sub) b.

(** The new object is in the session before its mode is checked. *)
Definition addStreamSubscription (prefix : option Path) (useAliases : bool) (Mode : Z) (allowAggregation : bool)
    (Encoding : Z) (path : option Path) (StreamMode SampleInterval : Z) (SuppressRedundant : bool)
    (HeartbeatInterval : Z) (stateSync : bool) : M nat :=
  ses ← gets w_ses;
  let key := subscription_key (ses_ID ses) prefix useAliases Mode allowAggregation Encoding StreamMode
               SampleInterval SuppressRedundant HeartbeatInterval in
  match StreamSub ses !! key with
  | Some subctrl => _ ← update_sub subctrl (add_path path stateSync); mret subctrl
  | None =>
      ID ← next_subID;
      subctrl ← alloc (mkSubscription ID (ses_ID ses) key prefix useAliases Mode allowAggregation Encoding [path]
                         StreamMode SampleInterval SuppressRedundant HeartbeatInterval (mkConfig 0 0 false 0)
                         stateSync trie_New trie_New false);
      _ ← update_ses (λ ses, set_StreamSub (<[key := subctrl]> (StreamSub ses)) ses);
      c ← lift (configure StreamMode SampleInterval SuppressRedundant HeartbeatInterval);
      _ ← update_sub subctrl (set_Configured c);
      mret subctrl
  end.

Definition addPollSubscription (sublist : SubscriptionList) : M PollSubscription :=
  ID ← next_subID;
  ses ← gets w_ses;
  let psub := mkPoll ID (ses_ID ses) sublist in
  _ ← update_ses (λ ses, set_PollSub (PollSub ses ++ [psub]) ses);
  mret psub.

(** ** The internal state of the subscriptions ([internal.go]) *)
Definition newline : string := String (ascii_of_nat 10) "".

Definition dynamicTeleSubInfo (ID : TeleID) (address : string) (port sample heartbeat : Z) (suppress : bool)
    (protocol encoding : string) : string :=
  newline +:+ "telemetry-system:" +:+ newline +:+ " subscriptions:" +:+ newline +:+
  "  dynamic-subscriptions:" +:+ newline +:+
  "   dynamic-subscription[id=" +:+ fmt_d ID +:+ "]:" +:+ newline +:+
  "    id: " +:+ fmt_d ID +:+ newline +:+ "    state:" +:+ newline +:+
  "     id: " +:+ fmt_d ID +:+ newline +:+
  "     destination-address: " +:+ address +:+ newline +:+
  "     destination-port: " +:+ fmt_d port +:+ newline +:+
  "     sample-interval: " +:+ fmt_d sample +:+ newline +:+
  "     heartbeat-interval: " +:+ fmt_d heartbeat +:+ newline +:+
  "     suppress-redundant: " +:+ fmt_t suppress +:+ newline +:+
  "     protocol: " +:+ protocol +:+ newline +:+
  "     encoding: ENC_" +:+ encoding +:+ newline +:+ "    sensor-paths:".

Definition dynamicTeleSubInfoPath (p : string) : string :=
  newline +:+ "     sensor-path[path=" +:+ p +:+ "]:" +:+ newline +:+ "      state:" +:+ newline +:+
  "       path: " +:+ p.

Definition dynamicTeleSubDelete (ID : TeleID) : string :=
  newline +:+ "telemetry-system:" +:+ newline +:+ " subscriptions:" +:+ newline +:+
  "  dynamic-subscriptions:" +:+ newline +:+
  "   dynamic-subscription[id=" +:+ fmt_d ID +:+ "]:" +:+ newline.

Definition stream_info (ses : SubSession) (sub : Subscription) : string :=
  dynamicTeleSubInfo (sub_ID sub) (Address ses) (Port ses) (c_SampleInterval (Configured sub))
    (c_HeartbeatInterval (Configured sub)) (c_SuppressRedundant (Configured sub)) "STREAM_GRPC"
    (enum_String Encoding_name (sub_Encoding sub)) +:+
  String.concat "" ((λ p, dynamicTeleSubInfoPath (ToXPath p)) <$> sub_Paths sub).

Fixpoint stream_infos (subs : list nat) : M string :=
  match subs with
  | [] => mret ""
  | a :: subs =>
      ses ← gets w_ses; sub ← deref a; data ← stream_infos subs;
      mret (stream_info ses sub +:+ data)
  end.

Definition addStreamDynamicSubscription (subs : list nat) : M unit :=
  data ← stream_infos subs;
  if bool_decide (data = "") then mret tt else emit (IWrite data).

Definition deleteStreamDynamicSubscriptionInfo (a : nat) : M unit :=
  sub ← deref a; emit (IDelete (dynamicTeleSubDelete (sub_ID sub))).

Definition addPollDynamicSubscription (pollsub : PollSubscription) : M unit :=
  ses ← gets w_ses;
  emit (IWrite (dynamicTeleSubInfo (ps_ID pollsub) (Address ses) (Port ses) 0 0 false "STREAM_GRPC"
                  (enum_String Encoding_name (sl_Encoding (SubList pollsub))))).

Definition deletePollDynamicSubscriptionInfo (pollsub : PollSubscription) : M unit :=
  emit (IDelete (dynamicTeleSubDelete (ps_ID pollsub))).

(** ** Requests *)

(** The subscription is registered again for the paths it has gained; a runner
    is started once. *)
Definition StartTelmetryUpdate (a : nat) : M unit :=
  sub ← deref a;
  s ← gets w_server;
  tcb ← gets w_tele;
  tcb ← lift (register tcb (s_Model s) (mkSub a (sub_ID sub)) (sub_Prefix sub) (sub_Paths sub));
  _ ← set_tele tcb;
  if started sub then mret tt
  else _ ← update_sub a (set_started true); emit (GoRun a).

(** It has no caller.  The channel [stop] is made nowhere, and closing a nil
    channel panics. *)
Definition StopTelemetryUpdate (a : nat) : M unit :=
  sub ← deref a;
  tcb ← gets w_tele;
  _ ← set_tele (unregister tcb (mkSub a (sub_ID sub)));
  lift Panic.

Definition request_sync (sl : SubscriptionList) : M bool :=
  s ← gets w_server;
  '(calls, b) ← lift (RequestStateSyncBySubscriptionList (s_Model s) (s_StateSync s) (sl_Prefix sl)
                        (se_Path <$> sl_Subscription sl));
  _ ← each (λ l, emit (CallSync l)) calls;
  mret b.

(** One entry of a stream request. *)
Definition stream_entry (sl : SubscriptionList) (sync : bool) (updateEntry : SubscriptionEntry) : M nat :=
  s ← gets w_server;
  _ ← lift (ValidateGNMIPath (s_Model s) [sl_Prefix sl; se_Path updateEntry]);
  addStreamSubscription (sl_Prefix sl) (sl_UseAliases sl) (sl_Mode sl) (sl_AllowAggregation sl) (sl_Encoding sl)
    (se_Path updateEntry) (se_Mode updateEntry) (se_SampleInterval updateEntry)
    (se_SuppressRedundant updateEntry) (se_HeartbeatInterval updateEntry) sync.

Fixpoint stream_entries (sl : SubscriptionList) (sync : bool) (subList : list SubscriptionEntry) : M (list nat) :=
  match subList with
  | [] => mret []
  | e :: subList => a ← stream_entry sl sync e; startingList ← stream_entries sl sync subList; mret (a :: startingList)
  end.

Definition poll_request (psub : PollSubscription) : M unit :=
  _ ← request_sync (SubList psub);
  ignore_error (initTelemetryUpdate (SubList psub)).

(** The request with the prefix its alias stands for. *)
Definition subscribe_mode (sl : SubscriptionList) : M unit :=
  match sl_Mode sl with
  | 1%Z => _ ← request_sync sl; initTelemetryUpdate sl
  | 2%Z => psub ← addPollSubscription sl; addPollDynamicSubscription psub
  | 0%Z =>
      sync ← request_sync sl;
      _ ← initTelemetryUpdate sl;
      startingList ← stream_entries sl sync (sl_Subscription sl);
      _ ← addStreamDynamicSubscription startingList;
      each StartTelmetryUpdate startingList
  | _ => mret tt
  end.

Definition subscribe_request (sl : SubscriptionList) : M unit :=
  _ ← (if sl_UseAliases sl then serverAliasesUpdate else mret tt);
  if length (sl_Subscription sl) =? 0 then
    lift (Err (TaggedErrorf codes.InvalidArgument TagMalformedMessage "no subscription info (subscription field)" []))
  else
    s ← gets w_server;
    _ ← lift (CheckModels (s_Model s) (sl_UseModels sl));
    _ ← lift (CheckEncoding (sl_Encoding sl));
    cas ← gets (λ w, ses_aliases (w_ses w));
    prefix ← lift (o ← ToPath cas (NPath (sl_Prefix sl)) false; as_path o);
    subscribe_mode (set_Prefix prefix sl).

Definition processSubscribeRequest (req : SubscribeRequest) : M unit :=
  match req with
  | ReqPoll => psubs ← gets (λ w, PollSub (w_ses w)); each poll_request psubs
  | ReqAliases aliases => clientAliasesUpdate aliases
  | ReqSubscribe sl => subscribe_request sl
  | ReqNone =>
      lift (Err (TaggedErrorf codes.InvalidArgument TagMalformedMessage
                   "no subscription info (SubscriptionList field)" []))
  end.

(** ** The life of a session *)
Definition startSubSession (sessID : TeleID) (remoteaddr : option string) : outcome error (TeleID * SubSession) :=
  let sessID := ((sessID + 1) mod 2 ^ 64)%Z in
  match remoteaddr with
  | None => Panic
  | Some addr =>
      let '(address, port) := split_addr addr in
      mret (sessID, mkSession sessID address port ∅ [] newClientAliases false)
  end.

Definition stop_stream (entry : string * nat) : M unit :=
  _ ← deleteStreamDynamicSubscriptionInfo entry.2;
  sub ← deref entry.2;
  tcb ← gets w_tele;
  _ ← set_tele (unregister tcb (mkSub entry.2 (sub_ID sub)));
  update_ses (λ ses, set_StreamSub (delete entry.1 (StreamSub ses)) ses).

Definition close_session (ses : SubSession) : SubSession :=
  mkSession (ses_ID ses) (Address ses) (Port ses) (StreamSub ses) (PollSub ses) (ses_aliases ses) true.

Definition stopSubSession : M unit :=
  psubs ← gets (λ w, PollSub (w_ses w));
  _ ← each deletePollDynamicSubscriptionInfo psubs;
  subs ← gets (λ w, StreamSub (w_ses w));
  _ ← each stop_stream (go_range subs);
  _ ← update_ses close_session;
  emit CloseSession.

Definition count_request : M unit := s ← gets w_server; set_server (fst (getReqSequence s)).

(** The requests received until the stream ends or one fails; [recv] is the
    error that ends it, [None] for the end of the stream. *)
Fixpoint subscribe (reqs : list SubscribeRequest) (recv : option error) : M unit :=
  match reqs with
  | [] => _ ← count_request; match recv with None => mret tt | Some err => lift (Err err) end
  | req :: reqs => _ ← count_request; _ ← processSubscribeRequest req; subscribe reqs recv
  end.

(** The session is stopped and the result of the loop returned, unless a
    handler panicked. *)
Definition Subscribe (reqs : list SubscribeRequest) (recv : option error) : M unit := λ w,
  let '(w, r) := subscribe reqs recv w in
  match r with
  | Panic => (w, Panic)
  | Diverge => (w, Diverge)
  | _ => let '(w, r') := stopSubSession w in match r' with Ok _ => (w, r) | _ => (w, r') end
  end.
End subscribe.
