(* ===== verification/SubscribeSpec.v ===== *)
(** * SubscribeSpec: the theorems on the sessions of the Subscribe RPC *)

From Stdlib Require Import Ascii ZArith Lia.
From stdpp Require Import pretty.
From S2P Require Export ServerSpec TelemetrySpec Subscribe.

(** ** Rules for handlers

    [triple P m Q E]: from a state with [P] the handler ends in [Q] with its
    result, or fails in [E]. *)
Section triple.
Context `{GoRange, ProtoClone, YdbTypes, DataOps, GoSort, Gtrie} {typed : Type}.
Abbreviation World := (World (typed:=typed)).
Abbreviation M := (M (typed:=typed)).

Definition triple {A} (P : World → Prop) (m : M A) (Q : A → World → Prop) (E : World → Prop) : Prop :=
  ∀ w, P w → match m w with (w', Ok a) => Q a w' | (w', _) => E w' end.

Lemma triple_bind {A B} P (R : A → World → Prop) (Q : B → World → Prop) E (m : M A) (k : A → M B) :
  triple P m R E → (∀ a, triple (R a) (k a) Q E) → triple P (m ≫= k) Q E.
Proof.
  intros Hm Hk w Hw. unfold mbind, M_bind. specialize (Hm w Hw). destruct (m w) as [w' [a| | |]]; [|done..].
  by apply Hk.
Qed.

Lemma triple_conseq {A} (P P' : World → Prop) (Q Q' : A → World → Prop) (E E' : World → Prop) m :
  triple P' m Q' E' → (∀ w, P w → P' w) → (∀ a w, Q' a w → Q a w) → (∀ w, E' w → E w) → triple P m Q E.
Proof. intros Hm HP HQ HE w Hw. specialize (Hm w (HP w Hw)). destruct (m w) as [w' [| | |]]; auto. Qed.

Lemma triple_ret {A} (P : World → Prop) (Q : A → World → Prop) E a :
  (∀ w, P w → Q a w) → triple P (mret a) Q E.
Proof. intros HQ w Hw. by apply HQ. Qed.

Lemma triple_gets {A} (P : World → Prop) (Q : A → World → Prop) E f :
  (∀ w, P w → Q (f w) w) → triple P (gets f) Q E.
Proof. intros HQ w Hw. by apply HQ. Qed.

Lemma triple_modify (P : World → Prop) (Q : unit → World → Prop) E f :
  (∀ w, P w → Q tt (f w)) → triple P (modify f) Q E.
Proof. intros HQ w Hw. by apply HQ. Qed.

Lemma triple_lift {A} (P : World → Prop) (Q : A → World → Prop) (E : World → Prop) o :
  (∀ w a, P w → o = Ok a → Q a w) → (∀ w, P w → E w) → triple P (lift o) Q E.
Proof. intros HQ HE w Hw. cbn. destruct o; auto. Qed.

Lemma triple_each {A} (I : World → Prop) (E : World → Prop) (f : A → M unit) l :
  (∀ x, x ∈ l → triple I (f x) (λ _, I) E) → triple I (each f l) (λ _, I) E.
Proof.
  induction l as [|x l IH]; intros Hf; [by apply triple_ret|]. cbn [each].
  eapply triple_bind; [apply Hf; set_solver|]. intros []. apply IH. set_solver.
Qed.

Lemma triple_ignore_error (I : World → Prop) m : triple I m (λ _, I) I → triple I (ignore_error m) (λ _, I) I.
Proof. intros Hm w Hw. specialize (Hm w Hw). unfold ignore_error. destruct (m w) as [w' [[]| | |]]; done. Qed.

(** A handler that keeps an invariant however it ends. *)
Definition keeps {A} (I : World → Prop) (m : M A) : Prop := triple I m (λ _, I) I.

Lemma keeps_bind {A B} I (m : M A) (k : A → M B) : keeps I m → (∀ a, keeps I (k a)) → keeps I (m ≫= k).
Proof. intros. by eapply triple_bind. Qed.
Lemma keeps_ret {A} I (a : A) : keeps I (mret a).
Proof. by apply triple_ret. Qed.
Lemma keeps_gets {A} I (f : World → A) : keeps I (gets f).
Proof. by apply triple_gets. Qed.
Lemma keeps_lift {A} I (o : outcome error A) : keeps I (lift o).
Proof. by apply triple_lift. Qed.
Lemma keeps_each {A} I (f : A → M unit) l : (∀ x, keeps I (f x)) → keeps I (each f l).
Proof. intros Hf. apply triple_each. intros. apply Hf. Qed.
Lemma keeps_ignore I (m : M unit) : keeps I m → keeps I (ignore_error m).
Proof. apply triple_ignore_error. Qed.
Lemma keeps_if {A} I (b : bool) (m1 m2 : M A) : keeps I m1 → keeps I m2 → keeps I (if b then m1 else m2).
Proof. by destruct b. Qed.
End triple.

#[export] Hint Resolve keeps_ret keeps_gets keeps_lift keeps_ignore : gnxi.

(** The structure of a handler, down to the steps that change the state. *)
Ltac keeps_step :=
  first
    [ apply keeps_ret | apply keeps_gets | apply keeps_lift
    | apply keeps_bind; [|intros ?]
    | apply keeps_each; intros ?
    | apply keeps_ignore
    | apply keeps_if
    | match goal with |- keeps _ (match ?x with _ => _ end) => destruct x end ].
Ltac keeps_steps := repeat keeps_step.

(** ** Handlers that leave the subscriptions alone *)
Section quiet.
Context `{GoRange, ProtoClone, YdbTypes, DataOps, GoSort, Gtrie} {typed : Type}.
Context (EncodeTypedValue : goval → Z → option typed + msg).
Abbreviation World := (World (typed:=typed)).
Abbreviation M := (M (typed:=typed)).

(** The registry, the heap, and the stream subscriptions of the session. *)
Definition core (w : World) : teleCtrl * list Subscription * TeleID * gmap string nat :=
  (w_tele w, w_subs w, ses_ID (w_ses w), StreamSub (w_ses w)).

Definition on_core (I : World → Prop) : Prop := ∀ w w', core w = core w' → I w → I w'.

Context (I : World → Prop) (HI : on_core I).

Lemma keeps_modify f : (∀ w, core (f w) = core w) → keeps I (modify f).
Proof. intros Hf. apply triple_modify. intros w. by apply HI. Qed.
Lemma keeps_emit e : keeps I (emit e).
Proof. by apply keeps_modify. Qed.
Lemma keeps_set_server s : keeps I (set_server s).
Proof. by apply keeps_modify. Qed.
Lemma keeps_update_ses f :
  (∀ s, ses_ID (f s) = ses_ID s ∧ StreamSub (f s) = StreamSub s) → keeps I (update_ses f).
Proof. intros Hf. apply keeps_modify. intros w. unfold core. cbn. by destruct (Hf (w_ses w)) as [-> ->]. Qed.
Lemma keeps_next_subID : keeps I next_subID.
Proof. intros w Hw. cbn. by apply (HI w). Qed.
Lemma keeps_deref a : keeps I (deref a).
Proof. intros w Hw. unfold deref. by destruct (w_subs w !! a). Qed.

Ltac quiet :=
  repeat first
    [ apply keeps_emit | apply keeps_set_server | apply keeps_next_subID | apply keeps_deref
    | apply keeps_update_ses; by intros | keeps_step ].

Lemma keeps_sendTelemetryUpdate rs : keeps I (sendTelemetryUpdate rs).
Proof. unfold sendTelemetryUpdate, send. quiet. Qed.

Lemma keeps_clientAliasesUpdate l : keeps I (clientAliasesUpdate l).
Proof.
  unfold clientAliasesUpdate, send_alias. repeat first [apply keeps_sendTelemetryUpdate | progress quiet].
Qed.

Lemma keeps_serverAliasesUpdate : keeps I serverAliasesUpdate.
Proof.
  unfold serverAliasesUpdate, send_alias. repeat first [apply keeps_sendTelemetryUpdate | progress quiet].
Qed.

Lemma keeps_initTelemetryUpdate sl : keeps I (initTelemetryUpdate EncodeTypedValue sl).
Proof.
  unfold initTelemetryUpdate, init_top. repeat first [apply keeps_sendTelemetryUpdate | progress quiet].
Qed.

Lemma keeps_request_sync sl : keeps I (request_sync sl).
Proof. unfold request_sync. quiet. Qed.

Lemma keeps_stream_infos l : keeps I (stream_infos l).
Proof. induction l as [|a l IH]; cbn [stream_infos]; quiet. exact IH. Qed.

Lemma keeps_addStreamDynamicSubscription l : keeps I (addStreamDynamicSubscription l).
Proof. unfold addStreamDynamicSubscription. apply keeps_bind; [apply keeps_stream_infos|]. intros. quiet. Qed.

Lemma keeps_addPollSubscription sl : keeps I (addPollSubscription sl).
Proof. unfold addPollSubscription. quiet. Qed.

Lemma keeps_poll_request ps : keeps I (poll_request EncodeTypedValue ps).
Proof.
  unfold poll_request. apply keeps_bind; [apply keeps_request_sync|]. intros. apply keeps_ignore, keeps_initTelemetryUpdate.
Qed.
End quiet.

(** ** The invariant of a session *)
Section session.
Context `{GoRange, ProtoClone, YdbTypes, DataOps, GoSort, Gtrie} {typed : Type}.
Context (EncodeTypedValue : goval → Z → option typed + msg).
Abbreviation World := (World (typed:=typed)).
Abbreviation M := (M (typed:=typed)).

(** The key of a subscription, computed from its fields. *)
Definition key_of (sub : Subscription) : string :=
  subscription_key (sub_SessionID sub) (sub_Prefix sub) (UseAliases sub) (sub_Mode sub) (AllowAggregation sub)
    (sub_Encoding sub) (StreamMode sub) (SampleInterval sub) (SuppressRedundant sub) (HeartbeatInterval sub).

(** The configuration in force is the one the requested values give. *)
Definition settled (sub : Subscription) : Prop :=
  configure (StreamMode sub) (SampleInterval sub) (SuppressRedundant sub) (HeartbeatInterval sub) = Ok (Configured sub).

Record sub_ok (ses : TeleID) (key : string) (sub : Subscription) : Prop := {
  sub_ok_key : sub_key sub = key;
  sub_ok_fields : sub_key sub = key_of sub;
  sub_ok_session : sub_SessionID sub = ses;
  sub_ok_paths : sub_Paths sub ≠ [];
  sub_ok_started : started sub = true → settled sub
}.

(** The identifiers of the stream subscriptions of the session. *)
Definition session_id (w : World) (id : TeleID) : Prop :=
  ∃ key a sub, StreamSub (w_ses w) !! key = Some a ∧ w_subs w !! a = Some sub ∧ sub_ID sub = id.

(** The session against the state [w0] in which it started: its subscriptions
    are stored under their keys in the part of the heap it allocated, the rest
    of the heap is as it was, and the registry differs at its own identifiers
    only. *)
Record session_ok (w0 w : World) : Prop := {
  so_subs : ∀ key a, StreamSub (w_ses w) !! key = Some a →
    length (w_subs w0) ≤ a ∧ ∃ sub, w_subs w !! a = Some sub ∧ sub_ok (ses_ID (w_ses w)) key sub;
  so_heap : length (w_subs w0) ≤ length (w_subs w) ∧ ∀ a, a < length (w_subs w0) → w_subs w !! a = w_subs w0 !! a;
  so_registry : registry_ok (lookup (w_tele w));
  so_frame : ∀ q id, ¬ session_id w id → group (lookup (w_tele w)) q !! id = group (lookup (w_tele w0)) q !! id
}.

Lemma session_id_dec w id : session_id w id ∨ ¬ session_id w id.
Proof.
  set (f := λ kv : string * nat, match w_subs w !! kv.2 with Some s => bool_decide (sub_ID s = id) | None => false end).
  destruct (existsb f (map_to_list (StreamSub (w_ses w)))) eqn:Hf; [left|right].
  - apply existsb_elem in Hf as ([k a] & Hin%elem_of_map_to_list & Ha). unfold f in Ha. cbn in Ha.
    destruct (w_subs w !! a) as [s|] eqn:Hs; [|done]. apply bool_decide_eq_true in Ha. by exists k, a, s.
  - intros (k & a & s & Hk & Hs & Hid). apply not_true_iff_false in Hf. apply Hf, existsb_elem. exists (k, a).
    split; [by apply elem_of_map_to_list|]. unfold f. cbn. rewrite Hs. by apply bool_decide_eq_true.
Qed.

(** No subscription of the session was rejected. *)
Definition all_settled (w : World) : Prop :=
  ∀ key a sub, StreamSub (w_ses w) !! key = Some a → w_subs w !! a = Some sub → settled sub.

Definition session_settled (w0 w : World) : Prop := session_ok w0 w ∧ all_settled w.

Lemma session_ok_on_core w0 : on_core (session_ok w0).
Proof.
  intros w w' Hc. injection Hc as Ht Hs Hi Hm. intros [Hsubs Hheap Hreg Hframe].
  constructor; unfold session_id in *; by rewrite <-?Ht, <-?Hs, <-?Hi, <-?Hm.
Qed.

Lemma session_settled_on_core w0 : on_core (session_settled w0).
Proof.
  intros w w' Hc [Hok Hall]. split; [by eapply session_ok_on_core|].
  injection Hc as Ht Hs Hi Hm. unfold all_settled. by rewrite <-Hs, <-Hm.
Qed.

Lemma session_key_inj w0 w key key' a :
  session_ok w0 w → StreamSub (w_ses w) !! key = Some a → StreamSub (w_ses w) !! key' = Some a → key = key'.
Proof.
  intros Hok Hk Hk'. destruct (so_subs _ _ Hok _ _ Hk) as (_ & sub & Hsub & Hs).
  destruct (so_subs _ _ Hok _ _ Hk') as (_ & sub' & Hsub' & Hs'). rewrite Hsub in Hsub'. injection Hsub' as <-.
  by rewrite <-(sub_ok_key _ _ _ Hs), <-(sub_ok_key _ _ _ Hs').
Qed.

(** A write to a subscription of the session that keeps its identity. *)
Lemma update_sub_ok w0 w a f :
  session_ok w0 w → (∀ key sub, StreamSub (w_ses w) !! key = Some a → w_subs w !! a = Some sub →
     sub_ID (f sub) = sub_ID sub ∧ (sub_ok (ses_ID (w_ses w)) key sub → sub_ok (ses_ID (w_ses w)) key (f sub))) →
  (∃ key, StreamSub (w_ses w) !! key = Some a) →
  session_ok w0 (fst (update_sub a f w)).
Proof.
  intros Hok Hf [key0 Hkey0]. destruct Hok as [Hsubs [Hlen Hheap] Hreg Hframe].
  destruct (Hsubs _ _ Hkey0) as (Hge & sub0 & Hsub0 & Hs0). cbn. constructor; cbn; [| |done|].
  - intros key b Hb. destruct (Hsubs _ _ Hb) as (Hge' & sub & Hsub & Hs). split; [done|].
    destruct (decide (b = a)) as [->|Hne].
    + exists (f sub). rewrite list_lookup_alter_eq, Hsub. split; [done|]. by apply (Hf key sub Hb Hsub).
    + exists sub. by rewrite list_lookup_alter_ne.
  - rewrite length_alter. split; [done|]. intros b Hb. rewrite list_lookup_alter_ne by lia. by apply Hheap.
  - intros q id Hid. apply Hframe. intros (key & b & sub & Hb & Hsub & Heq). apply Hid.
    destruct (decide (b = a)) as [->|Hne].
    + exists key, a, (f sub). cbn. rewrite list_lookup_alter_eq, Hsub. split; [done|]. split; [done|].
      by rewrite <-Heq; apply (Hf key sub Hb Hsub).
    + exists key, b, sub. cbn. by rewrite list_lookup_alter_ne.
Qed.

(** *** A new subscription *)
Definition add_sub (w : World) (n : TeleID) (sub : Subscription) : World :=
  mkWorld (w_server w) (w_serverAliases w) (w_tele w) n (w_subs w ++ [sub])
    (set_StreamSub (<[sub_key sub := length (w_subs w)]> (StreamSub (w_ses w))) (w_ses w)) (w_log w).

Lemma add_sub_ok w0 w n sub :
  session_ok w0 w → StreamSub (w_ses w) !! sub_key sub = None → sub_ok (ses_ID (w_ses w)) (sub_key sub) sub →
  session_ok w0 (add_sub w n sub).
Proof.
  intros [Hsubs [Hlen Hheap] Hreg Hframe] Hnew Hok. constructor; cbn; [| |done|].
  - intros key a. destruct (decide (key = sub_key sub)) as [->|Hne].
    + rewrite lookup_insert_eq. intros [= <-]. split; [done|]. exists sub. by rewrite list_lookup_middle.
    + rewrite lookup_insert_ne by done. intros Ha. destruct (Hsubs _ _ Ha) as (Hge & s & Hs & ?).
      split; [done|]. exists s. by rewrite lookup_app_l by by eapply lookup_lt_Some.
  - rewrite length_app. split; [lia|]. intros a Ha. rewrite lookup_app_l by lia. by apply Hheap.
  - intros q id Hid. apply Hframe. intros (key & a & s & Ha & Hs & Heq). apply Hid. exists key, a, s. cbn.
    split_and!; [|by rewrite lookup_app_l by by eapply lookup_lt_Some|done].
    by rewrite lookup_insert_ne by congruence.
Qed.

Definition accepted (w : World) (a : nat) : Prop := ∃ key, StreamSub (w_ses w) !! key = Some a.
Definition starting (w0 : World) (l : list nat) (w : World) : Prop := session_settled w0 w ∧ Forall (accepted w) l.

Lemma starting_on_core w0 l : on_core (starting w0 l).
Proof.
  intros w w' Hc [Hok Hl]. split; [by eapply session_settled_on_core|].
  injection Hc as Ht Hs Hi Hm. eapply Forall_impl; [exact Hl|]. intros a [key Hk]. exists key. by rewrite <-Hm.
Qed.

Lemma add_path_settled path sync sub : settled sub → settled (add_path path sync sub).
Proof. done. Qed.

Lemma addStreamSubscription_ok w0 l prefix ua mode agg enc path sm si sr hi sync :
  triple (starting w0 l) (addStreamSubscription prefix ua mode agg enc path sm si sr hi sync)
    (λ a, starting w0 (a :: l)) (session_ok w0).
Proof.
  intros w [[Hok Hall] Hl]. unfold addStreamSubscription, mbind, M_bind, gets.
  set (key := subscription_key _ _ _ _ _ _ _ _ _ _).
  destruct (StreamSub (w_ses w) !! key) as [a|] eqn:Hkey.
  - destruct (so_subs _ _ Hok _ _ Hkey) as (_ & sub & Hsub & Hs).
    assert (session_ok w0 (fst (update_sub a (add_path path sync) w))) as Hok'.
    { apply update_sub_ok; [done| |by exists key]. intros key' sub' Hk' Hsub'. split; [done|].
      intros [? ? ? Hp ?]. constructor; try done. cbn. by destruct (sub_Paths sub'). }
    cbn in Hok' |- *. split; [split; [exact Hok'|]|].
    + intros key' b sub' Hb. cbn. destruct (decide (b = a)) as [->|Hne].
      * rewrite list_lookup_alter_eq, Hsub. intros [= <-]. apply add_path_settled. exact (Hall key a sub Hkey Hsub).
      * rewrite list_lookup_alter_ne by done. intros Hsub'. exact (Hall key' b sub' Hb Hsub').
    + constructor; [by exists key|exact Hl].
  - cbn [next_subID alloc update_ses modify lift].
    set (sub := mkSubscription _ _ _ _ _ _ _ _ _ _ _ _ _ _ _ _ _ _).
    match goal with |- context [set_StreamSub] => set (w1 := add_sub w ((w_subID w + 1) mod 2 ^ 64)%Z sub) end.
    assert (session_ok w0 w1) as Hok1 by (apply add_sub_ok; [done..|by constructor; cbn]).
    cbn. destruct (configure sm si sr hi) as [c| | |] eqn:Hc; [|exact Hok1..].
    assert (StreamSub (w_ses w1) !! key = Some (length (w_subs w))) as Hk1 by apply lookup_insert_eq.
    assert (session_ok w0 (fst (update_sub (length (w_subs w)) (set_Configured c) w1))) as Hok2.
    { apply update_sub_ok; [done| |by exists key]. intros key' sub' Hk' Hsub'.
      assert (sub' = sub) as ->.
      { cbn in Hsub'. rewrite list_lookup_middle in Hsub' by done. by injection Hsub'. }
      split; [done|]. intros []. by constructor; cbn. }
    split; [split; [exact Hok2|]|].
    + intros key' b sub' Hb Hsub'. cbn in Hb, Hsub'. destruct (decide (b = length (w_subs w))) as [->|Hne].
      * rewrite list_lookup_alter_eq, list_lookup_middle in Hsub' by done. injection Hsub' as <-. exact Hc.
      * rewrite list_lookup_alter_ne in Hsub' by done.
        destruct (decide (key' = key)) as [->|Hk]; [rewrite lookup_insert_eq in Hb; by injection Hb as <-|].
        rewrite lookup_insert_ne in Hb by done. destruct (so_subs _ _ Hok _ _ Hb) as (_ & s & Hs & _).
        rewrite lookup_app_l in Hsub' by by eapply lookup_lt_Some. exact (Hall key' b sub' Hb Hsub').
    + constructor; [by exists key|]. eapply Forall_impl; [exact Hl|]. intros b [key' Hb]. exists key'. cbn.
      rewrite lookup_insert_ne; [done|]. intros Heq. rewrite <-Heq in Hb. change (StreamSub (w_ses w) !! key = Some b) in Hb. congruence.
Qed.

Lemma set_tele_ok w0 w tcb :
  session_ok w0 w → registry_ok (lookup tcb) →
  (∀ q id, ¬ session_id w id → group (lookup tcb) q !! id = group (lookup (w_tele w)) q !! id) →
  session_ok w0 (fst (set_tele tcb w)).
Proof.
  intros [Hsubs Hheap Hreg Hframe] Ht Hg. constructor; cbn; [done..|]. intros q id Hid.
  rewrite Hg by exact Hid. by apply Hframe.
Qed.

Lemma update_sub_settled w a f :
  (∀ sub, w_subs w !! a = Some sub → settled sub → settled (f sub)) → all_settled w →
  all_settled (fst (update_sub a f w)).
Proof.
  intros Hf Hall key b sub Hb. cbn in *. destruct (decide (b = a)) as [->|Hne].
  - rewrite list_lookup_alter_eq. destruct (w_subs w !! a) as [s|] eqn:Hs; [|done]. intros [= <-].
    apply (Hf s); [done|]. exact (Hall key a s Hb Hs).
  - rewrite list_lookup_alter_ne by done. exact (Hall key b sub Hb).
Qed.

(** The registration touches the groups at the identifier only. *)
Lemma register_other tcb m sub Prefix Paths tcb' q id :
  register tcb m sub Prefix Paths = Ok tcb' → id ≠ sp_ID sub →
  group (lookup tcb') q !! id = group (lookup tcb) q !! id.
Proof.
  intros Hr Hid. unfold register in Hr. apply outcome_bind_Ok in Hr as (l & Hl & [= <-]).
  apply register_paths_fold in Hl as (ps & -> & _). cbn [lookup]. rewrite register_fold_group.
  case_decide; [by rewrite lookup_insert_ne|done].
Qed.

Lemma register_registry_ok tcb m sub Prefix Paths tcb' :
  register tcb m sub Prefix Paths = Ok tcb' → registry_ok (lookup tcb) → registry_ok (lookup tcb').
Proof.
  intros Hr. unfold register in Hr. apply outcome_bind_Ok in Hr as (l & Hl & [= <-]).
  apply register_paths_fold in Hl as (ps & -> & _). apply register_fold_ok.
Qed.

Lemma StartTelmetryUpdate_ok w0 l a :
  a ∈ l → triple (starting w0 l) (StartTelmetryUpdate a) (λ _, starting w0 l) (session_ok w0).
Proof.
  intros Ha w [[Hok Hall] Hl]. pose proof (proj1 (Forall_forall _ _) Hl a Ha) as [key Hkey].
  destruct (so_subs _ _ Hok _ _ Hkey) as (_ & sub & Hsub & Hs).
  unfold StartTelmetryUpdate, mbind, M_bind, deref, gets, lift. rewrite Hsub.
  destruct (register _ _ _ _ _) as [tcb| | |] eqn:Hr; [|exact Hok..].
  assert (session_ok w0 (fst (set_tele tcb w))) as Hok1.
  { apply set_tele_ok; [done|by eapply register_registry_ok, so_registry|]. intros q id Hid.
    rewrite (register_other _ _ _ _ _ _ _ _ Hr); [done|]. intros ->. apply Hid. by exists key, a, sub. }
  cbn in Hok1 |- *. destruct (started sub); [by split|].
  pose proof (update_sub_ok w0 _ a (set_started true) Hok1) as Hok2. cbn in Hok2 |- *.
  split; [split|].
  - eapply session_ok_on_core; [|apply Hok2; [|by exists key]]; [done|]. intros key' sub' Hk' Hsub'. split; [done|]. intros [? ? ? ? ?]. constructor; try done.
    intros _. exact (Hall key' a sub' Hk' Hsub').
  - intros key' b sub' Hb. cbn in *. destruct (decide (b = a)) as [->|Hne].
    + rewrite list_lookup_alter_eq, Hsub. intros [= <-]. exact (Hall key' a sub Hb Hsub).
    + rewrite list_lookup_alter_ne by done. exact (Hall key' b sub' Hb).
  - exact Hl.
Qed.

Lemma starting_weaken w0 l l' w : (∀ a, a ∈ l' → a ∈ l) → starting w0 l w → starting w0 l' w.
Proof. intros Hin [? Hl]. split; [done|]. rewrite Forall_forall in *. auto. Qed.

Lemma starting_error w0 l w : starting w0 l w → session_ok w0 w.
Proof. by intros [[? _] _]. Qed.

(** A handler that keeps what depends on the core keeps the invariants and
    fails in the weaker one. *)
Lemma keeps_starting {A} w0 l (m : M A) :
  keeps (starting w0 l) m → triple (starting w0 l) m (λ _, starting w0 l) (session_ok w0).
Proof. intros Hm. eapply triple_conseq; [exact Hm|done|done|]. intros ?. apply starting_error. Qed.

Lemma stream_entries_ok w0 sl sync subList l :
  triple (starting w0 l) (stream_entries sl sync subList) (λ l', starting w0 (l' ++ l)) (session_ok w0).
Proof.
  revert l. induction subList as [|e subList IH]; intros l; cbn [stream_entries]; [by apply triple_ret|].
  eapply triple_bind with (R := λ a, starting w0 (a :: l)).
  - unfold stream_entry. eapply triple_bind with (R := λ _, starting w0 l); [by apply triple_gets|]. intros s.
    eapply triple_bind with (R := λ _, starting w0 l); [|intros; apply addStreamSubscription_ok].
    apply triple_lift; [by intros|]. intros w. by apply starting_error.
  - intros a. eapply triple_bind; [apply IH|]. intros l'. apply triple_ret. intros w.
    apply starting_weaken. set_solver.
Qed.

Lemma settled_starting w0 w : session_settled w0 w ↔ starting w0 [] w.
Proof. split; [intros Hw; by split|by intros [? _]]. Qed.

Lemma subscribe_mode_ok w0 sl :
  triple (starting w0 []) (subscribe_mode EncodeTypedValue sl) (λ _, starting w0 []) (session_ok w0).
Proof.
  assert (∀ l, on_core (starting w0 l)) as HI by (intros; apply starting_on_core).
  unfold subscribe_mode. destruct (sl_Mode sl) as [|[p|[p|p|]|]|p]; try (apply keeps_starting, keeps_ret).
  - eapply triple_bind; [apply keeps_starting, keeps_request_sync, HI|]. intros sync.
    eapply triple_bind; [apply keeps_starting, keeps_initTelemetryUpdate, HI|]. intros [].
    eapply triple_bind; [apply stream_entries_ok|]. intros l.
    eapply triple_bind; [apply keeps_starting, keeps_addStreamDynamicSubscription, HI|]. intros [].
    eapply triple_conseq; [apply triple_each; intros a Ha; apply StartTelmetryUpdate_ok| | |]; [|done| |done].
    + set_solver.
    + intros [] w. apply starting_weaken. set_solver.
  - apply keeps_starting, keeps_bind; [by apply keeps_addPollSubscription|]. intros ps. apply keeps_bind; [apply keeps_gets|]. intros ses. by apply keeps_emit.
  - apply keeps_starting, keeps_bind; [by apply keeps_request_sync|]. intros b. by apply keeps_initTelemetryUpdate.
Qed.

Lemma processSubscribeRequest_settled w0 req :
  triple (session_settled w0) (processSubscribeRequest EncodeTypedValue req) (λ _, session_settled w0) (session_ok w0).
Proof.
  assert (on_core (starting w0 [])) as HI by apply starting_on_core.
  eapply triple_conseq with (P' := starting w0 []) (Q' := λ _, starting w0 []);
    [|by intros w ?%settled_starting|by intros [] w ?%settled_starting|done].
  destruct req as [|aliases|sl|]; cbn [processSubscribeRequest].
  - apply keeps_starting, keeps_bind; [apply keeps_gets|]. intros psubs. apply keeps_each. intros ps. by apply keeps_poll_request.
  - by apply keeps_starting, keeps_clientAliasesUpdate.
  - unfold subscribe_request. eapply triple_bind.
    { apply keeps_starting, keeps_if; [by apply keeps_serverAliasesUpdate|apply keeps_ret]. }
    intros []. destruct (_ =? 0); [apply keeps_starting, keeps_lift|].
    eapply triple_bind; [apply keeps_starting, keeps_gets|]. intros s. do 2 (eapply triple_bind; [apply keeps_starting, keeps_lift|]; intros []).
    eapply triple_bind; [apply keeps_starting, keeps_gets|]. intros cas.
    eapply triple_bind; [apply keeps_starting, keeps_lift|]. intros prefix. apply subscribe_mode_ok.
  - apply keeps_starting, keeps_lift.
Qed.

Lemma subscribe_ok w0 reqs recv :
  triple (session_settled w0) (subscribe EncodeTypedValue reqs recv) (λ _, session_ok w0) (session_ok w0).
Proof.
  assert (∀ w, session_settled w0 w → session_ok w0 w) as Hweak by by intros w [].
  assert (triple (session_settled w0) count_request (λ _, session_settled w0) (session_ok w0)) as Hcount.
  { eapply triple_bind; [by apply triple_gets with (Q := λ _, session_settled w0)|]. intros s.
    eapply triple_conseq; [by apply keeps_set_server, session_settled_on_core|done|done|done]. }
  induction reqs as [|req reqs IH]; cbn [subscribe].
  - eapply triple_bind; [exact Hcount|]. intros []. destruct recv; [by apply triple_lift|by apply triple_ret].
  - eapply triple_bind; [exact Hcount|]. intros []. eapply triple_bind; [apply processSubscribeRequest_settled|].
    intros []. exact IH.
Qed.

(** *** The end of a session *)

(** The identifiers of a list of subscriptions. *)
Definition ids_of (w : World) (l : list (string * nat)) (id : TeleID) : Prop :=
  ∃ k a sub, (k, a) ∈ l ∧ w_subs w !! a = Some sub ∧ sub_ID sub = id.

Lemma stop_streams w l :
  (∀ k a, (k, a) ∈ l → is_Some (w_subs w !! a)) → registry_ok (lookup (w_tele w)) →
  ∃ w', each stop_stream l w = (w', Ok tt) ∧ w_subs w' = w_subs w ∧
    StreamSub (w_ses w') = foldl (λ m kv, delete kv.1 m) (StreamSub (w_ses w)) l ∧
    registry_ok (lookup (w_tele w')) ∧
    ∀ q id, (ids_of w l id → group (lookup (w_tele w')) q !! id = None) ∧
            (¬ ids_of w l id → group (lookup (w_tele w')) q !! id = group (lookup (w_tele w)) q !! id).
Proof.
  revert w. induction l as [|[k a] l IH]; intros w Hl Hok.
  { exists w. split; [done|]. split_and!; try done. intros q id. split; [by intros (? & ? & ? & ?%elem_of_nil & _)|done]. }
  destruct (Hl k a) as [sub Hsub]; [set_solver|].
  cbn [each]. unfold mbind at 1, M_bind at 1.
  assert (∃ w1, stop_stream (k, a) w = (w1, Ok tt) ∧ w_subs w1 = w_subs w ∧
    StreamSub (w_ses w1) = delete k (StreamSub (w_ses w)) ∧ w_tele w1 = unregister (w_tele w) (mkSub a (sub_ID sub)))
    as (w1 & -> & Hs1 & Hm1 & Ht1).
  { unfold stop_stream, deleteStreamDynamicSubscriptionInfo, mbind, M_bind, deref. cbn [fst snd]. rewrite Hsub. cbn.
    rewrite Hsub. eexists. split; [done|]. done. }
  destruct (IH w1) as (w' & Hw' & Hs & Hm & Hok' & Hg).
  { intros k' a' Hin. rewrite Hs1. apply (Hl k'). set_solver. }
  { rewrite Ht1. by apply unregister_ok. }
  exists w'. split; [exact Hw'|]. split; [by rewrite Hs|]. split; [by rewrite Hm, Hm1|]. split; [done|].
  assert (∀ id, ids_of w ((k, a) :: l) id ↔ id = sub_ID sub ∨ ids_of w1 l id) as Hids.
  { intros id. unfold ids_of. rewrite Hs1. split.
    - intros (k' & a' & s & [[= -> ->]|Hin]%elem_of_cons & Hs' & <-); [left; congruence|right; by eauto 10].
    - intros [->|(k' & a' & s & Hin & ? & ?)]; [exists k, a, sub|exists k', a', s]; set_solver. }
  intros q id. destruct (Hg q id) as [Hg1 Hg2]. rewrite Hids. rewrite Ht1, unregister_group in Hg2. cbn [sp_ID] in Hg2.
  split.
  - intros [->|Hin]; [|by apply Hg1]. destruct (Hg q (sub_ID sub)) as [Hn1 Hn2].
    destruct (group (lookup (w_tele w')) q !! sub_ID sub) as [s|] eqn:Hsome; [|done].
    assert (¬ ids_of w1 l (sub_ID sub)) as Hno by (intros Hin; specialize (Hn1 Hin); congruence).
    specialize (Hn2 Hno). rewrite Ht1, unregister_group in Hn2. cbn [sp_ID] in Hn2.
    rewrite lookup_delete_eq in Hn2. congruence.
  - intros Hno. rewrite Hg2 by tauto. by rewrite lookup_delete_ne by naive_solver.
Qed.

Lemma foldl_delete_all {A} (m : gmap string A) l :
  (∀ k, is_Some (m !! k) → k ∈ l.*1) → foldl (λ m (kv : string * A), delete kv.1 m) m l = ∅.
Proof.
  revert m. induction l as [|[k a] l IH]; intros m Hm; cbn [foldl].
  - apply map_eq. intros k. rewrite lookup_empty. destruct (m !! k) eqn:Hk; [|done].
    by destruct (not_elem_of_nil k (Hm k ltac:(by eexists))).
  - apply IH. intros k' [v [Hne Hk']%lookup_delete_Some]. specialize (Hm k' ltac:(by eexists)). set_solver.
Qed.

Lemma stopSubSession_ok w0 w :
  session_ok w0 w →
  ∃ w', stopSubSession w = (w', Ok tt) ∧ w_subs w' = w_subs w ∧ StreamSub (w_ses w') = ∅ ∧
    respchan_closed (w_ses w') = true ∧ registry_ok (lookup (w_tele w')) ∧
    ∀ q id, (session_id w id → group (lookup (w_tele w')) q !! id = None) ∧
            (¬ session_id w id → group (lookup (w_tele w')) q !! id = group (lookup (w_tele w0)) q !! id).
Proof.
  intros Hok. unfold stopSubSession, mbind at 1, M_bind at 1, gets.
  assert (∃ w1, each deletePollDynamicSubscriptionInfo (PollSub (w_ses w)) w = (w1, Ok tt) ∧ core w1 = core w)
    as (w1 & Hw1 & Hc).
  { generalize (PollSub (w_ses w)). clear. intros l. revert w. induction l as [|ps l IH]; intros w; [by exists w|].
    destruct (IH (fst (deletePollDynamicSubscriptionInfo ps w))) as (w' & Hw' & Hc). exists w'.
    split; [exact Hw'|exact Hc]. }
  unfold mbind at 1, M_bind at 1. rewrite Hw1. apply (session_ok_on_core w0 w w1) in Hok; [|done].
  assert (∀ id, session_id w id ↔ session_id w1 id) as Hids.
  { unfold session_id. injection Hc as Ht Hs Hi Hm. by rewrite Hs, Hm. }
  assert (w_subs w1 = w_subs w) as <- by by injection Hc.
  unfold mbind at 1, M_bind at 1. unfold mbind at 1, M_bind at 1.
  destruct (stop_streams w1 (go_range (StreamSub (w_ses w1)))) as (w2 & -> & Hs2 & Hm2 & Ht2 & Hg2).
  { intros k a Hin%elem_of_go_range. destruct (so_subs _ _ Hok _ _ Hin) as (_ & sub & -> & _). by eexists. }
  { apply (so_registry _ _ Hok). }
  eexists. split; [reflexivity|]. cbn. split; [done|]. split.
  { rewrite Hm2. apply foldl_delete_all. intros k [a Ha]. apply list_elem_of_fmap. exists (k, a).
    split; [done|]. by apply elem_of_go_range. }
  split; [done|]. split; [done|]. intros q id.
  assert (ids_of w1 (go_range (StreamSub (w_ses w1))) id ↔ session_id w1 id) as Hiff.
  { unfold ids_of, session_id. split.
    - intros (k & a & s & Hin%elem_of_go_range & ? & ?). by exists k, a, s.
    - intros (k & a & s & Hin & ? & ?). exists k, a, s. by rewrite elem_of_go_range. }
  destruct (Hg2 q id) as [Hg2a Hg2b]. rewrite Hids, <-Hiff. split; [done|]. intros Hno. rewrite Hg2b by done.
  apply (so_frame _ _ Hok). by rewrite <-Hiff.
Qed.
End session.

(** ** Keys *)

(** Texts without a separator, and texts of digits. *)
Definition no_dash (s : string) : Prop := str_forallb (λ c, negb (Ascii.eqb c "-")) s = true.
Definition is_digit (c : ascii) : bool := bool_decide (is_Some (digit c)).
Definition all_digits (s : string) : Prop := str_forallb is_digit s = true.

Lemma no_dash_cons c s : no_dash (String c s) ↔ c ≠ "-"%char ∧ no_dash s.
Proof.
  unfold no_dash. cbn [str_forallb]. rewrite andb_true_iff, negb_true_iff. destruct (Ascii.eqb_spec c "-"); naive_solver.
Qed.

Lemma split_first a a' b b' :
  no_dash a → no_dash a' → a +:+ "-" +:+ b = a' +:+ "-" +:+ b' → a = a' ∧ b = b'.
Proof.
  revert a'. induction a as [|c a IH]; intros [|c' a'] Ha Ha' Heq.
  - injection Heq as Heq. by rewrite !GoStrings.app_nil_l in Heq.
  - apply no_dash_cons in Ha' as [? _]. cbn in Heq. injection Heq as <- _. done.
  - apply no_dash_cons in Ha as [? _]. cbn in Heq. injection Heq as -> _. done.
  - apply no_dash_cons in Ha as [_ Ha]. apply no_dash_cons in Ha' as [_ Ha'].
    rewrite !app_cons in Heq. injection Heq as -> Heq. destruct (IH a' Ha Ha' Heq) as [-> ->]. done.
Qed.

Lemma no_dash_not_mid a b : ¬ no_dash (a +:+ "-" +:+ b).
Proof. induction a as [|c a IH]; [intros [? _]%no_dash_cons; done|]. rewrite app_cons. by intros [_ ?]%no_dash_cons. Qed.

Lemma split_last a a' b b' :
  no_dash b → no_dash b' → a +:+ "-" +:+ b = a' +:+ "-" +:+ b' → a = a' ∧ b = b'.
Proof.
  intros Hb Hb'. revert a'. induction a as [|c a IH]; intros [|c' a'] Heq.
  - injection Heq as Heq. by rewrite !GoStrings.app_nil_l in Heq.
  - injection Heq as _ Heq. rewrite GoStrings.app_nil_l in Heq. subst b. by destruct (no_dash_not_mid a' b').
  - injection Heq as _ Heq. rewrite GoStrings.app_nil_l in Heq. subst b'. by destruct (no_dash_not_mid a b).
  - rewrite !app_cons in Heq. injection Heq as -> Heq. destruct (IH a' Heq) as [-> ->]. done.
Qed.

Lemma split_last' a a' b b' :
  no_dash b → no_dash b' → (a +:+ "-") +:+ b = (a' +:+ "-") +:+ b' → a = a' ∧ b = b'.
Proof. rewrite !GoStrings.app_assoc. apply split_last. Qed.

Lemma all_digits_no_dash s : all_digits s → no_dash s.
Proof.
  unfold all_digits, no_dash. apply str_forallb_impl. intros c Hc. destruct (Ascii.eqb_spec c "-"); [by subst|done].
Qed.

Lemma pretty_N_char_digit x : (x < 10)%N → is_digit (pretty_N_char x) = true.
Proof.
  intros Hx. assert (x = 0 ∨ x = 1 ∨ x = 2 ∨ x = 3 ∨ x = 4 ∨ x = 5 ∨ x = 6 ∨ x = 7 ∨ x = 8 ∨ x = 9)%N as Hcases by lia.
  repeat destruct Hcases as [->|Hcases]; subst; reflexivity.
Qed.

Lemma pretty_N_go_digits x s : all_digits s → all_digits (pretty_N_go x s).
Proof.
  revert s. induction (N.lt_wf_0 x) as [x _ IH]. intros s Hs. destruct (decide (x = 0%N)) as [->|Hx]; [done|].
  rewrite pretty_N_go_step by lia. apply IH; [by apply N.div_lt; lia|].
  unfold all_digits in *. cbn [str_forallb]. rewrite pretty_N_char_digit by (apply N.mod_lt; lia). done.
Qed.

Lemma fmt_d_digits n : (0 ≤ n)%Z → all_digits (fmt_d n).
Proof.
  intros Hn. destruct n as [|p|p]; [done| |lia]. change (all_digits (pretty (N.pos p))).
  unfold pretty, pretty_N. case_decide; [done|]. by apply pretty_N_go_digits.
Qed.

Lemma fmt_d_inj n k : fmt_d n = fmt_d k → n = k.
Proof. apply pretty_Z_inj. Qed.

Lemma fmt_t_inj b c : fmt_t b = fmt_t c → b = c.
Proof. by destruct b, c. Qed.

Lemma fmt_t_no_dash b : no_dash (fmt_t b).
Proof. by destruct b. Qed.

(** The names of an enumeration: different, and no numbers. *)
Definition enum_names (name : Z → string) (bound : nat) : Prop :=
  (∀ n, (0 ≤ n)%Z → name n ≠ "" → (n < Z.of_nat bound)%Z) ∧
  ∀ i, i < bound → no_dash (name (Z.of_nat i)) ∧ ¬ all_digits (name (Z.of_nat i)) ∧
    ∀ j, j < bound → name (Z.of_nat i) = name (Z.of_nat j) → i = j.

Lemma enum_String_no_dash name bound n : enum_names name bound → (0 ≤ n)%Z → no_dash (enum_String name n).
Proof.
  intros [Hb Hn] Hpos. unfold enum_String. case_bool_decide as Hname; [by apply all_digits_no_dash, fmt_d_digits|].
  specialize (Hn (Z.to_nat n)). rewrite Z2Nat.id in Hn by done. apply Hn. specialize (Hb n Hpos Hname). lia.
Qed.

Lemma enum_String_inj name bound n k :
  enum_names name bound → (0 ≤ n)%Z → (0 ≤ k)%Z → enum_String name n = enum_String name k → n = k.
Proof.
  intros [Hb Hn] Hn0 Hk0. unfold enum_String.
  assert (∀ x, (0 ≤ x)%Z → name x ≠ "" → Z.to_nat x < bound ∧ ¬ all_digits (name x)) as Hin.
  { intros x Hx Hname. specialize (Hb x Hx Hname). specialize (Hn (Z.to_nat x)). rewrite Z2Nat.id in Hn by done.
    split; [lia|]. apply Hn. lia. }
  do 2 case_bool_decide; intros Heq.
  - by apply fmt_d_inj.
  - destruct (Hin k) as [_ []]; [done..|]. rewrite <-Heq. by apply fmt_d_digits.
  - destruct (Hin n) as [_ []]; [done..|]. rewrite Heq. by apply fmt_d_digits.
  - destruct (Hin n) as [Hnb _]; [done..|]. destruct (Hin k) as [Hkb _]; [done..|].
    destruct (Hn (Z.to_nat n) Hnb) as (_ & _ & Hinj). specialize (Hinj (Z.to_nat k) Hkb).
    rewrite !Z2Nat.id in Hinj by done. specialize (Hinj Heq). lia.
Qed.

Ltac enum_names_tac :=
  split;
  [intros [|p|p] ? Hname; [lia| |lia]; repeat (destruct p as [p|p|]; cbn in Hname; try done); lia
  |intros i Hi; do 6 (destruct i as [|i]; [first [lia|split_and!; [reflexivity|discriminate|
     intros j Hj; do 6 (destruct j as [|j]; [intros Heq; first [lia|reflexivity|discriminate Heq]|]); lia]]|]); lia].

Lemma mode_names : enum_names SubscriptionList_Mode_name 3.
Proof. enum_names_tac. Qed.
Lemma submode_names : enum_names SubscriptionMode_name 3.
Proof. enum_names_tac. Qed.
Lemma encoding_names : enum_names Encoding_name 5.
Proof. enum_names_tac. Qed.

(** ** Theorems *)
Section theorems.
Context `{GoRange, ProtoClone, YdbTypes, DataOps, GoSort, Gtrie} {typed : Type}.
Context (EncodeTypedValue : goval → Z → option typed + msg).
Abbreviation World := (World (typed:=typed)).

(** The key of a stream subscription identifies its settings: two keys are
    equal exactly if the session, the list mode, the encoding, the stream mode,
    the text of the prefix, both intervals and the three flags are equal, even
    though the text of the prefix may hold the separator. *)
Theorem subscription_key_inj (ses ses' : TeleID) (p p' : option Path) (ua ua' : bool) (m m' : Z) (ag ag' : bool)
    (e e' sm sm' si si' : Z) (sr sr' : bool) (hi hi' : Z) :
  Forall (λ z, 0 ≤ z)%Z [ses; ses'; m; m'; e; e'; sm; sm'; si; si'; hi; hi'] →
  subscription_key ses p ua m ag e sm si sr hi = subscription_key ses' p' ua' m' ag' e' sm' si' sr' hi' ↔
  (ses, m, e, sm, ToXPath p, si, hi, ua, ag, sr) = (ses', m', e', sm', ToXPath p', si', hi', ua', ag', sr').
Proof.
  intros Hpos. rewrite !Forall_cons in Hpos.
  destruct Hpos as (? & ? & ? & ? & ? & ? & ? & ? & ? & ? & ? & ? & _).
  split; [|intros [=]; unfold subscription_key; congruence]. unfold subscription_key.
  rewrite !Join_cons, !Join_one. intros Heq.
  apply split_first in Heq as [E1 Heq]; [|by apply all_digits_no_dash, fmt_d_digits..].
  apply split_first in Heq as [E2 Heq]; [|by eapply enum_String_no_dash; [apply mode_names|]..].
  apply split_first in Heq as [E3 Heq]; [|by eapply enum_String_no_dash; [apply encoding_names|]..].
  apply split_first in Heq as [E4 Heq]; [|by eapply enum_String_no_dash; [apply submode_names|]..].
  rewrite <-!GoStrings.app_assoc in Heq.
  do 3 (apply split_last' in Heq as [Heq ?%fmt_t_inj]; [|apply fmt_t_no_dash..]).
  do 2 (apply split_last' in Heq as [Heq ?%fmt_d_inj]; [|by apply all_digits_no_dash, fmt_d_digits..]).
  apply fmt_d_inj in E1. apply (enum_String_inj _ _ _ _ mode_names) in E2; [|done..].
  apply (enum_String_inj _ _ _ _ encoding_names) in E3; [|done..].
  apply (enum_String_inj _ _ _ _ submode_names) in E4; [|done..]. congruence.
Qed.

(** C29. The session stays well formed under every request: its stream
    subscriptions are stored under the key of their own settings, have a path
    and belong to the session; a subscription that runs is configured as its
    requested values say; the registry is well formed; and, against the state
    in which the session began, the handler wrote only to subscriptions the
    session made and registered only their identifiers.  This holds however
    the request ends; after a success no subscription of the session is
    without its configuration. *)
Theorem processSubscribeRequest_session (w0 w : World) (req : SubscribeRequest) :
  session_ok w0 w → all_settled w →
  let '(w', r) := processSubscribeRequest EncodeTypedValue req w in
  session_ok w0 w' ∧ (r = Ok tt → all_settled w').
Proof.
  intros Hok Hall. pose proof (processSubscribeRequest_settled EncodeTypedValue w0 req w (conj Hok Hall)) as Hw.
  destruct (processSubscribeRequest _ _ _) as [w' [[]| | |]]; [destruct Hw as [? ?]; by split|by split..].
Qed.

(** C6. A Subscribe RPC leaves no trace: whatever requests it receives, when it
    ends the session has no stream subscription and its channel is closed; the
    subscriptions of other sessions are untouched, and every group of the
    registry is as before, except that identifiers of the session's own
    subscriptions are gone.  When those were fresh, the registry is the one
    before the RPC. *)
Theorem Subscribe_isolated (w0 w : World) (reqs : list SubscribeRequest) (recv : option error) (r : outcome error unit) :
  StreamSub (w_ses w0) = ∅ → registry_ok (lookup (w_tele w0)) →
  Subscribe EncodeTypedValue reqs recv w0 = (w, r) → r ≠ Panic → r ≠ Diverge →
  StreamSub (w_ses w) = ∅ ∧ respchan_closed (w_ses w) = true ∧
  (∀ a, a < length (w_subs w0) → w_subs w !! a = w_subs w0 !! a) ∧
  (∀ q id, group (lookup (w_tele w)) q !! id = group (lookup (w_tele w0)) q !! id ∨
     (group (lookup (w_tele w)) q !! id = None ∧
      ∃ a sub, length (w_subs w0) ≤ a ∧ w_subs w !! a = Some sub ∧ sub_ID sub = id)) ∧
  ((∀ a sub q, length (w_subs w0) ≤ a → w_subs w !! a = Some sub → group (lookup (w_tele w0)) q !! sub_ID sub = None) →
     entries (lookup (w_tele w)) = entries (lookup (w_tele w0))).
Proof.
  intros Hempty Hreg Hsub Hp Hd.
  assert (session_settled w0 w0) as Hinit.
  { split; [|intros key a sub; by rewrite Hempty, lookup_empty]. constructor; [|by split|done|done].
    intros key a. by rewrite Hempty, lookup_empty. }
  assert (session_ok w0 (fst (subscribe EncodeTypedValue reqs recv w0))) as Hok.
  { pose proof (subscribe_ok EncodeTypedValue w0 reqs recv w0 Hinit) as Ht.
    destruct (subscribe _ _ _ w0) as [w1 [| | |]]; exact Ht. }
  unfold Subscribe in Hsub. destruct (subscribe _ _ _ w0) as [w1 r1]. cbn [fst] in Hok.
  destruct (stopSubSession_ok w0 w1 Hok) as (w2 & Hstop & Hs & Hm & Hc & Hr & Hg).
  assert (w2 = w) as ->.
  { destruct r1; rewrite ?Hstop in Hsub; injection Hsub as; congruence. }
  assert (∀ id, session_id w1 id → ∃ a sub, length (w_subs w0) ≤ a ∧ w_subs w !! a = Some sub ∧ sub_ID sub = id) as Hids.
  { intros id (key & a & sub & Ha & Hsub' & Heq). exists a, sub. rewrite Hs. split; [|done].
    by apply (so_subs _ _ Hok key a Ha). }
  assert (∀ q id, group (lookup (w_tele w)) q !! id = group (lookup (w_tele w0)) q !! id ∨
     (group (lookup (w_tele w)) q !! id = None ∧ session_id w1 id)) as Hgroup.
  { intros q id. destruct (Hg q id) as [Hg1 Hg2].
    destruct (decide (group (lookup (w_tele w)) q !! id = None)) as [Hnone|Hsome].
    - destruct (decide (group (lookup (w_tele w0)) q !! id = None)) as [Hnone0|Hsome0]; [left; congruence|].
      right. split; [done|]. destruct (session_id_dec w1 id); [done|]. destruct Hsome0. by rewrite <-Hg2.
    - left. apply Hg2. intros Hid. by apply Hsome, Hg1. }
  split; [done|]. split; [done|]. split; [rewrite Hs; apply (so_heap _ _ Hok)|]. split.
  - intros q id. destruct (Hgroup q id) as [?|[? ?%Hids]]; [by left|by right].
  - intros Hfresh. apply map_eq. intros q. rewrite !registry_ok_entries by done.
    assert (group (lookup (w_tele w)) q = group (lookup (w_tele w0)) q) as ->; [|done].
    apply map_eq. intros id. destruct (Hgroup q id) as [?|[-> (a & sub & Ha & Hsub' & <-)%Hids]]; [done|].
    symmetry. by apply (Hfresh a).
Qed.
End theorems.

(** ** A session on the example device *)
Abbreviation example_World := (@World map_trie goval).

Definition example_session : SubSession := mkSession 7 "10.0.0.1" 57400 ∅ [] newClientAliases false.
Definition example_world : example_World :=
  mkWorld example_server ∅ newTeleCtrl 0 [] example_session [].

Definition example_list (mode : Z) (entries : list SubscriptionEntry) : SubscriptionList :=
  mkSubList (Some (names_path ["interfaces"])) entries false mode false [] Encoding_JSON_IETF false.

(** Two paths with the same settings, and one that is sampled. *)
Definition example_stream : SubscribeRequest :=
  ReqSubscribe (example_list 0
    [mkSubEntry (Some (names_path ["interface"; "mtu"])) 1 0 false 0;
     mkSubEntry (Some (names_path ["interface"; "name"])) 1 0 false 0;
     mkSubEntry (Some (names_path ["group"])) 2 5000000000 true 0]).

Definition example_process (req : SubscribeRequest) (w : example_World) : example_World * outcome error unit :=
  @processSubscribeRequest canonical_range identity_clone example_ydb example_ops identity_sort map_trie goval
    example_encode req w.

Definition example_streaming : example_World := fst (example_process example_stream example_world).

Lemma subscription_key_inj_witness :
  @subscription_key canonical_range 7 (Some (names_path ["a-1"])) false 0 false 4 2 1 true 2 ≠
  @subscription_key canonical_range 7 (Some (names_path ["a"])) false 0 false 4 2 1 true 2.
Proof.
  intros Hkey. apply (@subscription_key_inj canonical_range) in Hkey.
  - vm_compute in Hkey. congruence.
  - apply (bool_decide_unpack _). vm_compute. exact I.
Defined.

Lemma example_world_ok : @session_ok canonical_range map_trie goval example_world example_world.
Proof. constructor; [done|by split|apply registry_ok_new|done]. Qed.

Lemma processSubscribeRequest_session_witness :
  length (w_subs example_streaming) = 2 ∧
  @session_ok canonical_range map_trie goval example_world example_streaming ∧
  @all_settled map_trie goval example_streaming.
Proof.
  split; [by_vm|].
  pose proof (@processSubscribeRequest_session canonical_range identity_clone example_ydb example_ops identity_sort map_trie
    goval example_encode example_world example_world example_stream example_world_ok ltac:(done)) as Hw.
  assert (snd (example_process example_stream example_world) = Ok tt) as Hr by by_vm.
  unfold example_streaming. unfold example_process in *.
  destruct (processSubscribeRequest _ _ _) as [w' r]. cbn [fst snd] in *. split; [apply Hw|by apply Hw].
Defined.

(** The session after a stream request and the end of its stream. *)
Definition example_ended : example_World * outcome error unit :=
  @Subscribe canonical_range identity_clone example_ydb example_ops identity_sort map_trie goval
    example_encode [example_stream] None example_world.

Lemma Subscribe_isolated_witness :
  snd example_ended = Ok tt ∧ length (w_subs (fst example_ended)) = 2 ∧ StreamSub (w_ses (fst example_ended)) = ∅ ∧
  respchan_closed (w_ses (fst example_ended)) = true.
Proof.
  assert (snd example_ended = Ok tt) as Hr by by_vm. split; [exact Hr|]. split; [by_vm|].
  destruct (@Subscribe_isolated canonical_range identity_clone example_ydb example_ops identity_sort map_trie
    goval example_encode example_world (fst example_ended) [example_stream] None (snd example_ended)) as (Hm & Hc & _).
  - done.
  - apply registry_ok_new.
  - apply surjective_pairing.
  - rewrite Hr. discriminate.
  - rewrite Hr. discriminate.
  - split; [exact Hm|exact Hc].
Defined.
