(* ===== verification/Runner.v ===== *)
(** * Runner: the goroutine of a stream subscription

    Models [Subscription.run] of [gnmi/server/subscribe.go].  The goroutine
    waits on its channels and handles one of those that are ready; which one is
    not determined, so a run is a sequence of actions: the world delivers an
    event or a timer expires, or the goroutine takes from a channel.  A handler
    is a program of the session's monad.  The case of the channel [stop] is never
    ready, since that channel is never made. *)

From Stdlib Require Import Ascii ZArith.
From S2P Require Export Subscribe.

(** ** Timers *)

(** [time.Duration] is a signed 64-bit number. *)
Definition Duration (n : Z) : Z := if (n <? 2 ^ 63)%Z then n else (n - 2 ^ 64)%Z.

(** [time.NewTicker] panics unless the interval is positive. *)
Definition NewTicker (tick : Z) : outcome error unit := if (tick <=? 0)%Z then Panic else mret tt.

(** Where the goroutine is: at the select, blocked in the send of a value to
    [timerExpired], or at its end. *)
Inductive run_state : Type :=
  | Selecting
  | Sending (sendUpdate : bool)
  | Quit
  | Crashed.

(** The capacities of [sub.eventque] and of [timerExpired]. *)
Definition eventque_cap : nat := 64.
Definition timerExpired_cap : nat := 2.

(** The channels of the goroutine; the channel of a timer holds one tick. *)
Record runner : Type := mkRunner {
  eventque : list teleEvent;
  samplingTick : bool;
  heartbeatTick : bool;
  samplingOn : bool;
  heartbeatOn : bool;
  timerExpired : list bool;
  at_ : run_state
}.

(** The timers of the configuration; a timer with no interval is made with the
    default one and stopped. *)
Definition run_start (c : SubConfig) : outcome error runner :=
  let interval n := if (0 <? n)%Z then Duration n else defaultInterval in
  _ ← NewTicker (interval (c_SampleInterval c));
  _ ← NewTicker (interval (c_HeartbeatInterval c));
  mret (mkRunner [] false false (0 <? c_SampleInterval c)%Z (0 <? c_HeartbeatInterval c)%Z [] Selecting).

Section runner.
Context `{GoRange, ProtoClone, YdbTypes, DataOps, GoSort, Gtrie}.
Context {typed : Type} (EncodeTypedValue : goval → Z → option typed + msg).
Abbreviation World := (World (typed:=typed)).
Abbreviation M := (M (typed:=typed)).

(** ** Handlers *)

(** One path: its counter is made or incremented. *)
Definition count_path (t : trie Z) (p : string) : trie Z :=
  trie_Add t p (match trie_Find t p with Some v => (v + 1) mod 2 ^ 32 | None => 1 end)%Z.

Definition set_lists (updated deleted : trie Z) (sub : Subscription) : Subscription :=
  mkSubscription (sub_ID sub) (sub_SessionID sub) (sub_key sub) (sub_Prefix sub) (UseAliases sub) (sub_Mode sub)
    (AllowAggregation sub) (sub_Encoding sub) (sub_Paths sub) (StreamMode sub) (SampleInterval sub)
    (SuppressRedundant sub) (HeartbeatInterval sub) (Configured sub) (stateSync sub) updated deleted (started sub).

Definition count_event (event : teleEvent) (sub : Subscription) : Subscription :=
  set_lists (foldl count_path (updatedList sub) (updatedPath event))
            (foldl count_path (deletedList sub) (deletedPath event)) sub.

Definition clear_lists (sub : Subscription) : Subscription := set_lists trie_New trie_New sub.

(** The update is sent for a change; the lists are kept if it fails. *)
Definition handle_event (a : nat) (event : teleEvent) : M unit :=
  sub ← deref a;
  if bool_decide (c_StreamMode (Configured sub) = 1%Z) || bool_decide (c_StreamMode (Configured sub) = 2%Z) then
    _ ← update_sub a (count_event event);
    if bool_decide (c_StreamMode (Configured sub) = 1%Z) then
      sub ← deref a;
      _ ← telemetryUpdate EncodeTypedValue sub (updatedroot event);
      update_sub a clear_lists
    else mret tt
  else mret tt.

Definition handle_sampling (a : nat) : M unit :=
  sub ← deref a;
  if stateSync sub then
    s ← gets w_server;
    '(calls, _) ← lift (RequestStateSync (s_Model s) (s_StateSync s) (sub_Prefix sub) (sub_Paths sub));
    each (λ l, emit (CallSync l)) calls
  else mret tt.

(** [sendUpdate] tells a heartbeat from a sampling tick; [suppress_redundant]
    skips a sample without changes. *)
Definition handle_expired (a : nat) (sendUpdate : bool) : M unit :=
  sub ← deref a;
  if sendUpdate || negb (c_SuppressRedundant (Configured sub)) ||
     (0 <? trie_Size (updatedList sub)) || (0 <? trie_Size (deletedList sub)) then
    _ ← telemetryUpdate EncodeTypedValue sub None;
    update_sub a clear_lists
  else mret tt.

(** ** Actions *)
Inductive action : Type :=
  | Deliver (event : teleEvent)
  | TickSampling
  | TickHeartbeat
  | TakeEvent
  | TakeSampling
  | TakeHeartbeat
  | TakeExpired
  | TakeShutdown.

Definition at_select (r : runner) : bool := match at_ r with Selecting => true | _ => false end.
Definition ended (r : runner) : bool := match at_ r with Quit | Crashed => true | _ => false end.

Definition set_at (s : run_state) (r : runner) : runner :=
  mkRunner (eventque r) (samplingTick r) (heartbeatTick r) (samplingOn r) (heartbeatOn r) (timerExpired r) s.
Definition set_eventque (q : list teleEvent) (r : runner) : runner :=
  mkRunner q (samplingTick r) (heartbeatTick r) (samplingOn r) (heartbeatOn r) (timerExpired r) (at_ r).
Definition set_ticks (sampling heartbeat : bool) (r : runner) : runner :=
  mkRunner (eventque r) sampling heartbeat (samplingOn r) (heartbeatOn r) (timerExpired r) (at_ r).
Definition set_timerExpired (l : list bool) (r : runner) : runner :=
  mkRunner (eventque r) (samplingTick r) (heartbeatTick r) (samplingOn r) (heartbeatOn r) l (at_ r).

(** [timerExpired <- b] blocks when the channel is full. *)
Definition send_expired (b : bool) (r : runner) : runner :=
  if length (timerExpired r) <? timerExpired_cap then set_timerExpired (timerExpired r ++ [b]) r
  else set_at (Sending b) r.

(** The end of the goroutine, with its deferred statements. *)
Definition quit (a : nat) (w : World) (r : runner) : World * runner :=
  (fst (update_sub a (set_started false) w), set_at Quit r).

(** After a handler: an error ends the goroutine, a panic the process. *)
Definition after (a : nat) (res : World * outcome error unit) (r : runner) : World * runner :=
  match res with
  | (w, Ok _) => (w, r)
  | (w, Err _) => quit a w r
  | (w, _) => (w, set_at Crashed r)
  end.

(** [None]: the action is not possible. *)
Definition run_action (a : nat) (act : action) (s : World * runner) : option (World * runner) :=
  let '(w, r) := s in
  match act with
  | Deliver event =>
      if length (eventque r) <? eventque_cap then Some (w, set_eventque (eventque r ++ [event]) r) else None
  | TickSampling => if samplingOn r && negb (ended r) then Some (w, set_ticks true (heartbeatTick r) r) else None
  | TickHeartbeat => if heartbeatOn r && negb (ended r) then Some (w, set_ticks (samplingTick r) true r) else None
  | TakeEvent =>
      if at_select r then
        match eventque r with
        | event :: q => Some (after a (handle_event a event w) (set_eventque q r))
        | [] => None
        end
      else None
  | TakeSampling =>
      if at_select r && samplingTick r then
        let r := set_ticks false (heartbeatTick r) r in
        match handle_sampling a w with
        | (w, Ok _) => Some (w, send_expired false r)
        | (w, Err _) => Some (w, send_expired false r)
        | (w, _) => Some (w, set_at Crashed r)
        end
      else None
  | TakeHeartbeat =>
      if at_select r && heartbeatTick r then Some (w, send_expired true (set_ticks (samplingTick r) false r)) else None
  | TakeExpired =>
      if at_select r then
        match timerExpired r with
        | b :: l => Some (after a (handle_expired a b w) (set_timerExpired l r))
        | [] => None
        end
      else None
  | TakeShutdown => if at_select r && respchan_closed (w_ses w) then Some (quit a w r) else None
  end.

Definition runner_step (a : nat) (s s' : World * runner) : Prop := ∃ act, run_action a act s = Some s'.

Fixpoint run_actions (a : nat) (acts : list action) (s : World * runner) : option (World * runner) :=
  match acts with
  | [] => Some s
  | act :: acts => s ← run_action a act s; run_actions a acts s
  end.
End runner.
