(* ===== verification/RunnerSpec.v ===== *)
(** * RunnerSpec: the theorems on the goroutine of a stream subscription *)

From Stdlib Require Import Ascii ZArith Lia.
From S2P Require Export SubscribeSpec Runner.

(** ** Intervals *)

(** Off, or at least a second. *)
Definition interval_ok (n : Z) : Prop := n = 0%Z ∨ (minimumInterval ≤ n < 2 ^ 64)%Z.

(** The modes and intervals the switch accepts. *)
Definition acceptable (StreamMode SampleInterval HeartbeatInterval : Z) : Prop :=
  match StreamMode with
  | 1 => SampleInterval = 0 ∧ interval_ok HeartbeatInterval
  | 2 => interval_ok SampleInterval ∧ interval_ok HeartbeatInterval ∧
         (HeartbeatInterval = 0 ∨ SampleInterval ≤ HeartbeatInterval)
  | _ => True
  end%Z.

Ltac decide_bools :=
  repeat match goal with
  | |- context [Z.ltb ?a ?b] => destruct (Z.ltb_spec a b)
  | |- context [Z.leb ?a ?b] => destruct (Z.leb_spec a b)
  | |- context [Z.eqb ?a ?b] => destruct (Z.eqb_spec a b)
  end; cbn [andb orb negb].

Lemma NewTicker_spec n :
  (n = 0 ∨ minimumInterval ≤ n < 2 ^ 64)%Z →
  NewTicker (if (0 <? n)%Z then Duration n else defaultInterval) = if (2 ^ 63 <=? n)%Z then Panic else mret tt.
Proof.
  unfold NewTicker, Duration, minimumInterval, defaultInterval. intros Hn. decide_bools; try lia; done.
Qed.

Lemma configure_cases StreamMode SampleInterval SuppressRedundant HeartbeatInterval :
  (0 ≤ SampleInterval < 2 ^ 64)%Z → (0 ≤ HeartbeatInterval < 2 ^ 64)%Z →
  let o := configure StreamMode SampleInterval SuppressRedundant HeartbeatInterval in
  (∀ c, o = Ok c → acceptable StreamMode SampleInterval HeartbeatInterval) ∧
  (acceptable StreamMode SampleInterval HeartbeatInterval → ∃ c, o = Ok c).
Proof.
  intros Hs Hh. unfold configure, acceptable, interval_ok, minimumInterval.
  destruct StreamMode as [|[p|[p|p|]|]|p]; cbn zeta; decide_bools; (split; [intros c Hc|intros Ha]); try discriminate Hc;
    try (by eexists); try lia.
Qed.

Lemma configure_config StreamMode SampleInterval SuppressRedundant HeartbeatInterval c :
  (0 ≤ SampleInterval < 2 ^ 64)%Z → (0 ≤ HeartbeatInterval < 2 ^ 64)%Z →
  configure StreamMode SampleInterval SuppressRedundant HeartbeatInterval = Ok c →
  interval_ok (c_SampleInterval c) ∧ interval_ok (c_HeartbeatInterval c) ∧
  (c_StreamMode c = 2%Z ↔ c_SampleInterval c ≠ 0%Z) ∧
  (c_HeartbeatInterval c ≠ 0%Z → (c_SampleInterval c ≤ c_HeartbeatInterval c)%Z).
Proof.
  intros Hs Hh. unfold configure, interval_ok, minimumInterval, defaultInterval.
  destruct StreamMode as [|[p|[p|p|]|]|p]; decide_bools; intros [= <-]; cbn [c_StreamMode c_SampleInterval c_HeartbeatInterval];
    split_and!; lia.
Qed.

(** C30. The intervals of a subscription stay in bounds: the switch accepts
    exactly the acceptable requests; what it configures is off or at least one
    second, sampling is on exactly for the sampling modes and never slower than
    the heartbeat; and the runner starts with such a configuration, unless an
    interval has its top bit set: then the conversion to a signed duration is
    negative, and time.NewTicker panics. *)
Theorem configure_bounds (StreamMode SampleInterval : Z) (SuppressRedundant : bool) (HeartbeatInterval : Z) :
  (0 ≤ SampleInterval < 2 ^ 64)%Z → (0 ≤ HeartbeatInterval < 2 ^ 64)%Z →
  (is_ok (configure StreamMode SampleInterval SuppressRedundant HeartbeatInterval) = true ↔
     acceptable StreamMode SampleInterval HeartbeatInterval) ∧
  ∀ c, configure StreamMode SampleInterval SuppressRedundant HeartbeatInterval = Ok c →
    interval_ok (c_SampleInterval c) ∧ interval_ok (c_HeartbeatInterval c) ∧
    (c_StreamMode c = 2%Z ↔ c_SampleInterval c ≠ 0%Z) ∧
    (c_HeartbeatInterval c ≠ 0%Z → (c_SampleInterval c ≤ c_HeartbeatInterval c)%Z) ∧
    (run_start c = Panic ↔ (2 ^ 63 ≤ c_SampleInterval c ∨ 2 ^ 63 ≤ c_HeartbeatInterval c)%Z) ∧
    (run_start c ≠ Panic → ∃ r, run_start c = Ok r ∧ at_ r = Selecting ∧ timerExpired r = []).
Proof.
  intros Hs Hh. split.
  - destruct (configure_cases StreamMode SampleInterval SuppressRedundant HeartbeatInterval Hs Hh) as [Hok Hno].
    destruct (configure _ _ _ _) as [c| | |]; cbn; split; try done; [|by intros [? ?]%Hno..]. intros _. by eapply Hok.
  - intros c Hc. destruct (configure_config _ _ _ _ _ Hs Hh Hc) as (Hsi & Hhi & Hmode & Hle).
    do 4 (split; [done|]). unfold run_start. rewrite !NewTicker_spec by done.
    destruct (Z.leb_spec (2 ^ 63) (c_SampleInterval c)), (Z.leb_spec (2 ^ 63) (c_HeartbeatInterval c));
      rewrite ?outcome_bind_mret; (split; [|by eauto]); split; try done; try lia; intros ?; by auto.
Qed.

(** ** Counters *)
Definition occurrences (p : string) (l : list string) : nat := length (base.filter (λ q, q = p) l).

(** The map counts the paths of a list, in 32 bits. *)
Definition counted (m : gmap string Z) (l : list string) : Prop :=
  ∀ p, m !! p = if occurrences p l =? 0 then None else Some (Z.of_nat (occurrences p l) mod 2 ^ 32)%Z.

Lemma occurrences_snoc p l q : occurrences p (l ++ [q]) = occurrences p l + if decide (q = p) then 1 else 0.
Proof. unfold occurrences. rewrite filter_app, length_app. cbn. case_decide; done. Qed.

Lemma counted_empty m l : counted m l → (m = ∅ ↔ l = []).
Proof.
  intros Hm. split.
  - intros ->. destruct l as [|p l]; [done|]. specialize (Hm p). rewrite lookup_empty in Hm.
    unfold occurrences in Hm. rewrite filter_cons_True in Hm by done. done.
  - intros ->. apply map_eq. intros p. rewrite Hm, lookup_empty. done.
Qed.

Section counters.
Context `{Gtrie}.

Lemma counted_New : counted (entries trie_New) [].
Proof. intros p. by rewrite entries_New. Qed.

Lemma counted_path t p l : counted (entries t) l → counted (entries (count_path t p)) (l ++ [p]).
Proof.
  intros Ht q. unfold count_path. rewrite entries_Add, trie_Find_entries, occurrences_snoc.
  destruct (decide (p = q)) as [->|Hne].
  - rewrite lookup_insert_eq, (Ht q). replace (_ + 1 =? 0) with false by (symmetry; apply Nat.eqb_neq; lia).
    destruct (Nat.eqb_spec (occurrences q l) 0) as [->|Hn]; [done|]. f_equal.
    rewrite Z.add_mod_idemp_l by lia. f_equal. lia.
  - rewrite lookup_insert_ne by done. rewrite Nat.add_0_r. apply Ht.
Qed.

Lemma counted_paths t ps l : counted (entries t) l → counted (entries (foldl count_path t ps)) (l ++ ps).
Proof.
  revert t l. induction ps as [|p ps IH]; intros t l Ht; cbn [foldl]; [by rewrite app_nil_r|].
  replace (l ++ p :: ps) with ((l ++ [p]) ++ ps) by by rewrite <-(assoc_L (++)). by apply IH, counted_path.
Qed.

Lemma counted_size t l : counted (entries t) l → (0 <? trie_Size t) = negb (bool_decide (l = [])).
Proof.
  intros Ht. rewrite trie_Size_entries. pose proof (counted_empty _ _ Ht) as He.
  destruct (Nat.ltb_spec 0 (size (entries t))) as [Hs|Hs]; case_bool_decide as Hl; try done.
  - apply He in Hl. rewrite Hl, map_size_empty in Hs. lia.
  - destruct Hl. apply He, map_size_empty_iff. lia.
Qed.
End counters.

Lemma elem_of_concat {A} (x : A) ls : x ∈ concat ls ↔ ∃ l, l ∈ ls ∧ x ∈ l.
Proof.
  induction ls as [|l ls IH]; cbn [concat]; [split; [by intros ?%elem_of_nil|by intros (? & ?%elem_of_nil & _)]|].
  rewrite elem_of_app, IH. setoid_rewrite elem_of_cons. naive_solver.
Qed.

(** ** Reports *)
Section reports.
Context `{GoRange, ProtoClone, YdbTypes, DataOps, GoSort, Gtrie} {typed : Type}.
Context (EncodeTypedValue : goval → Z → option typed + msg).
Abbreviation World := (World (typed:=typed)).
Abbreviation M := (M (typed:=typed)).

Definition log_all (l : list (SubscribeResponse typed)) (w : World) : World :=
  mkWorld (w_server w) (w_serverAliases w) (w_tele w) (w_subID w) (w_subs w) (w_ses w) (w_log w ++ (Respond <$> l)).

Lemma log_all_nil w : log_all [] w = w.
Proof. destruct w. unfold log_all. cbn. by rewrite app_nil_r. Qed.

Lemma log_all_app l l' w : log_all l' (log_all l w) = log_all (l ++ l') w.
Proof. unfold log_all. cbn. by rewrite fmap_app, (assoc_L (++)). Qed.

(** What was sent when a send succeeds. *)
Lemma send_all_inv rs w w' : sendTelemetryUpdate rs w = (w', Ok tt) → w' = log_all rs w.
Proof.
  unfold sendTelemetryUpdate. revert w. induction rs as [|r rs IH]; intros w Hs; cbn [each] in Hs.
  { injection Hs as <-. by rewrite log_all_nil. }
  unfold mbind at 1, M_bind at 1, send in Hs. unfold mbind, M_bind, gets in Hs.
  destruct (respchan_closed (w_ses w)); [done|]. cbn in Hs. apply IH in Hs as ->. apply (log_all_app [r] rs w).
Qed.

Lemma each_reports {A} (f : A → M unit) (P : A → list (SubscribeResponse typed) → Prop) l w w' :
  (∀ x w w', x ∈ l → f x w = (w', Ok tt) → ∃ rs, P x rs ∧ w' = log_all rs w) →
  each f l w = (w', Ok tt) → ∃ rss, Forall2 P l rss ∧ w' = log_all (concat rss) w.
Proof.
  revert w. induction l as [|x l IH]; intros w Hf Hr; cbn [each] in Hr.
  { injection Hr as <-. exists []. split; [done|]. by rewrite log_all_nil. }
  unfold mbind, M_bind in Hr. destruct (f x w) as [w1 [[]| | |]] eqn:Hx; try done.
  destruct (Hf x w w1) as (rs & Hrs & ->); [set_solver|done|].
  destruct (IH (log_all rs w)) as (rss & Hrss & ->); [intros; apply Hf; set_solver|done|].
  exists (rs :: rss). split; [by constructor|]. apply log_all_app.
Qed.

(** The responses of a top node in the first update of a subscription. *)
Definition init_report (s : Server) (prefix prefixAlias : option Path) (encoding : Z)
    (subList : list SubscriptionEntry) (top : DataAndPath) (rs : list (SubscribeResponse typed)) : Prop :=
  ∃ us, append_all (λ e, path_updates EncodeTypedValue s prefix None encoding (dp_Value top) (se_Path e)) subList = Ok us ∧
    rs = if 0 <? length us then [ResponseUpdate (mkNotification prefixAlias "" (Some us) None)] else [].

Lemma init_top_inv s prefix prefixAlias encoding subList top w w' :
  init_top EncodeTypedValue s prefix prefixAlias encoding subList top w = (w', Ok tt) →
  ∃ rs, init_report s prefix prefixAlias encoding subList top rs ∧ w' = log_all rs w.
Proof.
  unfold init_top, mbind at 1, M_bind at 1, lift, as_branch. destruct (is_GoStruct _); [|done]. cbn [mret outcome_ret].
  unfold mbind, M_bind, init_report. destruct (append_all _ subList) as [us| | |]; [|done..]. intros Hs.
  eexists. split; [by eexists|]. destruct (0 <? length us); [by apply send_all_inv in Hs|].
  change ((w, @Ok error unit tt) = (w', Ok tt)) in Hs. injection Hs as <-. by rewrite log_all_nil.
Qed.

(** The notification of a top node in a later update. *)
Definition telemetry_report (s : Server) (sub : Subscription) (prefixAlias : option Path) (top : DataAndPath)
    (rs : list (SubscribeResponse typed)) : Prop :=
  ∃ us ds, append_all (path_updates EncodeTypedValue s (sub_Prefix sub) (Some sub) (sub_Encoding sub) (dp_Value top))
             (sub_Paths sub) = Ok us ∧
    getDeletes sub (dp_Path top) false = Ok ds ∧
    rs = [ResponseUpdate (mkNotification prefixAlias "" (Some us) (Some ds))].

Lemma telemetry_top_inv s sub prefixAlias top w w' :
  telemetry_top EncodeTypedValue s sub prefixAlias top w = (w', Ok tt) →
  ∃ rs, telemetry_report s sub prefixAlias top rs ∧ w' = log_all rs w.
Proof.
  unfold telemetry_top, mbind at 1, M_bind at 1, lift, as_branch. destruct (is_GoStruct _); [|done]. cbn [mret outcome_ret].
  unfold mbind, M_bind, telemetry_report. destruct (getDeletes _ _ _) as [ds| | |]; [|done..].
  destruct (append_all _ _) as [us| | |]; [|done..]. intros Hs%send_all_inv. eexists. split; [by eexists _, _|done].
Qed.

(** An update for a value of a requested path below the branch. *)
Definition reported (s : Server) (sub : option Subscription) (encoding : Z) (branch : goval) (paths : list (option Path))
    (u : Update typed) : Prop :=
  ∃ path datas data, path ∈ paths ∧ model_Find (s_Model s) branch path = Ok (datas, true) ∧ data ∈ datas ∧
    getUpdates EncodeTypedValue sub data encoding = Ok (Some u).

Lemma path_updates_inv s prefix sub encoding branch path us u :
  path_updates EncodeTypedValue s prefix sub encoding branch path = Ok us →
  (u ∈ us ↔ ∃ datas data, model_Find (s_Model s) branch path = Ok (datas, true) ∧ data ∈ datas ∧
     getUpdates EncodeTypedValue sub data encoding = Ok (Some u)).
Proof.
  unfold path_updates. intros Hr. apply outcome_bind_Ok in Hr as (_ & _ & Hr).
  apply outcome_bind_Ok in Hr as ([datas ok] & Hf & Hr). rewrite Hf. destruct ok; cbn [negb orb] in Hr.
  - destruct datas as [|d datas]; cbn [length Nat.eqb] in Hr.
    { injection Hr as <-. split; [by intros ?%elem_of_nil|]. by intros (? & ? & [= <-] & ?%elem_of_nil & _). }
    rewrite (append_all_inv _ _ _ _ Hr). split.
    + intros (x & r & Hx & Hg & Hu). apply outcome_bind_Ok in Hg as (o & Ho & [= <-]). destruct o as [u'|]; [|by apply elem_of_nil in Hu].
      cbn in Hu. apply list_elem_of_singleton in Hu as ->. by exists (d :: datas), x.
    + intros (datas' & data & [= <-] & Hd & Hg). exists data, [u]. rewrite Hg. split; [done|]. split; [done|]. by apply list_elem_of_singleton.
  - injection Hr as <-. split; [by intros ?%elem_of_nil|]. intros (? & ? & [=] & _).
Qed.

Lemma paths_updates_inv {A} s prefix sub encoding branch (g : A → option Path) (l : list A) us u :
  append_all (λ e, path_updates EncodeTypedValue s prefix sub encoding branch (g e)) l = Ok us →
  (u ∈ us ↔ reported s sub encoding branch (g <$> l) u).
Proof.
  intros Hus. rewrite (append_all_inv _ _ _ _ Hus). unfold reported. split.
  - intros (x & r & Hx & Hr & Hu). apply (path_updates_inv _ _ _ _ _ _ _ _ Hr) in Hu as (datas & data & ? & ? & ?).
    exists (g x), datas, data. split; [by apply list_elem_of_fmap_2|done].
  - intros (path & datas & data & (x & -> & Hx)%list_elem_of_fmap & Hf & Hd & Hg).
    destruct (append_all_steps _ _ _ x Hus Hx) as (r & Hr). exists x, r. split; [done|]. split; [done|].
    apply (path_updates_inv _ _ _ _ _ _ _ _ Hr). by exists datas, data.
Qed.

Lemma getDeletes_inv sub path ds d :
  getDeletes sub path false = Ok ds →
  (d ∈ ds ↔ ∃ p, p ∈ trie_PrefixSearch (deletedList sub) path ∧ ToGNMIPath p = Ok d).
Proof.
  unfold getDeletes. revert ds. induction (trie_PrefixSearch _ path) as [|p ps IH]; intros ds Hr; cbn [getDeletes_loop andb] in Hr.
  { injection Hr as <-. split; [by intros ?%elem_of_nil|]. by intros (? & ?%elem_of_nil & _). }
  destruct (ToGNMIPath p) as [q| | |] eqn:Hp; try discriminate Hr. apply outcome_bind_Ok in Hr as (ds' & Hds & [= <-]).
  rewrite elem_of_cons, (IH _ Hds). split.
  - intros [->|(p' & ? & ?)]; [exists p|exists p']; (split; [|done]); apply elem_of_cons; auto.
  - intros (p' & [->|Hin]%elem_of_cons & Hq); [left; congruence|right; by exists p'].
Qed.

(** The text of an alias or path given as a path is a path. *)
Lemma as_path_Ok o p : as_path o = Ok p → o = NPath p.
Proof. destruct o; cbn; [by intros [= ->]|done]. Qed.

(** A lifted call that is followed by a program. *)
Lemma lift_bind_inv {A B} (o : outcome error A) (k : A → M B) w w' b :
  (lift o ≫= k) w = (w', Ok b) → ∃ a, o = Ok a ∧ k a w = (w', Ok b).
Proof. unfold mbind, M_bind, lift. destruct o; [by eauto|done..]. Qed.

Lemma gets_bind_inv {A B} (f : World → A) (k : A → M B) w w' (b : B) :
  (gets f ≫= k) w = (w', Ok b) → k (f w) w = (w', Ok b).
Proof. done. Qed.

Lemma bind_unit_inv {B} (m : M unit) (k : unit → M B) w w' (b : B) :
  (m ≫= k) w = (w', Ok b) → ∃ w1, m w = (w1, Ok tt) ∧ k tt w1 = (w', Ok b).
Proof. unfold mbind, M_bind. destruct (m w) as [w1 [[]| | |]]; [by eauto|done..]. Qed.
End reports.

(** ** Theorems on updates *)
Section updates.
Context `{GoRange, ProtoClone, YdbTypes, DataOps, GoSort, Gtrie} {typed : Type}.
Context (EncodeTypedValue : goval → Z → option typed + msg).
Abbreviation World := (World (typed:=typed)).

(** C20. The first update of a subscription is sound and complete: when it
    succeeds it sends notifications and then exactly one sync response; for
    updates_only no notification; otherwise the notifications have the prefix
    of the list, none is empty, and their updates are exactly the encoded
    values that the search finds for a subscribed path below a node the
    resolved prefix selects. *)
Theorem initTelemetryUpdate_reports (sl : SubscriptionList) (w w' : World) :
  initTelemetryUpdate EncodeTypedValue sl w = (w', Ok tt) →
  ∃ ns, w' = log_all (ns ++ [SyncResponse true]) w ∧
    (sl_UpdatesOnly sl = true → ns = []) ∧
    (sl_UpdatesOnly sl = false → ∃ prefix prefixAlias,
       ToPath (ses_aliases (w_ses w)) (NPath (sl_Prefix sl)) false = Ok (NPath prefix) ∧
       ToAlias (ses_aliases (w_ses w)) (NPath prefix) false = Ok (NPath prefixAlias) ∧
       (∀ n, n ∈ ns → ∃ us, us ≠ [] ∧ n = ResponseUpdate (mkNotification prefixAlias "" (Some us) None)) ∧
       ∀ u, (∃ us, ResponseUpdate (mkNotification prefixAlias "" (Some us) None) ∈ ns ∧ u ∈ us) ↔
            ∃ tops top, model_Find (s_Model (w_server w)) (s_Root (w_server w)) prefix = Ok (tops, true) ∧ top ∈ tops ∧
              reported EncodeTypedValue (w_server w) None (sl_Encoding sl) (dp_Value top)
                (se_Path <$> sl_Subscription sl) u).
Proof.
  unfold initTelemetryUpdate. destruct (sl_UpdatesOnly sl).
  { intros Hs%send_all_inv. by exists []. }
  intros Hr%gets_bind_inv. apply lift_bind_inv in Hr as (prefix & Hp & Hr).
  apply outcome_bind_Ok in Hp as (o & Hp & ->%as_path_Ok).
  apply lift_bind_inv in Hr as (pa & Hpa & Hr). apply outcome_bind_Ok in Hpa as (o & Hpa & ->%as_path_Ok).
  apply gets_bind_inv in Hr. apply lift_bind_inv in Hr as (_ & _ & Hr).
  apply lift_bind_inv in Hr as ([tops ok] & Hfind & Hr).
  destruct (negb ok || (length tops =? 0)) eqn:Hnone.
  - apply send_all_inv in Hr as ->. exists []. split; [done|]. split; [done|]. intros _. exists prefix, pa.
    do 2 (split; [done|]). split; [by intros n ?%elem_of_nil|]. intros u. split; [by intros (? & ?%elem_of_nil & _)|].
    rewrite Hfind. intros (tops' & top & [= <- ->] & Htop & _). by destruct tops; [apply elem_of_nil in Htop|].
  - apply orb_false_iff in Hnone as [->%negb_false_iff _]. apply bind_unit_inv in Hr as (w1 & Heach & Hr).
    apply each_reports with (P := init_report EncodeTypedValue (w_server w) prefix pa (sl_Encoding sl) (sl_Subscription sl)) in Heach
      as (rss & Hrss & ->); [|intros ? ? ? _; apply init_top_inv].
    apply send_all_inv in Hr as ->. rewrite log_all_app. exists (concat rss). split; [done|]. split; [done|].
    intros _. exists prefix, pa. do 2 (split; [done|]). split.
    + intros n (rs & Hin & Hn)%elem_of_concat.
      destruct (proj1 (list_elem_of_lookup _ _) Hin) as [i Hi].
      destruct (Forall2_lookup_r _ _ _ _ _ Hrss Hi) as (top & _ & us & _ & Heq).
      subst rs. destruct (Nat.ltb_spec 0 (length us)); [|by apply elem_of_nil in Hn].
      apply list_elem_of_singleton in Hn as ->. exists us. split; [by destruct us; [cbn in *; lia|]|done].
    + intros u. split.
      * intros (us & (rs & Hin & Hn)%elem_of_concat & Hu). destruct (proj1 (list_elem_of_lookup _ _) Hin) as [i Hi].
        destruct (Forall2_lookup_r _ _ _ _ _ Hrss Hi) as (top & Htop & us' & Hus & Heq).
        subst rs. destruct (0 <? length us'); [|by apply elem_of_nil in Hn].
        apply list_elem_of_singleton in Hn. injection Hn as ->.
        exists tops, top. split; [done|]. split; [by eapply list_elem_of_lookup_2|].
        by apply (paths_updates_inv _ _ _ _ _ _ _ _ _ _ Hus).
      * intros (tops' & top & Hf' & Htop & Hu). rewrite Hfind in Hf'. injection Hf' as <-.
        destruct (proj1 (list_elem_of_lookup _ _) Htop) as [i Hi].
        destruct (Forall2_lookup_l _ _ _ _ _ Hrss Hi) as (rs & Hrs & us & Hus & Heq).
        apply (paths_updates_inv _ _ _ _ _ _ _ _ _ _ Hus) in Hu. exists us. split; [|done].
        apply elem_of_concat. exists rs. split; [by eapply list_elem_of_lookup_2|]. subst rs.
        destruct us as [|u' us]; [by apply elem_of_nil in Hu|]. by apply list_elem_of_singleton.
Qed.

(** A later update sends one notification for each node the prefix selects in
    the changed tree, with the values found below it and the deleted paths that
    start with its path; nothing if the prefix selects none. *)
Lemma telemetryUpdate_inv (sub : Subscription) (root : option goval) (w w' : World) :
  telemetryUpdate EncodeTypedValue sub root w = (w', Ok tt) →
  ∃ pa tops ok ns, ToAlias (ses_aliases (w_ses w)) (NPath (sub_Prefix sub)) false = Ok (NPath pa) ∧
    model_Find (s_Model (w_server w)) (default (s_Root (w_server w)) root) (sub_Prefix sub) = Ok (tops, ok) ∧
    w' = log_all ns w ∧
    (ok = false → ns = []) ∧
    (ok = true → Forall2 (λ top n, ∃ us ds, n = ResponseUpdate (mkNotification pa "" (Some us) (Some ds)) ∧
       (∀ u, u ∈ us ↔ reported EncodeTypedValue (w_server w) (Some sub) (sub_Encoding sub) (dp_Value top) (sub_Paths sub) u) ∧
       (∀ d, d ∈ ds ↔ ∃ p, p ∈ trie_PrefixSearch (deletedList sub) (dp_Path top) ∧ ToGNMIPath p = Ok d)) tops ns).
Proof.
  unfold telemetryUpdate. intros Hr%gets_bind_inv. apply lift_bind_inv in Hr as (pa & Hpa & Hr).
  apply outcome_bind_Ok in Hpa as (o & Hpa & ->%as_path_Ok). apply gets_bind_inv in Hr.
  apply lift_bind_inv in Hr as (_ & _ & Hr). apply lift_bind_inv in Hr as ([tops ok] & Hfind & Hr).
  exists pa, tops, ok. destruct (negb ok || (length tops =? 0)) eqn:Hnone.
  - exists []. change ((w, @Ok error unit tt) = (w', Ok tt)) in Hr. injection Hr as <-. rewrite log_all_nil.
    do 4 (split; [done|]). intros ->. cbn in Hnone. destruct tops; [constructor|done].
  - apply orb_false_iff in Hnone as [->%negb_false_iff _].
    apply each_reports with (P := telemetry_report EncodeTypedValue (w_server w) sub pa) in Hr as (rss & Hrss & ->);
      [|intros ? ? ? _; apply telemetry_top_inv].
    exists (concat rss). do 4 (split; [done|]). intros _. clear Hfind. induction Hrss as [|top rs tops rss Hrs Hrss IH]; [constructor|].
    destruct Hrs as (us & ds & Hus & Hds & ->). cbn [concat app]. constructor; [|exact IH]. exists us, ds. split; [done|].
    split; [|intros d; by apply getDeletes_inv]. intros u.
    rewrite (paths_updates_inv EncodeTypedValue _ _ _ _ _ (λ p, p) (sub_Paths sub) us u Hus). by rewrite list_fmap_id.
Qed.

(** *** Events *)

Lemma update_sub_lookup a f (w : World) sub :
  w_subs w !! a = Some sub → w_subs (fst (update_sub a f w)) !! a = Some (f sub).
Proof. intros Hsub. cbn. by rewrite list_lookup_alter_eq, Hsub. Qed.

Lemma deref_bind {B} a (k : Subscription → M B) (w : World) sub :
  w_subs w !! a = Some sub → (deref a ≫= k) w = k sub w.
Proof. intros Hsub. unfold mbind, M_bind, deref. by rewrite Hsub. Qed.

Lemma handle_event_sample a event (w : World) sub :
  w_subs w !! a = Some sub → c_StreamMode (Configured sub) = 2%Z →
  handle_event EncodeTypedValue a event w = (fst (update_sub a (count_event event) w), Ok tt).
Proof.
  intros Hsub Hmode. unfold handle_event. rewrite (deref_bind _ _ _ _ Hsub), Hmode. done.
Qed.

(** C21. A sampled subscription counts exactly: over any sequence of events the
    runner sends nothing and keeps, for every path, the 32-bit number of times
    it was reported as updated and as deleted since the last sample; a sampling
    tick is skipped exactly if redundant updates are suppressed and nothing
    was counted, and otherwise sends the update and starts the counts afresh. *)
Theorem sampled_events_counted (a : nat) (evs : list teleEvent) (w : World) (sub : Subscription) (u d : list string) :
  w_subs w !! a = Some sub → c_StreamMode (Configured sub) = 2%Z →
  counted (entries (updatedList sub)) u → counted (entries (deletedList sub)) d →
  ∃ w' sub', each (handle_event EncodeTypedValue a) evs w = (w', Ok tt) ∧ w_log w' = w_log w ∧
    w_subs w' !! a = Some sub' ∧ sub_Paths sub' = sub_Paths sub ∧ Configured sub' = Configured sub ∧
    counted (entries (updatedList sub')) (u ++ (evs ≫= updatedPath)) ∧
    counted (entries (deletedList sub')) (d ++ (evs ≫= deletedPath)) ∧
    handle_expired EncodeTypedValue a false w' =
      if c_SuppressRedundant (Configured sub) && bool_decide (u ++ (evs ≫= updatedPath) = []) &&
         bool_decide (d ++ (evs ≫= deletedPath) = [])
      then (w', Ok tt)
      else (_ ← telemetryUpdate EncodeTypedValue sub' None; update_sub a clear_lists) w'.
Proof.
  revert w sub u d. induction evs as [|ev evs IH]; intros w sub u d Hsub Hmode Hu Hd.
  - exists w, sub. cbn [mbind list_bind]. rewrite !app_nil_r. do 7 (split; [done|]).
    unfold handle_expired. rewrite (deref_bind _ _ _ _ Hsub).
    rewrite (counted_size _ _ Hu), (counted_size _ _ Hd). cbn [orb].
    destruct (c_SuppressRedundant (Configured sub)); cbn [negb orb andb]; [|done].
    by destruct (bool_decide (u = [])), (bool_decide (d = [])).
  - cbn [each]. unfold mbind at 1, M_bind at 1. rewrite (handle_event_sample _ _ _ _ Hsub Hmode).
    pose proof (update_sub_lookup a (count_event ev) w sub Hsub) as Hsub1.
    destruct (IH (fst (update_sub a (count_event ev) w)) (count_event ev sub) (u ++ updatedPath ev) (d ++ deletedPath ev))
      as (w' & sub' & ? & ? & ? & ? & ? & Hu' & Hd' & He).
    + exact Hsub1.
    + exact Hmode.
    + by apply counted_paths.
    + by apply counted_paths.
    + exists w', sub'. cbn [mbind list_bind]. rewrite !(assoc_L (++)). done.
Qed.

(** A deletion can go unreported: when the changed tree that comes with an
    event has no node for the prefix of an on-change subscription, as the empty
    tree of an update that only deletes, the runner sends nothing, reports no
    error and drops the deleted paths. *)
Theorem on_change_deletion_lost (a : nat) (event : teleEvent) (w : World) (sub : Subscription) (pa : option Path)
    (tops : list DataAndPath) (ok : bool) :
  w_subs w !! a = Some sub → c_StreamMode (Configured sub) = 1%Z →
  ToAlias (ses_aliases (w_ses w)) (NPath (sub_Prefix sub)) false = Ok (NPath pa) →
  ValidateGNMIPath (s_Model (w_server w)) [sub_Prefix sub] = Ok tt →
  model_Find (s_Model (w_server w)) (default (s_Root (w_server w)) (updatedroot event)) (sub_Prefix sub) = Ok (tops, ok) →
  negb ok || (length tops =? 0) = true →
  ∃ w' sub', handle_event EncodeTypedValue a event w = (w', Ok tt) ∧ w_log w' = w_log w ∧
    w_subs w' !! a = Some sub' ∧ entries (deletedList sub') = ∅ ∧ entries (updatedList sub') = ∅.
Proof.
  intros Hsub Hmode Hpa Hv Hfind Hnone.
  unfold handle_event. rewrite (deref_bind _ _ _ _ Hsub), Hmode. cbn [bool_decide orb].
  change (bool_decide (1%Z = 1%Z)) with true. change (bool_decide (1%Z = 2%Z)) with false. cbn [orb].
  unfold mbind at 1, M_bind at 1. set (w1 := fst (update_sub a (count_event event) w)).
  assert (w_subs w1 !! a = Some (count_event event sub)) as Hsub1 by by apply update_sub_lookup.
  change (update_sub a (count_event event) w) with (w1, @Ok error unit tt). cbn iota beta.
  rewrite (deref_bind _ _ _ _ Hsub1).
  assert (telemetryUpdate EncodeTypedValue (count_event event sub) (updatedroot event) w1 = (w1, Ok tt)) as Ht.
  { unfold telemetryUpdate, mbind, M_bind, gets, lift. change (ses_aliases (w_ses w1)) with (ses_aliases (w_ses w)).
    change (sub_Prefix (count_event event sub)) with (sub_Prefix sub). change (w_server w1) with (w_server w).
    rewrite Hpa. cbn [outcome_bind as_path mret outcome_ret]. rewrite Hv, Hfind, Hnone. done. }
  exists (fst (update_sub a clear_lists w1)), (clear_lists (count_event event sub)). split.
  { unfold mbind, M_bind. by rewrite Ht. }
  split; [done|]. split; [by apply update_sub_lookup|]. split; apply entries_New.
Qed.
End updates.

(** ** The select loop *)
Section loop.
Context `{GoRange, ProtoClone, YdbTypes, DataOps, GoSort, Gtrie} {typed : Type}.
Context (EncodeTypedValue : goval → Z → option typed + msg).
Abbreviation World := (World (typed:=typed)).
Abbreviation step a := (runner_step (typed:=typed) EncodeTypedValue a).

Lemma run_actions_rtc a acts s s' : run_actions EncodeTypedValue a acts s = Some s' → rtc (step a) s s'.
Proof.
  revert s. induction acts as [|act acts IH]; intros s Hr; cbn in Hr; [injection Hr as ->; constructor|].
  destruct (run_action _ _ act s) as [s1|] eqn:Hact; [|done]. eapply rtc_l; [by exists act|]. by apply IH.
Qed.

(** The runner is blocked in a send to the channel only it receives from. *)
Definition blocked (b : bool) (r : runner) : Prop := at_ r = Sending b.

Lemma blocked_step a b s s' : step a s s' → blocked b (snd s) → fst s' = fst s ∧ blocked b (snd s').
Proof.
  destruct s as [w r], s' as [w' r']. intros [act Hact] Hb. unfold blocked in *. cbn [fst snd] in *.
  destruct act; cbn in Hact; unfold at_select, ended in Hact; rewrite ?Hb in Hact; cbn in Hact; try done;
    match type of Hact with (if ?c then _ else _) = _ => destruct c end; try done; by injection Hact as <- <-.
Qed.

(** C31. A sampling runner can block forever: the runner itself is the only
    receiver of timerExpired, and it also sends to it.  From every state in
    which it waits with sampling on and timerExpired empty, three sampling
    ticks taken before the channel lead to a state in which it is blocked in
    its own send; from then on it never handles an event, an expiry or the
    shutdown of its session, which waits for it. *)
Theorem runner_blocks_itself (a : nat) (w : World) (sub : Subscription) (r : runner) :
  w_subs w !! a = Some sub → stateSync sub = false →
  at_ r = Selecting → samplingOn r = true → timerExpired r = [] →
  ∃ r', rtc (step a) (w, r) (w, r') ∧ blocked false r' ∧
    ∀ w'' r'', rtc (step a) (w, r') (w'', r'') → w'' = w ∧ blocked false r''.
Proof.
  intros Hsub Hsync Hat Hon Hexp.
  assert (handle_sampling a w = (w, Ok tt)) as Hs.
  { unfold handle_sampling. rewrite (deref_bind _ _ _ _ Hsub), Hsync. done. }
  destruct r as [q st ht so ho te at_r]. cbn in Hat, Hon, Hexp. subst at_r so te. eexists. split; [|split].
  - apply run_actions_rtc with (acts := [TickSampling; TakeSampling; TickSampling; TakeSampling; TickSampling; TakeSampling]).
    cbn [run_actions run_action samplingOn ended at_ negb andb mbind option_bind at_select samplingTick set_ticks].
    rewrite Hs. cbn. rewrite Hs. cbn. rewrite Hs. cbn. reflexivity.
  - done.
  - intros w'' r''. match goal with |- rtc _ (w, ?r1) _ → _ => assert (blocked false r1) as Hb by done; generalize dependent r1 end.
    intros r1 Hb Hrtc. pose proof (rtc_invariant (step a) (λ s, fst s = w ∧ blocked false (snd s)) (w, r1) (w'', r'')) as Hinv.
    apply Hinv; [|done|done]. intros s s' Hstep [Hw Hbs]. destruct (blocked_step _ _ _ _ Hstep Hbs) as [Hw' Hb'].
    split; [by rewrite Hw', Hw|done].
Qed.
End loop.

(** ** Closing the session

    [stopSubSession] closes the channel of the responses and the channel of the
    shutdown one after the other while the runners of the session still wait. *)
Section closing.
Context `{GoRange, ProtoClone, YdbTypes, DataOps, GoSort, Gtrie} {typed : Type}.
Context (EncodeTypedValue : goval → Z → option typed + msg).
Abbreviation World := (World (typed:=typed)).
Abbreviation M := (M (typed:=typed)).
Abbreviation step a := (runner_step (typed:=typed) EncodeTypedValue a).

Definition is_response (e : effect (typed:=typed)) : Prop := match e with Respond _ => True | _ => False end.
#[local] Instance is_response_dec e : Decision (is_response e).
Proof. destruct e; cbn; apply _. Defined.

Definition responses (w : World) : list effect := filter is_response (w_log w).

(** The same world with the session open. *)
Definition reopen (w : World) : World :=
  mkWorld (w_server w) (w_serverAliases w) (w_tele w) (w_subID w) (w_subs w)
    (let s := w_ses w in mkSession (ses_ID s) (Address s) (Port s) (StreamSub s) (PollSub s) (ses_aliases s) false) (w_log w).

Definition is_closed (w : World) : Prop := respchan_closed (w_ses w) = true.

(** A program on a closed session does what it does on an open one without a
    response, or it panics; it never responds. *)
Definition panics_on_send {A} (m : M A) : Prop := ∀ w, is_closed w →
  (∃ w1 o, m (reopen w) = (reopen w1, o) ∧ m w = (w1, o) ∧ is_closed w1 ∧ responses w1 = responses w) ∨
  (∃ w2, m w = (w2, Panic) ∧ is_closed w2 ∧ responses w2 = responses w).

Lemma panics_ret {A} (a : A) : panics_on_send (mret a).
Proof. intros w Hw. left. by exists w, (Ok a). Qed.

Lemma panics_lift {A} (o : outcome error A) : panics_on_send (lift o).
Proof. intros w Hw. left. by exists w, o. Qed.

Lemma panics_gets {A} (f : World → A) : (∀ w, f (reopen w) = f w) → panics_on_send (gets f).
Proof. intros Hf w Hw. left. exists w, (Ok (f w)). unfold gets. by rewrite Hf. Qed.

Lemma panics_bind {A B} (m : M A) (k : A → M B) :
  panics_on_send m → (∀ x, panics_on_send (k x)) → panics_on_send (m ≫= k).
Proof.
  intros Hm Hk w Hw. unfold mbind, M_bind.
  destruct (Hm w Hw) as [(w1 & o & -> & -> & Hw1 & Hr1)|(w2 & -> & Hw2 & Hr2)]; [|right; by exists w2].
  destruct o as [x|e| |]; [|left; by eexists _, _..].
  destruct (Hk x w1 Hw1) as [(w3 & o3 & -> & -> & Hw3 & Hr3)|(w3 & -> & Hw3 & Hr3)].
  - left. exists w3, o3. by rewrite Hr3.
  - right. exists w3. by rewrite Hr3.
Qed.

Lemma panics_each {A} (f : A → M unit) l : (∀ x, panics_on_send (f x)) → panics_on_send (each f l).
Proof.
  intros Hf. induction l as [|x l IH]; [apply panics_ret|]. cbn [each]. apply panics_bind; [apply Hf|by intros []].
Qed.

Lemma panics_deref a : panics_on_send (deref a).
Proof. intros w Hw. left. by eexists w, _. Qed.

Lemma panics_update_sub a f : panics_on_send (update_sub a f).
Proof. intros w Hw. left. by eexists (fst (update_sub a f w)), _. Qed.

Lemma panics_emit e : ¬ is_response e → panics_on_send (emit e).
Proof.
  intros He w Hw. left. eexists (fst (emit e w)), _. split_and!; [done..|].
  unfold responses. cbn. rewrite filter_app, filter_cons_False, filter_nil by done. by rewrite app_nil_r.
Qed.

Lemma panics_send x : panics_on_send (send x).
Proof. intros w Hw. right. exists w. unfold send, mbind, M_bind, gets. by rewrite Hw. Qed.

Create HintDb panics.
#[local] Hint Resolve panics_ret panics_lift panics_bind panics_each panics_deref panics_update_sub panics_send : panics.
#[local] Hint Extern 1 (panics_on_send (gets _)) => by apply panics_gets : panics.
#[local] Hint Extern 1 (panics_on_send (emit _)) => apply panics_emit; tauto : panics.
#[local] Hint Extern 2 (panics_on_send (if ?b then _ else _)) => destruct b : panics.
#[local] Hint Extern 3 (panics_on_send (let '(_, _) := ?x in _)) => destruct x : panics.
#[local] Hint Extern 4 (panics_on_send _) => progress intros : panics.

Lemma panics_telemetryUpdate sub root : panics_on_send (telemetryUpdate EncodeTypedValue sub root).
Proof.
  unfold telemetryUpdate, telemetry_top, sendTelemetryUpdate. auto 20 with panics.
Qed.
#[local] Hint Resolve panics_telemetryUpdate : panics.

Lemma panics_handle_event a event : panics_on_send (handle_event EncodeTypedValue a event).
Proof. unfold handle_event. auto 20 with panics. Qed.

Lemma panics_handle_sampling a : panics_on_send (handle_sampling a : M unit).
Proof. unfold handle_sampling. auto 20 with panics. Qed.

Lemma panics_handle_expired a b : panics_on_send (handle_expired EncodeTypedValue a b).
Proof. unfold handle_expired. auto 20 with panics. Qed.

(** An action on the open and on the closed session. *)
Definition loses (w : World) (open closed : option (World * runner)) : Prop :=
  match closed with
  | Some s =>
      responses (fst s) = responses w ∧
      ∀ s', open = Some s' → responses (fst s') ≠ responses w → at_ (snd s) = Crashed
  | None => open = None
  end.

Lemma after_loses a (m : M unit) w r :
  panics_on_send m → is_closed w → loses w (Some (after a (m (reopen w)) r)) (Some (after a (m w) r)).
Proof.
  intros Hm Hw. destruct (Hm w Hw) as [(w1 & o & -> & -> & _ & Hr)|(w2 & -> & _ & Hr)]; [|done].
  split; [by destruct o|]. intros s' [= <-]. by destruct o.
Qed.

Lemma quiet_loses w r : loses w (Some (reopen w, r)) (Some (w, r)).
Proof. split; [done|]. by intros s' [= <-]. Qed.

Lemma action_loses a act w r :
  is_closed w →
  loses w (run_action EncodeTypedValue a act (reopen w, r)) (run_action EncodeTypedValue a act (w, r)).
Proof.
  intros Hw. destruct act; cbn [run_action].
  - destruct (_ <? _); [apply quiet_loses|done].
  - destruct (_ && _); [apply quiet_loses|done].
  - destruct (_ && _); [apply quiet_loses|done].
  - destruct (at_select r), (eventque r); try done. apply after_loses; [apply panics_handle_event|done].
  - destruct (_ && _); [|done].
    destruct (panics_handle_sampling a w Hw) as [(w1 & o & -> & -> & _ & Hr)|(w2 & -> & _ & Hr)]; [|done].
    destruct o; (split; [done|]); by intros s' [= <-].
  - destruct (_ && _); [apply quiet_loses|done].
  - destruct (at_select r), (timerExpired r); try done. apply after_loses; [apply panics_handle_expired|done].
  - rewrite andb_false_r. by destruct (_ && _).
Qed.

(** C32. Closing a session races with its runners, and the process loses: the
    channel of the responses is closed before the runners have ended.  From
    then on nothing is sent; a runner at its select may take the shutdown and
    end, but any other action it may take instead, an expiry or an event of an
    on-change subscription, panics if it would have sent a response to the open
    session, and a panic in a goroutine ends the server. *)
Theorem close_races (a : nat) (act : action) (w w' : World) (r r' : runner) :
  is_closed w →
  (∀ s', step a (w, r) s' → responses (fst s') = responses w) ∧
  (run_action EncodeTypedValue a act (reopen w, r) = Some (w', r') → responses w' ≠ responses w →
   (∃ s1, run_action EncodeTypedValue a act (w, r) = Some s1 ∧ at_ (snd s1) = Crashed) ∧
   (∃ s2, run_action EncodeTypedValue a TakeShutdown (w, r) = Some s2 ∧ at_ (snd s2) = Quit)).
Proof.
  intros Hw. split.
  - intros s' [act' Hs]. pose proof (action_loses a act' w r Hw) as Hl. rewrite Hs in Hl. apply Hl.
  - intros Hopen Hne. pose proof (action_loses a act w r Hw) as Hl. rewrite Hopen in Hl.
    destruct (run_action _ a act (w, r)) as [s1|] eqn:Hs1; [|done]. destruct Hl as [_ Hl]. split; [eauto|].
    assert (at_select r = true) as Hsel.
    { apply not_false_is_true. intros Hsel. apply Hne.
      destruct act; cbn [run_action] in Hopen; rewrite ?Hsel in Hopen; cbn [andb] in Hopen; try done;
        repeat case_match; try done; by injection Hopen as <- _. }
    eexists. cbn [run_action]. rewrite Hsel, Hw. done.
Qed.
End closing.

(** ** Witnesses *)
Lemma configure_bounds_witness :
  ∃ c, configure 2 (2 ^ 63) false 0 = Ok c ∧ run_start c = Panic.
Proof.
  exists (mkConfig 2 (2 ^ 63) false 0). split; [reflexivity|].
  apply (configure_bounds 2 (2 ^ 63) false 0); [lia|lia|reflexivity|left; cbn; lia].
Defined.

Definition example_init (w : example_World) : example_World * outcome error unit :=
  @initTelemetryUpdate canonical_range identity_clone example_ops identity_sort map_trie goval example_encode
    (example_list 0 [mkSubEntry (Some (names_path ["interface"; "mtu"])) 0 0 false 0]) w.

Lemma initTelemetryUpdate_reports_witness :
  length (w_log (fst (example_init example_world))) = 2 ∧
  ∃ ns, fst (example_init example_world) = log_all (ns ++ [SyncResponse true]) example_world.
Proof.
  split; [by_vm|].
  destruct (@initTelemetryUpdate_reports canonical_range identity_clone example_ops identity_sort map_trie goval
    example_encode (example_list 0 [mkSubEntry (Some (names_path ["interface"; "mtu"])) 0 0 false 0]) example_world
    (fst (example_init example_world))) as (ns & Hns & _); [|by exists ns].
  assert (snd (example_init example_world) = Ok tt) as Hr by by_vm. rewrite <-Hr. apply surjective_pairing.
Defined.

(** The two subscriptions of the stream request: on change, and sampled. *)
Definition example_event : teleEvent :=
  mkEvent (mkSub 0 1) (Some (VPtr (Some "Device") (Some (VStruct "Device" []))))
    [] ["/interfaces/interface[name=eth0]/mtu"].

Definition example_sub (a : nat) : @Subscription map_trie :=
  default (mkSubscription 0 0 "" None false 0 false 0 [] 0 0 false 0 (mkConfig 0 0 false 0) false ∅ ∅ false)
    (w_subs example_streaming !! a).

Lemma sampled_events_counted_witness :
  ∃ w' sub', each (@handle_event canonical_range identity_clone example_ops identity_sort map_trie goval example_encode 1)
               [example_event; example_event] example_streaming = (w', Ok tt) ∧ w_log w' = w_log example_streaming ∧
    counted (@entries map_trie _ (deletedList sub'))
      ["/interfaces/interface[name=eth0]/mtu"; "/interfaces/interface[name=eth0]/mtu"].
Proof.
  assert (size (@entries map_trie _ (updatedList (example_sub 1))) = 0) as Hu%map_size_empty_inv by by_vm.
  assert (size (@entries map_trie _ (deletedList (example_sub 1))) = 0) as Hd0%map_size_empty_inv by by_vm.
  destruct (@sampled_events_counted canonical_range identity_clone example_ops identity_sort map_trie goval example_encode
    1 [example_event; example_event] example_streaming (example_sub 1) [] []) as (w' & sub' & He & Hl & _ & _ & _ & _ & Hd & _).
  - apply some_bool_default. by_vm.
  - by_vm.
  - rewrite Hu. apply (@counted_New map_trie).
  - rewrite Hd0. apply (@counted_New map_trie).
  - exists w', sub'. split; [exact He|]. split; [exact Hl|exact Hd].
Defined.

Lemma on_change_deletion_lost_witness :
  ∃ w' sub', @handle_event canonical_range identity_clone example_ops identity_sort map_trie goval example_encode 0
               example_event example_streaming = (w', Ok tt) ∧ w_log w' = w_log example_streaming ∧
    w_subs w' !! 0 = Some sub' ∧ @entries map_trie _ (deletedList sub') = ∅.
Proof.
  destruct (@on_change_deletion_lost canonical_range identity_clone example_ops identity_sort map_trie goval example_encode
    0 example_event example_streaming (example_sub 0) (Some (names_path ["interfaces"])) [] false) as (w' & sub' & He & Hl & Hs & Hd & _);
    [apply some_bool_default; by_vm|by_vm..|]. exists w', sub'. split; [exact He|]. split; [exact Hl|]. split; [exact Hs|exact Hd].
Defined.

Lemma runner_blocks_itself_witness :
  ∃ r, run_start (@Configured map_trie (example_sub 1)) = Ok r ∧
    ∃ r', rtc (@runner_step canonical_range identity_clone example_ops identity_sort map_trie goval example_encode 1)
            (example_streaming, r) (example_streaming, r') ∧ blocked false r'.
Proof.
  exists (mkRunner [] false false true false [] Selecting). split; [by_vm|].
  destruct (@runner_blocks_itself canonical_range identity_clone example_ops identity_sort map_trie goval example_encode
    1 example_streaming (example_sub 1) (mkRunner [] false false true false [] Selecting)) as (r' & Hr & Hb & _);
    [apply some_bool_default; by_vm|by_vm..|]. exists r'. split; [exact Hr|exact Hb].
Defined.

(** The sampled subscription of the session that has ended, with an expiry that
    its runner has not yet taken. *)
Definition example_late : runner := mkRunner [] false false true false [true] Selecting.
Definition example_take (w : example_World) : option (example_World * runner) :=
  @run_action canonical_range identity_clone example_ops identity_sort map_trie goval example_encode 1 TakeExpired (w, example_late).

Lemma option_measure {A} (o : option A) (f : A → nat) n :
  match o with Some s => f s | None => 0 end = S n → ∃ s, o = Some s ∧ f s = S n.
Proof. destruct o; naive_solver. Qed.

Lemma close_races_witness :
  length (@responses map_trie goval (fst example_ended)) = 2 ∧
  (∃ s, example_take (reopen (fst example_ended)) = Some s ∧ length (responses (fst s)) = 3) ∧
  ∃ s, example_take (fst example_ended) = Some s ∧ at_ (snd s) = Crashed.
Proof.
  assert (length (@responses map_trie goval (fst example_ended)) = 2) as H2 by by_vm. split; [exact H2|].
  assert (match example_take (reopen (fst example_ended)) with Some s => length (responses (fst s)) | None => 0 end = 3) as H1
    by by_vm.
  apply option_measure in H1 as ([w' r'] & Ho & H1). split; [exists (w', r'); split; [exact Ho|exact H1]|].
  destruct (@close_races canonical_range identity_clone example_ops identity_sort map_trie goval example_encode 1 TakeExpired
    (fst example_ended) w' example_late r') as [_ Hc].
  - unfold is_closed. by_vm.
  - destruct (Hc Ho) as [Hcrash _]; [|exact Hcrash]. intros Heq. change (length (responses w') = 3) in H1. rewrite Heq, H2 in H1. discriminate H1.
Defined.

(** A prefix that selects several nodes does not say which: the notifications
    of two list entries with the same value are equal, because both carry the
    prefix as it was requested. *)
Definition example_twins : example_World :=
  mkWorld (mkServer (mkSchemaModel
      (mkMO {["Device" := mkPtr (mkEntry "device" "" [("interfaces", example_interfaces_entry)]) [];
              "Interface" := mkPtr example_list_entry []]} (Some (TPtr (TStruct "Device" [])))) []) None
      (VPtr (Some "Device") (Some (VStruct "Device" [("Interfaces", Some "interfaces",
         VPtr (Some "Interfaces") (Some (VStruct "Interfaces" [("Interface", Some "interface",
           VMap [example_if "eth0"; example_if "eth1"])])))]))) 0 false)
    ∅ newTeleCtrl 0 [] example_session [].

Definition example_twins_list : SubscriptionList :=
  mkSubList (Some (names_path ["interfaces"; "interface"])) [mkSubEntry (Some (names_path ["mtu"])) 0 0 false 0]
    false 1 false [] Encoding_JSON_IETF false.

Theorem init_prefix_ambiguous :
  ∃ n, w_log (fst (@initTelemetryUpdate canonical_range identity_clone example_ops identity_sort map_trie goval
                     example_encode example_twins_list example_twins)) =
       [Respond n; Respond n; Respond (SyncResponse true)].
Proof. eexists. vm_compute. reflexivity. Qed.
