(* ===== verification/Write.v ===== *)
(** * Write: how values enter the data tree

    Models the writing half of [gnmi/model/utilities.go]: [GetOrCreateNode],
    [WriteValue], [WriteTypedValue], [WriteStringValue], [writeLeaf],
    [writeLeafList], [FindValue], [DeleteValue] and the internal JSON encoding.
    The functions of ygot and ydb they call are behind the interface
    [DataWrite]; the tree they write is passed explicitly, and what an operation
    wrote before an error stays written. *)

From Stdlib Require Import Ascii ZArith.
From stdpp Require Import sorting pretty.
From S2P Require Export DataSearch.

(** ** Third-party code

    A [node] is a Go value inside the tree, as ygot returns it; a [rvalue] is a
    value outside of it.  The schema methods are those of goyang. *)
Class DataWrite := {
  node : Type;
  rvalue : Type;
  typedValue : Type;
  root_node : node;
  (** [reflect.TypeOf] and the assertion of [ygot.GoStruct]. *)
  node_type : goval → node → option gotype;
  node_GoStruct : goval → node → bool;
  (** [ytypes.GetOrCreateNode], [SetNode], [GetNode] and [DeleteNode]. *)
  ytypes_GetOrCreateNode : goval → option EntryPtr → node → Path → goval * (error + (node * option EntryPtr));
  ytypes_SetNode : goval → option EntryPtr → node → option Path → typedValue → goval * option error;
  ytypes_GetNode : goval → option EntryPtr → node → option Path → error + list node;
  ytypes_DeleteNode : goval → option EntryPtr → node → option Path → goval * option error;
  (** Texts to values of a type, and values to typed values. *)
  StringToType : gotype → string → error + rvalue;
  ValScalarNew : gotype → string → error + rvalue;
  ValSliceNew : option gotype → error + rvalue;
  ValSliceAppend : rvalue → rvalue → error + rvalue;
  ygot_EncodeTypedValue : rvalue → error + typedValue;
  (** [reflect] and [ydb] writes: a value that cannot be set, a field by name. *)
  node_Set : goval → node → rvalue → option goval;
  ValChildSet : goval → node → string → rvalue → goval * option error;
  value_bool : bool → rvalue;
  value_string : string → rvalue;
  (** The function the generated code passes for JSON. *)
  Unmarshal : goval → node → option string → goval * option error;
  GetJsonVal : typedValue → option string;
  GetJsonIetfVal : typedValue → option string;
  GetBoolVal : typedValue → bool;
  NewEmptyRoot : goval;
  entry_Find : EntryPtr → string → option EntryPtr;
  IsList : EntryPtr → bool;
  IsDir : EntryPtr → bool;
  IsLeafList : EntryPtr → bool;
  entry_Type : EntryPtr → option YangType
}.

(** ** Steps that write *)

(** The tree comes back with a result or an error. *)
Definition W (A : Type) : Type := goval → outcome error (goval * (error + A)).

#[export] Instance W_ret : MRet W := λ A a t, mret (t, inr a).
#[export] Instance W_bind : MBind W := λ A B k m t,
  '(t, r) ← m t;
  match r with inl err => mret (t, inl err) | inr a => k a t end.

Definition W_fail {A} (err : error) : W A := λ t, mret (t, inl err).
Definition W_panic {A} : W A := λ t, Panic.
Definition W_try {A} (r : error + A) : W A := λ t, mret (t, r).
Definition W_read {A} (f : goval → A) : W A := λ t, mret (t, inr (f t)).
(** A call that changes the tree. *)
Definition W_call {A} (f : goval → goval * (error + A)) : W A := λ t, mret (f t).
Definition W_call_err (f : goval → goval * option error) : W unit := λ t,
  let '(t, err) := f t in mret (t, match err with Some err => inl err | None => inr tt end).
Definition W_lift {A} (o : outcome error A) : W A := λ t,
  match o with Ok a => mret (t, inr a) | Err err => mret (t, inl err) | Panic => Panic | Diverge => Diverge end.

(** [fmt.Errorf("%s", status.FromError(err).Message)] for every error of ygot;
    a nil status has no message. *)
Definition W_ytypes {A} (m : W A) : W A := λ t,
  '(t, r) ← m t;
  match r with
  | inr a => mret (t, inr a)
  | inl err =>
      match FromError (Some err) with
      | Some s => mret (t, inl (Errorf_plain "%s" [AMsg (s_Message s)]))
      | None => Panic
      end
  end.

(** A method call on a nil entry panics. *)
Definition schema_of (schema : option EntryPtr) : W EntryPtr :=
  match schema with Some s => mret s | None => W_panic end.

Definition elem_path (e : PathElem) : Path := mkPath "" None (Some [e]) "".

(** The result as the callers of the package see it. *)
Definition run_W (m : W unit) (t : goval) : outcome error (goval * option error) :=
  '(t, r) ← m t; mret (t, match r with inl err => Some err | inr _ => None end).

Section write.
Context `{GoRange, DataWrite}.

(** ** Leaves *)

(** The value a text stands for: the converter of ygot, then that of ydb; the
    error is that of ygot. *)
Definition text_value (t t' : gotype) (v : string) : W rvalue :=
  match StringToType t v with
  | inr vv => mret vv
  | inl err => match ValScalarNew t' v with inr vv => mret vv | inl _ => W_fail err end
  end.

Definition writeLeaf (schema : option EntryPtr) (base : node) (gpath : option Path) (t : option gotype) (v : string)
    : W unit :=
  match t with
  | None => W_fail (Errorf_plain "invalid type inserted for %s" [AStr (ToXPath gpath)])
  | Some t =>
      let t := match t with TPtr t => t | _ => t end in
      vv ← text_value t t v;
      typed ← W_try (ygot_EncodeTypedValue vv);
      W_ytypes (W_call_err (λ tree, ytypes_SetNode tree schema base gpath typed))
  end.

(** [t.Elem()] of a nil type panics.  The converter of ydb is given the type of
    the list. *)
Definition writeLeafList (schema : option EntryPtr) (base : node) (gpath : option Path) (t : option gotype) (v : string)
    : W unit :=
  sv ← W_try (ValSliceNew t);
  match t with
  | None => W_panic
  | Some t =>
      elem ← W_lift (type_Elem t);
      vv ← text_value elem t v;
      rv ← W_try (ValSliceAppend sv vv);
      typed ← W_try (ygot_EncodeTypedValue rv);
      W_ytypes (W_call_err (λ tree, ytypes_SetNode tree schema base gpath typed))
  end.

(** The member types of a union, in order, until one takes the text.  Without a
    member the error is that of the step before, nil. *)
Fixpoint writeUnion (schema : option EntryPtr) (base : node) (full p : option Path) (types : list (option gotype))
    (value : string) (err : option error) : W unit :=
  match types with
  | [] => match err with Some err => W_fail err | None => mret () end
  | None :: _ => W_fail (Errorf_plain "invalid union type for %s" [AStr (ToXPath full)])
  | Some t :: types => λ tree,
      '(tree, r) ← writeLeaf schema base p (Some t) value tree;
      match r with
      | inr _ => mret (tree, inr ())
      | inl err => writeUnion schema base full p types value (Some err) tree
      end
  end.

(** [pvalue.(ygot.GoStruct)]. *)
Definition asserting (pvalue : node) (write : W unit) : W unit :=
  λ tree, if node_GoStruct tree pvalue then write tree else Panic.

(** A leaf that is not a leaf-list. *)
Definition write_leaf_node (pschema : option EntryPtr) (pvalue : node) (gpath p : option Path)
    (curSchema : EntryPtr) (curValue : node) (value : string) : W unit :=
  match entry_Type curSchema with
  | Some (mkYangType Yempty _) =>
      W_call_err (λ tree, ValChildSet tree pvalue (e_Name (ep_node curSchema)) (value_string value))
  | Some (mkYangType Yunion members) =>
      let types := baseType (mkYangType Yunion members) in
      match types with
      | Some _ :: _ => asserting pvalue (writeUnion pschema pvalue gpath p types value None)
      | _ => writeUnion pschema pvalue gpath p types value None
      end
  | _ =>
      ct ← W_read (λ tree, node_type tree curValue);
      asserting pvalue (writeLeaf pschema pvalue p ct value)
  end.

(** ** A text at a path

    The loop over the elements: [p] is the path of the last step, nil before
    the first. *)
Fixpoint WriteStringValue_loop (gpath : option Path) (value : string) (pschema : option EntryPtr) (pvalue : node)
    (curSchema : option EntryPtr) (curValue : node) (p : option Path) (l : list PathElem) : W unit :=
  match l with
  | [] => mret ()
  | e :: l =>
      s ← schema_of curSchema;
      if IsLeafList s then
        ct ← W_read (λ tree, node_type tree curValue);
        writeLeafList pschema pvalue p ct (pe_Name e)
      else if negb (IsDir s) then W_fail (Errorf_plain "invalid path: %s" [AStr (ToXPath gpath)])
      else
        let p := Some (elem_path e) in
        '(curValue, curSchema) ← W_ytypes (W_call (λ tree, ytypes_GetOrCreateNode tree curSchema curValue (elem_path e)));
        s ← schema_of curSchema;
        if IsDir s then WriteStringValue_loop gpath value curSchema curValue curSchema curValue p l
        else if IsLeafList s then
          if bool_decide (value = "") then WriteStringValue_loop gpath value pschema pvalue curSchema curValue p l
          else
            ct ← W_read (λ tree, node_type tree curValue);
            writeLeafList pschema pvalue p ct value
        else write_leaf_node pschema pvalue gpath p s curValue value
  end.

Definition WriteStringValue (pschema : option EntryPtr) (pvalue : node) (gpath : option Path) (value : string) : W unit :=
  WriteStringValue_loop gpath value pschema pvalue pschema pvalue None (elems gpath).

Definition MO_WriteStringValue (mo : MO) (gpath : option Path) (value : string) : W unit :=
  schema ← W_lift (RootSchema mo);
  WriteStringValue schema root_node gpath value.

(** ** A node and its parent *)
Record TreeNode : Type := mkTreeNode { tn_Schema : option EntryPtr; tn_Data : node; tn_Path : Path }.

Fixpoint GetOrCreateNode_loop (l : list PathElem) (pSchema : option EntryPtr) (parent : node)
    (tSchema : option EntryPtr) (leaf : node) : W (option EntryPtr * node * option EntryPtr * node) :=
  match l with
  | [] => mret (pSchema, parent, tSchema, leaf)
  | e :: l =>
      '(leaf', tSchema') ← W_ytypes (W_call (λ tree, ytypes_GetOrCreateNode tree tSchema leaf (elem_path e)));
      GetOrCreateNode_loop l tSchema leaf tSchema' leaf'
  end.

Definition names_of (l : list PathElem) : Path := mkPath "" None (Some l) "".

Definition GetOrCreateNode (mo : MO) (gpath : option Path) : W (TreeNode * TreeNode) :=
  schema ← W_lift (GetSchema mo);
  match elems gpath with
  | [] =>
      let root := mkTreeNode schema root_node (mkPath "" None None "") in mret (root, root)
  | l =>
      '(pSchema, parent, tSchema, leaf) ← GetOrCreateNode_loop l schema root_node schema root_node;
      let index := length l - 1 in
      mret (mkTreeNode pSchema parent (names_of (take index l)), mkTreeNode tSchema leaf (names_of (drop index l)))
  end.

Definition set_node (s : EntryPtr) (target : node) (value : rvalue) : W unit := λ tree,
  match node_Set tree target value with
  | Some tree => mret (tree, inr ())
  | None => mret (tree, inl (Errorf_plain "unable to set %s" [AStr (e_Name (ep_node s))]))
  end.

Definition WriteValue (mo : MO) (gpath : option Path) (value : rvalue) : W unit :=
  '(parent, target) ← GetOrCreateNode mo gpath;
  s ← schema_of (tn_Schema target);
  if IsDir s then set_node s (tn_Data target) value
  else W_call_err (λ tree, ValChildSet tree (tn_Data parent) (e_Name (ep_node s)) value).

(** A failed look-up is nil, and so is a look-up without a node. *)
Definition FindValue (mo : MO) (gpath : option Path) (tree : goval) : outcome error (option node) :=
  schema ← GetSchema mo;
  mret (match ytypes_GetNode tree schema root_node gpath with
        | inl _ => None
        | inr nodes => head nodes
        end).

(** ** Deletions *)

(** [strings.Contains(pSchema.Key, name)]: a key leaf is not deleted.  A path
    without elements is the node itself; the last element is read only if the
    node has a parent. *)
Definition DeleteValue (mo : MO) (root : goval) (gpath : option Path) : outcome error (goval * option error) :=
  schema ← GetSchema mo;
  tSchema ← match schema with
            | Some s => mret (FindSchemaByGNMIPath_base s gpath)
            | None => if bool_decide (elems gpath = []) then mret None else Panic
            end;
  match tSchema with
  | None => mret (root, Some (Errorf_plain "schema for %s not found" [AStr (ToXPath gpath)]))
  | Some t =>
      match ptr_Parent t with
      | None => mret (ytypes_DeleteNode root schema root_node gpath)
      | Some pSchema =>
          match last (elems gpath) with
          | None => Panic
          | Some elem =>
              if Contains (e_Key (ep_node pSchema)) (pe_Name elem) then mret (root, None)
              else mret (ytypes_DeleteNode root schema root_node gpath)
          end
      end
  end.
End write.

(** ** Internal JSON

    An object lists its members in the order of the map iteration; a number
    holds the text [fmt.Sprint] prints for it. *)
Inductive json : Type :=
  | JObject (members : list (string * json))
  | JArray (items : list json)
  | JNumber (text : string)
  | JString (text : string)
  | JBool (b : bool)
  | JNull.

Definition jsonDataToString (jvalue : json) : error + string :=
  match jvalue with
  | JNumber s | JString s => inr s
  | JNull => inr ""
  | JBool b => inr (if b then "true" else "false")
  | JArray _ => inl (Errorf_plain "unexpected json array" [])
  | JObject _ => inl (Errorf_plain "unexpected json object" [])
  end.

(** A list of strings as [%v] and [%s] print it. *)
Definition fmt_slice (l : list string) : string := "[" +:+ GoStrings.Join l " " +:+ "]".

(** A map as [%v] prints it, in the order of the keys. *)
Definition key_le (a b : string * string) : Prop := String.le a.1 b.1.
#[export] Instance key_le_dec : RelDecision key_le := λ a b, String.le_dec a.1 b.1.
Definition fmt_map (kvs : list (string * string)) : string :=
  "map[" +:+ GoStrings.Join ((λ kv, kv.1 +:+ ":" +:+ kv.2) <$> merge_sort key_le kvs) " " +:+ "]".

Fixpoint strip_zeros (l : list ascii) : list ascii :=
  match l with
  | c :: l' => if bool_decide (c = "0"%char) then strip_zeros l' else l
  | [] => []
  end.

(** [fmt.Sprint] of the [float64] of a natural number below 2^53: six digits at
    most, or an exponent. *)
Definition float_text (n : Z) : string :=
  let d := pretty n in
  if (n <? 1000000)%Z then d
  else
    let m := String.list_ascii_of_string d in
    let digits := reverse (strip_zeros (reverse m)) in
    let exp := pretty (Z.of_nat (length m - 1)) in
    match digits with
    | [] => d
    | c :: rest =>
        String c (if decide (rest = []) then "" else "." +:+ String.string_of_list_ascii rest) +:+ "e+" +:+
        (if String.length exp =? 1 then "0" else "") +:+ exp
    end.

(** The keys of a list entry: the names of the schema with the parts of the
    member's name. *)
Definition list_keys (knames vals : list string) : gmap string string :=
  foldl (λ m kv, <[kv.1 := kv.2]> m) ∅ (zip knames vals).

Section json.
Context `{GoRange, ProtoClone, DataWrite}.

(** The loop over the member names from the target to a leaf; [done] are the
    names before.  [Find] on a nil entry is an end of the process. *)
Fixpoint json_path (gpath : option Path) (done : list string) (schema : option EntryPtr) (keys : list string)
    : W (list PathElem) :=
  match keys with
  | [] => mret []
  | key :: keys =>
      schema ← schema_of schema;
      match entry_Find schema key with
      | None =>
          W_fail (Errorf_plain "schema not found for %s" [AStr (ToXPath gpath +:+ "/" +:+ GoStrings.Join done "/")])
      | Some schema =>
          if IsList schema then
            let knames := Split (e_Key (ep_node schema)) " "%char in
            match keys with
            | [] => W_fail (Errorf_plain "unable to extract key from json bytes from %v" [AStr (fmt_slice (done ++ [key]))])
            | kval :: keys =>
                let vals := Split kval " "%char in
                if negb (length vals =? length knames) then
                  W_fail (Errorf_plain "invalid key value (%v) for %s" [AStr (fmt_slice vals); AStr (fmt_slice knames)])
                else
                  p ← json_path gpath (done ++ [key; kval]) (Some schema) keys;
                  mret (mkElem key (Some (list_keys knames vals)) :: p)
            end
          else p ← json_path gpath (done ++ [key]) (Some schema) keys; mret (mkElem key None :: p)
      end
  end.

(** One leaf. *)
Definition json_leaf (mo : MO) (gpath : option Path) (keys : list string) (jdata : json) : W unit :=
  jstr ← W_try (jsonDataToString jdata);
  p ← json_path gpath [] (FindSchemaByGNMIPath mo gpath) keys;
  fpath ← W_lift (GNMIFullPath gpath (Some (names_of p)));
  MO_WriteStringValue mo fpath jstr.

(** A loop that stops at the first error. *)
Definition until_error {A} (f : A → W unit) :=
  fix go (l : list A) : W unit :=
    match l with
    | [] => mret ()
    | x :: l => _ ← f x; go l
    end.

Fixpoint unmarshalInternalJSON (mo : MO) (gpath : option Path) (j : json) (keys : list string) : W unit :=
  match j with
  | JObject members => until_error (λ kv, unmarshalInternalJSON mo gpath kv.2 (keys ++ [kv.1])) members
  | JArray items => until_error (λ item, unmarshalInternalJSON mo gpath item keys) items
  | _ => json_leaf mo gpath keys j
  end.

(** [json.Unmarshal] of the bytes. *)
Context (json_Unmarshal : string → error + json).

Definition UnmarshalInternalJSON (mo : MO) (gpath : option Path) (j : string) : W unit :=
  jsonTree ← W_try (json_Unmarshal j);
  match FindSchemaByGNMIPath mo gpath with
  | None => W_fail (Errorf_plain "schema not found for %s" [AStr (ToXPath gpath)])
  | Some _ => unmarshalInternalJSON mo gpath jsonTree []
  end.

(** ** Typed values

    [fmt.Sprint] of a decoded document. *)
Fixpoint Sprint (j : json) : string :=
  match j with
  | JNumber s | JString s => s
  | JBool b => if b then "true" else "false"
  | JNull => "<nil>"
  | JArray items => fmt_slice (Sprint <$> items)
  | JObject members => fmt_map ((λ kv, (kv.1, Sprint kv.2)) <$> members)
  end.

(** A value of a container or a list. *)
Definition write_dir (mo : MO) (gpath : option Path) (target : TreeNode) (tv : typedValue) : W unit :=
  match GetJsonVal tv with
  | Some j => UnmarshalInternalJSON mo gpath j
  | None =>
      asserting (tn_Data target) (W_call_err (λ tree, Unmarshal tree (tn_Data target) (GetJsonIetfVal tv)))
  end.

(** A value of a leaf or a leaf-list; a document that does not parse is the nil
    value. *)
Definition write_leaf_value (mo : MO) (gpath : option Path) (parent target : TreeNode) (tv : typedValue) : W unit :=
  match GetJsonVal tv with
  | Some j => UnmarshalInternalJSON mo gpath j
  | None =>
      match GetJsonIetfVal tv with
      | Some j =>
          let rawdata := match json_Unmarshal j with inr rawdata => rawdata | inl _ => JNull end in
          WriteStringValue (tn_Schema parent) (tn_Data parent) (Some (tn_Path target)) (Sprint rawdata)
      | None =>
          schema ← W_lift (GetSchema mo);
          W_ytypes (W_call_err (λ tree, ytypes_SetNode tree schema root_node gpath tv))
      end
  end.

Definition WriteTypedValue (mo : MO) (gpath : option Path) (tv : typedValue) : W unit :=
  '(parent, target) ← GetOrCreateNode mo gpath;
  s ← schema_of (tn_Schema target);
  if IsDir s then write_dir mo gpath target tv
  else
    match entry_Type s with
    | None => W_panic
    | Some (mkYangType Yempty _) =>
        W_call_err (λ tree, ValChildSet tree (tn_Data parent) (e_Name (ep_node s)) (value_bool (GetBoolVal tv)))
    | Some _ => write_leaf_value mo gpath parent target tv
    end.
End json.

(** ** The text of a value

    [ydb.IsTypeScalar] of the type of a value, nil included, the typed value of
    ygot, and the text [%v] prints for the first field of its message; [None] is
    a message without a value. *)
Section text.
Context {value typed : Type} (IsTypeScalar : option value → bool).
Context (EncodeTypedValue : value → error + typed) (field_text : typed → option string).

Definition scalar_text (v : value) : string :=
  match EncodeTypedValue v with
  | inl _ => ""
  | inr typedValue => default "" (field_text typedValue)
  end.

Definition GetValueString (v : option value) : string :=
  match v with
  | None => ""
  | Some v => if IsTypeScalar (Some v) then scalar_text v else ""
  end.

Definition DataAndPath_String (path : string) (v : option value) : string :=
  if IsTypeScalar v then path +:+ "=" +:+ match v with None => "" | Some v => scalar_text v end else path.
End text.
