(* ===== verification/SetData.v ===== *)
(** * SetData: the data tree of the Set transaction

    The interface [DataStore] of [SetTxn], with the searches of [DataSearch] and
    the writes of [Write]: the modeled object ([gnmi/model/mo.go],
    [utilities.go]) as [gnmi/model/set.go] uses it.  A value found is the value
    of the moment: for a leaf that is what the code has, while the value of a
    container is a pointer to it, so that a backup of a container follows the
    changes of the container. *)

From S2P Require Import SetTxn.
From S2P Require Export Write.

Section tree.
Context `{GoRange, ProtoClone, DataOps, GoSort, DataWrite} (json_Unmarshal : string → error + json) (mo : MO).
(** [reflect.ValueOf] of a value found, [Interface()] of a node, and the method
    [ReadOnly] of goyang. *)
Context (value_of : goval → rvalue) (node_Interface : goval → node → goval) (entry_ReadOnly : EntryPtr → bool).
(** The text of a value. *)
Context {typed : Type} (IsTypeScalar : option goval → bool) (EncodeTypedValue : goval → error + typed)
        (field_text : typed → option string).

(** The fields of a search result that Set uses. *)
Definition found_data (d : DataAndPath) : SetTxn.DataAndPath goval := SetTxn.mkData (dp_Value d) (dp_Path d).
Definition found_text (d : DataAndPath) : string * string :=
  (dp_Path d, GetValueString IsTypeScalar EncodeTypedValue field_text (Some (dp_Value d))).

(** [MO.NewEmptyRoot]: a new value of the type of the root. *)
Definition tree_NewEmptyRoot : outcome error goval := _ ← GetRootType mo; mret NewEmptyRoot.

Definition tree_DeleteNode (root : goval) (gpath : option Path) : outcome error (goval * option error) :=
  schema ← GetSchema mo;
  mret (ytypes_DeleteNode root schema root_node gpath).

(** A path without a schema entry is not refused here. *)
Definition tree_ReadOnly (gpath : option Path) : bool :=
  match FindSchemaByGNMIPath mo gpath with Some s => entry_ReadOnly s | None => false end.

Definition tree_Get (root : goval) (gpath : option Path)
    : outcome error (list (SetTxn.DataAndPath goval) * bool) :=
  '(l, ok) ← Get mo (find_fuel root gpath) root gpath;
  mret (map found_data l, ok).

Definition tree_FindValue (root : goval) (gpath : option Path) : outcome error (option goval) :=
  n ← FindValue mo gpath root;
  mret (option_map (node_Interface root) n).

(** [m.ListAll(oldval, nil, &AddFakePrefix{Prefix: gpath})]; a nil value has no
    schema. *)
Definition tree_ListAll_value (v : option goval) (gpath : option Path) : outcome error (list (string * string)) :=
  l ← ListAll mo (default VInvalid v) None [AddFakePrefix gpath];
  mret (map found_text l).

Definition tree_ListAll (root : goval) (gpath : option Path) : outcome error (list (string * string)) :=
  l ← ListAll mo root gpath [];
  mret (map found_text l).

#[global] Instance tree_store : DataStore goval goval typedValue := {|
  SetTxn.NewEmptyRoot _ := tree_NewEmptyRoot;
  SetTxn.Get := tree_Get;
  SetTxn.FindValue := tree_FindValue;
  SetTxn.DeleteValue := DeleteValue mo;
  SetTxn.WriteValue root gpath v := run_W (WriteValue mo gpath (value_of v)) root;
  SetTxn.WriteTypedValue root gpath tv := run_W (WriteTypedValue json_Unmarshal mo gpath tv) root;
  SetTxn.DeleteNode := tree_DeleteNode;
  SetTxn.ReadOnly := tree_ReadOnly;
  SetTxn.ListAll_value _ := tree_ListAll_value;
  SetTxn.ListAll := tree_ListAll
|}.

(** The Set RPC of the server on a tree. *)
Definition tree_set (req : SetRequest typedValue) (m : Model goval goval)
    : outcome error (Model goval goval * list UpdateResult * option error) :=
  server_set req m.
End tree.
