(* ===== verification/WriteSpec.v ===== *)
(** * WriteSpec: the theorems on the writes to the data tree *)

From Stdlib Require Import Ascii ZArith Lia.
From stdpp Require Import pretty.
From S2P Require Export Write.
From S2P Require Import PathSpec.

(** ** Steps *)
Section steps.
Context {A B : Type}.
Implicit Types (m : W A) (k : A → W B).

Lemma W_bind_ok m k t t1 a : m t = Ok (t1, inr a) → (m ≫= k) t = k a t1.
Proof. intros Hm. unfold mbind, W_bind. by rewrite Hm. Qed.

Lemma W_bind_error m k t t1 err : m t = Ok (t1, inl err) → (m ≫= k) t = Ok (t1, inl err).
Proof. intros Hm. unfold mbind, W_bind. by rewrite Hm. Qed.

Lemma W_bind_inv m k t t2 b :
  (m ≫= k) t = Ok (t2, inr b) → ∃ t1 a, m t = Ok (t1, inr a) ∧ k a t1 = Ok (t2, inr b).
Proof.
  unfold mbind, W_bind. destruct (m t) as [[t1 [err|a]]| | |]; [intros [=]| |intros [=]..]. by exists t1, a.
Qed.

Lemma W_ret_bind (a : A) k t : (mret (M:=W) a ≫= k) t = k a t.
Proof. reflexivity. Qed.
End steps.

Section write.
Context `{GoRange, DataWrite}.

(** One step down the tree, as [GetOrCreateNode] and [WriteStringValue] make it. *)
Definition step (schema : option EntryPtr) (n : node) (e : PathElem) : W (node * option EntryPtr) :=
  W_ytypes (W_call (λ tree, ytypes_GetOrCreateNode tree schema n (elem_path e))).

(** The steps of a path lead through containers and lists only. *)
Fixpoint through_dirs (l : list PathElem) (schema : option EntryPtr) (n : node) (t : goval) : Prop :=
  match l with
  | [] => True
  | e :: l => ∃ t' n' s', step schema n e t = Ok (t', inr (n', Some s')) ∧ IsDir s' = true ∧ through_dirs l (Some s') n' t'
  end.

(** What is written at the node a path leads to, with its parent. *)
Definition write_at (gpath : option Path) (pSchema : option EntryPtr) (parent : node) (tSchema : EntryPtr) (leaf : node)
    (e : PathElem) (value : string) : W unit :=
  if IsDir tSchema then mret ()
  else if IsLeafList tSchema then
    if bool_decide (value = "") then mret ()
    else λ t, writeLeafList pSchema parent (Some (elem_path e)) (node_type t leaf) value t
  else write_leaf_node pSchema parent gpath (Some (elem_path e)) tSchema leaf value.

(** All the steps of a path. *)
Fixpoint walk (l : list PathElem) (schema : option EntryPtr) (n : node) : W (node * option EntryPtr) :=
  match l with
  | [] => mret (n, schema)
  | e :: l => '(n, schema) ← step schema n e; walk l schema n
  end.

Lemma GetOrCreateNode_loop_walk l e pS par S n t t' pS' par' tS leaf :
  GetOrCreateNode_loop (l ++ [e]) pS par S n t = Ok (t', inr (pS', par', tS, leaf)) →
  ∃ t1, walk l S n t = Ok (t1, inr (par', pS')) ∧ step pS' par' e t1 = Ok (t', inr (leaf, tS)).
Proof.
  revert pS par S n t. induction l as [|x l IH]; intros pS par S n t; cbn [app GetOrCreateNode_loop]; intros Hgo.
  - apply W_bind_inv in Hgo as (t1 & [lf s] & Hstep & Hgo). cbn in Hgo. injection Hgo as -> <- <- -> ->. by exists t.
  - apply W_bind_inv in Hgo as (t1 & [lf s] & Hstep & Hgo). apply IH in Hgo as (t2 & Hw & Hs).
    exists t2. split; [|done]. cbn [walk]. unfold step at 1. by rewrite (W_bind_ok _ _ _ _ _ Hstep).
Qed.

Lemma walk_GetOrCreateNode_loop l e pS par S n t t1 t' pS' par' tS leaf :
  walk l S n t = Ok (t1, inr (par', pS')) → step pS' par' e t1 = Ok (t', inr (leaf, tS)) →
  GetOrCreateNode_loop (l ++ [e]) pS par S n t = Ok (t', inr (pS', par', tS, leaf)).
Proof.
  revert pS par S n t. induction l as [|x l IH]; intros pS par S n t; cbn [app GetOrCreateNode_loop walk]; intros Hw Hs.
  - cbn in Hw. injection Hw as <- <- <-. by rewrite (W_bind_ok _ _ _ _ _ Hs).
  - apply W_bind_inv in Hw as (t2 & [n' s'] & Hstep & Hw). unfold step in Hstep.
    rewrite (W_bind_ok _ _ _ _ _ Hstep). by apply IH.
Qed.

(** The loop of [WriteStringValue] on a path through directories is the walk of
    [GetOrCreateNode] and a write at the end. *)
Lemma WriteStringValue_loop_walk gpath value l e rest S n pS0 parent0 p0 t t' pS parent tS leaf s0 :
  S = Some s0 → IsDir s0 = true → IsLeafList s0 = false →
  (∀ s, IsDir s = true → IsLeafList s = false) →
  through_dirs l S n t →
  GetOrCreateNode_loop (l ++ [e]) pS0 parent0 S n t = Ok (t', inr (pS, parent, Some tS, leaf)) →
  rest = [] ∨ (IsDir tS = false ∧ (IsLeafList tS = true → value ≠ "")) →
  WriteStringValue_loop gpath value S n S n p0 (l ++ e :: rest) t =
    write_at gpath pS parent tS leaf e value t'.
Proof.
  intros HS Hd0 Hl0 Hdl. revert S s0 HS Hd0 Hl0 n pS0 parent0 p0 t.
  induction l as [|x l IH]; intros S s0 -> Hd0 Hl0 n pS0 parent0 p0 t Hth Hgo Hrest.
  - cbn [app] in *. cbn [GetOrCreateNode_loop] in Hgo.
    apply W_bind_inv in Hgo as (t1 & [leaf' tS'] & Hstep & Hgo). cbn in Hgo. injection Hgo as -> <- <- -> ->.
    cbn [WriteStringValue_loop schema_of]. rewrite W_ret_bind, Hl0, Hd0. cbn [negb].
    rewrite (W_bind_ok _ _ _ _ _ Hstep). cbn [schema_of]. rewrite W_ret_bind. unfold write_at.
    destruct (IsDir tS) eqn:Htd.
    + destruct Hrest as [->|[? _]]; [done|congruence].
    + destruct (IsLeafList tS) eqn:Htl; [|done]. case_bool_decide as Hv; [|done].
      destruct Hrest as [->|[_ Hne]]; [done|]. by destruct (Hne eq_refl).
  - cbn [app] in *. destruct Hth as (t1 & n' & s' & Hstep & Hd' & Hth).
    cbn [GetOrCreateNode_loop] in Hgo. apply W_bind_inv in Hgo as (t1' & [leaf' tS'] & Hstep' & Hgo).
    unfold step in Hstep. rewrite Hstep in Hstep'. injection Hstep' as <- <- <-.
    cbn [WriteStringValue_loop schema_of]. rewrite W_ret_bind, Hl0, Hd0. cbn [negb].
    rewrite (W_bind_ok _ _ _ _ _ Hstep). cbn [schema_of]. rewrite W_ret_bind, Hd'.
    eapply IH; [done|done|by apply Hdl|done|exact Hgo|done].
Qed.
End write.

(** ** Unions *)
Section unions.
Context `{GoRange, DataWrite}.

(** The types, in order, refuse the text; each attempt may change the tree. *)
Inductive refused (schema : option EntryPtr) (base : node) (p : option Path) (value : string) :
    list gotype → goval → goval → Prop :=
  | refused_nil t : refused schema base p value [] t t
  | refused_cons ty types t t1 t2 err :
      writeLeaf schema base p (Some ty) value t = Ok (t1, inl err) →
      refused schema base p value types t1 t2 → refused schema base p value (ty :: types) t t2.

Lemma writeUnion_cases schema base full p types value err t t' r :
  writeUnion schema base full p (Some <$> types) value err t = Ok (t', r) →
  (∃ l1 ty l2 t1, types = l1 ++ ty :: l2 ∧ refused schema base p value l1 t t1 ∧
     writeLeaf schema base p (Some ty) value t1 = Ok (t', inr ()) ∧ r = inr ()) ∨
  (refused schema base p value types t t' ∧
     match r with inr _ => types = [] ∧ err = None | inl _ => types ≠ [] ∨ is_Some err end).
Proof.
  revert err t. induction types as [|ty types IH]; intros err t.
  { cbn. destruct err as [err|]; intros [= <- <-]; (right; split; [constructor|]); [right; by eexists|done]. }
  cbn [fmap list_fmap writeUnion]. destruct (writeLeaf schema base p (Some ty) value t) as [[t1 [err'|[]]]| | |] eqn:Hw;
    [|intros [= <- <-]; left; exists [], ty, types, t; split_and!; [done|constructor|done|done]|intros [=]..].
  cbn. intros Hr. apply IH in Hr as [(l1 & ty' & l2 & t2 & -> & Hl & Hok & ->)|[Hl Hr]].
  - left. exists (ty :: l1), ty', l2, t2. split_and!; [done|by econstructor|done|done].
  - right. split; [by econstructor|]. destruct r; [by left|]. by destruct Hr as [_ [=]].
Qed.
End unions.

(** ** Internal JSON *)

(** Induction on trees with the hypothesis for every member. *)
Section json_ind.
Context (P : json → Prop).
Context (HObject : ∀ l, Forall (λ kv, P kv.2) l → P (JObject l)) (HArray : ∀ l, Forall P l → P (JArray l)).
Context (HNumber : ∀ s, P (JNumber s)) (HString : ∀ s, P (JString s)) (HBool : ∀ b, P (JBool b)) (HNull : P JNull).

Fixpoint json_induction (j : json) : P j :=
  match j with
  | JObject l => HObject l ((fix go l : Forall (λ kv, P kv.2) l :=
      match l with [] => List.Forall_nil _ | kv :: l => List.Forall_cons _ kv l (json_induction kv.2) (go l) end) l)
  | JArray l => HArray l ((fix go l : Forall P l :=
      match l with [] => List.Forall_nil _ | x :: l => List.Forall_cons _ x l (json_induction x) (go l) end) l)
  | JNumber s => HNumber s
  | JString s => HString s
  | JBool b => HBool b
  | JNull => HNull
  end.
End json_ind.

(** The leaves of a tree in the order of the search, each with the names of the
    members above it; items of an array have the names of the array. *)
Fixpoint json_leaves (j : json) (keys : list string) : list (list string * json) :=
  match j with
  | JObject members => flat_map (λ kv, json_leaves kv.2 (keys ++ [kv.1])) members
  | JArray items => flat_map (λ item, json_leaves item keys) items
  | _ => [(keys, j)]
  end.

Section json.
Context `{GoRange, ProtoClone, DataWrite}.

Lemma until_error_app {A} (f : A → W unit) l1 l2 t :
  until_error f (l1 ++ l2) t = (_ ← until_error f l1; until_error f l2) t.
Proof.
  revert t. induction l1 as [|x l1 IH]; intros t; cbn [app until_error]; [done|].
  unfold mbind, W_bind. destruct (f x t) as [[t1 [err|[]]]| | |]; try done. apply IH.
Qed.

Lemma until_error_flat {A B} (f : A → W unit) (h : B → list A) (g : B → W unit) l t :
  Forall (λ x, ∀ t, g x t = until_error f (h x) t) l →
  until_error g l t = until_error f (flat_map h l) t.
Proof.
  intros Hg. revert t. induction Hg as [|x l Hx Hl IH]; intros t; [done|].
  cbn [flat_map]. rewrite until_error_app. cbn [until_error]. unfold mbind, W_bind. rewrite Hx.
  destruct (until_error f (h x) t) as [[t1 [err|[]]]| | |]; try done. apply IH.
Qed.

(** C35. The nested search over a JSON document is a flat loop over its leaves:
    unmarshalInternalJSON writes the leaves of the document one after the
    other, in the order of the document, each under the names of the members
    above it, and stops at the first one that cannot be written, leaving those
    before it in the tree. *)
Theorem unmarshalInternalJSON_leaves (mo : MO) (gpath : option Path) (j : json) (keys : list string) (t : goval) :
  unmarshalInternalJSON mo gpath j keys t =
  until_error (λ leaf, json_leaf mo gpath leaf.1 leaf.2) (json_leaves j keys) t.
Proof.
  revert keys t. induction j as [l IH|l IH|s|s|b|] using json_induction; intros keys t;
    cbn [unmarshalInternalJSON json_leaves];
    try (cbn [until_error]; unfold mbind, W_bind; destruct (json_leaf _ _ _ _ _) as [[t1 [err|[]]]| | |]; done).
  - apply until_error_flat. eapply Forall_impl; [exact IH|]. intros kv Hkv t'. apply Hkv.
  - apply until_error_flat. eapply Forall_impl; [exact IH|]. intros x Hx t'. apply Hx.
Qed.
End json.

(** ** Theorems *)
Section theorems.
Context `{GoRange, DataWrite}.
(** A directory is not a leaf-list. *)
Context (dir_not_leaf_list : ∀ s, IsDir s = true → IsLeafList s = false).

(** C16. Writing a text follows the walk that creates the nodes: for a path whose
    steps before the last lead through containers and lists, WriteStringValue
    makes the steps of GetOrCreateNode and then writes at the node they reach;
    whatever follows the name of a leaf, or of a leaf-list with a value, is
    ignored. *)
Theorem WriteStringValue_walk (mo : MO) (gpath : option Path) (value : string) (l : list PathElem) (e : PathElem)
    (rest : list PathElem) (s0 tS : EntryPtr) (pS : option EntryPtr) (parent leaf : node) (t t' : goval) :
  RootSchema mo = Ok (Some s0) → IsDir s0 = true → elems gpath = l ++ e :: rest →
  through_dirs l (Some s0) root_node t →
  GetOrCreateNode_loop (l ++ [e]) (Some s0) root_node (Some s0) root_node t = Ok (t', inr (pS, parent, Some tS, leaf)) →
  rest = [] ∨ (IsDir tS = false ∧ (IsLeafList tS = true → value ≠ "")) →
  MO_WriteStringValue mo gpath value t = write_at gpath pS parent tS leaf e value t'.
Proof using dir_not_leaf_list.
  intros Hs Hd Hl Hth Hgo Hrest. unfold MO_WriteStringValue, W_lift. rewrite Hs.
  unfold mbind, W_bind. cbn. unfold WriteStringValue. rewrite Hl.
  eapply WriteStringValue_loop_walk; eauto.
Qed.

(** A union takes the first member type that accepts the text: a write to a
    leaf of a union type succeeds exactly with the write of one member type, all
    those before it having refused the text; it fails only if every member type
    refuses it. *)
Theorem writeUnion_first (schema : option EntryPtr) (base : node) (full p : option Path) (types : list gotype)
    (value : string) (t t' : goval) (r : error + unit) :
  types ≠ [] → writeUnion schema base full p (Some <$> types) value None t = Ok (t', r) →
  match r with
  | inr _ => ∃ l1 ty l2 t1, types = l1 ++ ty :: l2 ∧ refused schema base p value l1 t t1 ∧
               writeLeaf schema base p (Some ty) value t1 = Ok (t', inr ())
  | inl _ => refused schema base p value types t t'
  end.
Proof.
  intros Hne Hr. apply writeUnion_cases in Hr as [(l1 & ty & l2 & t1 & ? & ? & ? & ->)|[Hl Hr]]; [by exists l1, ty, l2, t1|].
  destruct r; [done|]. by destruct Hr as [? _].
Qed.

(** GetOrCreateNode returns the last two nodes of the walk: the parent is
    the node all but the last step lead to, the target is one step below it; the
    paths they are given make up the requested path, and that of the target has
    one element. *)
Theorem GetOrCreateNode_split (mo : MO) (gpath : option Path) (parent target : TreeNode) (t t' : goval) :
  elems gpath ≠ [] → GetOrCreateNode mo gpath t = Ok (t', inr (parent, target)) →
  ∃ l e s t1, elems gpath = l ++ [e] ∧ RootSchema mo = Ok s ∧
    elems (Some (tn_Path parent)) = l ∧ elems (Some (tn_Path target)) = [e] ∧
    walk l s root_node t = Ok (t1, inr (tn_Data parent, tn_Schema parent)) ∧
    step (tn_Schema parent) (tn_Data parent) e t1 = Ok (t', inr (tn_Data target, tn_Schema target)).
Proof.
  intros Hne Hgo. unfold GetOrCreateNode, GetSchema in Hgo. apply W_bind_inv in Hgo as (t0 & s & Hs & Hgo).
  unfold W_lift in Hs. destruct (RootSchema mo) as [s'| | |]; try discriminate Hs. injection Hs as <- <-.
  destruct (exists_last Hne) as (l & e & Hl). destruct (elems gpath) as [|x xs]; [done|]. rewrite Hl in Hgo |- *.
  apply W_bind_inv in Hgo as (t2 & [[[pS par] tS] lf] & Hloop & Hgo). cbn in Hgo. injection Hgo as -> <- <-.
  apply GetOrCreateNode_loop_walk in Hloop as (t1 & Hw & Hstep).
  rewrite length_app, Nat.add_sub, take_app_length, drop_app_length.
  exists l, e, s', t1. by split_and!.
Qed.

(** C36. A JSON document for a leaf is written as a text: WriteTypedValue with a
    JSON_IETF document at a leaf or a leaf-list that is not of type empty walks
    to the node and writes the text Go prints for the decoded document there, so
    that an array becomes one entry in brackets, and a document that does not
    parse becomes the text <nil>. *)
Theorem WriteTypedValue_json_ietf `{ProtoClone} (json_Unmarshal : string → error + json) (mo : MO)
    (gpath : option Path) (tv : typedValue) (j : string) (l : list PathElem) (e : PathElem)
    (s pS tS : EntryPtr) (parent leaf leaf' : node) (kind : TypeKind) (members : list YangType) (t t1 t2 t3 : goval) :
  GetJsonVal tv = None → GetJsonIetfVal tv = Some j →
  RootSchema mo = Ok (Some s) → elems gpath = l ++ [e] →
  walk l (Some s) root_node t = Ok (t1, inr (parent, Some pS)) → IsDir pS = true →
  step (Some pS) parent e t1 = Ok (t2, inr (leaf, Some tS)) →
  step (Some pS) parent e t2 = Ok (t3, inr (leaf', Some tS)) →
  IsDir tS = false → entry_Type tS = Some (mkYangType kind members) → kind ≠ Yempty →
  WriteTypedValue json_Unmarshal mo gpath tv t =
    write_at (Some (names_of [e])) (Some pS) parent tS leaf' e
      (match json_Unmarshal j with
       | inr (JArray items) => "[" +:+ GoStrings.Join (Sprint <$> items) " " +:+ "]"
       | inr doc => Sprint doc
       | inl _ => "<nil>"
       end) t3.
Proof using dir_not_leaf_list.
  intros Hj Hi Hroot Hl Hw Hpd Hs1 Hs2 Htd Hty Hkind.
  assert (GetOrCreateNode mo gpath t = Ok (t2, inr (mkTreeNode (Some pS) parent (names_of l),
                                                 mkTreeNode (Some tS) leaf (names_of [e])))) as Hgo.
  { unfold GetOrCreateNode, GetSchema. rewrite (W_bind_ok _ _ t t (Some s)) by (unfold W_lift; by rewrite Hroot).
    rewrite Hl. destruct (l ++ [e]) as [|x xs] eqn:Hle; [by destruct l|]. rewrite <-Hle.
    rewrite (W_bind_ok _ _ _ _ _ (walk_GetOrCreateNode_loop l e (Some s) root_node (Some s) root_node t t1 t2 _ _ _ _ Hw Hs1)).
    cbn beta iota.
    rewrite length_app, Nat.add_sub, take_app_length, drop_app_length. done. }
  unfold WriteTypedValue. rewrite (W_bind_ok _ _ _ _ _ Hgo). cbn [tn_Schema schema_of]. rewrite W_ret_bind, Htd, Hty.
  unfold write_leaf_value. rewrite Hj, Hi. cbn [tn_Schema tn_Data tn_Path].
  assert (∀ v, WriteStringValue (Some pS) parent (Some (names_of [e])) v t2 =
    write_at (Some (names_of [e])) (Some pS) parent tS leaf' e v t3) as Hws.
  { intros v. unfold WriteStringValue. cbn [elems names_of p_Elem].
    eapply (WriteStringValue_loop_walk _ v [] e [] (Some pS) parent None root_node); [done|done|by apply dir_not_leaf_list|done|done| |by left].
    cbn [app GetOrCreateNode_loop]. by rewrite (W_bind_ok _ _ _ _ _ Hs2). }
  destruct kind; try done; rewrite Hws; by destruct (json_Unmarshal j) as [|[]].
Qed.
End theorems.

(** ** An example tree

    The leaves of a device by the text of their path; a leaf [count] takes
    digits, [mode] is a union of a number and a text, [tags] is a leaf-list. *)
Definition store (t : goval) : list (string * option string * goval) :=
  match t with VPtr _ (Some (VStruct _ fields)) => fields | _ => [] end.
Definition device (fields : list (string * option string * goval)) : goval :=
  VPtr (Some "Device") (Some (VStruct "Device" fields)).

Definition all_digits (s : string) : bool :=
  negb (bool_decide (s = "")) && forallb (λ c, (48 <=? Ascii.nat_of_ascii c) && (Ascii.nat_of_ascii c <=? 57)) (String.list_ascii_of_string s).

Definition example_field (n : list string) : string := GoStrings.Join n "/".

Definition example_write : DataWrite := {|
  node := list string;
  rvalue := string;
  typedValue := option string * option string * string;
  root_node := [];
  node_type := λ t n, match last n with
                      | Some "count" => Some (TPtr (TBasic "uint16"))
                      | Some "tags" => Some (TSlice (TBasic "string"))
                      | _ => Some (TBasic "string")
                      end;
  node_GoStruct := λ t n, true;
  ytypes_GetOrCreateNode := λ t s n p,
    match s, p_Elem p with
    | Some s, Some [e] =>
        match ptr_Dir s (pe_Name e) with
        | Some s' => (t, inr (n ++ [pe_Name e], Some s'))
        | None => (t, inl (Errorf_plain "no match found" []))
        end
    | _, _ => (t, inl (Errorf_plain "no match found" []))
    end;
  ytypes_SetNode := λ t s n p v,
    let f := example_field (n ++ (pe_Name <$> elems p)) in
    (device ((f, None, VScalar v.2) :: base.filter (λ x, x.1.1 ≠ f) (store t)), None);
  ytypes_GetNode := λ t s n p, inr [n ++ (pe_Name <$> elems p)];
  ytypes_DeleteNode := λ t s n p,
    let f := example_field (n ++ (pe_Name <$> elems p)) in
    (device (base.filter (λ x, x.1.1 ≠ f) (store t)), None);
  StringToType := λ ty v,
    match ty with
    | TBasic "string" => inr v
    | _ => if all_digits v then inr v else inl (Errorf_plain "cannot convert" [])
    end;
  ValScalarNew := λ ty v, inl (Errorf_plain "not supported" []);
  ValSliceNew := λ ty, inr "";
  ValSliceAppend := λ l v, inr (l +:+ v +:+ ";");
  ygot_EncodeTypedValue := λ v, inr (None, None, v);
  node_Set := λ t n v, None;
  ValChildSet := λ t n name v,
    let f := example_field (n ++ [name]) in
    (device ((f, None, VScalar v) :: base.filter (λ x, x.1.1 ≠ f) (store t)), None);
  value_bool := λ b, if b then "true" else "false";
  value_string := λ s, s;
  Unmarshal := λ t n j, (t, None);
  GetJsonVal := λ v, v.1.1;
  GetJsonIetfVal := λ v, v.1.2;
  GetBoolVal := λ v, false;
  NewEmptyRoot := device [];
  entry_Find := ptr_Dir;
  IsList := λ e, negb (bool_decide (e_Key (ep_node e) = ""));
  IsDir := λ e, negb (bool_decide (e_Dir (ep_node e) = []));
  IsLeafList := λ e, bool_decide (e_Dir (ep_node e) = []) && bool_decide (e_Name (ep_node e) = "tags");
  entry_Type := λ e, Some (if bool_decide (e_Name (ep_node e) = "mode")
                           then mkYangType Yunion [mkYangType Yuint16 []; mkYangType Ystring []]
                           else mkYangType Ystring [])
|}.

Definition example_write_entry : Entry :=
  mkEntry "device" "" [("system", mkEntry "system" ""
    [("count", mkEntry "count" "" []); ("mode", mkEntry "mode" "" []); ("tags", mkEntry "tags" "" [])])].
Definition example_write_mo : MO :=
  mkMO {["Device" := mkPtr example_write_entry []]} (Some (TPtr (TStruct "Device" []))).
Definition example_names (l : list string) : option Path := Some (mkPath "" None (Some ((λ n, mkElem n None) <$> l)) "").
Definition example_written (path : list string) (value : string) : outcome error (goval * (error + unit)) :=
  @MO_WriteStringValue canonical_range example_write example_write_mo (example_names path) value (device []).

Lemma example_dir_not_leaf_list s : @IsDir example_write s = true → @IsLeafList example_write s = false.
Proof. cbn. by destruct (bool_decide (e_Dir (ep_node s) = [])). Qed.

Definition example_root_ptr : EntryPtr := mkPtr example_write_entry [].
Definition example_ptr (l : list string) : EntryPtr :=
  default example_root_ptr (findSchema example_root_ptr ((λ n, mkElem n None) <$> l)).

(** The name after the leaf is ignored. *)
Lemma WriteStringValue_walk_witness :
  example_written ["system"; "count"; "more"] "12" = Ok (device [("system/count", None, VScalar "12")], inr tt).
Proof.
  unfold example_written.
  rewrite (@WriteStringValue_walk canonical_range example_write example_dir_not_leaf_list example_write_mo
    (example_names ["system"; "count"; "more"]) "12" [mkElem "system" None] (mkElem "count" None) [mkElem "more" None]
    example_root_ptr (example_ptr ["system"; "count"]) (Some (example_ptr ["system"])) ["system"] ["system"; "count"]
    (device []) (device [])).
  - by_vm.
  - reflexivity.
  - reflexivity.
  - reflexivity.
  - exists (device []), ["system"], (example_ptr ["system"]). split; [reflexivity|]. split; [reflexivity|exact I].
  - reflexivity.
  - right. split; [reflexivity|discriminate].
Defined.

Lemma writeUnion_first_witness :
  ∃ l1 ty l2 t1, [TBasic "uint16"; TBasic "string"] = l1 ++ ty :: l2 ∧
    @refused canonical_range example_write (Some (example_ptr ["system"])) ["system"] (example_names ["mode"]) "auto" l1 (device []) t1 ∧
    @writeLeaf canonical_range example_write (Some (example_ptr ["system"])) ["system"] (example_names ["mode"]) (Some ty) "auto" t1 =
      Ok (device [("system/mode", None, VScalar "auto")], inr tt).
Proof.
  apply (@writeUnion_first canonical_range example_write (Some (example_ptr ["system"])) ["system"]
    (example_names ["system"; "mode"]) (example_names ["mode"]) [TBasic "uint16"; TBasic "string"] "auto" (device [])
    (device [("system/mode", None, VScalar "auto")]) (inr tt)); [discriminate|by_vm].
Defined.

Lemma GetOrCreateNode_split_witness :
  ∃ l e s t1, [mkElem "system" None; mkElem "count" None] = l ++ [e] ∧ RootSchema example_write_mo = Ok s ∧
    @walk example_write l s [] (device []) = Ok (t1, inr (["system"], Some (example_ptr ["system"]))).
Proof.
  destruct (@GetOrCreateNode_split example_write example_write_mo (example_names ["system"; "count"])
    (@mkTreeNode example_write (Some (example_ptr ["system"])) ["system"] (names_of [mkElem "system" None]))
    (@mkTreeNode example_write (Some (example_ptr ["system"; "count"])) ["system"; "count"] (names_of [mkElem "count" None]))
    (device []) (device [])) as (l & e & s & t1 & Hl & Hs & _ & _ & Hw & _); [discriminate|by_vm|].
  exists l, e, s, t1. split; [exact Hl|]. split; [exact Hs|exact Hw].
Defined.

(** An array for a leaf-list is stored as one entry. *)
Definition example_Unmarshal (j : string) : error + json :=
  if bool_decide (j = "[a,b]") then inr (JArray [JString "a"; JString "b"]) else inl (Errorf_plain "invalid" []).

Lemma WriteTypedValue_json_ietf_witness :
  @WriteTypedValue canonical_range identity_clone example_write example_Unmarshal example_write_mo
    (example_names ["system"; "tags"]) (None, Some "[a,b]", "") (device []) =
  Ok (device [("system/tags", None, VScalar "[a b];")], inr tt).
Proof.
  rewrite (@WriteTypedValue_json_ietf canonical_range example_write example_dir_not_leaf_list identity_clone
    example_Unmarshal example_write_mo (example_names ["system"; "tags"]) (None, Some "[a,b]", "") "[a,b]"
    [mkElem "system" None] (mkElem "tags" None) example_root_ptr (example_ptr ["system"]) (example_ptr ["system"; "tags"])
    ["system"] ["system"; "tags"] ["system"; "tags"] Ystring [] (device []) (device []) (device []) (device [])).
  all: first [reflexivity | discriminate | by_vm].
Defined.

Lemma float_text_million : float_text 1000000 = "1e+06".
Proof. reflexivity. Qed.
