(* ===== verification/SetDataSpec.v ===== *)
(** * SetDataSpec: the Set transaction on the data tree

    What the operations of a Set do to the tree of [SetData]: a path without
    wildcards addresses one node, the operations change that node with the calls
    of ygot and save its value, and every Set ends. *)

From Stdlib Require Import Ascii ZArith Lia.
From S2P Require Import SetTxnSpec.
From S2P Require Export DataSearchSpec WriteSpec SetData.

(** ** Paths without wildcards *)
Section plain.
Context `{GoRange, DataOps}.

(** An element that prints and parses as itself and names one child. *)
Definition plain_elem (e : PathElem) : Prop :=
  wf_pathelem e ∧ pe_Name e ≠ "*" ∧ pe_Name e ≠ "..." ∧ map_Forall (λ _ v, v ≠ "*") (keys e).

Lemma elem_key_text e : map_Forall (λ _ v, v ≠ "*") (keys e) → elem_key e = elem_text e.
Proof.
  intros Hk. unfold elem_key. rewrite elem_text_shape.
  assert (∀ kvs n ke, Forall (λ kv, kv.2 ≠ "*") kvs →
    Join (elem_key_loop (pe_Name e) (n :: ke) kvs) "" = Join (n :: ke) "" +:+ kvs_text kvs) as Hloop.
  { induction kvs as [|[k v] kvs IH]; intros n ke Hall; cbn [elem_key_loop].
    - unfold kvs_text. cbn [foldr]. by rewrite app_nil_r.
    - apply Forall_cons in Hall as [Hv Hall]. rewrite bool_decide_eq_false_2 by done.
      cbn [app]. rewrite IH by done. rewrite !Join_empty_sep. unfold kvs_text, kv_text. cbn [foldr fst snd].
      rewrite !app_assoc. f_equal.
      clear. induction ke as [|x ke IH]; cbn [app foldr]; [by rewrite !app_nil_l, ?app_assoc|].
      rewrite ?app_assoc. f_equal. rewrite IH. by rewrite ?app_assoc. }
  rewrite Hloop; [done|]. apply Forall_forall. intros [k v] Hin%elem_of_go_range. by apply Hk in Hin.
Qed.

(** The value the elements lead to, through nodes that are no lists. *)
Fixpoint value_at (l : list PathElem) (v : goval) : option goval :=
  match l with
  | [] => Some v
  | e :: l =>
      if IsValScalar v then None
      else
        match ValFind v (elem_key e) with
        | Some cv => if is_valid cv then value_at l cv else None
        | None => None
        end
  end.

(** No element is the name of a whole list. *)
Fixpoint no_list (l : list PathElem) (v : goval) : Prop :=
  match l with
  | [] => True
  | e :: l => ∀ cv, IsValScalar v = false → ValFind v (elem_key e) = Some cv → IsValMap cv = false ∧ no_list l cv
  end.

Lemma select_value_at l c :
  Forall plain_elem l → no_list l (c_Value c) →
  select l c = match value_at l (c_Value c) with
               | Some v => [mkCell v (c_Key c ++ (elem_text <$> l))]
               | None => []
               end.
Proof.
  intros Hl. revert c. induction Hl as [|e l (_ & Hs & Hd & Hk) Hl IH]; intros c Hno.
  { cbn. rewrite List.app_nil_r. by destruct c. }
  cbn [select value_at no_list] in *. destruct (IsValScalar (c_Value c)); [done|].
  rewrite bool_decide_eq_false_2 by done. unfold named_cells.
  destruct (ValFind (c_Value c) (elem_key e)) as [cv|]; [|done]. destruct (Hno cv) as [Hm Hno']; [done..|].
  destruct (is_valid cv); cbn [negb]; [|done]. rewrite Hm. cbn [mbind list_bind]. rewrite List.app_nil_r.
  rewrite IH by done. cbn [c_Value c_Key]. rewrite (elem_key_text e Hk), <-(assoc_L (++)). done.
Qed.

Lemma plain_no_dots l : Forall plain_elem l → no_dots l.
Proof. intros Hl. eapply Forall_impl; [exact Hl|]. by intros e (_ & _ & ? & _). Qed.
End plain.

Section tree.
Context `{GoRange, ProtoClone, DataOps, GoSort, DataWrite} (json_Unmarshal : string → error + json) (mo : MO).
Context (value_of : goval → rvalue) (node_Interface : goval → node → goval) (entry_ReadOnly : EntryPtr → bool).
Context {typed : Type} (IsTypeScalar : option goval → bool) (EncodeTypedValue : goval → error + typed)
        (field_text : typed → option string).
#[local] Instance the_tree : DataStore goval goval typedValue :=
  tree_store json_Unmarshal mo value_of node_Interface entry_ReadOnly IsTypeScalar EncodeTypedValue field_text.
Implicit Types (m : Model goval goval).

(** The root and its schema, and a path that names one node of it at most. *)
Definition one_node (full : Path) (root : goval) : Prop :=
  elems (Some full) ≠ [] ∧ Forall plain_elem (elems (Some full)) ∧ no_list (elems (Some full)) root ∧
  (∃ e, FindSchemaByType mo (type_of root) = Some e ∧ check_elems (ep_node e) (elems (Some full)) = true) ∧
  ∀ v, value_at (elems (Some full)) root = Some v → CanInterface v = true.

(** The path of the node, as the transaction parses it back from its text. *)
Definition node_path (full : Path) : Path := mkPath "" None (blocks_elem (elem_block <$> elems (Some full))) "".

Lemma node_path_parse full :
  Forall plain_elem (elems (Some full)) → ToGNMIPath (ToXPath (Some full)) = Ok (node_path full).
Proof. intros Hp. apply ToXPath_parse. eapply Forall_impl; [exact Hp|]. by intros e (? & _). Qed.

Lemma node_path_elems full : elems (Some (node_path full)) ≡ elems (Some full).
Proof.
  unfold node_path. change (elems (Some (mkPath _ _ ?l _))) with (default [] l). rewrite blocks_elem_default.
  induction (elems (Some full)) as [|e l IH]; [done|]. cbn. constructor; [apply elem_block_equiv|exact IH].
Qed.

Lemma Get_one_node full root :
  one_node full root →
  SetTxn.Get root (Some full) =
    Ok (match value_at (elems (Some full)) root with
        | Some v => ([SetTxn.mkData v (ToXPath (Some full))], true)
        | None => ([], false)
        end).
Proof.
  intros (Hne & Hp & Hno & (e & He & Hcheck) & Hi). cbn [SetTxn.Get the_tree tree_store]. unfold tree_Get, Get.
  pose proof (find_fuel_enough root (Some full)) as Hfuel.
  rewrite (Find_no_dots mo root full e) by (done || (by apply plain_no_dots) || lia).
  rewrite outcome_bind_ret, select_value_at by done. cbn [c_Value c_Key].
  destruct (value_at _ root) as [v|]; [|done]. cbn [results mbind list_bind c_Value c_Key].
  rewrite Hi by done. cbn [app map found_data]. unfold found_data. cbn [dp_Value dp_Path].
  unfold ToXPath. by destruct (elems (Some full)).
Qed.

(** The end of an operation on a node: its backup, with the value [old] found
    before, stays; a failure is reported, otherwise the external system is told. *)
Definition changed_node (op : operation) (format text : string) (p : option Path) (old : option goval) m
    (res : goval * option error) : outcome error (Model goval goval * option error) :=
  let m' := set_root res.1 (addBackupEntry op text p old m) in
  match res.2 with
  | Some err => Ok (m', Some (operation_error format text err))
  | None => finish_target p old m'
  end.

(** One target: it is refused, or saved and changed. *)
Lemma set_targets_one optype format change v full m :
  Forall plain_elem (elems (Some full)) →
  set_targets optype format change [SetTxn.mkData v (ToXPath (Some full))] m =
  if tree_ReadOnly mo entry_ReadOnly (Some (node_path full))
  then Ok (m, Some (read_only_error (ToXPath (Some full))))
  else res ← change (Some (node_path full)) (m_root m);
       changed_node optype format (ToXPath (Some full)) (Some (node_path full)) (Some v) m res.
Proof.
  intros Hp. cbn [set_targets dap_Path dap_Value]. rewrite node_path_parse by done.
  cbn [SetTxn.ReadOnly the_tree tree_store].
  destruct (tree_ReadOnly _ _ _); [done|]. cbn [m_root addBackupEntry set_setBackup].
  destruct (change _ _) as [[r [err|]]| | |]; try done. rewrite !outcome_bind_ret. unfold changed_node. cbn [fst snd].
  by destruct (finish_target _ _ _) as [[m' [err|]]| | |].
Qed.

Lemma set_new_one optype format w full m :
  set_new optype format (Some full) w m =
  if tree_ReadOnly mo entry_ReadOnly (Some full) then Ok (m, Some (read_only_error (ToXPath (Some full))))
  else res ← run_W (WriteTypedValue json_Unmarshal mo (Some full) w) (m_root m);
       changed_node optype format (ToXPath (Some full)) (Some full) None m res.
Proof.
  unfold set_new. cbn [SetTxn.ReadOnly SetTxn.WriteTypedValue the_tree tree_store].
  destruct (tree_ReadOnly _ _ _); [done|]. cbn [m_root addBackupEntry set_setBackup].
  by destruct (run_W _ _) as [[r [err|]]| | |].
Qed.

End tree.

(** ** Every Set ends

    Fuel is only used by the searches, and they have enough of it. *)
Definition ends {E A} (r : outcome E A) : Prop := r ≠ Diverge.

Lemma ends_bind {E A B} (r : outcome E A) (k : A → outcome E B) : ends r → (∀ a, ends (k a)) → ends (r ≫= k).
Proof. destruct r; unfold ends; naive_solver. Qed.

Lemma ends_returns {E A} (r : outcome E A) : returns r → ends r.
Proof. by destruct r. Qed.

Definition W_ends {A} (w : W A) : Prop := ∀ t, ends (w t).

Lemma W_ends_bind {A B} (w : W A) (k : A → W B) : W_ends w → (∀ a, W_ends (k a)) → W_ends (w ≫= k).
Proof. intros Hw Hk t. apply ends_bind; [apply Hw|]. intros [t' [err|a]]; [done|apply Hk]. Qed.

Lemma W_ends_ytypes {A} (w : W A) : W_ends w → W_ends (W_ytypes w).
Proof.
  intros Hw t. apply ends_bind; [apply Hw|]. intros [t' [err|a]]; [|done]. by destruct (FromError (Some err)).
Qed.

Lemma W_ends_lift {A} (o : outcome error A) : ends o → W_ends (W_lift o).
Proof. intros Ho t. by destruct o. Qed.

Lemma W_ends_call_err (f : goval → goval * option error) : W_ends (W_call_err f).
Proof. intros t. unfold W_call_err. by destruct (f t). Qed.

Create HintDb ends.
#[local] Hint Resolve W_ends_bind W_ends_ytypes W_ends_lift W_ends_call_err : ends.

Section ends.
Context `{GoRange, ProtoClone, DataOps, GoSort, DataWrite} (json_Unmarshal : string → error + json) (mo : MO).

Lemma RootSchema_ends : ends (RootSchema mo).
Proof. unfold RootSchema, GetRootType. destruct (Root mo) as [[]|]; discriminate. Qed.
Lemma type_Elem_ends t : ends (type_Elem t).
Proof. by destruct t. Qed.
Lemma GNMIFullPath_ends prefix path : ends (GNMIFullPath prefix path).
Proof.
  unfold GNMIFullPath. destruct prefix as [pre|], path as [p|]; try discriminate.
  destruct (GetElem (Some p)) as [l|]; [|discriminate]. apply ends_bind; [|intros []; discriminate].
  destruct (mergePaths_loop_cases (elems (Some pre)) l) as [[Hp _]|(l' & Hl & _)]; unfold mergePaths;
    [by rewrite Hp|by rewrite Hl].
Qed.
#[local] Hint Resolve RootSchema_ends type_Elem_ends GNMIFullPath_ends : ends.

(** *** Writes *)
Lemma text_value_ends t t' v : W_ends (text_value t t' v).
Proof. unfold text_value. destruct (StringToType t v); [destruct (ValScalarNew t' v)|]; intros ?; discriminate. Qed.
#[local] Hint Resolve text_value_ends : ends.

Lemma W_ends_try {A} (r : error + A) : W_ends (W_try r).
Proof. intros t; discriminate. Qed.
Lemma W_ends_ret {A} (a : A) : W_ends (mret a).
Proof. intros t; discriminate. Qed.
Lemma W_ends_fail {A} err : W_ends (W_fail (A:=A) err).
Proof. intros t; discriminate. Qed.
Lemma W_ends_read {A} (f : goval → A) : W_ends (W_read f).
Proof. intros t; discriminate. Qed.
Lemma W_ends_call {A} (f : goval → goval * (error + A)) : W_ends (W_call f).
Proof. intros t; discriminate. Qed.
Lemma W_ends_panic {A} : W_ends (W_panic (A:=A)).
Proof. intros t; discriminate. Qed.
Lemma W_ends_schema s : W_ends (schema_of s).
Proof. destruct s; intros t; discriminate. Qed.
#[local] Hint Resolve W_ends_try W_ends_ret W_ends_fail W_ends_read W_ends_call W_ends_panic W_ends_schema : ends.
#[local] Hint Extern 2 (W_ends (match ?x with _ => _ end)) => destruct x : ends.
#[local] Hint Extern 2 (ends (match ?x with _ => _ end)) => destruct x : ends.

Lemma writeLeaf_ends schema base p t v : W_ends (writeLeaf schema base p t v).
Proof. unfold writeLeaf. auto 20 with ends. Qed.
Lemma writeLeafList_ends schema base p t v : W_ends (writeLeafList schema base p t v).
Proof. unfold writeLeafList. auto 20 with ends. Qed.
#[local] Hint Resolve writeLeaf_ends writeLeafList_ends : ends.

Lemma writeUnion_ends schema base full p types value err : W_ends (writeUnion schema base full p types value err).
Proof.
  revert err. induction types as [|[t|] types IH]; intros err; cbn [writeUnion]; [auto with ends| |auto with ends].
  intros tree. apply ends_bind; [apply writeLeaf_ends|]. intros [tree' [err'|[]]]; [apply IH|discriminate].
Qed.
Lemma asserting_ends p w : W_ends w → W_ends (asserting p w).
Proof. intros Hw t. unfold asserting. destruct (node_GoStruct t p); [apply Hw|discriminate]. Qed.
#[local] Hint Resolve writeUnion_ends asserting_ends : ends.

Lemma write_leaf_node_ends pschema pvalue gpath p s v value : W_ends (write_leaf_node pschema pvalue gpath p s v value).
Proof.
  unfold write_leaf_node. destruct (entry_Type s) as [[k members]|]; [|auto 10 with ends].
  destruct k; try (destruct (baseType _) as [|[t|] types]); auto 10 with ends.
Qed.
#[local] Hint Resolve write_leaf_node_ends : ends.

Lemma WriteStringValue_loop_ends gpath value pschema pvalue schema v p l :
  W_ends (WriteStringValue_loop gpath value pschema pvalue schema v p l).
Proof.
  revert pschema pvalue schema v p. induction l as [|e l IH]; intros pschema pvalue schema v p;
    cbn [WriteStringValue_loop]; auto 20 with ends.
Qed.
Lemma WriteStringValue_ends pschema pvalue gpath value : W_ends (WriteStringValue pschema pvalue gpath value).
Proof. apply WriteStringValue_loop_ends. Qed.
#[local] Hint Resolve WriteStringValue_ends : ends.
Lemma MO_WriteStringValue_ends gpath value : W_ends (MO_WriteStringValue mo gpath value).
Proof. unfold MO_WriteStringValue. auto with ends. Qed.
#[local] Hint Resolve MO_WriteStringValue_ends : ends.

Lemma GetOrCreateNode_ends gpath : W_ends (GetOrCreateNode mo gpath).
Proof.
  assert (∀ l pS par tS leaf, W_ends (GetOrCreateNode_loop l pS par tS leaf)) as Hloop.
  { induction l as [|e l IH]; intros; cbn [GetOrCreateNode_loop]; auto 10 with ends. }
  unfold GetOrCreateNode, GetSchema. auto 20 with ends.
Qed.
#[local] Hint Resolve GetOrCreateNode_ends : ends.

Lemma json_path_ends gpath done schema names : W_ends (json_path gpath done schema names).
Proof.
  assert (∀ n names, length names ≤ n → ∀ done schema, W_ends (json_path gpath done schema names)) as Hn; [|by eapply Hn].
  clear. induction n as [|n IH]; intros [|key names] Hlen done schema; cbn [json_path]; cbn [length] in Hlen; try lia;
    auto with ends.
  apply W_ends_bind; [auto with ends|]. intros s. destruct (entry_Find s key) as [s'|]; [|auto with ends].
  destruct (IsList s').
  - destruct names as [|kval names]; [auto with ends|]. cbn [length] in Hlen. destruct (negb _); [auto with ends|].
    apply W_ends_bind; [apply IH; lia|auto with ends].
  - apply W_ends_bind; [apply IH; lia|auto with ends].
Qed.
#[local] Hint Resolve json_path_ends : ends.

Lemma json_leaf_ends gpath keys j : W_ends (json_leaf mo gpath keys j).
Proof. unfold json_leaf. auto 20 with ends. Qed.
#[local] Hint Resolve json_leaf_ends : ends.

Lemma until_error_ends {A} (f : A → W unit) l : (∀ x, x ∈ l → W_ends (f x)) → W_ends (until_error f l).
Proof.
  induction l as [|x l IH]; intros Hf; cbn [until_error]; [auto with ends|].
  apply W_ends_bind; [apply Hf; by left|]. intros _. apply IH. intros y Hy. apply Hf. by right.
Qed.

Lemma unmarshalInternalJSON_ends gpath j keys : W_ends (unmarshalInternalJSON mo gpath j keys).
Proof.
  revert keys. induction j as [l IH|l IH|s|s|b|] using json_induction; intros keys; cbn [unmarshalInternalJSON];
    auto with ends; apply until_error_ends; intros x Hx; eapply Forall_forall in IH; eauto.
Qed.
#[local] Hint Resolve unmarshalInternalJSON_ends : ends.

Lemma UnmarshalInternalJSON_ends gpath j : W_ends (UnmarshalInternalJSON json_Unmarshal mo gpath j).
Proof. unfold UnmarshalInternalJSON. auto 10 with ends. Qed.
#[local] Hint Resolve UnmarshalInternalJSON_ends : ends.

Lemma WriteTypedValue_ends gpath tv : W_ends (WriteTypedValue json_Unmarshal mo gpath tv).
Proof.
  unfold WriteTypedValue, write_dir, write_leaf_value, GetSchema. apply W_ends_bind; [auto with ends|]. intros [parent target].
  apply W_ends_bind; [auto with ends|]. intros s. destruct (IsDir s); [auto 10 with ends|].
  destruct (entry_Type s) as [[[] members]|]; auto 20 with ends.
Qed.

Lemma set_node_ends s n v : W_ends (set_node s n v).
Proof. intros t. unfold set_node. by destruct (node_Set t n v). Qed.
#[local] Hint Resolve set_node_ends : ends.

Lemma WriteValue_ends gpath v : W_ends (WriteValue mo gpath v).
Proof. unfold WriteValue. auto 20 with ends. Qed.

Lemma run_W_ends (w : W unit) t : W_ends w → ends (run_W w t).
Proof. intros Hw. apply ends_bind; [apply Hw|]. intros []; discriminate. Qed.

Lemma DeleteValue_ends root gpath : ends (DeleteValue mo root gpath).
Proof.
  unfold DeleteValue, GetSchema. apply ends_bind; [auto with ends|]. intros schema. apply ends_bind.
  { destruct schema; [discriminate|]. by case_bool_decide. }
  intros [t|]; [|discriminate]. destruct (ptr_Parent t) as [p|]; [|discriminate]. destruct (last _); [|discriminate].
  by destruct (Contains _ _).
Qed.
End ends.

(** *** The transaction *)
Section set_ends.
Context `{GoRange, ProtoClone} {root value typed : Type} `{DataStore root value typed}.
Implicit Types (m : Model root value).

(** No operation of the tree runs for ever. *)
Record store_ends : Prop := {
  se_NewEmptyRoot r : ends (SetTxn.NewEmptyRoot r);
  se_Get r p : ends (SetTxn.Get r p);
  se_FindValue r p : ends (SetTxn.FindValue r p);
  se_DeleteValue r p : ends (SetTxn.DeleteValue r p);
  se_WriteValue r p v : ends (SetTxn.WriteValue r p v);
  se_WriteTypedValue r p w : ends (SetTxn.WriteTypedValue r p w);
  se_DeleteNode r p : ends (SetTxn.DeleteNode r p);
  se_ListAll_value r v p : ends (ListAll_value r v p);
  se_ListAll r p : ends (SetTxn.ListAll r p)
}.
Context (Hs : store_ends).

Lemma executeStateConfig_ends p old m : ends (executeStateConfig p old m).
Proof using Hs.
  unfold executeStateConfig. destruct (m_StateConfig m); [|discriminate].
  apply ends_bind; [apply Hs|]. intros curlist. apply ends_bind; [apply Hs|]. discriminate.
Qed.

Lemma finish_target_ends p old m : ends (finish_target p old m).
Proof using Hs. apply ends_bind; [apply executeStateConfig_ends|]. intros [? ?]; discriminate. Qed.

Lemma set_targets_ends optype format change targets m :
  (∀ p r, ends (change p r)) → ends (set_targets optype format change targets m).
Proof using Hs.
  intros Hch. revert m. induction targets as [|t targets IH]; intros m; cbn [set_targets]; [discriminate|].
  pose proof (ToGNMIPath_returns (dap_Path t)) as Ht. destruct (ToGNMIPath (dap_Path t)) as [q|e| |]; try done.
  destruct (ReadOnly (Some q)); [done|]. apply ends_bind; [apply Hch|]. intros [r [err|]]; [done|].
  apply ends_bind; [apply finish_target_ends|]. intros [m' [err|]]; [done|apply IH].
Qed.

Lemma set_new_ends optype format p w m : ends (set_new optype format p w m).
Proof using Hs.
  unfold set_new. destruct (ReadOnly p); [done|]. apply ends_bind; [apply Hs|].
  intros [r [err|]]; [done|apply finish_target_ends].
Qed.

Lemma delete_change_ends p r : ends (delete_change p r).
Proof using Hs.
  unfold delete_change. destruct (_ =? 0); [|apply Hs]. apply ends_bind; [apply Hs|discriminate].
Qed.
Lemma replace_change_ends w p r : ends (replace_change w p r).
Proof using Hs. apply ends_bind; [apply Hs|]. intros [r' [err|]]; [discriminate|apply Hs]. Qed.

Lemma SetDelete_ends prefix path m : ends (SetDelete prefix path m).
Proof using Hs.
  apply ends_bind; [apply GNMIFullPath_ends|]. intros full. apply ends_bind; [apply Hs|]. intros [targets ok].
  apply set_targets_ends, delete_change_ends.
Qed.
Lemma SetReplace_ends prefix path w m : ends (SetReplace prefix path w m).
Proof using Hs.
  apply ends_bind; [apply GNMIFullPath_ends|]. intros full. apply ends_bind; [apply Hs|]. intros [targets []];
    [apply set_targets_ends, replace_change_ends|apply set_new_ends].
Qed.
Lemma SetUpdate_ends prefix path w m : ends (SetUpdate prefix path w m).
Proof using Hs.
  apply ends_bind; [apply GNMIFullPath_ends|]. intros full. apply ends_bind; [apply Hs|]. intros [targets []];
    [apply set_targets_ends; intros p r; apply Hs|apply set_new_ends].
Qed.

Lemma set_loop_ends {A} op (get_path : A → option Path) run (l : list A) m err result :
  (∀ a m, ends (run a m)) → ends (set_loop op get_path run l m err result).
Proof.
  intros Hrun. revert m err result. induction l as [|a l IH]; intros m [err|] result; cbn [set_loop]; try done.
  apply ends_bind; [apply Hrun|]. intros [m' err']. apply IH.
Qed.

Lemma restore_ends b (r : root) : ends (restore b r).
Proof using Hs. unfold restore. destruct (b_oldval b); apply Hs. Qed.

Lemma SetRollback_ends m : ends (SetRollback m).
Proof using Hs.
  assert (∀ l m, ends (SetRollback_loop l m)) as Hl; [|apply ends_bind; [apply Hl|discriminate]].
  induction l as [|b l IH]; intros m'; cbn [SetRollback_loop]; [discriminate|].
  apply ends_bind; [apply Hs|]. intros new. apply ends_bind; [apply restore_ends|]. intros [r [err|]]; [apply IH|].
  destruct (b_executed b); [|apply IH]. apply ends_bind; [apply executeStateConfig_ends|]. intros [m1 err1]. apply IH.
Qed.

Lemma SetDone_ends m : ends (SetDone m).
Proof using Hs.
  assert (∀ l m, ends (SetDone_loop l m)) as Hl.
  { induction l as [|b l IH]; intros m'; cbn [SetDone_loop]; [discriminate|].
    apply ends_bind; [apply restore_ends|]. intros [r err]. apply IH. }
  unfold SetDone. destruct (m_setBackup m); [discriminate|]. destruct (m_StateConfig m); [|discriminate].
  apply ends_bind; [apply Hl|discriminate].
Qed.

Lemma server_set_ends req m : ends (server_set req m).
Proof using Hs.
  apply ends_bind.
  { apply ends_bind; [apply set_loop_ends, SetDelete_ends|]. intros [[m1 err1] res1].
    apply ends_bind; [apply set_loop_ends; intros a m'; apply SetReplace_ends|]. intros [[m2 err2] res2].
    apply set_loop_ends. intros a m'. apply SetUpdate_ends. }
  intros [[m1 err1] res1]. apply ends_bind; [destruct err1; [apply SetRollback_ends|discriminate]|]. intros m2.
  apply ends_bind; [apply SetDone_ends|]. discriminate.
Qed.
End set_ends.

Section tree_ends.
Context `{GoRange, ProtoClone, DataOps, GoSort, DataWrite} (json_Unmarshal : string → error + json) (mo : MO).
Context (value_of : goval → rvalue) (node_Interface : goval → node → goval) (entry_ReadOnly : EntryPtr → bool).
Context {typed : Type} (IsTypeScalar : option goval → bool) (EncodeTypedValue : goval → error + typed)
        (field_text : typed → option string).

(** Every Set on a tree ends: where ydb.ValFind finds parts of the value it
    searches, the searches of the operations, of the differences sent and of the
    roll back all have enough fuel, whatever the request and the external
    system. *)
Theorem tree_set_ends (req : SetRequest typedValue) (m : Model goval goval) :
  finds_parts →
  tree_set json_Unmarshal mo value_of node_Interface entry_ReadOnly IsTypeScalar EncodeTypedValue field_text req m ≠ Diverge.
Proof.
  intros Hparts. unfold tree_set. apply server_set_ends.
  assert (∀ base p opts, ends (ListAll mo base p opts)) as Hlist.
  { intros base p opts. unfold ListAll. destruct p as [p|]; cbn zeta.
    - destruct (Find_total mo base (Some p) opts _ Hparts (find_fuel_enough _ _)) as (r & ok & ->).
      destruct (list_targets_total mo opts r [] Hparts) as (l & Hl). rewrite outcome_bind_ret, Hl. discriminate.
    - destruct (Find_total mo base (Some WildcardGNMIPathDot3) opts _ Hparts (find_fuel_enough _ _)) as (r & ok & ->).
      discriminate. }
  split; cbn [SetTxn.NewEmptyRoot SetTxn.Get SetTxn.FindValue SetTxn.DeleteValue SetTxn.WriteValue SetTxn.WriteTypedValue
              SetTxn.DeleteNode ListAll_value SetTxn.ListAll tree_store].
  - intros _. apply ends_bind; [|discriminate]. unfold GetRootType. destruct (Root mo) as [[]|]; discriminate.
  - intros r p. unfold tree_Get, Get.
    destruct (Find_total mo r p [] _ Hparts (find_fuel_enough _ _)) as (l & ok & ->). discriminate.
  - intros r p. apply ends_bind; [|discriminate]. apply ends_bind; [apply RootSchema_ends|discriminate].
  - apply DeleteValue_ends.
  - intros r p v. apply run_W_ends, WriteValue_ends.
  - intros r p w. apply run_W_ends, WriteTypedValue_ends.
  - intros r p. apply ends_bind; [apply RootSchema_ends|discriminate].
  - intros _ v p. apply ends_bind; [apply Hlist|discriminate].
  - intros r p. apply ends_bind; [apply Hlist|discriminate].
Qed.
End tree_ends.

(** ** An example tree of containers and leaves

    A node is the list of the names that lead to it; a struct has its fields by
    their names in the schema. *)
Definition nest (name : string) (fields : list (string * option string * goval)) : goval :=
  VPtr (Some name) (Some (VStruct name fields)).
Definition leaf_of (text : string) : goval := VPtr None (Some (VScalar text)).
Definition nest_fields (v : goval) : list (string * option string * goval) :=
  match v with VPtr _ (Some (VStruct _ fields)) => fields | _ => [] end.
Definition nest_child (v : goval) (name : string) : option goval :=
  snd <$> List.find (λ f, bool_decide (f.1.2 = Some name)) (nest_fields v).
Definition nest_drop (v : goval) (name : string) : list (string * option string * goval) :=
  base.filter (λ f, f.1.2 ≠ Some name) (nest_fields v).
Definition nest_name (v : goval) : string := match v with VPtr (Some n) _ => n | _ => "" end.

Fixpoint nest_put (path : list string) (new : goval) (v : goval) : goval :=
  match path with
  | [] => new
  | name :: path =>
      nest (nest_name v) (nest_drop v name ++ [(name, Some name, nest_put path new (default (nest name []) (nest_child v name)))])
  end.
Fixpoint nest_delete (path : list string) (v : goval) : goval :=
  match path with
  | [] => v
  | [name] => nest (nest_name v) (nest_drop v name)
  | name :: path =>
      match nest_child v name with
      | Some c => nest (nest_name v) (nest_drop v name ++ [(name, Some name, nest_delete path c)])
      | None => v
      end
  end.
Fixpoint nest_get (path : list string) (v : goval) : option goval :=
  match path with [] => Some v | name :: path => nest_child v name ≫= nest_get path end.

Definition nest_write : DataWrite := {|
  node := list string;
  rvalue := goval;
  typedValue := string;
  root_node := [];
  node_type := λ t n, Some (TPtr (TBasic "string"));
  node_GoStruct := λ t n, true;
  ytypes_GetOrCreateNode := λ t s n p,
    match s, p_Elem p with
    | Some s, Some [e] =>
        match ptr_Dir s (pe_Name e) with
        | Some s' =>
            (if bool_decide (e_Dir (ep_node s') = []) then t
             else match nest_get (n ++ [pe_Name e]) t with
                  | Some _ => t | None => nest_put (n ++ [pe_Name e]) (nest (pe_Name e) []) t end,
             inr (n ++ [pe_Name e], Some s'))
        | None => (t, inl (Errorf_plain "no match found" []))
        end
    | _, _ => (t, inl (Errorf_plain "no match found" []))
    end;
  ytypes_SetNode := λ t s n p v, (nest_put (n ++ (pe_Name <$> elems p)) (leaf_of v) t, None);
  ytypes_GetNode := λ t s n p, inr [n ++ (pe_Name <$> elems p)];
  ytypes_DeleteNode := λ t s n p, (nest_delete (n ++ (pe_Name <$> elems p)) t, None);
  StringToType := λ ty v, inr (leaf_of v);
  ValScalarNew := λ ty v, inl (Errorf_plain "not supported" []);
  ValSliceNew := λ ty, inl (Errorf_plain "not supported" []);
  ValSliceAppend := λ l v, inl (Errorf_plain "not supported" []);
  ygot_EncodeTypedValue := λ v, match v with VPtr None (Some (VScalar s)) => inr s | _ => inl (Errorf_plain "not supported" []) end;
  node_Set := λ t n v, Some (nest_put n v t);
  ValChildSet := λ t n name v, (nest_put (n ++ [name]) v t, None);
  value_bool := λ b, leaf_of (if b then "true" else "false");
  value_string := leaf_of;
  Unmarshal := λ t n j, (t, None);
  GetJsonVal := λ v, None;
  GetJsonIetfVal := λ v, None;
  GetBoolVal := λ v, false;
  NewEmptyRoot := nest "Device" [];
  entry_Find := ptr_Dir;
  IsList := λ e, negb (bool_decide (e_Key (ep_node e) = ""));
  IsDir := λ e, negb (bool_decide (e_Dir (ep_node e) = []));
  IsLeafList := λ e, false;
  entry_Type := λ e, Some (mkYangType Ystring [])
|}.

Definition nest_text (v : goval) : string := match v with VPtr None (Some (VScalar s)) => s | _ => "" end.
Definition nest_scalar (v : option goval) : bool :=
  match v with Some (VPtr None (Some (VScalar _))) => true | _ => false end.
Definition nest_ops : DataOps := {|
  ValFind := example_find;
  IsValMap := kind_vmap;
  IsValScalar := λ v, nest_scalar (Some v);
  ValGetAll := λ v, (example_all v, negb (length (example_all v) =? 0));
  ListKeyMap := λ v, None;
  CanInterface := is_valid
|}.

Definition nest_store : DataStore goval goval string :=
  @tree_store canonical_range identity_clone nest_ops identity_sort nest_write (λ _, inl (Errorf_plain "invalid" []))
    example_write_mo id (λ t n, default VInvalid (nest_get n t)) (λ e, bool_decide (e_Name (ep_node e) = "mode"))
    string nest_scalar (λ v, inr (nest_text v)) Some.

Definition nest_device : goval := nest "Device" [("system", Some "system", nest "system" [("count", Some "count", leaf_of "12")])].
Definition nest_path (names : list string) : Path := mkPath "" None (Some ((λ n, mkElem n None) <$> names)) "".
Definition nest_model (sc : option StateConfig) : Model goval goval := mkModel nest_device [] 0 sc [].

Lemma nest_one_node names :
  names = ["system"; "count"] ∨ names = ["system"; "tags"] →
  @one_node canonical_range nest_ops example_write_mo (nest_path names) nest_device.
Proof.
  assert (∀ n, n = "system" ∨ n = "count" ∨ n = "tags" → @plain_elem (mkElem n None)) as Hplain.
  { intros n Hn. split_and!; [|by destruct Hn as [->|[->| ->]]..|apply map_Forall_empty].
    left. split; [done|]. destruct Hn as [->|[->| ->]]; by apply idRe_wf_name. }
  intros [-> | ->]; (split; [done|]; split; [constructor; [apply Hplain; auto|constructor; [apply Hplain; auto|constructor]]|]; split;
    [|split; [eexists; split; reflexivity|by intros v [= <-]]]).
  - intros cv _ [= <-]. split; [done|]. intros cv _ [= <-]. done.
  - intros cv _ [= <-]. split; [done|]. by intros cv _.
Qed.

(** A leaf that is not there is created, and told to the external system, and
    one that is there is updated. *)
Definition nest_after (sc : option StateConfig) (fields : list (string * option string * goval)) (op : operation)
    (name : string) (old : option goval) (calls : list callback) : Model goval goval :=
  mkModel (nest "Device" [("system", Some "system", nest "system" fields)])
    [mkBackup op ("/system/" +:+ name) (Some (nest_path ["system"; name])) old true] 0 sc calls.

