(* ===== verification/SetTree.v ===== *)
(** * SetTree: the data tree keeps the contract for leaves

    What the Set transaction relies on of ygot, ydb, goyang and reflect
    ([TreeLaws]), and the proof that the searches of [DataSearch] and the writes
    of [Write], which call them, make the tree of [SetData] a store of leaves in
    the sense of [SetLeaf]. *)

From Stdlib Require Import Ascii ZArith Lia.
From S2P Require Export SetLeaf SetDataSpec.

(** ** Places in the tree

    A place is the list of the element names on the way to it, with their keys. *)
Abbreviation place := (list block).

Definition place_elems (n : place) : list PathElem := block_elem <$> n.
Definition path_place (p : option Path) : place := elem_block <$> elems p.

Lemma keys_block e : keys (block_elem (elem_block e)) = keys e.
Proof. by destruct (elem_block_equiv e). Qed.

Lemma block_elem_block e : elem_block (block_elem (elem_block e)) = elem_block e.
Proof. unfold elem_block at 1. rewrite keys_block. done. Qed.

Lemma place_elems_block l : elem_block <$> place_elems (elem_block <$> l) = elem_block <$> l.
Proof.
  unfold place_elems. rewrite <-!list_fmap_compose. apply list_fmap_ext. intros _ e _. apply block_elem_block.
Qed.

(** What is computed of an element does not tell it from its block. *)
Section blocks.
Context `{GoRange}.

Lemma plain_elem_block e : plain_elem (block_elem (elem_block e)) ↔ plain_elem e.
Proof. unfold plain_elem, wf_pathelem. by rewrite keys_block. Qed.

Lemma elem_key_block e : elem_key (block_elem (elem_block e)) = elem_key e.
Proof. unfold elem_key. by rewrite keys_block. Qed.

#[global] Instance plain_elem_dec e : Decision (plain_elem e).
Proof. unfold plain_elem. apply _. Defined.

Lemma plain_elems_block l : Forall plain_elem (place_elems (elem_block <$> l)) ↔ Forall plain_elem l.
Proof.
  unfold place_elems. rewrite !Forall_fmap. apply Forall_iff. intros e. apply plain_elem_block.
Qed.

Lemma findSchema_block s l : findSchema s (place_elems (elem_block <$> l)) = findSchema s l.
Proof. revert s. induction l as [|e l IH]; intros s; cbn; [done|]. destruct (ptr_Dir s (pe_Name e)); [apply IH|done]. Qed.

Lemma check_elems_block entry l : check_elems entry (place_elems (elem_block <$> l)) = check_elems entry l.
Proof.
  revert entry. induction l as [|e l IH]; intros entry; cbn; [done|]. unfold is_wild, keys_known. rewrite keys_block. cbn.
  destruct (Dir entry (pe_Name e)); [by rewrite IH|done].
Qed.

Context `{DataOps}.

Lemma value_at_block l v : value_at (place_elems (elem_block <$> l)) v = value_at l v.
Proof.
  revert v. induction l as [|e l IH]; intros v; [done|]. cbn. rewrite elem_key_block.
  destruct (IsValScalar v); [done|]. destruct (ValFind v (elem_key e)) as [cv|]; [|done]. by destruct (is_valid cv).
Qed.

Lemma no_list_block l v : no_list (place_elems (elem_block <$> l)) v → no_list l v.
Proof.
  revert v. induction l as [|e l IH]; intros v; [done|]. cbn. rewrite elem_key_block. intros Hno cv Hs Hf.
  destruct (Hno cv Hs Hf) as [Hm Hl]. split; [done|by apply IH].
Qed.
End blocks.

(** ** Leaves *)
Section tree.
Context `{GoRange, ProtoClone, DataOps, GoSort, DataWrite} (mo : MO).

(** The schema of a place. *)
Definition root_entry : option EntryPtr := match RootSchema mo with Ok s => s | _ => None end.
Definition schema_at (n : place) : option EntryPtr := s ← root_entry; findSchema s (place_elems n).

(** The place of a leaf or a leaf-list: plain elements that the schema knows,
    the last one without keys. *)
Definition plain_place (n : place) : Prop :=
  Forall plain_elem (place_elems n) ∧ elem_block <$> place_elems n = n.

#[global] Instance plain_place_dec n : Decision (plain_place n).
Proof. unfold plain_place. apply _. Defined.

Definition leaf_place (n : place) : bool :=
  match last n with Some (_, None) => true | _ => false end &&
  bool_decide (plain_place n) &&
  match root_entry with Some e => check_elems (ep_node e) (place_elems n) | None => false end &&
  match schema_at n with Some s => negb (IsDir s) | None => false end.

(** What the search of the code finds there. *)
Definition tree_leaf_at (t : goval) (n : place) : option goval :=
  if leaf_place n then value_at (place_elems n) t else None.

(** The entries of lists on the way to [n] have [n'] as one of their keys. *)
Definition created_key (n n' : place) : Prop :=
  ∃ l b k rest, n = l ++ b :: rest ∧ is_Some (default ∅ b.2 !! k) ∧ n' = l ++ [b; (k, None)].

(** A leaf that is no key of its list, also not by [strings.Contains] on the keys
    of its parent: [DeleteValue] deletes it. *)
Definition no_key (n : place) : bool :=
  match reverse n with
  | (name, _) :: (_, Some ks) :: _ => bool_decide (ks !! name = None)
  | _ => true
  end &&
  match schema_at n ≫= ptr_Parent, last n with
  | Some s, Some (name, _) => negb (Contains (e_Key (ep_node s)) name)
  | _, _ => true
  end.

Definition tree_leaf_name (p : option Path) : option place :=
  if leaf_place (path_place p) && no_key (path_place p) then Some (path_place p) else None.

(** ** What ygot, ydb, goyang and reflect do

    [tree_ok] holds of the trees the program can have, [node_at t x l] of the Go
    values inside the tree [t] that ygot returns for the place [l]. *)
Context (value_of : goval → rvalue) (tree_ok : goval → Prop) (node_at : goval → node → place → Prop).

(** A change at the place [n]: at most the leaf there is another one, and keys of
    entries on the way have been created. *)
Record changed (n : place) (t t' : goval) : Prop := {
  changed_ok : tree_ok t';
  changed_nodes x l : node_at t x l → node_at t' x l;
  changed_leaves n' : n' ≠ n →
    tree_leaf_at t' n' = tree_leaf_at t n' ∨ (tree_leaf_at t n' = None ∧ created_key n n')
}.

Class TreeLaws := {
  (** goyang: only a directory has children, under their names, and it is no
      leaf-list. *)
  Dir_IsDir s name c : ptr_Dir s name = Some c → IsDir s = true;
  IsDir_no_leaf_list s : IsDir s = true → IsLeafList s = false;
  Dir_name l name keys s : schema_at (l ++ [(name, keys)]) = Some s → e_Name (ep_node s) = name;
  (** reflect: the root keeps its type, and values of leaves are exported. *)
  root_type t : tree_ok t → ∃ e, root_entry = Some e ∧ FindSchemaByType mo (type_of t) = Some e;
  leaf_interface t n v : tree_ok t → tree_leaf_at t n = Some v → CanInterface v = true;
  (** ydb.ValFind: a name with all keys is one entry, not the list. *)
  leaf_no_list t n : tree_ok t → leaf_place n = true → no_list (place_elems n) t;
  (** ytypes.GetOrCreateNode: one step down the tree, by which an entry with its
      keys may be created; it does not fail for keys that an entry of some tree
      has. *)
  root_node_at t : tree_ok t → node_at t root_node [];
  GetOrCreateNode_at t s s' x e l t' res :
    tree_ok t → node_at t x l → schema_at l = Some s → ptr_Dir s (pe_Name e) = Some s' → plain_elem e →
    ytypes_GetOrCreateNode t (Some s) x (elem_path e) = (t', res) →
    changed (l ++ [elem_block e]) t t' ∧
    ∀ y c, res = inr (y, c) → node_at t' y (l ++ [elem_block e]) ∧ c = Some s';
  GetOrCreateNode_known t t0 s s' x e l rest v :
    tree_ok t → node_at t x l → schema_at l = Some s → ptr_Dir s (pe_Name e) = Some s' →
    tree_ok t0 → tree_leaf_at t0 (l ++ elem_block e :: rest) = Some v →
    ∃ t' y, ytypes_GetOrCreateNode t (Some s) x (elem_path e) = (t', inr (y, Some s'));
  (** ytypes.SetNode and ydb.ValChildSet: they write one leaf, the latter gives it
      back a value it once had. *)
  SetNode_at t s x l p v t' err :
    tree_ok t → node_at t x l → schema_at l = Some s → leaf_place (l ++ path_place p) = true →
    ytypes_SetNode t (Some s) x p v = (t', err) → changed (l ++ path_place p) t t';
  ValChildSet_at t x l name v t' err :
    tree_ok t → node_at t x l → leaf_place (l ++ [(name, None)]) = true →
    ValChildSet t x name v = (t', err) → changed (l ++ [(name, None)]) t t';
  ValChildSet_known t t0 x l name v :
    tree_ok t → node_at t x l → tree_ok t0 → tree_leaf_at t0 (l ++ [(name, None)]) = Some v →
    ∃ t', ValChildSet t x name (value_of v) = (t', None) ∧ tree_leaf_at t' (l ++ [(name, None)]) = Some v;
  (** ytypes.DeleteNode: the leaf is gone, or was not there, and no other changes. *)
  DeleteNode_at t s p :
    tree_ok t → root_entry = Some s → leaf_place (path_place p) = true → no_key (path_place p) = true →
    ∃ t', ytypes_DeleteNode t (Some s) root_node p = (t', None) ∧ tree_ok t' ∧
      tree_leaf_at t' (path_place p) = None ∧
      ∀ n', n' ≠ path_place p → tree_leaf_at t' n' = tree_leaf_at t n'
}.

Context {laws : TreeLaws}.

(** *** Changes *)
Lemma changed_refl n t : tree_ok t → changed n t t.
Proof. intros Hok. split; auto. Qed.

Lemma changed_trans n t1 t2 t3 : changed n t1 t2 → changed n t2 t3 → changed n t1 t3.
Proof.
  intros [_ Hn1 Hl1] [Hok Hn2 Hl2]. split; [done|auto|]. intros n' Hne.
  destruct (Hl2 n' Hne) as [->|[Hnone Hk]]; [by apply Hl1|].
  destruct (Hl1 n' Hne) as [Heq|[Hnone' _]]; right; (split; [congruence|done]).
Qed.

Lemma created_key_extend l rest n' : created_key l n' → created_key (l ++ rest) n'.
Proof. intros (l0 & b & k & r & -> & Hk & ->). exists l0, b, k, (r ++ rest). by rewrite <-(assoc_L (++)). Qed.

(** *** Places of leaves *)
Lemma schema_at_snoc l b : schema_at (l ++ [b]) = (s ← schema_at l; ptr_Dir s b.1).
Proof.
  unfold schema_at, place_elems. destruct root_entry as [e|]; [|done]. cbn [mbind option_bind].
  rewrite fmap_app, findSchema_app. destruct (findSchema e _) as [s|]; [|done]. cbn. by destruct (ptr_Dir s b.1).
Qed.

Lemma schema_at_app l1 l2 : schema_at (l1 ++ l2) = (s ← schema_at l1; findSchema s (place_elems l2)).
Proof.
  unfold schema_at, place_elems. destruct root_entry as [e|]; [|done]. cbn [mbind option_bind].
  by rewrite fmap_app, findSchema_app.
Qed.

Lemma leaf_place_spec n :
  leaf_place n = true →
  ∃ l name e s, n = l ++ [(name, None)] ∧ plain_place n ∧
    root_entry = Some e ∧ check_elems (ep_node e) (place_elems n) = true ∧ schema_at n = Some s ∧ IsDir s = false.
Proof.
  unfold leaf_place. rewrite !andb_true_iff. intros [[[Hlast Hp%bool_decide_eq_true] He] Hs].
  destruct (last n) as [[name [ks|]]|] eqn:Hl; try done. apply last_Some in Hl as [l ->].
  destruct root_entry as [e|]; [|done]. destruct (schema_at _) as [s|]; [|done]. apply negb_true_iff in Hs.
  by exists l, name, e, s.
Qed.

(** A place on the way to a leaf is a directory. *)
Lemma leaf_place_step l e rest :
  leaf_place (l ++ elem_block e :: rest) = true →
  ∃ s s', schema_at l = Some s ∧ ptr_Dir s (pe_Name e) = Some s' ∧ schema_at (l ++ [elem_block e]) = Some s' ∧
    plain_elem e ∧ (rest = [] ∨ IsDir s' = true).
Proof.
  intros Hleaf. apply leaf_place_spec in Hleaf as (l' & name & e0 & s0 & _ & [Hp _] & _ & _ & Hs & _).
  rewrite schema_at_app in Hs. destruct (schema_at l) as [s|] eqn:Hl; [|done]. cbn [mbind option_bind] in Hs.
  cbn [place_elems fmap list_fmap findSchema block_elem pe_Name elem_block fst] in Hs.
  destruct (ptr_Dir s (pe_Name e)) as [s'|] eqn:Hd; [|done]. exists s, s'. split_and!; [done..| | |].
  - by rewrite schema_at_snoc, Hl.
  - unfold place_elems in Hp. rewrite fmap_app in Hp. apply Forall_app in Hp as [_ [Hp _]%Forall_cons].
    by apply plain_elem_block.
  - destruct rest as [|b rest]; [by left|right]. cbn [findSchema fmap list_fmap] in Hs.
    destruct (ptr_Dir s' _) as [s1|] eqn:Hd1; [|done]. by eapply Dir_IsDir.
Qed.

(** A step towards a leaf changes at most the leaf. *)
Lemma changed_towards l e rest t t' :
  leaf_place (l ++ elem_block e :: rest) = true → changed (l ++ [elem_block e]) t t' →
  changed (l ++ elem_block e :: rest) t t'.
Proof.
  intros Hleaf. pose proof (leaf_place_step _ _ _ Hleaf) as (s & s' & _ & _ & Hs & _ & [->|Hd]); [done|].
  assert (∀ t, tree_leaf_at t (l ++ [elem_block e]) = None) as Hdir.
  { intros t0. unfold tree_leaf_at. destruct (leaf_place (l ++ [elem_block e])) eqn:Hl; [|done].
    apply leaf_place_spec in Hl as (? & ? & ? & s1 & _ & _ & _ & _ & Hs1 & Hd1). congruence. }
  intros [Hok Hn Hl]. split; [done|done|]. intros n' Hne.
  destruct (decide (n' = l ++ [elem_block e])) as [->|Hne']; [left; by rewrite !Hdir|].
  destruct (Hl n' Hne') as [?|[? Hk]]; [by left|]. right. split; [done|].
  apply (created_key_extend _ rest) in Hk. by rewrite <-(assoc_L (++)) in Hk.
Qed.

(** *** Steps and walks *)
Lemma W_bind_cases {A B} (m : W A) (k : A → W B) t t' r :
  (m ≫= k) t = Ok (t', r) →
  (∃ err, m t = Ok (t', inl err) ∧ r = inl err) ∨ ∃ t1 a, m t = Ok (t1, inr a) ∧ k a t1 = Ok (t', r).
Proof.
  unfold mbind, W_bind. destruct (m t) as [[t1 [err|a]]| | |]; cbn; intros Hm; try discriminate Hm.
  - injection Hm as <- <-. left. by exists err.
  - right. by exists t1, a.
Qed.

Lemma W_ytypes_cases {A} (f : goval → goval * (error + A)) t t' r :
  W_ytypes (W_call f) t = Ok (t', r) → ∃ res, f t = (t', res) ∧ ∀ a, r = inr a → res = inr a.
Proof.
  unfold W_ytypes, W_call, mbind, outcome_bind, mret, outcome_ret.
  destruct (f t) as [t1 [err|a]]; intros Hf.
  - destruct (FromError (Some err)); [|discriminate Hf]. injection Hf as <- <-. by eexists.
  - injection Hf as <- <-. by exists (inr a).
Qed.

Lemma step_at l e rest x s t t' r :
  leaf_place (l ++ elem_block e :: rest) = true → schema_at l = Some s → tree_ok t → node_at t x l →
  step (Some s) x e t = Ok (t', r) →
  changed (l ++ elem_block e :: rest) t t' ∧
  ∀ y c, r = inr (y, c) → node_at t' y (l ++ [elem_block e]) ∧ c = schema_at (l ++ [elem_block e]).
Proof.
  intros Hleaf Hs Hok Hx Hstep. unfold step in Hstep. apply W_ytypes_cases in Hstep as (res & Hf & Hr).
  destruct (leaf_place_step _ _ _ Hleaf) as (s0 & s' & Hs0 & Hd & Hs' & Hp & _). rewrite Hs in Hs0. injection Hs0 as <-.
  destruct (GetOrCreateNode_at t s s' x e l t' res Hok Hx Hs Hd Hp Hf) as [Hch Hy].
  split; [by apply changed_towards|]. intros y c Hyc. rewrite Hs'. apply Hy. by apply Hr.
Qed.

Lemma GetOrCreateNode_loop_at n l0 l e x s pS par t t' r :
  n = l0 ++ (elem_block <$> (l ++ [e])) → leaf_place n = true → schema_at l0 = Some s → tree_ok t → node_at t x l0 →
  GetOrCreateNode_loop (l ++ [e]) pS par (Some s) x t = Ok (t', r) →
  changed n t t' ∧
  ∀ a b c d, r = inr (a, b, c, d) →
    a = schema_at (l0 ++ (elem_block <$> l)) ∧ node_at t' b (l0 ++ (elem_block <$> l)) ∧ c = schema_at n.
Proof.
  revert l0 x s pS par t. induction l as [|e' l IH]; intros l0 x s pS par t -> Hleaf Hs Hok Hx Hrun;
    cbn [app fmap list_fmap GetOrCreateNode_loop] in *.
  - apply W_bind_cases in Hrun as [(err & Hstep & ->)|(t1 & [y c] & Hstep & Hrun)];
      (eapply step_at in Hstep as [Hch Hy]; [|done..]); [done|].
    cbn in Hrun. injection Hrun as <- <-. split; [done|]. intros a b c' d [= <- <- <- <-].
    rewrite List.app_nil_r. destruct (Hy y c eq_refl) as [_ ->]. split; [done|]. split; [|done].
    by apply (changed_nodes _ _ _ Hch).
  - apply W_bind_cases in Hrun as [(err & Hstep & ->)|(t1 & [y c] & Hstep & Hrun)];
      (eapply step_at in Hstep as [Hch Hy]; [|done..]); [done|]. destruct (Hy y c eq_refl) as [Hy' ->].
    destruct (leaf_place_step _ _ _ Hleaf) as (s0 & s' & _ & _ & Hs' & _). rewrite Hs' in Hrun.
    assert (∀ k, l0 ++ elem_block e' :: k = (l0 ++ [elem_block e']) ++ k) as Hcons by (intros k; by rewrite <-(assoc_L (++))).
    eapply (IH (l0 ++ [elem_block e'])) in Hrun as [Hch' Hr]; [|apply Hcons|done|done|apply Hch|done]. split.
    + by eapply changed_trans.
    + intros a b c d Habcd. rewrite Hcons. by apply (Hr a b c d).
Qed.

(** The elements of a leaf's path. *)
Lemma leaf_path_elems p :
  leaf_place (path_place p) = true →
  ∃ l e e0, elems p = l ++ [e] ∧ root_entry = Some e0 ∧ RootSchema mo = Ok (Some e0) ∧
    path_place p = (elem_block <$> l) ++ [(pe_Name e, None)] ∧ elem_block e = (pe_Name e, None).
Proof.
  intros Hleaf. apply leaf_place_spec in Hleaf as (l & name & e0 & s & Hl & _ & He0 & _).
  unfold path_place in *. destruct (elems p) as [|e es _] using rev_ind; [by destruct l|].
  rewrite fmap_app in Hl |- *. cbn [fmap list_fmap] in *. apply app_inj_tail in Hl as [<- He].
  exists es, e, e0. split_and!; [done|done| | |].
  - unfold root_entry in He0. by destruct (RootSchema mo) as [s0| | |]; simplify_eq.
  - f_equal. unfold elem_block in *. cbn. by injection He as <- ->.
  - unfold elem_block in *. by injection He as <- ->.
Qed.

Lemma GetOrCreateNode_leaf p t t' r :
  leaf_place (path_place p) = true → tree_ok t → GetOrCreateNode mo p t = Ok (t', r) →
  changed (path_place p) t t' ∧
  ∀ parent target, r = inr (parent, target) →
    ∃ l e, path_place p = l ++ [(pe_Name e, None)] ∧ elem_block e = (pe_Name e, None) ∧
      tn_Schema parent = schema_at l ∧ node_at t' (tn_Data parent) l ∧
      tn_Schema target = schema_at (path_place p) ∧ elems (Some (tn_Path target)) = [e].
Proof.
  intros Hleaf Hok Hrun. destruct (leaf_path_elems p Hleaf) as (l & e & e0 & Hl & He0 & Hroot & Hp & He).
  unfold GetOrCreateNode, GetSchema, W_lift in Hrun. rewrite Hroot in Hrun.
  apply W_bind_cases in Hrun as [(err & [=] & _)|(t0 & s & [= <- <-] & Hrun)].
  assert (∃ x xs, elems p = x :: xs) as (x & xs & Hx) by (rewrite Hl; destruct l; by eexists _, _).
  rewrite Hx in Hrun. rewrite <-Hx, Hl in Hrun.
  assert (schema_at [] = Some e0) as Hs0 by (unfold schema_at; by rewrite He0).
  assert (path_place p = [] ++ (elem_block <$> (l ++ [e]))) as Hn by (unfold path_place; by rewrite Hl).
  apply W_bind_cases in Hrun as [(err & Hloop & ->)|(t1 & [[[pS par] tS] lf] & Hloop & Hrun)];
    (eapply (GetOrCreateNode_loop_at (path_place p) []) in Hloop as [Hch Hr]; [|done|done|done|done|by apply root_node_at]);
    [done|].
  cbn in Hrun. injection Hrun as <- <-. split; [done|]. intros parent target [= <- <-].
  destruct (Hr pS par tS lf eq_refl) as (-> & Hpar & ->). cbn [app] in Hpar.
  exists (elem_block <$> l), e. split_and!; try done. cbn [tn_Path]. unfold names_of, elems, GetElem. cbn.
  rewrite length_app. cbn. rewrite Nat.add_sub, drop_app_length. done.
Qed.

(** *** The look-up of a leaf *)
Lemma tree_leaf_at_value t p : leaf_place (path_place p) = true → tree_leaf_at t (path_place p) = value_at (elems p) t.
Proof. intros Hleaf. unfold tree_leaf_at. rewrite Hleaf. apply value_at_block. Qed.

Lemma leaf_one_node full t :
  leaf_place (path_place (Some full)) = true → tree_ok t → one_node mo full t.
Proof.
  intros Hleaf Hok. pose proof (leaf_path_elems _ Hleaf) as (l & e & _ & Hl & _).
  pose proof (leaf_no_list t _ Hok Hleaf) as Hno. apply no_list_block in Hno.
  pose proof (leaf_place_spec _ Hleaf) as (l' & name & e0 & s & _ & [Hp _] & He0 & Hcheck & _).
  unfold path_place in Hp, Hcheck. rewrite check_elems_block in Hcheck. rewrite plain_elems_block in Hp. split_and!; try done.
  - rewrite Hl. by destruct l.
  - destruct (root_type t Hok) as (e1 & He1 & Ht). exists e1. split; [done|]. congruence.
  - intros v Hv. apply (leaf_interface t (path_place (Some full))); [done|]. by rewrite tree_leaf_at_value.
Qed.

Lemma node_path_place full : path_place (Some (node_path full)) = path_place (Some full).
Proof.
  unfold path_place, node_path. change (elems (Some (mkPath _ _ ?l _))) with (default [] l).
  rewrite blocks_elem_default. apply place_elems_block.
Qed.

(** *** A leaf that is given back a value *)
Lemma GetOrCreateNode_known_loop n l0 l e x s pS par t t0 v :
  n = l0 ++ (elem_block <$> (l ++ [e])) → tree_ok t0 → tree_leaf_at t0 n = Some v → leaf_place n = true →
  schema_at l0 = Some s → tree_ok t → node_at t x l0 →
  ∃ t' a b c d, GetOrCreateNode_loop (l ++ [e]) pS par (Some s) x t = Ok (t', inr (a, b, c, d)).
Proof.
  revert l0 x s pS par t. induction l as [|e' l IH]; intros l0 x s pS par t -> Hok0 Hv Hleaf Hs Hok Hx;
    cbn [app fmap list_fmap GetOrCreateNode_loop] in *.
  all: destruct (leaf_place_step _ _ _ Hleaf) as (s1 & s' & Hs1 & Hd & Hs' & Hp & _);
    rewrite Hs in Hs1; injection Hs1 as <-;
    destruct (GetOrCreateNode_known t t0 s s' x _ l0 _ v Hok Hx Hs Hd Hok0 Hv) as (t' & y & Hg);
    destruct (GetOrCreateNode_at t s s' x _ l0 t' _ Hok Hx Hs Hd Hp Hg) as [Hch Hy].
  all: assert (∀ (k : node * option EntryPtr → W (option EntryPtr * node * option EntryPtr * node)),
      (W_ytypes (W_call (λ tree, ytypes_GetOrCreateNode tree (Some s) x _)) ≫= k) t = k (y, Some s') t') as Hstep
    by (intros k; unfold mbind, W_bind, W_ytypes, W_call; cbn [mbind outcome_bind mret outcome_ret]; by rewrite Hg).
  - rewrite Hstep. cbn. by eexists _, _, _, _, _.
  - rewrite Hstep. destruct (Hy y _ eq_refl) as [Hy' _].
    eapply (IH (l0 ++ [elem_block e'])); try done; [by rewrite <-(assoc_L (++))|apply Hch].
Qed.

Lemma GetOrCreateNode_known_leaf p t t0 v :
  leaf_place (path_place p) = true → tree_ok t → tree_ok t0 → tree_leaf_at t0 (path_place p) = Some v →
  ∃ t' parent target, GetOrCreateNode mo p t = Ok (t', inr (parent, target)).
Proof.
  intros Hleaf Hok Hok0 Hv. destruct (leaf_path_elems p Hleaf) as (l & e & e0 & Hl & He0 & Hroot & Hp & He).
  assert (schema_at [] = Some e0) as Hs0 by (unfold schema_at; by rewrite He0).
  destruct (GetOrCreateNode_known_loop (path_place p) [] l e root_node e0 (Some e0) root_node t t0 v)
    as (t' & a & b & c & d & Hrun); try done; [unfold path_place; by rewrite Hl|by apply root_node_at|].
  unfold GetOrCreateNode, GetSchema, W_lift, mbind, W_bind. rewrite Hroot. cbn [mbind outcome_bind mret outcome_ret].
  assert (∃ x xs, elems p = x :: xs) as (x & xs & Hx) by (rewrite Hl; destruct l; by eexists _, _).
  rewrite Hx, <-Hx, Hl, Hrun. cbn. by eexists _, _, _.
Qed.

Lemma WriteValue_at p t t0 v :
  leaf_place (path_place p) = true → tree_ok t → tree_ok t0 → tree_leaf_at t0 (path_place p) = Some v →
  ∃ t', run_W (WriteValue mo p (value_of v)) t = Ok (t', None) ∧ changed (path_place p) t t' ∧
    tree_leaf_at t' (path_place p) = Some v.
Proof.
  intros Hleaf Hok Hok0 Hv.
  destruct (GetOrCreateNode_known_leaf p t t0 v Hleaf Hok Hok0 Hv) as (t1 & parent & target & Hget).
  pose proof Hget as Hat. apply GetOrCreateNode_leaf in Hat as [Hch Hr]; [|done..].
  destruct (Hr parent target eq_refl) as (l & e & Hp & He & HpS & Hpar & HtS & _).
  destruct (leaf_place_spec _ Hleaf) as (_ & _ & _ & s & _ & _ & _ & _ & Hs & Hd).
  pose proof (changed_ok _ _ _ Hch) as Hok1.
  pose proof Hs as Hname. rewrite Hp in Hname, Hleaf, Hv. apply Dir_name in Hname.
  destruct (ValChildSet_known t1 t0 (tn_Data parent) l (pe_Name e) v Hok1 Hpar Hok0 Hv) as (t2 & Hset & Hv2).
  pose proof (ValChildSet_at t1 (tn_Data parent) l (pe_Name e) _ t2 None Hok1 Hpar Hleaf Hset) as Hch2.
  exists t2. assert (changed (path_place p) t1 t2) by (rewrite Hp; exact Hch2).
  assert (tree_leaf_at t2 (path_place p) = Some v) by (rewrite Hp; exact Hv2).
  split; [|split; [by eapply changed_trans|done]].
  unfold run_W, WriteValue, mbind, W_bind. rewrite Hget. cbn [mbind outcome_bind mret outcome_ret].
  rewrite HtS, Hs. unfold schema_of. cbn. rewrite Hd. unfold W_call_err. by rewrite Hname, Hset.
Qed.

(** *** A leaf that is deleted *)
Lemma DeleteNode_tree p t t' err :
  leaf_place (path_place p) = true → no_key (path_place p) = true → tree_ok t → tree_DeleteNode mo t p = Ok (t', err) →
  err = None ∧ tree_ok t' ∧ tree_leaf_at t' (path_place p) = None ∧
  ∀ n', n' ≠ path_place p → tree_leaf_at t' n' = tree_leaf_at t n'.
Proof.
  intros Hleaf Hkey Hok Hrun. destruct (leaf_path_elems p Hleaf) as (l & e & e0 & Hl & He0 & Hroot & Hp & He).
  unfold tree_DeleteNode, GetSchema in Hrun. rewrite Hroot in Hrun. cbn in Hrun.
  destruct (DeleteNode_at t e0 p Hok He0 Hleaf Hkey) as (t1 & Hd & Hok1 & Hgone & Hother). rewrite Hd in Hrun.
  by injection Hrun as <- <-.
Qed.

Lemma DeleteValue_at p t :
  leaf_place (path_place p) = true → no_key (path_place p) = true → tree_ok t →
  ∃ t', DeleteValue mo t p = Ok (t', None) ∧ tree_ok t' ∧ tree_leaf_at t' (path_place p) = None ∧
    ∀ n', n' ≠ path_place p → tree_leaf_at t' n' = tree_leaf_at t n'.
Proof.
  intros Hleaf Hkey Hok. destruct (leaf_path_elems p Hleaf) as (l & e & e0 & Hl & He0 & Hroot & Hp & He).
  destruct (leaf_place_spec _ Hleaf) as (_ & _ & _ & s & _ & _ & _ & _ & Hs & _).
  destruct (DeleteNode_at t e0 p Hok He0 Hleaf Hkey) as (t1 & Hd & Hok1 & Hgone & Hother). exists t1. split; [|done].
  unfold DeleteValue, GetSchema. rewrite Hroot. cbn [mbind outcome_bind mret outcome_ret].
  assert (FindSchemaByGNMIPath_base e0 p = Some s) as ->.
  { unfold schema_at in Hs. rewrite He0 in Hs. unfold FindSchemaByGNMIPath_base. by rewrite <-findSchema_block. }
  destruct (ptr_Parent s) as [ps|] eqn:Hps; [|by rewrite Hd].
  unfold no_key in Hkey. apply andb_true_iff in Hkey as [_ Hkey]. rewrite Hs in Hkey. cbn [mbind option_bind] in Hkey.
  rewrite Hps, Hp, last_snoc in Hkey. rewrite Hl, last_snoc. apply negb_true_iff in Hkey. by rewrite Hkey, Hd.
Qed.

(** *** Writes to a leaf *)

(** Whatever its result, the step changes at most the leaf. *)
Definition near {A} (n : place) (w : W A) (t : goval) : Prop := ∀ t' r, w t = Ok (t', r) → changed n t t'.

Lemma near_bind {A B} n (w : W A) (k : A → W B) t :
  near n w t → (∀ t1 a, w t = Ok (t1, inr a) → changed n t t1 → near n (k a) t1) → near n (w ≫= k) t.
Proof.
  intros Hw Hk t' r [(err & Hm & _)|(t1 & a & Hm & Hrun)]%W_bind_cases; [by eapply Hw|].
  pose proof (Hw _ _ Hm) as Hch. eapply changed_trans; [exact Hch|]. by eapply Hk.
Qed.

(** A step that leaves the tree alone. *)
Lemma near_same {A} n (w : W A) t :
  tree_ok t → match w t with Ok (t', _) => t' = t | _ => True end → near n w t.
Proof. intros Hok Hw t' r Hrun. rewrite Hrun in Hw. subst t'. by apply changed_refl. Qed.

Lemma near_try {A} n (r : error + A) t : tree_ok t → near n (W_try r) t.
Proof. intros Hok. by apply near_same. Qed.
Lemma near_lift {A} n (o : outcome error A) t : tree_ok t → near n (W_lift o) t.
Proof. intros Hok. apply near_same; [done|]. unfold W_lift. by destruct o. Qed.
Lemma near_fail {A} n err t : tree_ok t → near n (W_fail (A:=A) err) t.
Proof. intros Hok. by apply near_same. Qed.
Lemma near_panic {A} n t : tree_ok t → near n (W_panic (A:=A)) t.
Proof. intros Hok. by apply near_same. Qed.
Lemma near_ret {A} n (a : A) t : tree_ok t → near n (mret a) t.
Proof. intros Hok. by apply near_same. Qed.
Lemma near_read {A} n (f : goval → A) t : tree_ok t → near n (W_read f) t.
Proof. intros Hok. by apply near_same. Qed.
Lemma near_text_value n ty ty' v t : tree_ok t → near n (text_value ty ty' v) t.
Proof.
  intros Hok. unfold text_value. destruct (StringToType ty v); [|by apply near_ret].
  destruct (ValScalarNew ty' v); [by apply near_fail|by apply near_ret].
Qed.
Lemma near_schema_of n s t : tree_ok t → near n (schema_of s) t.
Proof. intros Hok. destruct s; [by apply near_ret|by apply near_panic]. Qed.

Lemma near_call_err n (f : goval → goval * option error) t :
  (∀ t' err, f t = (t', err) → changed n t t') → near n (W_call_err f) t.
Proof. intros Hf t' r. unfold W_call_err. destruct (f t) as [t1 err] eqn:Ht. intros [= <- _]. by eapply Hf. Qed.

Lemma near_ytypes {A} n (w : W A) t : near n w t → near n (W_ytypes w) t.
Proof.
  intros Hw t' r. unfold W_ytypes, mbind, outcome_bind. destruct (w t) as [[t1 [err|a]]| | |] eqn:Ht; try discriminate.
  - destruct (FromError (Some err)); [|discriminate]. intros [= <- _]. by eapply Hw.
  - intros [= <- _]. by eapply Hw.
Qed.

(** The parent of the leaf: its schema and its node. *)
Definition parent_at (l : place) (s : EntryPtr) (x : node) (t : goval) : Prop :=
  tree_ok t ∧ schema_at l = Some s ∧ node_at t x l.

Lemma parent_changed n l s x t t' : changed n t t' → parent_at l s x t → parent_at l s x t'.
Proof. intros Hch (Hok & Hs & Hx). split; [by apply Hch|]. split; [done|]. by apply Hch. Qed.

Lemma near_SetNode l s x p v t :
  parent_at l s x t → leaf_place (l ++ path_place p) = true →
  near (l ++ path_place p) (W_ytypes (W_call_err (λ tree, ytypes_SetNode tree (Some s) x p v))) t.
Proof.
  intros (Hok & Hs & Hx) Hleaf. apply near_ytypes, near_call_err. intros t' err Hset. by eapply SetNode_at.
Qed.

Lemma near_writeLeaf l s x p ty v t :
  parent_at l s x t → leaf_place (l ++ path_place p) = true → near (l ++ path_place p) (writeLeaf (Some s) x p ty v) t.
Proof.
  intros Hpar Hleaf. unfold writeLeaf. destruct ty as [ty|]; [|by apply near_fail, Hpar].
  apply near_bind; [by apply near_text_value, Hpar|]. intros t1 vv _ Hch1. pose proof (parent_changed _ _ _ _ _ _ Hch1 Hpar).
  apply near_bind; [by apply near_try, Hch1|]. intros t2 tv _ Hch2. apply near_SetNode; [|done]. by eapply parent_changed.
Qed.

Lemma near_writeLeafList l s x p ty v t :
  parent_at l s x t → leaf_place (l ++ path_place p) = true → near (l ++ path_place p) (writeLeafList (Some s) x p ty v) t.
Proof.
  intros Hpar Hleaf. unfold writeLeafList. apply near_bind; [by apply near_try, Hpar|]. intros t1 sv _ Hch1.
  pose proof (parent_changed _ _ _ _ _ _ Hch1 Hpar) as Hpar1. destruct ty as [ty|]; [|by apply near_panic, Hch1].
  apply near_bind; [by apply near_lift, Hpar1|]. intros t2 e _ Hch2. pose proof (parent_changed _ _ _ _ _ _ Hch2 Hpar1) as Hpar2.
  apply near_bind; [by apply near_text_value, Hpar2|]. intros t3 vv _ Hch3. pose proof (parent_changed _ _ _ _ _ _ Hch3 Hpar2) as Hpar3.
  apply near_bind; [by apply near_try, Hpar3|]. intros t4 rv _ Hch4. pose proof (parent_changed _ _ _ _ _ _ Hch4 Hpar3) as Hpar4.
  apply near_bind; [by apply near_try, Hpar4|]. intros t5 tv _ Hch5. apply near_SetNode; [|done]. by eapply parent_changed.
Qed.

Lemma near_writeUnion l s x full p types v err t :
  parent_at l s x t → leaf_place (l ++ path_place p) = true →
  near (l ++ path_place p) (writeUnion (Some s) x full p types v err) t.
Proof.
  intros Hpar Hleaf. revert err t Hpar. induction types as [|[ty|] types IH]; intros err t Hpar; cbn [writeUnion].
  - destruct err; [by apply near_fail, Hpar|by apply near_ret, Hpar].
  - intros t' r Hrun. apply outcome_bind_Ok in Hrun as ([t1 [err1|[]]] & Hw & Hrun);
      apply (near_writeLeaf l) in Hw; try done; [|by injection Hrun as <- <-].
    eapply changed_trans; [exact Hw|]. eapply IH; [by eapply parent_changed|exact Hrun].
  - by apply near_fail, Hpar.
Qed.

Lemma near_asserting n x (w : W unit) t : near n w t → near n (asserting x w) t.
Proof. intros Hw t' r. unfold asserting. by destruct (node_GoStruct t x); [apply Hw|]. Qed.

Lemma near_write_leaf_node l s x gpath e s' y v t :
  parent_at l s x t → leaf_place (l ++ [elem_block e]) = true → elem_block e = (pe_Name e, None) →
  schema_at (l ++ [elem_block e]) = Some s' →
  near (l ++ [elem_block e]) (write_leaf_node (Some s) x gpath (Some (elem_path e)) s' y v) t.
Proof.
  intros Hpar Hleaf He Hs'. assert (e_Name (ep_node s') = pe_Name e) as Hname by (rewrite He in Hs'; by eapply Dir_name).
  change ([elem_block e]) with (path_place (Some (elem_path e))) in *. unfold write_leaf_node.
  destruct (entry_Type s') as [[k members]|].
  2: { apply near_bind; [by apply near_read, Hpar|]. intros t1 ty _ Hch. apply near_asserting, near_writeLeaf; [|done].
       by eapply parent_changed. }
  destruct k; try (apply near_bind; [by apply near_read, Hpar|]; intros t1 ty _ Hch; apply near_asserting, near_writeLeaf; [|done];
    by eapply parent_changed).
  - apply near_call_err. intros t' err Hset. destruct Hpar as (Hok & Hs & Hx).
    change (path_place (Some (elem_path e))) with [elem_block e] in *. rewrite He in *. rewrite Hname in Hset.
    by eapply ValChildSet_at.
  - destruct (baseType _) as [|[ty|] types]; [by apply near_writeUnion|by apply near_asserting, near_writeUnion|by apply near_writeUnion].
Qed.

(** *** Texts and typed values at the path of a leaf *)
Lemma near_WriteStringValue_loop gpath v l0 l e s x p t :
  parent_at l0 s x t → leaf_place (l0 ++ (elem_block <$> (l ++ [e]))) = true → elem_block e = (pe_Name e, None) →
  near (l0 ++ (elem_block <$> (l ++ [e]))) (WriteStringValue_loop gpath v (Some s) x (Some s) x p (l ++ [e])) t.
Proof.
  revert l0 s x p t. induction l as [|e' l IH]; intros l0 s x p t Hpar Hleaf He;
    cbn [app fmap list_fmap WriteStringValue_loop] in *.
  all: destruct (leaf_place_step _ _ _ Hleaf) as (s1 & s' & Hs1 & Hd & Hs' & _ & Hdir);
    pose proof Hpar as (Hok & Hs & Hx); rewrite Hs in Hs1; injection Hs1 as <-;
    pose proof (Dir_IsDir _ _ _ Hd) as HsD; pose proof (IsDir_no_leaf_list _ HsD) as HsL;
    apply near_bind; [by apply near_schema_of|]; intros t1 s1 Hm _; cbn in Hm; injection Hm as <- <-; rewrite HsL, HsD; cbn [negb];
    apply near_bind; [intros t' r Hstep; by apply (step_at _ _ _ _ _ _ _ _ Hleaf Hs Hok Hx) in Hstep as [? _]|];
    intros t1 [y c] Hstep Hch; apply (step_at _ _ _ _ _ _ _ _ Hleaf Hs Hok Hx) in Hstep as [_ Hy];
    destruct (Hy y c eq_refl) as [Hy' ->]; rewrite Hs'; clear Hy;
    pose proof (parent_changed _ _ _ _ _ _ Hch Hpar) as Hpar1;
    apply near_bind; [by apply near_schema_of, Hch|]; intros t2 s1 Hm _; cbn in Hm; injection Hm as <- <-.
  - pose proof (leaf_place_spec _ Hleaf) as (_ & _ & _ & s2 & _ & _ & _ & _ & Hs2 & Hd2).
    rewrite Hs' in Hs2. injection Hs2 as <-. rewrite Hd2. destruct (IsLeafList s').
    + case_bool_decide; [by apply near_ret, Hch|].
      apply near_bind; [by apply near_read, Hch|]. intros t2 ty _ Hch2.
      change ([elem_block e]) with (path_place (Some (elem_path e))) in *. apply near_writeLeafList; [|done].
      by eapply parent_changed.
    + by apply near_write_leaf_node.
  - destruct Hdir as [Hnil|Hdir]; [by destruct l|]. rewrite Hdir.
    assert (∀ k, l0 ++ elem_block e' :: k = (l0 ++ [elem_block e']) ++ k) as Hcons by (intros k; by rewrite <-(assoc_L (++))).
    rewrite Hcons. rewrite Hcons in Hleaf. apply IH; [|done|done]. split; [apply Hch|]. by split.
Qed.

Lemma near_MO_WriteStringValue p v t :
  leaf_place (path_place p) = true → tree_ok t → near (path_place p) (MO_WriteStringValue mo p v) t.
Proof.
  intros Hleaf Hok. destruct (leaf_path_elems p Hleaf) as (l & e & e0 & Hl & He0 & Hroot & Hp & He).
  unfold MO_WriteStringValue. rewrite Hroot. apply near_bind; [by apply near_lift|].
  intros t1 s Hm _. cbn in Hm. injection Hm as <- <-. unfold WriteStringValue, path_place in *. rewrite Hl in *.
  apply (near_WriteStringValue_loop p v []); [|done|done].
  split; [done|]. split; [|by apply root_node_at]. unfold schema_at. by rewrite He0.
Qed.

(** A document without objects; the members of an object name other nodes. *)
Fixpoint no_object (j : json) : bool :=
  match j with JObject _ => false | JArray items => forallb no_object items | _ => true end.

Lemma near_json_leaf p j t :
  leaf_place (path_place p) = true → tree_ok t → near (path_place p) (json_leaf mo p [] j) t.
Proof.
  intros Hleaf Hok. unfold json_leaf. apply near_bind; [by apply near_try|]. intros t1 jstr _ Hch1.
  cbn [json_path]. apply near_bind; [by apply near_ret, Hch1|]. intros t2 l Hm Hch2. cbn in Hm. injection Hm as -> <-.
  destruct p as [p|]; [|destruct (leaf_path_elems _ Hleaf) as (l' & ? & ? & Hl' & _); by destruct l'].
  assert (∃ full, GNMIFullPath (Some p) (Some (names_of [])) = Ok full ∧ path_place full = path_place (Some p)) as (full & -> & Hf).
  { unfold GNMIFullPath. cbn [GetElem GetElement names_of mbind option_bind p_Elem p_Element].
    change (mergePaths (elems (Some p)) []) with (mret (M:=outcome error) (Some (elems (Some p)))). rewrite outcome_bind_mret.
    eexists. split; [done|]. done. }
  apply near_bind; [by apply near_lift, Hch2|]. intros t3 full' Hm Hch3. cbn in Hm. injection Hm as <- <-. rewrite <-Hf.
  apply near_MO_WriteStringValue; [by rewrite Hf|apply Hch3].
Qed.

Lemma near_unmarshalInternalJSON p j t :
  leaf_place (path_place p) = true → no_object j = true → tree_ok t →
  near (path_place p) (unmarshalInternalJSON mo p j []) t.
Proof.
  intros Hleaf. revert t. induction j as [l IH|l IH|s|s|b|] using json_induction; intros t Hno Hok;
    cbn [unmarshalInternalJSON]; try by apply near_json_leaf.
  - done.
  - cbn [no_object] in Hno. revert t Hok. induction IH as [|j l Hj Hl IHl]; intros t Hok; cbn [until_error].
    + by apply near_ret.
    + cbn [forallb] in Hno. apply andb_true_iff in Hno as [Hnj Hnl].
      apply near_bind; [by apply Hj|]. intros t1 [] _ Hch. apply IHl; [done|apply Hch].
Qed.

Context (json_Unmarshal : string → error + json).

(** The values of leaves: a document in the internal encoding has no object. *)
Definition leaf_document (tv : typedValue) : Prop :=
  ∀ text j, GetJsonVal tv = Some text → json_Unmarshal text = inr j → no_object j = true.

Lemma near_UnmarshalInternalJSON p text t :
  leaf_place (path_place p) = true → (∀ j, json_Unmarshal text = inr j → no_object j = true) → tree_ok t →
  near (path_place p) (UnmarshalInternalJSON json_Unmarshal mo p text) t.
Proof.
  intros Hleaf Hno Hok. unfold UnmarshalInternalJSON. apply near_bind; [by apply near_try|]. intros t1 j Hm Hch.
  unfold W_try in Hm. cbv [mret outcome_ret] in Hm. injection Hm as -> Hj.
  destruct (FindSchemaByGNMIPath mo p); [apply near_unmarshalInternalJSON; [done|by apply Hno|apply Hch]|].
  by apply near_fail, Hch.
Qed.

Lemma near_WriteTypedValue p tv t :
  leaf_place (path_place p) = true → leaf_document tv → tree_ok t →
  near (path_place p) (WriteTypedValue json_Unmarshal mo p tv) t.
Proof.
  intros Hleaf Hdoc Hok. unfold WriteTypedValue.
  apply near_bind; [intros t' r Hg; by apply GetOrCreateNode_leaf in Hg as [? _]|].
  intros t1 [parent target] Hg Hch. apply GetOrCreateNode_leaf in Hg as [_ Hr]; [|done..].
  destruct (Hr parent target eq_refl) as (l & e & Hp & He & HpS & Hpar & HtS & HtP). clear Hr.
  pose proof (changed_ok _ _ _ Hch) as Hok1.
  destruct (leaf_place_spec _ Hleaf) as (_ & _ & _ & s & _ & _ & _ & _ & Hs & Hd). rewrite Hs in HtS.
  assert (path_place p = l ++ [elem_block e]) as Hpe by (rewrite He; exact Hp).
  rewrite HtS. apply near_bind; [by apply near_ret|]. intros t2 s1 Hm _. cbn in Hm. injection Hm as <- <-. rewrite Hd.
  destruct (entry_Type s) as [[k members]|]; [|by apply near_panic].
  assert (near (path_place p) (write_leaf_value json_Unmarshal mo p parent target tv) t1) as Hvalue.
  { unfold write_leaf_value. destruct (GetJsonVal tv) as [text|] eqn:Hj.
    - apply near_UnmarshalInternalJSON; [done| |done]. intros j. by apply Hdoc.
    - destruct (GetJsonIetfVal tv) as [text|].
      + rewrite Hpe in Hleaf |- *. destruct (leaf_place_step _ _ _ Hleaf) as (ps & s' & Hps & _).
        rewrite HpS, Hps. unfold WriteStringValue. rewrite HtP. by apply (near_WriteStringValue_loop _ _ l []).
      + apply near_bind; [by apply near_lift|]. intros t2 s1 Hm Hch2.
        destruct (leaf_path_elems p Hleaf) as (_ & _ & e0 & _ & He0 & Hroot & _). unfold GetSchema in Hm.
        rewrite Hroot in Hm. cbn in Hm. injection Hm as <- <-.
        change (path_place p) with ([] ++ path_place p). apply near_SetNode; [|done].
        split; [done|]. split; [|by apply root_node_at]. unfold schema_at. by rewrite He0. }
  destruct k; try exact Hvalue. apply near_call_err. intros t' err Hset.
  assert (e_Name (ep_node s) = pe_Name e) as Hname by (rewrite Hp in Hs; by eapply Dir_name). rewrite Hname in Hset.
  rewrite Hp in Hleaf |- *. by eapply ValChildSet_at.
Qed.

(** *** The contract *)
Context (node_Interface : goval → node → goval) (entry_ReadOnly : EntryPtr → bool).
Context {typed : Type} (IsTypeScalar : option goval → bool) (EncodeTypedValue : goval → error + typed)
        (field_text : typed → option string).
#[local] Instance tree_data : DataStore goval goval typedValue :=
  tree_store json_Unmarshal mo value_of node_Interface entry_ReadOnly IsTypeScalar EncodeTypedValue field_text.

Lemma tree_leaf_name_spec p n :
  tree_leaf_name p = Some n → n = path_place p ∧ leaf_place n = true ∧ no_key n = true.
Proof.
  unfold tree_leaf_name. destruct (leaf_place (path_place p)) eqn:Hl, (no_key (path_place p)) eqn:Hk;
    intros [= <-]. done.
Qed.

Lemma tree_leaf_no_key p n n' : tree_leaf_name p = Some n → ¬ created_key n' n.
Proof.
  intros (-> & _ & Hk)%tree_leaf_name_spec (l & [name ks] & k & rest & _ & Hin & Hn). rewrite Hn in Hk.
  unfold no_key in Hk. rewrite reverse_app in Hk. cbn in Hk. destruct ks as [ks|]; [|by destruct Hin].
  apply andb_true_iff in Hk as [Hk _]. apply bool_decide_eq_true in Hk. cbn in Hin. rewrite Hk in Hin. by destruct Hin.
Qed.

Lemma tree_Get_leaf t p n :
  tree_ok t → tree_leaf_name p = Some n →
  match tree_leaf_at t n with
  | Some v => ∃ x q, SetTxn.Get t p = Ok ([SetTxn.mkData v x], true) ∧ ToGNMIPath x = Ok q ∧ tree_leaf_name (Some q) = Some n
  | None => SetTxn.Get t p = Ok ([], false)
  end.
Proof.
  intros Hok Hn. pose proof Hn as (-> & Hleaf & Hk)%tree_leaf_name_spec.
  destruct p as [full|]; [|by destruct (leaf_path_elems _ Hleaf) as ([] & ? & ? & [=] & _)].
  pose proof (leaf_one_node full t Hleaf Hok) as Hone.
  pose proof (Get_one_node json_Unmarshal mo value_of node_Interface entry_ReadOnly IsTypeScalar EncodeTypedValue field_text
                full t Hone) as Hget.
  rewrite tree_leaf_at_value by done. destruct (value_at _ t) as [v|]; [|exact Hget].
  exists (ToXPath (Some full)), (node_path full). split; [exact Hget|]. destruct Hone as (_ & Hp & _).
  split; [by apply node_path_parse|]. unfold tree_leaf_name. by rewrite node_path_place, Hleaf, Hk.
Qed.

(** A value that a leaf has in some tree. *)
Definition tree_leaf_value (n : place) (v : goval) : Prop := ∃ t, tree_ok t ∧ tree_leaf_at t n = Some v.

#[local] Instance tree_leaves : LeafStore goval goval typedValue place.
Proof.
  refine {|
    store_ok := tree_ok; leaf_name := tree_leaf_name; leaf_at := tree_leaf_at; leaf_value := tree_leaf_value;
    leaf_typed := leaf_document; entry_key := created_key
  |}.
  - intros p n (-> & Hleaf & _)%tree_leaf_name_spec Hnil. apply leaf_path_elems in Hleaf as (l & e & e0 & Hl & _).
    rewrite Hl in Hnil. by destruct l.
  - exact tree_leaf_no_key.
  - intros t n v Hok Hv. by exists t.
  - exact tree_Get_leaf.
  - intros t p n v Hok (-> & Hleaf & _)%tree_leaf_name_spec (t0 & Hok0 & Hv).
    destruct (WriteValue_at p t t0 v Hleaf Hok Hok0 Hv) as (t' & Hw & [Hok' _ Hother] & Hv'). by exists t'.
  - intros t p n Hok (-> & Hleaf & Hk)%tree_leaf_name_spec. by apply DeleteValue_at.
  - intros t p n w t' err Hok (-> & Hleaf & _)%tree_leaf_name_spec Hw Hrun.
    apply outcome_bind_Ok in Hrun as ([t1 r] & Hrun & [= <- <-]).
    destruct (near_WriteTypedValue p w t Hleaf Hw Hok t1 r Hrun) as [Hok' _ Hother]. done.
  - intros t p n t' err Hok (-> & Hleaf & Hk)%tree_leaf_name_spec Hrun.
    destruct (DeleteNode_tree p t t' err Hleaf Hk Hok Hrun) as (_ & Hok' & _ & Hother). done.
Defined.
End tree.
