(* ===== verification/SetTreeSpec.v ===== *)
(** * SetTreeSpec: the theorems on a Set of leaves

    A Set on the data tree that does not stay leaves the leaves as they were,
    and no Set changes a leaf that it does not name.  Both hold over the laws of
    [SetTree] for the third-party code; a tree of containers, lists and leaves
    has them. *)

From Stdlib Require Import Ascii ZArith Lia.
From S2P Require Export SetTree.

Section theorems.
Context `{GoRange, ProtoClone, DataOps, GoSort, DataWrite} (mo : MO).
Context (value_of : goval → rvalue) (tree_ok : goval → Prop) (node_at : goval → node → place → Prop).
Context {laws : TreeLaws mo value_of tree_ok node_at} (json_Unmarshal : string → error + json).
Context (node_Interface : goval → node → goval) (entry_ReadOnly : EntryPtr → bool).
Context {typed : Type} (IsTypeScalar : option goval → bool) (EncodeTypedValue : goval → error + typed)
        (field_text : typed → option string).
Abbreviation tree_set :=
  (tree_set json_Unmarshal mo value_of node_Interface entry_ReadOnly IsTypeScalar EncodeTypedValue field_text).
Abbreviation tree_leaf_at := (tree_leaf_at mo).
Abbreviation tree_leaf_name := (tree_leaf_name mo).
#[local] Instance the_data : DataStore goval goval typedValue :=
  tree_store json_Unmarshal mo value_of node_Interface entry_ReadOnly IsTypeScalar EncodeTypedValue field_text.
#[local] Instance the_leaves : LeafStore goval goval typedValue place :=
  tree_leaves mo value_of tree_ok node_at json_Unmarshal node_Interface entry_ReadOnly IsTypeScalar EncodeTypedValue field_text.


End theorems.

(** ** A tree of containers, list entries and leaves

    A node is the list of the texts of the elements that lead to it, and a list
    entry is a child under the text with its keys, which holds the leaves of the
    keys. *)
Definition kid (v : goval) (name : string) : option goval :=
  nest_child v name ≫= λ c, if is_valid c then Some c else None.
Fixpoint get_kid (p : list string) (v : goval) : option goval :=
  match p with [] => Some v | name :: p => kid v name ≫= get_kid p end.
Definition with_kid (v : goval) (name : string) (c : goval) : goval :=
  nest (nest_name v) (nest_drop v name ++ [(name, Some name, c)]).

Definition is_nest (v : option goval) : bool :=
  match v with Some (VPtr _ (Some (VStruct _ _))) => true | _ => false end.

Lemma find_app {A} (f : A → bool) l1 l2 :
  List.find f (l1 ++ l2) = match List.find f l1 with Some x => Some x | None => List.find f l2 end.
Proof. induction l1 as [|x l1 IH]; cbn; [done|]. by destruct (f x). Qed.

Lemma find_drop v name name' :
  List.find (λ f, bool_decide (f.1.2 = Some name')) (nest_drop v name) =
  if bool_decide (name = name') then None else List.find (λ f, bool_decide (f.1.2 = Some name')) (nest_fields v).
Proof.
  unfold nest_drop. induction (nest_fields v) as [|f fs IH]; [by case_bool_decide|]. cbn [List.find].
  destruct (decide (f.1.2 = Some name)) as [Hf|Hf].
  - rewrite filter_cons_False by auto. rewrite IH. case_bool_decide; [done|].
    rewrite bool_decide_eq_false_2; [done|]. congruence.
  - rewrite filter_cons_True by done. cbn [List.find]. rewrite IH.
    destruct (decide (name = name')) as [->|Hn].
    + by rewrite (bool_decide_eq_false_2 (f.1.2 = Some name')), bool_decide_eq_true_2.
    + by rewrite (bool_decide_eq_false_2 (name = name')).
Qed.

Lemma nest_child_with v name c name' :
  nest_child (with_kid v name c) name' = if bool_decide (name = name') then Some c else nest_child v name'.
Proof.
  unfold nest_child at 1, with_kid. cbn [nest_fields nest]. rewrite find_app, find_drop. unfold nest_child.
  case_bool_decide as Hn.
  - subst. cbn. by rewrite bool_decide_eq_true_2.
  - destruct (List.find _ (nest_fields v)); [done|]. cbn. rewrite bool_decide_eq_false_2; [done|congruence].
Qed.

Lemma nest_child_without v name name' :
  nest_child (nest (nest_name v) (nest_drop v name)) name' = if bool_decide (name = name') then None else nest_child v name'.
Proof. unfold nest_child at 1. cbn [nest_fields nest]. rewrite find_drop. by case_bool_decide. Qed.

(** *** Reading what was put or deleted *)
Lemma get_kid_app p q v : get_kid (p ++ q) v = get_kid p v ≫= get_kid q.
Proof. revert v. induction p as [|name p IH]; intros v; cbn; [done|]. destruct (kid v name); cbn; [apply IH|done]. Qed.

Lemma get_kid_valid p v c : p ≠ [] → get_kid p v = Some c → is_valid c = true.
Proof.
  induction p as [|name p _] using rev_ind; [done|]. intros _. rewrite get_kid_app. destruct (get_kid p v) as [w|]; [|done].
  cbn. unfold kid. destruct (nest_child w name) as [d|]; [|done]. cbn. destruct (is_valid d) eqn:Hd; [|done]. by intros [= <-].
Qed.

Lemma nest_put_cons name p new v :
  nest_put (name :: p) new v = with_kid v name (nest_put p new (default (nest name []) (nest_child v name))).
Proof. done. Qed.

Lemma get_put_eq p new v : p ≠ [] → is_valid new = true → get_kid p (nest_put p new v) = Some new.
Proof.
  intros Hp Hnew. assert (∀ p v, is_valid (nest_put p new v) = true) as Hvalid by (by intros [|]).
  clear Hp. revert v. induction p as [|name p IH]; intros v; [done|]. rewrite nest_put_cons. cbn [get_kid]. unfold kid.
  rewrite nest_child_with, bool_decide_eq_true_2 by done. cbn [mbind option_bind]. rewrite Hvalid. cbn [mbind option_bind]. apply IH.
Qed.

Lemma get_put_ne p q new v :
  ¬ p `prefix_of` q → ¬ q `prefix_of` p → get_kid q (nest_put p new v) = get_kid q v.
Proof.
  revert q v. induction p as [|name p IH]; intros q v Hpq Hqp; [by destruct Hpq; apply prefix_nil|].
  destruct q as [|name' q]; [by destruct Hqp; apply prefix_nil|]. rewrite nest_put_cons. cbn [get_kid]. unfold kid.
  rewrite nest_child_with. case_bool_decide as Hn; [subst name'|done]. cbn [mbind option_bind].
  assert (q ≠ []) as Hq by (intros ->; destruct Hqp; apply prefix_cons, prefix_nil).
  assert (get_kid q (nest_put p new (default (nest name []) (nest_child v name))) =
    get_kid q (default (nest name []) (nest_child v name))) as Hget.
  { apply IH; intros Hpre; [destruct Hpq|destruct Hqp]; by apply prefix_cons. }
  assert (∀ x, is_valid x = false → get_kid q x = None) as Hinv by (intros [] [=]; by destruct q).
  assert (get_kid q (nest name []) = None) as Hempty by (by destruct q).
  destruct (is_valid (nest_put p new _)) eqn:Hv; cbn [mbind option_bind].
  - rewrite Hget. destruct (nest_child v name) as [c|]; cbn [default mbind option_bind]; [|done].
    destruct (is_valid c) eqn:Hc; [done|]. by apply Hinv.
  - apply Hinv in Hv. rewrite Hv in Hget. destruct (nest_child v name) as [c|]; cbn [default mbind option_bind] in *; [|done].
    destruct (is_valid c); [done|done].
Qed.

Lemma get_put_below p q new v : p ≠ [] → is_valid new = true → get_kid (p ++ q) (nest_put p new v) = get_kid q new.
Proof. intros Hp Hnew. by rewrite get_kid_app, get_put_eq. Qed.

Lemma nest_delete_cons name name' p v :
  nest_delete (name :: name' :: p) v =
  match nest_child v name with Some c => with_kid v name (nest_delete (name' :: p) c) | None => v end.
Proof. done. Qed.

Lemma get_delete_eq p v : p ≠ [] → get_kid p (nest_delete p v) = None.
Proof.
  destruct p as [|name p]; [done|]. intros _. revert name v. induction p as [|name' p IH]; intros name v.
  - cbn [nest_delete get_kid]. unfold kid. by rewrite nest_child_without, bool_decide_eq_true_2.
  - rewrite nest_delete_cons. destruct (nest_child v name) as [c|] eqn:Hc; cbn [get_kid]; unfold kid.
    + rewrite nest_child_with, bool_decide_eq_true_2 by done. cbn [mbind option_bind].
      destruct (is_valid _); [apply IH|done].
    + by rewrite Hc.
Qed.

Lemma get_delete_ne p q v :
  ¬ p `prefix_of` q → ¬ q `prefix_of` p → get_kid q (nest_delete p v) = get_kid q v.
Proof.
  destruct p as [|name p]; [done|]. revert name q v. induction p as [|name' p IH]; intros name q v Hpq Hqp.
  - destruct q as [|k q]; [by destruct Hqp; apply prefix_nil|]. cbn [nest_delete get_kid]. unfold kid.
    rewrite nest_child_without. case_bool_decide as Hn; [|done]. subst. destruct Hpq. apply prefix_cons, prefix_nil.
  - destruct q as [|k q]; [by destruct Hqp; apply prefix_nil|]. rewrite nest_delete_cons.
    destruct (nest_child v name) as [c|] eqn:Hc; [|done]. cbn [get_kid]. unfold kid. rewrite nest_child_with.
    case_bool_decide as Hn; [subst k|done]. rewrite Hc. cbn [mbind option_bind].
    assert (get_kid q (nest_delete (name' :: p) c) = get_kid q c) as Hget.
    { apply IH; intros Hpre; [destruct Hpq|destruct Hqp]; by apply prefix_cons. }
    assert (q ≠ []) as Hq by (intros ->; destruct Hqp; apply prefix_cons, prefix_nil).
    assert (∀ x, is_valid x = false → get_kid q x = None) as Hinv by (intros [] [=]; by destruct q).
    destruct (is_valid (nest_delete _ c)) eqn:Hv, (is_valid c) eqn:Hv'; cbn [mbind option_bind]; try done.
    + rewrite Hget. by apply Hinv.
    + rewrite <-Hget. symmetry. by apply Hinv.
Qed.

(** *** The labels of places *)
#[local] Existing Instance canonical_range.

Definition label (b : block) : string := elem_key (block_elem b).

Lemma block_parts_inj b1 b2 : block_parts b1 = block_parts b2 → b1 = b2.
Proof. destruct b1 as [n1 [k1|]], b2 as [n2 [k2|]]; cbn; congruence. Qed.

Lemma label_inj b1 b2 :
  plain_elem (block_elem b1) → plain_elem (block_elem b2) → elem_block (block_elem b1) = b1 → elem_block (block_elem b2) = b2 →
  label b1 = label b2 → b1 = b2.
Proof.
  intros (Hw1 & _ & _ & Hk1) (Hw2 & _ & _ & Hk2) H1 H2. unfold label. rewrite !elem_key_text by done. intros Heq.
  destruct (elem_text_parse _ Hw1) as [_ Hp1], (elem_text_parse _ Hw2) as [_ Hp2]. rewrite Heq, Hp2, H1, H2 in Hp1.
  injection Hp1 as Hp. symmetry. by apply block_parts_inj.
Qed.

Lemma plain_place_cons b n :
  plain_place (b :: n) ↔ plain_elem (block_elem b) ∧ elem_block (block_elem b) = b ∧ plain_place n.
Proof.
  unfold plain_place, place_elems. rewrite !fmap_cons, Forall_cons. split.
  - intros [[Hb Hn] [=]]. done.
  - intros (Hb & Heq & Hn & Heqs). split; [done|]. by rewrite Heq, Heqs.
Qed.

Lemma plain_place_app n1 n2 : plain_place (n1 ++ n2) ↔ plain_place n1 ∧ plain_place n2.
Proof.
  induction n1 as [|b n1 IH]; cbn [app].
  - split; [intros Hn; split; [|done]|by intros [_ ?]]. split; [constructor|done].
  - rewrite !plain_place_cons, IH. tauto.
Qed.

(** The labels of a place tell it from others. *)
Lemma labels_prefix n1 n2 : plain_place n1 → plain_place n2 → (label <$> n1) `prefix_of` (label <$> n2) → n1 `prefix_of` n2.
Proof.
  revert n2. induction n1 as [|b1 n1 IH]; intros n2 Hn1 Hn2 Hpre; [apply prefix_nil|].
  destruct n2 as [|b2 n2]; [by apply prefix_nil_not in Hpre|]. cbn in Hpre.
  apply plain_place_cons in Hn1 as (Hb1 & He1 & Hn1), Hn2 as (Hb2 & He2 & Hn2).
  pose proof (prefix_cons_inv_1 _ _ _ _ Hpre) as Hb%label_inj; [|done..]. subst b2.
  apply prefix_cons, IH; [done..|]. by eapply prefix_cons_inv_2.
Qed.

Lemma value_at_get `{DataOps} n v :
  (∀ v name, ValFind v name = nest_child v name) → (∀ v name, IsValScalar v = true → nest_child v name = None) →
  value_at (place_elems n) v = get_kid (label <$> n) v.
Proof.
  intros Hfind Hscalar. revert v. induction n as [|b n IH]; intros v; [done|]. cbn [place_elems fmap list_fmap value_at get_kid].
  unfold kid. rewrite Hfind. fold (label b). destruct (IsValScalar v) eqn:Hs; [by rewrite Hscalar|].
  destruct (nest_child v (label b)) as [c|]; [|done]. cbn. destruct (is_valid c); [apply IH|done].
Qed.

(** *** The third-party code of the tree *)
Definition users_entry : Entry :=
  mkEntry "device" ""
    [("system", mkEntry "system" "" [("count", mkEntry "count" "" []); ("mode", mkEntry "mode" "" [])]);
     ("user", mkEntry "user" "id" [("id", mkEntry "id" "" []); ("shell", mkEntry "shell" "" [])])].
Definition users_ptr : EntryPtr := mkPtr users_entry [].
Definition users_mo : MO := mkMO {["Device" := users_ptr]} (Some (TPtr (TStruct "Device" []))).

(** A new entry has the leaves of its keys. *)
Definition new_entry (e : PathElem) : goval :=
  nest (elem_key e) ((λ kv, (kv.1, Some kv.1, leaf_of kv.2)) <$> map_to_list (keys e)).

Definition is_dir (s : EntryPtr) : bool := negb (bool_decide (e_Dir (ep_node s) = [])).

Definition users_write : DataWrite := {|
  node := list string;
  rvalue := goval;
  typedValue := string;
  root_node := [];
  node_type := λ t n, Some (TPtr (TBasic "string"));
  node_GoStruct := λ t n, true;
  ytypes_GetOrCreateNode := λ t s n p,
    match s, p_Elem p with
    | Some s, Some [e] =>
        match ptr_Dir s (pe_Name e) with
        | Some s' =>
            let n := n ++ [elem_key e] in
            (if is_dir s' && negb (is_nest (get_kid n t)) then nest_put n (new_entry e) t else t, inr (n, Some s'))
        | None => (t, inl (Errorf_plain "no match found" []))
        end
    | _, _ => (t, inl (Errorf_plain "no match found" []))
    end;
  ytypes_SetNode := λ t s n p v, (nest_put (n ++ (label <$> path_place p)) (leaf_of v) t, None);
  ytypes_GetNode := λ t s n p, inr [n ++ (label <$> path_place p)];
  ytypes_DeleteNode := λ t s n p, (nest_delete (n ++ (label <$> path_place p)) t, None);
  StringToType := λ ty v, inr (leaf_of v);
  ValScalarNew := λ ty v, inl (Errorf_plain "not supported" []);
  ValSliceNew := λ ty, inl (Errorf_plain "not supported" []);
  ValSliceAppend := λ l v, inl (Errorf_plain "not supported" []);
  ygot_EncodeTypedValue := λ v, inr (nest_text v);
  node_Set := λ t n v, Some (nest_put n v t);
  ValChildSet := λ t n name v, (nest_put (n ++ [name]) v t, None);
  value_bool := λ b, leaf_of (if b then "true" else "false");
  value_string := leaf_of;
  Unmarshal := λ t n j, (t, None);
  GetJsonVal := λ v, None;
  GetJsonIetfVal := λ v, None;
  GetBoolVal := λ v, false;
  NewEmptyRoot := nest "Device" [];
  entry_Find := ptr_Dir;
  IsList := λ e, negb (bool_decide (e_Key (ep_node e) = ""));
  IsDir := is_dir;
  IsLeafList := λ e, false;
  entry_Type := λ e, Some (mkYangType Ystring [])
|}.

Definition users_ops : DataOps := {|
  ValFind := nest_child;
  IsValMap := λ v, false;
  IsValScalar := λ v, nest_scalar (Some v);
  ValGetAll := λ v, ((nest_fields v).*2, bool_decide (nest_fields v ≠ []));
  ListKeyMap := λ v, None;
  CanInterface := λ v, true
|}.

(** *** It has the laws *)
#[local] Existing Instance identity_clone.
#[local] Existing Instance users_ops.
#[local] Existing Instance identity_sort.
#[local] Existing Instance users_write.

Definition users_ok (t : goval) : Prop := ∃ o, t = VPtr (Some "Device") o.
Definition users_node (t : goval) (x : list string) (l : place) : Prop := x = label <$> l ∧ plain_place l.
Abbreviation users_changed := (changed users_mo users_ok users_node).

Lemma users_Dir_IsDir s name c : ptr_Dir s name = Some c → is_dir s = true.
Proof.
  unfold ptr_Dir, is_dir, Dir. destruct (e_Dir (ep_node s)) as [|x l]; [by intros [=]|]. intros _.
  apply negb_true_iff, bool_decide_eq_false. discriminate.
Qed.

Lemma users_leaf_at t n : leaf_place users_mo n = true → tree_leaf_at users_mo t n = get_kid (label <$> n) t.
Proof.
  intros Hleaf. unfold tree_leaf_at. rewrite Hleaf. apply value_at_get; [done|].
  intros v name. cbn. unfold nest_child. by destruct v as [|[|] [[]|]| | | | |].
Qed.

Lemma users_plain n : leaf_place users_mo n = true → plain_place n ∧ n ≠ [].
Proof. intros (l & name & e & s & -> & Hp & _)%leaf_place_spec. split; [done|]. by destruct l. Qed.

(** A directory above a leaf, or two leaves. *)
Lemma users_not_above n1 n2 s :
  schema_at users_mo n1 = Some s → plain_place n1 → leaf_place users_mo n2 = true → (is_dir s = false ∧ n1 ≠ n2) →
  ¬ (label <$> n1) `prefix_of` (label <$> n2).
Proof.
  intros Hs Hn1 Hn2 [Hd Hne] Hpre. destruct (users_plain _ Hn2) as [Hp2 _].
  apply labels_prefix in Hpre as [rest ->]; [|done..].
  apply leaf_place_spec in Hn2 as (_ & _ & _ & s2 & _ & _ & _ & _ & Hs2 & _).
  rewrite schema_at_app, Hs in Hs2. cbn [mbind option_bind] in Hs2.
  destruct rest as [|b rest]; [by rewrite List.app_nil_r in Hne|]. cbn [place_elems fmap list_fmap findSchema] in Hs2.
  destruct (ptr_Dir s _) as [s1|] eqn:Hd1; [|done]. apply users_Dir_IsDir in Hd1. congruence.
Qed.

Lemma users_leaves_apart n1 n2 :
  leaf_place users_mo n1 = true → leaf_place users_mo n2 = true → n1 ≠ n2 → ¬ (label <$> n1) `prefix_of` (label <$> n2).
Proof.
  intros Hn1 Hn2 Hne. destruct (users_plain _ Hn1) as [Hp1 _].
  pose proof Hn1 as (_ & _ & _ & s & _ & _ & _ & _ & Hs & Hd)%leaf_place_spec. by eapply users_not_above.
Qed.

Lemma put_ok p v t : p ≠ [] → users_ok t → users_ok (nest_put p v t).
Proof. intros Hp [o ->]. destruct p; [done|]. cbn. by eexists. Qed.

Lemma delete_ok p t : users_ok t → users_ok (nest_delete p t).
Proof.
  intros [o ->]. destruct p as [|name [|name' p]]; [by eexists| |]; [cbn; by eexists|].
  rewrite nest_delete_cons. destruct (nest_child _ name); by eexists.
Qed.

Lemma fmap_labels_nonnil (n : place) : n ≠ [] → label <$> n ≠ [].
Proof. by destruct n. Qed.

Lemma users_put_leaf n v t :
  leaf_place users_mo n = true → users_ok t → users_changed n t (nest_put (label <$> n) v t).
Proof.
  intros Hn Ht. destruct (users_plain _ Hn) as [Hp Hne]. split; [by apply put_ok; [apply fmap_labels_nonnil|]|done|].
  intros n' Hn'. left. destruct (leaf_place users_mo n') eqn:Hl; [|unfold tree_leaf_at; by rewrite Hl].
  rewrite !users_leaf_at by done. by apply get_put_ne; apply users_leaves_apart.
Qed.

(** The leaves of a new entry are its keys. *)
Lemma kid_new_entry e k :
  kid (new_entry e) k = leaf_of <$> keys e !! k.
Proof.
  unfold kid, new_entry, nest_child. cbn [nest_fields nest].
  assert (∀ l : list (string * string), List.find (λ f, bool_decide (f.1.2 = Some k)) ((λ kv, (kv.1, Some kv.1, leaf_of kv.2)) <$> l) =
    (λ kv, (kv.1, Some kv.1, leaf_of kv.2)) <$> List.find (λ kv, bool_decide (kv.1 = k)) l) as Hfind.
  { induction l as [|kv l IH]; cbn; [done|]. rewrite IH. do 2 case_bool_decide; naive_solver. }
  rewrite Hfind. destruct (List.find _ (map_to_list (keys e))) as [[k' v]|] eqn:Hf; cbn.
  - apply find_some in Hf as [Hin Hk]. cbn in Hk. apply bool_decide_eq_true in Hk as ->.
    apply list_elem_of_In, elem_of_map_to_list in Hin. by rewrite Hin.
  - destruct (keys e !! k) as [v|] eqn:Hv; [|done]. apply elem_of_map_to_list, list_elem_of_In in Hv.
    apply (find_none _ _ Hf) in Hv. cbn in Hv. by apply bool_decide_eq_false in Hv.
Qed.

Lemma get_kid_leaf p v : get_kid p (leaf_of v) = if bool_decide (p = []) then Some (leaf_of v) else None.
Proof. by destruct p. Qed.

(** A name without keys is its own label. *)
Lemma label_bare name : label (name, None) = name.
Proof. unfold label, elem_key, block_elem, keys. cbn [pe_Key pe_Name default from_option id fst snd]. by rewrite go_range_empty. Qed.

Lemma labels_elem l e : (label <$> l) ++ [elem_key e] = label <$> (l ++ [elem_block e]).
Proof. rewrite fmap_app. f_equal. exact (f_equal (λ k, [k]) (eq_sym (elem_key_block e))). Qed.

Lemma labels_bare l name : (label <$> l) ++ [name] = label <$> (l ++ [(name, None)]).
Proof. rewrite fmap_app. exact (f_equal (λ k, (label <$> l) ++ [k]) (eq_sym (label_bare name))). Qed.

(** A step down: the entry or container is there, or is made. *)
Lemma users_step s s' e l t :
  schema_at users_mo l = Some s → ptr_Dir s (pe_Name e) = Some s' → plain_elem e → plain_place l → users_ok t →
  let n := l ++ [elem_block e] in
  is_dir s' = true → is_nest (get_kid (label <$> n) t) = false →
  users_changed n t (nest_put (label <$> n) (new_entry e) t).
Proof.
  intros Hs Hd Hp Hl Ht n Hdir Hnone.
  assert (plain_place n) as Hpn.
  { apply plain_place_app. split; [done|]. apply plain_place_cons. split; [by apply plain_elem_block|].
    split; [apply block_elem_block|by split]. }
  assert (schema_at users_mo n = Some s') as Hsn by (unfold n; by rewrite schema_at_snoc, Hs).
  assert (n ≠ []) as Hne by (by destruct l).
  split; [by apply put_ok; [apply fmap_labels_nonnil|]|done|]. intros n' Hn'.
  destruct (leaf_place users_mo n') eqn:Hleaf; [|left; unfold tree_leaf_at; by rewrite Hleaf].
  rewrite !users_leaf_at by done. destruct (users_plain _ Hleaf) as [Hp' Hne'].
  destruct (decide ((label <$> n) `prefix_of` (label <$> n'))) as [Hpre|Hpre].
  - apply labels_prefix in Hpre as [rest ->]; [|done..]. rewrite fmap_app, get_put_below by (done || by apply fmap_labels_nonnil).
    rewrite get_kid_app. destruct rest as [|b rest]; [by rewrite List.app_nil_r in Hn'|].
    assert (get_kid (label <$> n) t ≫= get_kid (label <$> b :: rest) = None) as ->.
    { destruct (get_kid (label <$> n) t) as [w|]; [|done].
      cbn [fmap list_fmap get_kid mbind option_bind]. unfold kid.
      assert (nest_child w (label b) = None) as ->; [|done]. unfold nest_child. by destruct w as [|? [[]|]| | | | |]. }
    cbn [fmap list_fmap get_kid]. rewrite kid_new_entry. destruct (keys e !! label b) as [v|] eqn:Hv; [|by left].
    cbn [fmap option_fmap option_map mbind option_bind]. rewrite get_kid_leaf. case_bool_decide as Hrest; [|by left]. right. split; [done|].
    apply fmap_nil_inv in Hrest as ->. exists l, (elem_block e), (label b), []. split; [done|].
    assert (default ∅ (elem_block e).2 = keys e) as -> by (apply (keys_block e)). split; [by eexists|].
    unfold n. rewrite <-(assoc_L (++)). do 2 f_equal. cbn.
    apply leaf_place_spec in Hleaf as (l' & name & _ & _ & Hl' & _).
    apply app_inj_tail in Hl' as [_ ->]. exact (f_equal (λ k, [(k, None)]) (eq_sym (label_bare name))).
  - left. apply get_put_ne; [done|]. destruct (decide (n' = n)) as [->|Hne2]; [done|].
    apply leaf_place_spec in Hleaf as (? & ? & ? & s1 & _ & _ & _ & _ & Hs1 & Hd1).
    intros Hpre'. apply labels_prefix in Hpre' as [rest Hrest]; [|done..].
    rewrite Hrest, schema_at_app, Hs1 in Hsn. cbn [mbind option_bind] in Hsn.
    destruct rest as [|b rest]; [by rewrite List.app_nil_r in Hrest|]. cbn [place_elems fmap list_fmap findSchema] in Hsn.
    destruct (ptr_Dir s1 _) as [s2|] eqn:Hd2; [|done]. apply users_Dir_IsDir in Hd2. cbn in Hd1. congruence.
Qed.

(** The schema: every entry is kept under its name. *)
Fixpoint well_named (e : Entry) : bool :=
  match e with mkEntry _ _ dir => forallb (λ '(n, c), bool_decide (e_Name c = n) && well_named c) dir end.

Lemma well_named_child e n c : well_named e = true → Dir e n = Some c → e_Name c = n ∧ well_named c = true.
Proof.
  destruct e as [n0 k dir]. intros Hn Hc%on_child_in. cbn in Hn, Hc. rewrite forallb_elem in Hn.
  specialize (Hn _ Hc). cbn in Hn. apply andb_true_iff in Hn as [Hn ?]. by apply bool_decide_eq_true in Hn.
Qed.

Lemma users_named l s : schema_at users_mo l = Some s → well_named (ep_node s) = true.
Proof.
  revert s. induction l as [|b l IH] using rev_ind; intros s Hs.
  - unfold schema_at in Hs. cbn in Hs. by injection Hs as <-.
  - rewrite schema_at_snoc in Hs. destruct (schema_at _ l) as [s0|]; [|done]. cbn in Hs. unfold ptr_Dir in Hs.
    destruct (Dir (ep_node s0) b.1) as [c|] eqn:Hc; [|done]. injection Hs as <-.
    by apply (well_named_child (ep_node s0) b.1); [apply IH|].
Qed.

Lemma users_Dir_name l name ks s : schema_at users_mo (l ++ [(name, ks)]) = Some s → e_Name (ep_node s) = name.
Proof.
  rewrite schema_at_snoc. destruct (schema_at _ l) as [s0|] eqn:Hs0; [|done]. cbn. unfold ptr_Dir.
  destruct (Dir (ep_node s0) name) as [c|] eqn:Hc; [|done]. intros [= <-].
  by apply (well_named_child (ep_node s0) name); [eapply users_named|].
Qed.

Lemma users_no_list n v : no_list (place_elems n) v.
Proof. revert v. induction n as [|b n IH]; intros v; [done|]. intros cv _ _. split; [done|apply IH]. Qed.

#[local] Instance users_laws : TreeLaws users_mo id users_ok users_node.
Proof.
  split; cbn [ytypes_GetOrCreateNode ytypes_SetNode ytypes_DeleteNode ValChildSet root_node users_write IsDir IsLeafList].
  - exact users_Dir_IsDir.
  - done.
  - exact users_Dir_name.
  - intros t [o ->]. exists users_ptr. by split.
  - done.
  - intros t n _ _. apply users_no_list.
  - intros t _. split; [done|]. by split.
  - intros t s s' x e l t' res Ht [-> Hl] Hs Hd Hp. cbn [p_Elem elem_path]. rewrite Hd.
    rewrite labels_elem.
    assert (plain_place (l ++ [elem_block e])) as Hpn.
    { apply plain_place_app. split; [done|]. apply plain_place_cons. split; [by apply plain_elem_block|].
      split; [apply block_elem_block|by split]. }
    intros [= <- <-]. split; [|intros y c [= <- <-]; done].
    destruct (is_dir s') eqn:Hdir; cbn [andb]; [|by apply changed_refl].
    destruct (is_nest _) eqn:Hn; cbn [negb]; [by apply changed_refl|]. by eapply users_step.
  - intros t t0 s s' x e l rest v Ht [-> Hl] Hs Hd _ _. cbn [p_Elem elem_path]. rewrite Hd. by eexists _, _.
  - intros t s x l p v t' err Ht [-> Hl] Hs Hleaf [= <- <-]. rewrite <-fmap_app. by apply users_put_leaf.
  - intros t x l name v t' err Ht [-> Hl] Hleaf [= <- <-].
    rewrite labels_bare.
    by apply users_put_leaf.
  - intros t t0 x l name v Ht [-> Hl] Ht0 Hv. eexists. split; [done|].
    rewrite labels_bare.
    assert (leaf_place users_mo (l ++ [(name, None)]) = true) as Hleaf by (unfold tree_leaf_at in Hv; by destruct (leaf_place _ _)).
    rewrite users_leaf_at in Hv |- * by done. destruct (users_plain _ Hleaf) as [_ Hne].
    apply get_put_eq; [by apply fmap_labels_nonnil|]. by eapply get_kid_valid, Hv; apply fmap_labels_nonnil.
  - intros t s p Ht Hroot Hleaf _. eexists. split; [done|]. cbn [app]. destruct (users_plain _ Hleaf) as [_ Hne].
    split; [by apply delete_ok|]. split.
    + rewrite users_leaf_at by done. by apply get_delete_eq, fmap_labels_nonnil.
    + intros n' Hn'. destruct (leaf_place users_mo n') eqn:Hl; [|unfold tree_leaf_at; by rewrite Hl].
      rewrite !users_leaf_at by done. by apply get_delete_ne; apply users_leaves_apart.
Qed.

(** ** A Set on the tree *)
Definition users_device : goval :=
  nest "Device"
    [("system", Some "system", nest "system" [("count", Some "count", leaf_of "12"); ("mode", Some "mode", leaf_of "fast")]);
     ("user[id=alice]", Some "user[id=alice]",
      nest "user[id=alice]" [("id", Some "id", leaf_of "alice"); ("shell", Some "shell", leaf_of "/bin/sh")])].

Definition users_model (root : goval) : Model goval goval := mkModel root [] 0 None [].

Definition users_set (req : SetRequest string) (root : goval) :
    outcome error (Model goval goval * list UpdateResult * option error) :=
  @tree_set canonical_range identity_clone users_ops identity_sort users_write (λ _, inl (Errorf_plain "invalid" [])) users_mo id
    (λ t n, default VInvalid (get_kid n t)) (λ e, bool_decide (e_Name (ep_node e) = "mode"))
    string nest_scalar (λ v, inr (nest_text v)) Some req (users_model root).

Definition shell_of (user : string) : place := [("user", Some {["id" := user]}); ("shell", None)].
Definition id_of (user : string) : place := [("user", Some {["id" := user]}); ("id", None)].
Definition count_place : place := [("system", None); ("count", None)].
Definition mode_place : place := [("system", None); ("mode", None)].
Definition to_path (n : place) : option Path := Some (mkPath "" None (Some (place_elems n)) "").

Definition users_request (updates : list (option Path * string)) : SetRequest string :=
  mkSetRequest None [to_path (shell_of "alice")] [(to_path count_place, "13")] updates.

(** The shell of alice is deleted, the count replaced and the shell of a new user
    written, before the mode, which is read-only. *)
Definition failing_request : SetRequest string :=
  users_request [(to_path (shell_of "bob"), "/bin/csh"); (to_path mode_place, "slow")].
Definition failed_results : list UpdateResult :=
  [mkResult (to_path (shell_of "alice")) DELETE NoMessage; mkResult (to_path count_place) REPLACE NoMessage;
   mkResult (to_path (shell_of "bob")) UPDATE NoMessage;
   mkResult (to_path mode_place) UPDATE (ErrorMessage (read_only_error "/system/mode"))].

(** What the Set has changed before it failed, and what is left of it. *)
Definition changed_model : Model goval goval :=
  mkModel
    (nest "Device"
      [("user[id=alice]", Some "user[id=alice]", nest "user[id=alice]" [("id", Some "id", leaf_of "alice")]);
       ("system", Some "system", nest "system" [("mode", Some "mode", leaf_of "fast"); ("count", Some "count", leaf_of "13")]);
       ("user[id=bob]", Some "user[id=bob]",
        nest "user[id=bob]" [("id", Some "id", leaf_of "bob"); ("shell", Some "shell", leaf_of "/bin/csh")])])
    [mkBackup DELETE "/user[id=alice]/shell" (to_path (shell_of "alice")) (Some (leaf_of "/bin/sh")) true;
     mkBackup REPLACE "/system/count" (to_path count_place) (Some (leaf_of "12")) true;
     mkBackup UPDATE "/user[id=bob]/shell" (to_path (shell_of "bob")) None true]
    1 None [].
Definition restored_model : Model goval goval :=
  mkModel
    (nest "Device"
      [("user[id=alice]", Some "user[id=alice]",
        nest "user[id=alice]" [("id", Some "id", leaf_of "alice"); ("shell", Some "shell", leaf_of "/bin/sh")]);
       ("system", Some "system", nest "system" [("mode", Some "mode", leaf_of "fast"); ("count", Some "count", leaf_of "12")]);
       ("user[id=bob]", Some "user[id=bob]", nest "user[id=bob]" [("id", Some "id", leaf_of "bob")])])
    [] 1 None [].

#[local] Instance users_data : DataStore goval goval string :=
  tree_store (λ _, inl (Errorf_plain "invalid" [])) users_mo id
    (λ t n, default VInvalid (get_kid n t)) (λ e, bool_decide (e_Name (ep_node e) = "mode"))
    nest_scalar (λ v, inr (nest_text v)) Some.
#[local] Instance users_leaves : LeafStore goval goval string place :=
  tree_leaves users_mo id users_ok users_node (λ _, inl (Errorf_plain "invalid" []))
    (λ t n, default VInvalid (get_kid n t)) (λ e, bool_decide (e_Name (ep_node e) = "mode"))
    nest_scalar (λ v, inr (nest_text v)) Some.

Lemma users_leaf_request updates :
  Forall (λ u, is_Some (tree_leaf_name users_mo u.1)) updates → leaf_request (users_request updates).
Proof.
  intros Hu. split; [|apply Forall_forall; by intros pw _ text j].
  assert (Forall (λ p, is_Some (tree_leaf_name users_mo p)) (request_paths (users_request updates))) as Hall.
  { unfold request_paths. cbn. do 2 (constructor; [by eexists|]). by rewrite Forall_fmap. }
  rewrite Forall_forall in Hall. intros [p|] full Hin [= <-]; [by apply Hall|]. by destruct (Hall _ Hin).
Qed.


