(* ===== verification/Responder.v ===== *)
(** * Responder: the goroutine that sends the responses of a Subscribe RPC

    Models the goroutine of [Server.Subscribe] in [gnmi/server/server.go], the
    channel of the session it takes from, and the end of a session in
    [stopSubSession] of [subscribe.go], which closes two channels the goroutine
    waits on.  The session and its runners put responses into the channel;
    what the stream does with a response is outside. *)

From S2P Require Export Prelude.

(** ** The goroutine *)
Section responder.
Context {response : Type}.

(** The capacity of [respchan]. *)
Definition respchan_cap : nat := 256.

(** The channel, whether the session was stopped (both channels are closed),
    what was given to [stream.Send], and whether the goroutine has returned. *)
Record responder : Type := mkResponder {
  respchan : list response;
  stopped : bool;
  sent : list response;
  returned : bool
}.

Definition start_responder : responder := mkResponder [] false [] false.

Inductive respond_action : Type :=
  | Put (resp : response)
  | Stop
  | TakeResponse
  | SeeShutdown.

(** The cases of the select, and what the session does; [None]: not possible
    now.  A send to the closed channel panics, in [Runner]. *)
Definition respond (act : respond_action) (s : responder) : option responder :=
  match act with
  | Put resp =>
      if negb (stopped s) && (length (respchan s) <? respchan_cap)
      then Some (mkResponder (respchan s ++ [resp]) (stopped s) (sent s) (returned s)) else None
  | Stop => if stopped s then None else Some (mkResponder (respchan s) true (sent s) (returned s))
  | TakeResponse =>
      if returned s then None
      else
        match respchan s with
        | resp :: q => Some (mkResponder q (stopped s) (sent s ++ [resp]) false)
        | [] => if stopped s then Some (mkResponder [] true (sent s) true) else None
        end
  | SeeShutdown =>
      if stopped s && negb (returned s) then Some (mkResponder (respchan s) (stopped s) (sent s) true) else None
  end.

Definition respond_step (s s' : responder) : Prop := ∃ act, respond act s = Some s'.

Fixpoint respond_all (acts : list respond_action) (s : responder) : option responder :=
  match acts with
  | [] => Some s
  | act :: acts => s ← respond act s; respond_all acts s
  end.

(** The responses that a run puts. *)
Definition put (act : respond_action) : list response := match act with Put resp => [resp] | _ => [] end.

(** ** Lemmas *)

(** Nothing is lost, repeated or reordered between the channel and the stream. *)
Lemma respond_fifo act s s' :
  respond act s = Some s' → sent s' ++ respchan s' = sent s ++ respchan s ++ put act.
Proof.
  destruct act; cbn; intros Hs; repeat case_match; try done; injection Hs as <-; cbn;
    rewrite ?app_nil_r, <-?(assoc_L (++)); try done; by repeat match goal with H : respchan _ = _ |- _ => rewrite H end.
Qed.

Lemma respond_all_fifo acts s s' :
  respond_all acts s = Some s' → sent s' ++ respchan s' = sent s ++ respchan s ++ (acts ≫= put).
Proof.
  revert s. induction acts as [|act acts IH]; intros s Hs; cbn in Hs.
  { injection Hs as ->. cbn. by rewrite app_nil_r. }
  apply bind_Some in Hs as (s1 & H1 & Hs). cbn [mbind list_bind].
  by rewrite (IH s1 Hs), (assoc_L (++)), (respond_fifo act s s1 H1), <-!(assoc_L (++)).
Qed.

(** After the stop, responses only move to the stream. *)
Lemma stopped_step act s s' :
  respond act s = Some s' → stopped s = true →
  stopped s' = true ∧ ∃ k, sent s' = sent s ++ take k (respchan s) ∧ respchan s' = drop k (respchan s).
Proof.
  destruct act; cbn; intros Hs Hst; rewrite ?Hst in Hs; cbn in Hs; repeat case_match; try done; injection Hs as <-;
    cbn; (split; [done|]).
  - exists 0. by rewrite app_nil_r.
  - by exists 1.
  - exists 0. by rewrite app_nil_r.
Qed.

Lemma take_all k s :
  returned s = false → k ≤ length (respchan s) →
  respond_all (replicate k TakeResponse) s =
    Some (mkResponder (drop k (respchan s)) (stopped s) (sent s ++ take k (respchan s)) false).
Proof.
  revert s. induction k as [|k IH]; intros [q st sn rt] Hr Hk; cbn in *.
  { rewrite app_nil_r, drop_0. by subst rt. }
  rewrite Hr. destruct q as [|resp q]; [cbn in Hk; lia|]. cbn in *. rewrite IH by (done || (cbn; lia)). cbn.
  by rewrite <-(assoc_L (++)).
Qed.

Lemma respond_all_app acts acts' s : respond_all (acts ++ acts') s = s ← respond_all acts s; respond_all acts' s.
Proof.
  revert s. induction acts as [|act acts IH]; intros s; [done|]. cbn. destruct (respond act s); [apply IH|done].
Qed.

Lemma respond_all_stopped acts s s' :
  respond_all acts s = Some s' → stopped s = true →
  stopped s' = true ∧ ∃ k, sent s' = sent s ++ take k (respchan s) ∧ respchan s' = drop k (respchan s).
Proof.
  revert s. induction acts as [|act acts IH]; intros s Hs Hst; cbn in Hs.
  { injection Hs as ->. split; [done|]. exists 0. by rewrite app_nil_r. }
  apply bind_Some in Hs as (s1 & H1 & Hs). apply stopped_step in H1 as (Hst1 & k & Hk & Hq); [|done].
  destruct (IH s1 Hs Hst1) as (Hst' & k' & Hk' & Hq'). split; [done|]. exists (k + k').
  rewrite Hk', Hq', Hk, Hq, drop_drop, <-(assoc_L (++)). split; [|done]. f_equal.
  by rewrite take_take_drop.
Qed.

(** ** The theorem *)

(** C33. What a client gets of the responses put into the session's channel: at
    any time a prefix of them, in order.  When the session stops with responses
    still in the channel, the goroutine finds both channels ready and picks one
    each time, so exactly the prefixes of what is left can be sent before it
    returns: all of it in one run, nothing of it in another. *)
Theorem responder_prefixes (acts : list respond_action) (s : responder) :
  respond_all acts start_responder = Some s →
  sent s ++ respchan s = acts ≫= put ∧
  (stopped s = false → returned s = false) ∧
  (stopped s = true → returned s = false → ∀ l,
     (∃ acts' s', respond_all acts' s = Some s' ∧ returned s' = true ∧ sent s' = l) ↔
     ∃ k, k ≤ length (respchan s) ∧ l = sent s ++ take k (respchan s)).
Proof.
  intros Hs. split; [apply (respond_all_fifo _ _ _ Hs)|]. split.
  - assert (∀ acts s s', respond_all acts s = Some s' → (stopped s = false → returned s = false) →
      stopped s' = false → returned s' = false) as Hinv; [|by apply (Hinv _ _ _ Hs)].
    clear. induction acts as [|act acts IH]; intros s s' Hs Hinv; cbn in Hs; [by injection Hs as <-|].
    apply bind_Some in Hs as (s1 & H1 & Hs). apply (IH _ _ Hs). clear IH Hs.
    destruct s as [q [] sn []], act, q; cbn in *; repeat case_match; simplify_eq/=; try done; auto.
  - intros Hst Hr l. split.
    + intros (acts' & s' & Hs' & _ & <-). destruct (respond_all_stopped _ _ _ Hs' Hst) as (_ & k & -> & _).
      exists (k `min` length (respchan s)). split; [lia|]. f_equal.
      destruct (decide (k ≤ length (respchan s))); [by rewrite Nat.min_l by done|].
      rewrite Nat.min_r by lia. by rewrite !take_ge by lia.
    + intros (k & Hk & ->). exists (replicate k TakeResponse ++ [SeeShutdown]). eexists.
      rewrite respond_all_app, take_all by done. cbn. by rewrite Hst.
Qed.
End responder.

(** ** Witness: three responses, one taken before the session stops. *)
Lemma responder_prefixes_witness :
  ∃ s, respond_all [Put 1; Put 2; TakeResponse; Put 3; Stop] start_responder = Some s ∧
    (∃ acts s', respond_all acts s = Some s' ∧ returned s' = true ∧ sent s' = [1]) ∧
    (∃ acts s', respond_all acts s = Some s' ∧ returned s' = true ∧ sent s' = [1; 2; 3]).
Proof.
  eexists. split; [reflexivity|].
  destruct (responder_prefixes [Put 1; Put 2; TakeResponse; Put 3; Stop] (mkResponder [2; 3] true [1] false)) as (_ & _ & Hl);
    [reflexivity|]. specialize (Hl eq_refl eq_refl).
  split; apply Hl; [by exists 0; split; [cbn; lia|]|by exists 2; split; [cbn; lia|]].
Defined.
