(* ===== verification/Update.v ===== *)
(** * Update: how the external system changes the model

    Models the [StateUpdate] interface of the model ([UpdateStart], [UpdateCreate],
    [UpdateReplace], [UpdateDelete], [UpdateEnd] of [gnmi/model/model.go]) and the
    functions of the modeled object of the same names ([mo.go]), on the writes of
    [Write].  Every data change is also written to a second, empty tree, which
    the notifications carry. *)

From Stdlib Require Import Ascii ZArith.
From S2P Require Export Write StateSync Telemetry.

(** ** The functions of the modeled object: errors are logged only *)
Section mo.
Context `{GoRange, DataWrite}.

Definition write_text (mo : MO) (root : goval) (gpath : Path) (value : string) : outcome error (goval * option error) :=
  run_W (MO_WriteStringValue mo (Some gpath) value) root.

Definition MO_UpdateCreate (mo : MO) (root : goval) (path value : string) : outcome error goval :=
  match ToGNMIPath path with
  | Ok gpath => r ← write_text mo root gpath value; mret (fst r)
  | Err _ => mret root
  | Panic => Panic
  | Diverge => Diverge
  end.

Definition MO_UpdateReplace (mo : MO) (root : goval) (path value : string) : outcome error goval :=
  match ToGNMIPath path with
  | Ok gpath => r ← write_text mo root gpath value; mret (fst r)
  | Err _ => mret root
  | Panic => Panic
  | Diverge => Diverge
  end.

Definition MO_UpdateDelete (mo : MO) (root : goval) (path : string) : outcome error goval :=
  match ToGNMIPath path with
  | Ok gpath => r ← DeleteValue mo root (Some gpath); mret (fst r)
  | Err _ => mret root
  | Panic => Panic
  | Diverge => Diverge
  end.
End mo.

(** ** Updates of the model *)
Section update.
Context `{GoRange, ProtoClone, YdbTypes, Gtrie, DataWrite}.

(** The fields of [Model] an update uses.  [updatedroot] is the tree of the
    changes, nil between updates; [ms_notify] is the registry of the server, if
    there is one. *)
Record ModelState : Type := mkState {
  ms_model : SchemaModel;
  ms_root : goval;
  ms_updatedroot : option goval;
  ms_sync : option SyncState;
  ms_locked : bool;
  ms_notify : option teleCtrl
}.

(** A lock that is held is waited for forever. *)
Definition UpdateStart (m : ModelState) : outcome error ModelState :=
  if ms_locked m then Diverge
  else mret (mkState (ms_model m) (ms_root m) (Some NewEmptyRoot) (ms_sync m) true (ChangeStarted <$> ms_notify m)).

(** The write to the tree of the changes and the notification; [op] is the
    operation announced. *)
Definition notify_write (op : tele_op) (path : string) (gpath : Path) (value : string) (root : goval)
    (m : ModelState) : outcome error ModelState :=
  match ms_updatedroot m with
  | None => mret (mkState (ms_model m) root None (ms_sync m) (ms_locked m) (ms_notify m))
  | Some fake =>
      r ← write_text (m_MO (ms_model m)) fake gpath value;
      mret (mkState (ms_model m) root (Some (fst r)) (ms_sync m) (ms_locked m) (change op path <$> ms_notify m))
  end.

(** The value is written when the text of the path parses; errors are logged
    only. *)
Definition write_and_notify (op : tele_op) (path value : string) (m : ModelState) : outcome error ModelState :=
  match ToGNMIPath path with
  | Ok gpath =>
      '(root, err) ← write_text (m_MO (ms_model m)) (ms_root m) gpath value;
      match err with
      | None => notify_write op path gpath value root m
      | Some _ => mret (mkState (ms_model m) root (ms_updatedroot m) (ms_sync m) (ms_locked m) (ms_notify m))
      end
  | Err _ => mret m
  | Panic => Panic
  | Diverge => Diverge
  end.

Definition set_sync (sync : option SyncState) (m : ModelState) : ModelState :=
  mkState (ms_model m) (ms_root m) (ms_updatedroot m) sync (ms_locked m) (ms_notify m).

Definition UpdateCreate (path value : string) (m : ModelState) : outcome error ModelState :=
  entry ← FindSchemaByXPath (m_MO (ms_model m)) path;
  match entry with
  | None => mret m
  | Some _ =>
      sync ← addStateSyncPath (ms_sync m) entry path;
      write_and_notify OpCreate path value (set_sync sync m)
  end.

Definition UpdateReplace (path value : string) (m : ModelState) : outcome error ModelState :=
  entry ← FindSchemaByXPath (m_MO (ms_model m)) path;
  match entry with
  | None => mret m
  | Some _ => write_and_notify OpReplace path value m
  end.

(** A deletion writes nothing to the tree of the changes. *)
Definition UpdateDelete (path : string) (m : ModelState) : outcome error ModelState :=
  entry ← FindSchemaByXPath (m_MO (ms_model m)) path;
  match entry with
  | None => mret m
  | Some _ =>
      sync ← deleteStateSyncPath (ms_sync m) entry path;
      let m := set_sync sync m in
      match ToGNMIPath path with
      | Ok gpath =>
          '(root, err) ← DeleteValue (m_MO (ms_model m)) (ms_root m) (Some gpath);
          match err with
          | None =>
              mret (mkState (ms_model m) root (ms_updatedroot m) (ms_sync m) (ms_locked m)
                      (change OpDelete path <$> ms_notify m))
          | Some _ => mret (mkState (ms_model m) root (ms_updatedroot m) (ms_sync m) (ms_locked m) (ms_notify m))
          end
      | Err _ => mret m
      | Panic => Panic
      | Diverge => Diverge
      end
  end.

(** The events to send.  The root of a nil tree of changes and an unlock
    without a lock end the process. *)
Definition UpdateEnd (m : ModelState) : outcome error (ModelState * list teleEvent) :=
  '(notify, events) ← match ms_notify m with
                      | None => mret (None, [])
                      | Some tcb =>
                          match ms_updatedroot m with
                          | None => Panic
                          | Some root => let '(tcb, events) := ChangeCompleted (Some root) tcb in mret (Some tcb, events)
                          end
                      end;
  if ms_locked m then mret (mkState (ms_model m) (ms_root m) None (ms_sync m) false notify, events) else Panic.
End update.
