(* ===== verification/UpdateSpec.v ===== *)
(** * UpdateSpec: the theorems on the updates of the model *)

From Stdlib Require Import Ascii ZArith Lia.
From S2P Require Export WriteSpec RunnerSpec StateSyncSpec Update.

(** ** Sessions of updates *)
Section session.
Context `{GoRange, ProtoClone, YdbTypes, Gtrie, DataWrite}.

Inductive update_op : Type :=
  | Create (path value : string)
  | Replace (path value : string)
  | Delete (path : string).

Definition run_update (m : ModelState) (op : update_op) : outcome error ModelState :=
  match op with
  | Create path value => UpdateCreate path value m
  | Replace path value => UpdateReplace path value m
  | Delete path => UpdateDelete path m
  end.

Fixpoint run_updates (m : ModelState) (ops : list update_op) : outcome error ModelState :=
  match ops with
  | [] => mret m
  | op :: ops => m ← run_update m op; run_updates m ops
  end.

(** The change an update announces: none if the schema does not know the path,
    the text does not parse or the tree refuses the value. *)
Definition announced (m : ModelState) (op : update_op) : list (tele_op * string) :=
  let known path := match FindSchemaByXPath (m_MO (ms_model m)) path with Ok (Some _) => true | _ => false end in
  let written path value :=
    match ToGNMIPath path with
    | Ok gpath =>
        match write_text (m_MO (ms_model m)) (ms_root m) gpath value with
        | Ok (_, None) => bool_decide (is_Some (ms_updatedroot m))
        | _ => false
        end
    | _ => false
    end in
  match op with
  | Create path value => if known path && written path value then [(OpCreate, path)] else []
  | Replace path value => if known path && written path value then [(OpReplace, path)] else []
  | Delete path =>
      if known path then
        match ToGNMIPath path with
        | Ok gpath =>
            match DeleteValue (m_MO (ms_model m)) (ms_root m) (Some gpath) with
            | Ok (_, None) => [(OpDelete, path)]
            | _ => []
            end
        | _ => []
        end
      else []
  end.

(** The changes of a list of updates, each in the state the ones before left. *)
Fixpoint announced_all (m : ModelState) (ops : list update_op) : list (tele_op * string) :=
  match ops with
  | [] => []
  | op :: ops => announced m op ++ match run_update m op with Ok m' => announced_all m' ops | _ => [] end
  end.

(** Deletions only. *)
Definition is_delete (op : update_op) : bool := match op with Delete _ => true | _ => false end.

(** What an update leaves alone, and what it tells the registry. *)
Lemma run_update_inv m op m' :
  run_update m op = Ok m' →
  ms_locked m' = ms_locked m ∧ ms_model m' = ms_model m ∧
  (is_Some (ms_updatedroot m) → is_Some (ms_updatedroot m')) ∧
  (is_delete op = true → ms_updatedroot m' = ms_updatedroot m) ∧
  ms_notify m' = (λ tcb, changes_run tcb (announced m op)) <$> ms_notify m.
Proof.
  assert (∀ o : option teleCtrl, o = (λ tcb, changes_run tcb []) <$> o) as Hid by by intros [].
  assert (∀ tele path value m0, ms_locked m0 = ms_locked m → ms_model m0 = ms_model m → ms_root m0 = ms_root m →
    ms_updatedroot m0 = ms_updatedroot m → ms_notify m0 = ms_notify m →
    write_and_notify tele path value m0 = Ok m' →
    ms_locked m' = ms_locked m ∧ ms_model m' = ms_model m ∧
    (is_Some (ms_updatedroot m) → is_Some (ms_updatedroot m')) ∧
    ms_notify m' = (λ tcb, changes_run tcb (if match ToGNMIPath path with
      | Ok gpath => match write_text (m_MO (ms_model m)) (ms_root m) gpath value with
                    | Ok (_, None) => bool_decide (is_Some (ms_updatedroot m)) | _ => false end
      | _ => false end then [(tele, path)] else [])) <$> ms_notify m) as Hwrite.
  { intros tele path value m0 <- <- <- <- <-. unfold write_and_notify.
    destruct (ToGNMIPath path) as [gpath| | |]; [|by intros [= <-]|done..].
    destruct (write_text _ _ _ _) as [[root [err|]]| | |] eqn:Hw; [intros [= <-]; cbn; by split_and!| |done..].
    rewrite outcome_bind_ret. unfold notify_write. destruct (ms_updatedroot m0) as [fake|] eqn:Hfake.
    - intros (r & _ & [= <-])%outcome_bind_Ok. cbn. split_and!; [done..|]. by destruct (ms_notify m0).
    - intros [= <-]. cbn. split_and!; [done..|]. by destruct (ms_notify m0). }
  intros Hr. destruct op as [path value|path value|path]; cbn [run_update] in Hr; cbn [announced is_delete].
  - unfold UpdateCreate in Hr. apply outcome_bind_Ok in Hr as (entry & He & Hr). rewrite He.
    destruct entry as [e|]; [|injection Hr as <-; by split_and!].
    apply outcome_bind_Ok in Hr as (sync & _ & Hr). cbn [andb].
    destruct (Hwrite OpCreate path value (set_sync sync m)) as (? & ? & ? & ?); [done..|]. by split_and!.
  - unfold UpdateReplace in Hr. apply outcome_bind_Ok in Hr as (entry & He & Hr). rewrite He.
    destruct entry as [e|]; [|injection Hr as <-; by split_and!]. cbn [andb].
    destruct (Hwrite OpReplace path value m) as (? & ? & ? & ?); [done..|]. by split_and!.
  - unfold UpdateDelete in Hr. apply outcome_bind_Ok in Hr as (entry & He & Hr). rewrite He.
    destruct entry as [e|]; [|injection Hr as <-; by split_and!].
    apply outcome_bind_Ok in Hr as (sync & _ & Hr).
    destruct (ToGNMIPath path) as [gpath| | |]; [|injection Hr as <-; by split_and!|done..].
    apply outcome_bind_Ok in Hr as ([root err] & Hd & Hr). cbn [set_sync ms_model ms_root] in Hd. rewrite Hd.
    destruct err; injection Hr as <-; cbn; by split_and!.
Qed.

Lemma run_updates_inv m ops m' :
  run_updates m ops = Ok m' →
  ms_locked m' = ms_locked m ∧ (is_Some (ms_updatedroot m) → is_Some (ms_updatedroot m')) ∧
  (forallb is_delete ops = true → ms_updatedroot m' = ms_updatedroot m) ∧
  ms_notify m' = (λ tcb, changes_run tcb (announced_all m ops)) <$> ms_notify m.
Proof.
  revert m. induction ops as [|op ops IH]; intros m Hr; cbn [run_updates] in Hr.
  { injection Hr as <-. split_and!; try done. by destruct (ms_notify m). }
  apply outcome_bind_Ok in Hr as (m1 & Hone & Hr). destruct (run_update_inv _ _ _ Hone) as (Hl1 & _ & Hs1 & Hd1 & Hn1).
  destruct (IH _ Hr) as (Hl & Hs & Hd & Hn). cbn [announced_all forallb]. rewrite Hone. split_and!.
  - congruence.
  - auto.
  - intros [Hop Hops]%andb_prop. by rewrite Hd, Hd1.
  - rewrite Hn, Hn1. destruct (ms_notify m); [|done]. cbn. f_equal. unfold changes_run. by rewrite foldl_app.
Qed.
End session.

(** ** Theorems on updates *)
Section theorems.
Context `{GoRange, ProtoClone, YdbTypes, Gtrie, DataWrite}.

(** C7. An update of the external system reaches the subscribers exactly: when
    UpdateStart and any creations, replacements and deletions have returned,
    UpdateEnd returns, releases the lock and drops the tree of the changes, and
    the events it sends are those of the changes the model accepted (known
    path, text that parses, value taken by the tree), in their order; they
    carry the tree of the changes, which is the empty tree after an update that
    only deletes. *)
Theorem update_session_delivers (m m1 m2 : ModelState) (tcb : teleCtrl) (ops : list update_op) :
  ms_notify m = Some tcb → registry_ok (lookup tcb) →
  UpdateStart m = Ok m1 → run_updates m1 ops = Ok m2 →
  ∃ m3 events fake tcb3, UpdateEnd m2 = Ok (m3, events) ∧
    ms_locked m3 = false ∧ ms_updatedroot m3 = None ∧ ms_root m3 = ms_root m2 ∧
    ms_notify m3 = Some tcb3 ∧ lookup tcb3 = lookup tcb ∧ ready tcb3 = ∅ ∧
    (forallb is_delete ops = true → fake = NewEmptyRoot) ∧
    delivers (lookup tcb) (announced_all m1 ops) (Some fake) events.
Proof.
  intros Hn Hok Hstart Hrun. unfold UpdateStart in Hstart. destruct (ms_locked m); [done|]. injection Hstart as Hm1.
  destruct (run_updates_inv _ _ _ Hrun) as (Hl & Hs & Hd & Hn2).
  assert (ms_locked m1 = true ∧ ms_updatedroot m1 = Some NewEmptyRoot ∧ ms_notify m1 = Some (ChangeStarted tcb))
    as (Hl1 & Hu1 & Hn1) by by rewrite <-Hm1, Hn.
  rewrite Hu1 in Hs, Hd. destruct Hs as [fake Hfake]; [by eexists|]. rewrite Hn1 in Hn2. cbn in Hn2.
  pose proof (changes_delivered tcb (announced_all m1 ops) (Some fake) Hok) as Hdel.
  unfold UpdateEnd. rewrite Hn2, Hfake, Hl, Hl1. destruct (ChangeCompleted _ _) as [tcb3 events].
  destruct Hdel as (Hlk & Hready & Hdel). rewrite outcome_bind_mret.
  eexists _, events, fake, tcb3. split; [done|]. cbn. split_and!; try done.
  intros Hall. specialize (Hd Hall). congruence.
Qed.

End theorems.

(** ** An update of the example device *)

Definition example_state : @ModelState map_trie :=
  mkState example_teleModel example_root None None false (Some example_tcb).

Definition example_session_ops : list update_op :=
  [Delete "/interfaces/interface[name=eth0]/mtu"; Delete "/interfaces/unknown"].

Definition example_started : @ModelState map_trie :=
  match @UpdateStart map_trie example_write example_state with Ok m => m | _ => example_state end.
Definition example_updated : @ModelState map_trie :=
  match @run_updates canonical_range map_trie example_write example_started example_session_ops with
  | Ok m => m
  | _ => example_state
  end.

Lemma update_session_delivers_witness :
  ∃ m3 events tcb3, @UpdateEnd canonical_range map_trie example_updated = Ok (m3, events) ∧
    ms_notify m3 = Some tcb3 ∧ lookup tcb3 = lookup example_tcb ∧
    @delivers canonical_range map_trie (lookup example_tcb)
      [(OpDelete, "/interfaces/interface[name=eth0]/mtu")] (Some (@NewEmptyRoot example_write)) events.
Proof.
  destruct (@update_session_delivers canonical_range map_trie example_write
    example_state example_started example_updated example_tcb example_session_ops) as
    (m3 & events & fake & tcb3 & He & _ & _ & _ & Hn & Hl & _ & Hf & Hd).
  - reflexivity.
  - exact example_tcb_ok.
  - by_vm.
  - by_vm.
  - exists m3, events, tcb3. split; [exact He|]. split; [exact Hn|]. split; [exact Hl|].
    rewrite (Hf eq_refl) in Hd.
    assert (@announced_all canonical_range map_trie example_write example_started example_session_ops =
            [(OpDelete, "/interfaces/interface[name=eth0]/mtu")]) as Ha by by_vm.
    rewrite Ha in Hd. exact Hd.
Defined.

(** A leaf whose name is a part of a key's name cannot be deleted: the check for
    key leaves looks for the name in the text of the key. *)
Definition example_id_entry : Entry :=
  mkEntry "device" "" [("port", mkEntry "port" "port-id" [("port-id", mkEntry "port-id" "" []); ("id", mkEntry "id" "" [])])].
Definition example_id_mo : MO :=
  mkMO {["Device" := mkPtr example_id_entry []]} (Some (TPtr (TStruct "Device" []))).

Theorem DeleteValue_spares_parts :
  @DeleteValue canonical_range example_write example_id_mo example_root
    (Some (mkPath "" None (Some [mkElem "port" (Some {["port-id" := "1"]}); mkElem "id" None]) "")) = Ok (example_root, None).
Proof. vm_compute. reflexivity. Qed.
