(* ===== verification/Session.v ===== *)
(** * Session: the gRPC sessions of the server

    Models [gnmi/server/session.go]: the table of connections, which the
    listener's callbacks [Started] and [Closed] keep, and the check of a request
    against it.  The login time and the unused alias table are left out. *)

From Stdlib Require Import Ascii ZArith.
From S2P Require Export Subscribe.

(** ** Stream protocols *)
Definition StreamUserDefined : Z := 0.
Definition StreamSSH : Z := 1.
Definition StreamGRPC : Z := 2.
Definition StreamJSONRPC : Z := 3.
Definition StreamThriftRPC : Z := 4.
Definition StreamWebsocketRPC : Z := 5.

Definition streamProtocolStr : list string :=
  ["STREAM_USER_DEFINED_RPC"; "STREAM_SSH"; "STREAM_GRPC"; "STREAM_JSON_RPC"; "STREAM_THRIFT_RPC";
   "STREAM_WEBSOCKET_RPC"].

(** [streamProtocolStr[s%5]]: the remainder has the sign of [s]. *)
Definition StreamProtocol_String (s : Z) : outcome error string :=
  let i := Z.rem s 5 in
  if (i <? 0)%Z then Panic
  else match streamProtocolStr !! Z.to_nat i with Some n => mret n | None => Panic end.

(** ** [strconv.ParseUint] with base 0

    The prefix of the text gives the base; underscores may separate digits.
    The value is 0 for a text that is no number, and the largest one when it
    does not fit. *)
Definition lower (c : ascii) : ascii :=
  let n := N_of_ascii c in if ((65 <=? n) && (n <=? 90))%N then ascii_of_N (n + 32) else c.

Definition base_digit (c : ascii) : option Z :=
  let n := Z.of_N (N_of_ascii (lower c)) in
  if ((48 <=? n) && (n <=? 57))%Z then Some (n - 48)%Z
  else if ((97 <=? n) && (n <=? 122))%Z then Some (n - 87)%Z else None.

Fixpoint base_digits (base max acc : Z) (s : string) : option (Z * bool) :=
  match s with
  | "" => Some (acc, false)
  | String "_" s => base_digits base max acc s
  | String c s =>
      d ← base_digit c;
      if (base <=? d)%Z then None
      else
        let n := (acc * base + d)%Z in
        if (max <? n)%Z then Some (max, true) else base_digits base max n s
  end.

(** Underscores stand between digits, or after the prefix: [underscoreOK];
    [i] tells what came before, [true] for a digit or a prefix. *)
Fixpoint underscores_ok (after_digit : bool) (s : string) : bool :=
  match s with
  | "" => true
  | String "_" "" => false
  | String "_" s => after_digit && underscores_ok false s
  | String _ s => underscores_ok true s
  end.

Definition ParseUint0 (s : string) (bitSize : Z) : Z :=
  let max := (2 ^ bitSize - 1)%Z in
  let number base digits :=
    if bool_decide (digits = "") then 0%Z
    else match base_digits base max 0 digits with
         | Some (n, true) => n
         | Some (n, false) => if underscores_ok (negb (base =? 10)%Z) digits then n else 0%Z
         | None => 0%Z
         end in
  match s with
  | "" => 0%Z
  | String "0" (String c rest) =>
      match lower c with
      | "b"%char => if bool_decide (rest = "") then 0%Z else number 2%Z rest
      | "o"%char => if bool_decide (rest = "") then 0%Z else number 8%Z rest
      | "x"%char => if bool_decide (rest = "") then 0%Z else number 16%Z rest
      | _ => number 8%Z (String c rest)
      end
  | _ => number 10%Z s
  end.

(** ** Sessions *)
Record Session : Type := mkGRPCSession {
  gs_ID : Z; gs_SID : string; Username : string; Password : string; GrpcVer : string; ContentType : string;
  DestinationAddress : string; DestinationPort : Z; Protocol : Z; valid : bool
}.

(** The counter of the package and the table of the server. *)
Record SessionTable : Type := mkTable { sessionID : Z; sessions : gmap string Session }.

(** [remoteaddr[:index]] panics when the address has no colon. *)
Definition Started (remoteaddr : string) (t : SessionTable) : outcome error SessionTable :=
  match sessions t !! remoteaddr with
  | Some _ => mret t
  | None =>
      match LastIndex remoteaddr ":" with
      | None => Panic
      | Some index =>
          let ID := ((sessionID t + 1) mod 2 ^ 64)%Z in
          let destinationAddress := String.substring 0 index remoteaddr in
          let destinationPort := ParseUint0 (String.substring (S index) (strlen remoteaddr) remoteaddr) 16 in
          let session := mkGRPCSession ID remoteaddr "" "" "" "" destinationAddress (destinationPort mod 2 ^ 16)%Z
                           StreamGRPC false in
          mret (mkTable ID (<[remoteaddr := session]> (sessions t)))
      end
  end.

Definition Closed (remoteaddr : string) (t : SessionTable) : SessionTable :=
  mkTable (sessionID t) (delete remoteaddr (sessions t)).

(** [metadata]: the headers of the request, [None] when there are none; a
    missing header is empty. *)
Definition updateSession (metadata : option (gmap string string)) (SID : string) (t : SessionTable)
    : outcome error (SessionTable * Session) :=
  match sessions t !! SID with
  | None => Err (TaggedErrorf codes.Internal TagInvalidSession "unknown session: %s" [AStr SID])
  | Some session =>
      match metadata with
      | None => Err (TaggedErrorf codes.Internal TagInvalidSession "missing metadata" [])
      | Some m =>
          let header k := default "" (m !! k) in
          let session :=
            mkGRPCSession (gs_ID session) (gs_SID session) (header "username") (header "password") (header "user-agent")
              (header "content-type") (DestinationAddress session) (DestinationPort session) StreamGRPC true in
          mret (mkTable (sessionID t) (<[SID := session]> (sessions t)), session)
      end
  end.
