(* ===== verification/SessionSpec.v ===== *)
(** * SessionSpec: the theorems on the table of sessions *)

From Stdlib Require Import Ascii ZArith Lia.
From S2P Require Export SubscribeSpec Session.

(** What happens to the table: a connection opens or closes, or a request comes
    in. *)
Inductive session_op : Type :=
  | Open (remoteaddr : string)
  | Close (remoteaddr : string)
  | Request (metadata : option (gmap string string)) (SID : string).

(** A refused request leaves the table as it is. *)
Definition run_session_op (t : SessionTable) (op : session_op) : outcome error SessionTable :=
  match op with
  | Open a => Started a t
  | Close a => mret (Closed a t)
  | Request m sid =>
      match updateSession m sid t with
      | Ok (t, _) => mret t
      | Err _ => mret t
      | Panic => Panic
      | Diverge => Diverge
      end
  end.

Fixpoint run_session_ops (t : SessionTable) (ops : list session_op) : outcome error SessionTable :=
  match ops with
  | [] => mret t
  | op :: ops => t ← run_session_op t op; run_session_ops t ops
  end.

(** The connections open after the operations. *)
Definition open_after (open : gset string) (op : session_op) : gset string :=
  match op with
  | Open a => {[a]} ∪ open
  | Close a => open ∖ {[a]}
  | Request _ _ => open
  end.

(** Sessions are stored under their address, with different identifiers that
    the counter has passed. *)
Definition table_ok (t : SessionTable) : Prop :=
  (∀ a s, sessions t !! a = Some s → gs_SID s = a ∧ (0 < gs_ID s ≤ sessionID t)%Z) ∧
  (∀ a b s s', sessions t !! a = Some s → sessions t !! b = Some s' → gs_ID s = gs_ID s' → a = b).

Definition colon_address (a : string) : bool := match LastIndex a ":" with Some _ => true | None => false end.

Lemma table_ok_insert t a s ID :
  table_ok t → gs_SID s = a →
  (ID = sessionID t ∧ (∃ s0, sessions t !! a = Some s0 ∧ gs_ID s0 = gs_ID s) ∨
   (ID = sessionID t + 1 ∧ gs_ID s = ID ∧ 0 ≤ sessionID t)%Z) →
  table_ok (mkTable ID (<[a := s]> (sessions t))).
Proof.
  intros [Hok Hinj] Hsid Hid.
  assert (∀ b s', a ≠ b → sessions t !! b = Some s' → gs_ID s ≠ gs_ID s') as Hne.
  { intros b s' Hab Hb Heq. destruct (Hok _ _ Hb) as [_ Hle].
    destruct Hid as [[_ (s0 & Hs0 & Hid0)]|(-> & Hid & Hpos)]; [|lia].
    apply Hab, (Hinj a b s0 s'); congruence. }
  split; cbn [sessions sessionID].
  - intros b s'. destruct (decide (a = b)) as [<-|Hab].
    + rewrite lookup_insert_eq. intros [= <-]. split; [done|].
      destruct Hid as [[-> (s0 & Hs0 & <-)]|(-> & -> & Hpos)]; [by apply (Hok a)|lia].
    + rewrite lookup_insert_ne by done. intros Hb. destruct (Hok _ _ Hb) as [? ?]. split; [done|].
      destruct Hid as [[-> _]|(-> & _ & _)]; lia.
  - intros b c s1 s2. destruct (decide (a = b)) as [<-|Hab], (decide (a = c)) as [<-|Hac];
      rewrite ?lookup_insert_eq, ?lookup_insert_ne by done.
    + done.
    + intros [= <-] Hc Heq. by destruct (Hne c s2 Hac Hc).
    + intros Hb [= <-] Heq. by destruct (Hne b s1 Hab Hb).
    + intros Hb Hc. by apply Hinj.
Qed.

(** One operation with a counter that does not wrap. *)
Lemma run_session_op_ok t op :
  table_ok t → (0 ≤ sessionID t < 2 ^ 64 - 1)%Z → (∀ a, op = Open a → colon_address a = true ∨ is_Some (sessions t !! a)) →
  ∃ t', run_session_op t op = Ok t' ∧ table_ok t' ∧ (sessionID t ≤ sessionID t' ≤ sessionID t + 1)%Z ∧
    dom (sessions t') = open_after (dom (sessions t)) op.
Proof.
  intros Hok Hc Ha. destruct op as [a|a|m sid]; cbn [run_session_op open_after].
  - unfold Started. destruct (sessions t !! a) as [s|] eqn:Hs.
    { exists t. split_and!; try done; try lia. apply leibniz_equiv. apply elem_of_dom_2 in Hs. set_solver. }
    destruct (Ha a eq_refl) as [Hcolon|[? ?]]; [|congruence]. unfold colon_address in Hcolon.
    destruct (LastIndex a ":") as [i|]; [|done]. rewrite Z.mod_small by lia. eexists. split; [done|].
    split; [apply table_ok_insert; [done|done|right; cbn; lia]|]. cbn [sessionID sessions]. split; [lia|].
    apply leibniz_equiv. by rewrite dom_insert.
  - eexists. split; [done|]. unfold Closed. cbn [sessionID sessions]. split; [|split; [lia|by rewrite dom_delete_L]].
    destruct Hok as [Hok Hinj]. split; cbn [sessions sessionID].
    + intros b s [_ Hb]%lookup_delete_Some. by apply Hok.
    + intros b c s s' [_ Hb]%lookup_delete_Some [_ Hc']%lookup_delete_Some. by apply Hinj.
  - unfold updateSession. destruct (sessions t !! sid) as [s|] eqn:Hs; [|exists t; split_and!; try done; lia].
    destruct m as [m|]; [|exists t; split_and!; try done; lia]. eexists. split; [done|].
    split; [|cbn [sessionID sessions]; split; [lia|]].
    + apply table_ok_insert; [done|cbn; by apply Hok|left]. split; [done|]. by exists s.
    + apply leibniz_equiv. rewrite dom_insert. apply elem_of_dom_2 in Hs. set_solver.
Qed.

(** The table of sessions follows the addresses that are started and closed:
    over any starts with an address of host and port, requests and closes, fewer
    than the counter's range, the table holds exactly the addresses started and
    not closed since, with different identifiers, and a request is refused as
    unknown exactly if its address is not one of them. *)
Theorem sessions_follow (t : SessionTable) (ops : list session_op) :
  table_ok t → (0 ≤ sessionID t)%Z → (sessionID t + Z.of_nat (length ops) < 2 ^ 64)%Z →
  (∀ a, Open a ∈ ops → colon_address a = true) →
  ∃ t', run_session_ops t ops = Ok t' ∧ table_ok t' ∧ dom (sessions t') = foldl open_after (dom (sessions t)) ops ∧
    ∀ m sid, is_ok (updateSession (Some m) sid t') = bool_decide (sid ∈ foldl open_after (dom (sessions t)) ops).
Proof.
  revert t. induction ops as [|op ops IH]; intros t Hok Hpos Hc Ha; cbn [run_session_ops foldl].
  - exists t. do 3 (split; [done|]). intros m sid. unfold updateSession.
    destruct (sessions t !! sid) eqn:Hs; cbn; symmetry; [apply bool_decide_eq_true|apply bool_decide_eq_false].
    + by eapply elem_of_dom_2.
    + by apply not_elem_of_dom.
  - destruct (run_session_op_ok t op) as (t1 & -> & Hok1 & Hc1 & Hdom1); [done|cbn in Hc; lia| |].
    { intros a ->. left. apply Ha. set_solver. }
    rewrite outcome_bind_ret. destruct (IH t1) as (t' & Hr & Hok' & Hdom & Hup); [done|lia|cbn [length] in Hc; lia| |].
    { intros a Hin. apply Ha. set_solver. }
    exists t'. rewrite <-Hdom1. done.
Qed.

Definition example_table_ops : list session_op :=
  [Open "10.0.0.1:5000"; Open "[::1]:6000"; Request (Some {["username" := "admin"]}) "[::1]:6000"; Close "10.0.0.1:5000"].

Lemma sessions_follow_witness :
  ∃ t', run_session_ops (mkTable 0 ∅) example_table_ops = Ok t' ∧ table_ok t' ∧
    dom (sessions t') = foldl open_after ∅ example_table_ops ∧
    ∀ m sid, is_ok (updateSession (Some m) sid t') = bool_decide (sid ∈ foldl open_after (∅ : gset string) example_table_ops).
Proof.
  destruct (sessions_follow (mkTable 0 ∅) example_table_ops) as (t' & Hr & Hok & Hdom & Hup).
  - by split.
  - cbn. lia.
  - cbn. lia.
  - intros a. unfold example_table_ops. rewrite !elem_of_cons. intros [[= ->]|[[= ->]|[?|[?|?%elem_of_nil]]]]; done.
  - exists t'. cbn [sessions] in Hdom, Hup. rewrite dom_empty_L in Hdom, Hup. done.
Defined.

(** A connection without a colon in its address, as of a Unix socket, ends the
    process. *)
Theorem Started_panics t a : sessions t !! a = None → LastIndex a ":" = None → Started a t = Panic.
Proof. intros Hs Ha. unfold Started. by rewrite Hs, Ha. Qed.

(** The names of the protocols are taken modulo five; the sixth one prints the
    first name. *)
Theorem StreamProtocol_names :
  (StreamProtocol_String <$> [StreamUserDefined; StreamSSH; StreamGRPC; StreamJSONRPC; StreamThriftRPC]) =
    (Ok <$> take 5 streamProtocolStr) ∧
  StreamProtocol_String StreamWebsocketRPC = Ok "STREAM_USER_DEFINED_RPC".
Proof. split; reflexivity. Qed.
