(* ===== verification/Access.v ===== *)
(** * Access: who reaches the service

    Models [utilities/grpc.go] (the metadata of a request),
    [utilities/server/login] (the user authentication and its interceptors), the
    credentials of client and server ([utilities/server/credentials],
    [utilities/client/credentials]) and the connections of
    [utilities/netsession].  The metadata and the peer of a request come from
    gRPC; the user database, [crypt] and the files are arguments. *)

From Stdlib Require Import Ascii ZArith.
From S2P Require Export Session.

(** ** The metadata of a request *)
Record Addr : Type := mkAddr { Network : string; Addr_String : string }.

(** The headers of the incoming context and the address of its peer. *)
Record Context_ : Type := mkContext { incoming : option (gmap string (list string)); peer : option Addr }.

Definition is_colon (c : ascii) : bool := Ascii.eqb c ":".

(** The loop over the headers: a header without a value is indexed. *)
Fixpoint copy_headers (headers : list (string * list string)) (m : gmap string string) : outcome error (gmap string string) :=
  match headers with
  | [] => mret m
  | (k, v) :: headers =>
      match v with
      | [] => Panic
      | v0 :: _ => copy_headers headers (<[Trim is_colon k := v0]> m)
      end
  end.

(** [addr[:index]] and [addr[index+1:]] at the last colon. *)
Definition split_port (addr : string) : outcome error (string * string) :=
  match LastIndex addr ":" with
  | None => Panic
  | Some index => mret (String.substring 0 index addr, String.substring (S index) (strlen addr) addr)
  end.

Definition GetMetadata `{GoRange} (c : Context_) : outcome error (gmap string string * bool) :=
  match incoming c with
  | None => mret (∅, false)
  | Some headers =>
      m ← copy_headers (go_range headers) ∅;
      match peer c with
      | None => mret (m, true)
      | Some p =>
          '(address, port) ← split_port (Addr_String p);
          mret (<["peer-port" := port]> (<["peer-address" := address]>
                 (<["peer" := Addr_String p]> (<["protocol" := Network p]> m))), true)
      end
  end.

(** Without a colon the address is a panic and the port the whole text. *)
Definition QueryMetadata (c : Context_) (name : string) : outcome error (string * bool) :=
  match incoming c with
  | None => mret ("", false)
  | Some headers =>
      match headers !! name with
      | Some (v0 :: _) => mret (v0, true)
      | Some [] => Panic
      | None =>
          match peer c with
          | None => mret ("", true)
          | Some p =>
              if bool_decide (name = "peer") then mret (Addr_String p, true)
              else if bool_decide (name = "protocol") then mret (Network p, true)
              else if bool_decide (name = "peer-address") then
                '(address, _) ← split_port (Addr_String p); mret (address, true)
              else if bool_decide (name = "peer-port") then
                mret (match LastIndex (Addr_String p) ":" with
                      | None => Addr_String p
                      | Some index => String.substring (S index) (strlen (Addr_String p)) (Addr_String p)
                      end, true)
              else mret ("", true)
          end
      end
  end.

Definition QueryAddr (c : Context_) : outcome error (option (Addr * Addr)) :=
  match peer c with
  | None => mret None
  | Some peeraddr =>
      match incoming c with
      | None => mret None
      | Some headers =>
          match headers !! ":authority" with
          | None => mret None
          | Some [] => Panic
          | Some (found :: _) => mret (Some (mkAddr (Network peeraddr) found, peeraddr))
          end
      end
  end.

(** ** Login *)
Section login.
(** The user database: the password entry of [getpwnam], the shadow entry of
    [getspnam], whose password may be null; and [crypt], which may fail. *)
Context (getpwnam : string → option string) (getspnam : string → option (option string))
        (crypt : string → string → option string).

(** A Go string as C reads it: up to the first zero byte. *)
Fixpoint C_CString (s : string) : string :=
  match s with
  | "" => ""
  | String "000" _ => ""
  | String c s => String c (C_CString s)
  end.

Definition first_is (c : ascii) (s : string) : bool := match s with String c' _ => Ascii.eqb c' c | "" => false end.

(** [strcmp] of a null pointer ends the process. *)
Definition compare_password (passwd : string) (pw_passwd : option string) : outcome error Z :=
  match pw_passwd with
  | None => mret (-2)%Z
  | Some pw_passwd =>
      if first_is "!" pw_passwd || first_is "*" pw_passwd then mret (-2)%Z
      else
        match crypt passwd pw_passwd with
        | None => Panic
        | Some epasswd => mret (if bool_decide (epasswd = pw_passwd) then 0 else -3)%Z
        end
  end.

Definition authenticate (user passwd : string) : outcome error Z :=
  match getpwnam user with
  | None => mret (-1)%Z
  | Some pw_passwd =>
      if bool_decide (pw_passwd = "") then mret (-2)%Z
      else if first_is "x" pw_passwd then
        match getspnam user with
        | Some sp_pwdp => compare_password passwd sp_pwdp
        | None => mret (-4)%Z
        end
      else compare_password passwd (Some pw_passwd)
  end.

Definition check_username (user : string) : Z := match getpwnam user with None => -1 | Some _ => 0 end.

(** [cheatcode] is a flag, empty by default. *)
Definition AuthenticateUser (cheatcode username password : string) : outcome error (option error) :=
  if bool_decide (password = cheatcode) then
    mret (if (check_username (C_CString username) =? 0)%Z then None else Some (Errorf_plain "no user on system" []))
  else
    ret ← authenticate (C_CString username) (C_CString password);
    mret (if (ret =? 0)%Z then None
          else if (ret =? -1)%Z then Some (Errorf_plain "no user on system" [])
          else if (ret =? -2)%Z then Some (Errorf_plain "not accessable account" [])
          else if (ret =? -3)%Z then Some (Errorf_plain "invalid password" [])
          else if (ret =? -4)%Z then Some (Errorf_plain "no permission to access /etc/shadow" [])
          else Some (Errorf_plain "user authentication failed" [])).

(** What both interceptors do before the handler: [None] lets it run. *)
Definition intercept `{GoRange} (cheatcode : string) (c : Context_) : outcome error (option error) :=
  '(meta, ok) ← GetMetadata c;
  if negb ok then mret (Some (ErrGRPC codes.InvalidArgument (Fmt "no metadata" [])))
  else
    match meta !! "username" with
    | None => mret (Some (ErrGRPC codes.InvalidArgument (Fmt "no username" [])))
    | Some username =>
        match meta !! "password" with
        | None => mret (Some (ErrGRPC codes.InvalidArgument (Fmt "no password" [])))
        | Some password =>
            err ← AuthenticateUser cheatcode username password;
            mret (match err with
                  | None => None
                  | Some err => Some (ErrGRPC codes.InvalidArgument (error_text err))
                  end)
        end
    end.

(** A handler acts on a state of the server. *)
Definition UnaryInterceptor `{GoRange} {S Req Resp : Type} (cheatcode : string) (c : Context_) (req : Req)
    (handler : Context_ → Req → S → outcome error (S * (option Resp * option error))) (st : S)
    : outcome error (S * (option Resp * option error)) :=
  err ← intercept cheatcode c;
  match err with
  | Some err => mret (st, (None, Some err))
  | None => handler c req st
  end.

Definition StreamInterceptor `{GoRange} {S Stream : Type} (cheatcode : string) (c : Context_) (ss : Stream)
    (handler : Stream → S → outcome error (S * option error)) (st : S) : outcome error (S * option error) :=
  err ← intercept cheatcode c;
  match err with
  | Some err => mret (st, Some err)
  | None => handler ss st
  end.
End login.

(** ** Credentials

    [Exit] ends the process with a message. *)
Section credentials.
Context {keypair pool : Type}.
Context (LoadX509KeyPair : string → string → error + keypair) (ReadFile : string → error + string)
        (AppendCertsFromPEM : string → option pool).

Inductive load (A : Type) : Type := Loaded (a : A) | Exit (m : msg).
Arguments Loaded {A} a.
Arguments Exit {A} m.

(** The part [LoadCertificates] of server and client share. *)
Definition load_files (missing bad_pair cafile certfile keyfile : string) : load (list keypair * pool) :=
  if bool_decide (cafile = "") || bool_decide (certfile = "") || bool_decide (keyfile = "") then Exit (Fmt missing [])
  else
    match LoadX509KeyPair certfile keyfile with
    | inl err => Exit (Fmt bad_pair [AMsg (error_text err)])
    | inr certificate =>
        match ReadFile cafile with
        | inl err => Exit (Fmt "could not read CA certificate: %s" [AMsg (error_text err)])
        | inr caFile =>
            match AppendCertsFromPEM caFile with
            | None => Exit (Fmt "failed to append CA certificate" [])
            | Some certPool => Loaded ([certificate], certPool)
            end
        end
    end.

Definition server_LoadCertificates (cafile certfile keyfile : string) : load (list keypair * pool) :=
  load_files "ca-cert, sever-cert and server-key must be configured for TLS connection" "could not load key pair: %s"
    cafile certfile keyfile.

Definition client_LoadCertificates (ca cert key : string) : load (list keypair * pool) :=
  load_files "-ca -cert and -key must be set with file locations" "could not load client key pair: %s" ca cert key.

Inductive client_auth : Type := VerifyClientCertIfGiven | RequireAndVerify.
(** The options of a gRPC server: none, or TLS. *)
Inductive server_option : Type :=
  | NoOption
  | ServerTLS (ClientAuth : client_auth) (certificates : list keypair) (ClientCAs : pool).

Record server_flags : Type := mkServerFlags {
  caCert : string; serverCert : string; serverKey : string; skipVerify : bool; notls : bool
}.

Definition default_to (flag file : string) : string := if bool_decide (file = "") then flag else file.

Definition ServerCredentials (f : server_flags) (cafile certfile keyfile : string) (skipVerifyTLS noTLS : bool)
    : load server_option :=
  if notls f || noTLS then Loaded NoOption
  else
    match server_LoadCertificates (default_to (caCert f) cafile) (default_to (serverCert f) certfile)
            (default_to (serverKey f) keyfile) with
    | Exit m => Exit m
    | Loaded (certificates, certPool) =>
        Loaded (ServerTLS (if skipVerify f || skipVerifyTLS then VerifyClientCertIfGiven else RequireAndVerify)
                  certificates certPool)
    end.

(** The options of a gRPC client: without TLS, without verification, or with the
    certificates; and the user of each request. *)
Inductive dial_option : Type :=
  | WithInsecure
  | SkipVerify
  | ClientTLS (ServerName : string) (certificates : list keypair) (RootCAs : pool)
  | WithPerRPCCredentials (username password : string).

Record client_flags : Type := mkClientFlags {
  ca : string; cert : string; key : string; insecure : bool; client_notls : bool; username : string; password : string
}.

Definition ClientCredentials (f : client_flags) (server : string) : load (list dial_option) :=
  let opts :=
    if client_notls f then Loaded [WithInsecure]
    else if insecure f then Loaded [SkipVerify]
    else
      match client_LoadCertificates (ca f) (cert f) (key f) with
      | Exit m => Exit m
      | Loaded (certificates, certPool) => Loaded [ClientTLS server certificates certPool]
      end in
  match opts with
  | Exit m => Exit m
  | Loaded opts =>
      Loaded (if bool_decide (username f = "") then opts
              else opts ++ [WithPerRPCCredentials (username f) (password f)])
  end.

(** The headers a client sends with each request. *)
Definition GetRequestMetadata (username password : string) : gmap string string :=
  {["username" := username; "password" := password]}.
Definition RequireTransportSecurity : bool := true.
End credentials.
Arguments Loaded {A} a.
Arguments Exit {A} m.

(** ** Connections

    The tables of [netsession] with the sessions of the server its listeners
    were given; a listener may have none. *)
Record net_state : Type := mkNet { listeners : gset string; conns : gset string; table : SessionTable }.

(** [Listen] on an address that is bound. *)
Definition Listen (addr : string) (st : net_state) : net_state :=
  mkNet ({[addr]} ∪ listeners st) (conns st) (table st).

(** [Accept] of a connection from [remoteaddr], and [Close] of it. *)
Definition Accept (session : bool) (remoteaddr : string) (st : net_state) : outcome error net_state :=
  let conns := {[remoteaddr]} ∪ conns st in
  if session then t ← Started remoteaddr (table st); mret (mkNet (listeners st) conns t)
  else mret (mkNet (listeners st) conns (table st)).

Definition Conn_Close (session : bool) (remoteaddr : string) (st : net_state) : net_state :=
  mkNet (listeners st) (conns st ∖ {[remoteaddr]}) (if session then Closed remoteaddr (table st) else table st).

Definition Listener_Close (addr : string) (st : net_state) : net_state :=
  mkNet (listeners st ∖ {[addr]}) (conns st) (table st).
