(* ===== verification/AccessSpec.v ===== *)
(** * AccessSpec: the theorems on metadata, logins and connections *)

From Stdlib Require Import Ascii ZArith Lia.
From S2P Require Export SessionSpec Access.

(** ** Metadata *)
Section metadata.
Context `{GoRange}.

(** A header is stored under its name without colons. *)
Definition add_header (m : gmap string string) (kv : string * list string) : gmap string string :=
  <[Trim is_colon kv.1 := default "" (head kv.2)]> m.

Lemma copy_headers_ok l m :
  Forall (λ kv : string * list string, kv.2 ≠ []) l →
  copy_headers l m = Ok (foldl add_header m l).
Proof.
  revert m. induction l as [|[k [|v0 v]] l IH]; intros m Hl; [done|by apply Forall_cons in Hl as [? _]|].
  apply Forall_cons in Hl as [_ Hl]. cbn. by rewrite IH.
Qed.

Lemma foldl_headers (l : list (string * list string)) m name :
  (∀ kv, kv ∈ l → Trim is_colon kv.1 = name → kv.1 = name) → NoDup l.*1 →
  (∀ v, (name, v) ∈ l → Trim is_colon name = name) →
  foldl add_header m l !! name =
  match (list_to_map l : gmap string (list string)) !! name with
  | Some v => Some (default "" (head v))
  | None => m !! name
  end.
Proof.
  revert m. induction l as [|[k v] l IH]; intros m Hk Hnd Hself; [done|]. cbn [fmap list_fmap foldl fst] in *.
  apply NoDup_cons in Hnd as [Hnin Hnd]. cbn [list_to_map foldr].
  rewrite IH; [|set_solver|done|set_solver]. destruct (decide (k = name)) as [->|Hne].
  - rewrite (not_elem_of_list_to_map_1 l name), lookup_insert_eq by done.
    unfold add_header. cbn [fst snd]. rewrite (Hself v) by set_solver. by rewrite lookup_insert_eq.
  - cbn [fst snd]. rewrite (lookup_insert_ne _ k name) by done.
    destruct ((list_to_map l : gmap string (list string)) !! name); [done|]. unfold add_header. cbn [fst snd]. apply lookup_insert_ne. intros He. apply Hne.
    apply (Hk (k, v)); [set_solver|done].
Qed.
End metadata.

Definition peer_names : list string := ["protocol"; "peer"; "peer-address"; "peer-port"].

(** ** Connections

    Connections have an identity of their own: two of them may have one remote
    address, over two listeners. *)

(** A listener accepts a new connection, and was given the server or not; a
    connection is closed; a request comes in. *)
Inductive net_op : Type :=
  | Connect (i : nat) (session : bool) (remoteaddr : string)
  | Disconnect (i : nat)
  | Message (metadata : option (gmap string string)) (SID : string).

(** The open connections. *)
Abbreviation connection_map := (gmap nat (bool * string)).

Definition conn_step (open : connection_map) (op : net_op) : connection_map :=
  match op with
  | Connect i session a => <[i := (session, a)]> open
  | Disconnect i => delete i open
  | Message _ _ => open
  end.

Definition run_net_op (open : connection_map) (st : net_state) (op : net_op) : outcome error net_state :=
  match op with
  | Connect _ session a => Accept session a st
  | Disconnect i =>
      mret (match open !! i with Some (session, a) => Conn_Close session a st | None => st end)
  | Message m sid => t ← run_session_op (table st) (Request m sid); mret (mkNet (listeners st) (conns st) t)
  end.

Fixpoint run_net_ops (open : connection_map) (st : net_state) (ops : list net_op) : outcome error net_state :=
  match ops with
  | [] => mret st
  | op :: ops => st ← run_net_op open st op; run_net_ops (conn_step open op) st ops
  end.

Definition connection_of (op : net_op) : list nat := match op with Connect i _ _ => [i] | _ => [] end.

(** No two open connections have one address. *)
Definition apart (open : connection_map) : Prop :=
  ∀ i j c d, open !! i = Some c → open !! j = Some d → c.2 = d.2 → i = j.

(** Both tables hold addresses of open connections only. *)
Definition tables_sound (open : connection_map) (st : net_state) : Prop :=
  (∀ a, a ∈ conns st → ∃ i s, open !! i = Some (s, a)) ∧
  (∀ a, a ∈ dom (sessions (table st)) → ∃ i, open !! i = Some (true, a)).

(** They hold those of all. *)
Definition tables_complete (open : connection_map) (st : net_state) : Prop :=
  ∀ i s a, open !! i = Some (s, a) → a ∈ conns st ∧ (s = true → a ∈ dom (sessions (table st))).

(** The address a table of sessions has for a connection. *)
Definition session_address (s : bool) (a : string) : gset string := if s then {[a]} else ∅.

(** What one step does to the two sets. *)
Definition step_effect (open : connection_map) (st : net_state) (op : net_op) (st' : net_state) : Prop :=
  match op with
  | Connect _ s a => conns st' = {[a]} ∪ conns st ∧
      dom (sessions (table st')) = session_address s a ∪ dom (sessions (table st))
  | Disconnect i =>
      match open !! i with
      | Some (s, a) => conns st' = conns st ∖ {[a]} ∧
          dom (sessions (table st')) = dom (sessions (table st)) ∖ session_address s a
      | None => st' = st
      end
  | Message _ _ => conns st' = conns st ∧ dom (sessions (table st')) = dom (sessions (table st))
  end.

Lemma run_net_op_ok open st op :
  table_ok (table st) → (0 ≤ sessionID (table st) < 2 ^ 64 - 1)%Z →
  (∀ i a, op = Connect i true a → colon_address a = true) →
  ∃ st', run_net_op open st op = Ok st' ∧ table_ok (table st') ∧
    (sessionID (table st) ≤ sessionID (table st') ≤ sessionID (table st) + 1)%Z ∧
    step_effect open st op st'.
Proof.
  intros Hok Hc Ha. unfold step_effect. destruct op as [i [|] a|i|m sid]; cbn [run_net_op].
  - destruct (run_session_op_ok (table st) (Open a)) as (t & Ht & Hok' & Hc' & Hd); [done..| |].
    { intros a' [= <-]. left. by apply (Ha i). }
    unfold Accept. cbn [run_session_op] in Ht. rewrite Ht, outcome_bind_ret. by eexists.
  - eexists. split; [done|]. cbn. split_and!; [done|lia|lia|done|by rewrite union_empty_l_L].
  - destruct (open !! i) as [[[|] a]|]; eexists; (split; [done|]); [| |by split_and!; [|lia|lia|]].
    + destruct (run_session_op_ok (table st) (Close a)) as (t & Ht & Hok' & Hc' & Hd); [done..|].
      cbn [run_session_op] in Ht. cbv [mret outcome_ret] in Ht. injection Ht as <-. by split_and!; try apply Hc'.
    + cbn. split_and!; [done|lia|lia|done|by rewrite difference_empty_L].
  - destruct (run_session_op_ok (table st) (Request m sid)) as (t & Ht & Hok' & Hc' & Hd); [done..|].
    rewrite Ht, outcome_bind_ret. by eexists.
Qed.

Lemma tables_sound_step open st st' op :
  tables_sound open st → (∀ i, i ∈ connection_of op → open !! i = None) →
  step_effect open st op st' → tables_sound (conn_step open op) st'.
Proof.
  intros [Hconns Hsess] Hfresh Hstep. unfold step_effect in Hstep. destruct op as [i s a|i|m sid]; cbn [conn_step connection_of] in *.
  - destruct Hstep as [Hc Hd]. split; intros b; rewrite ?Hc, ?Hd; intros [Hb|Hb]%elem_of_union.
    + exists i, s. apply elem_of_singleton in Hb as ->. apply lookup_insert_eq.
    + destruct (Hconns b Hb) as (j & s' & Hj). exists j, s'. rewrite lookup_insert_ne; [done|].
      intros <-. rewrite Hfresh in Hj by set_solver. done.
    + destruct s; [|set_solver]. exists i. apply elem_of_singleton in Hb as ->. apply lookup_insert_eq.
    + destruct (Hsess b Hb) as (j & Hj). exists j. rewrite lookup_insert_ne; [done|].
      intros <-. rewrite Hfresh in Hj by set_solver. done.
  - destruct (open !! i) as [[s a]|] eqn:Hi; [|subst st'; rewrite delete_id by done; done].
    destruct Hstep as [Hc Hd]. split; intros b; rewrite ?Hc, ?Hd; intros [Hb Hne]%elem_of_difference.
    + destruct (Hconns b Hb) as (j & s' & Hj). exists j, s'. rewrite lookup_delete_ne; [done|].
      intros <-. set_solver.
    + destruct (Hsess b Hb) as (j & Hj). exists j. rewrite lookup_delete_ne; [done|].
      intros <-. rewrite Hi in Hj. injection Hj as -> ->. set_solver.
  - destruct Hstep as [Hc Hd]. split; intros b; rewrite ?Hc, ?Hd; auto.
Qed.

Lemma tables_complete_step open st st' op :
  tables_complete open st → apart open → apart (conn_step open op) → (∀ i, i ∈ connection_of op → open !! i = None) →
  step_effect open st op st' → tables_complete (conn_step open op) st'.
Proof.
  intros Hall Hapart Hapart' Hfresh Hstep j s b Hj. unfold step_effect in Hstep.
  destruct op as [i s0 a|i|m sid]; cbn [conn_step connection_of] in *.
  - destruct Hstep as [-> ->]. destruct (decide (j = i)) as [->|Hne].
    + rewrite lookup_insert_eq in Hj. injection Hj as -> ->. split; [set_solver|]. intros ->. set_solver.
    + rewrite lookup_insert_ne in Hj by done. destruct (Hall _ _ _ Hj). split; [set_solver|]. intros Hs. set_solver.
  - apply lookup_delete_Some in Hj as [Hne Hj]. destruct (Hall _ _ _ Hj) as [Hb Hs].
    destruct (open !! i) as [[s0 a]|] eqn:Hi; [|by subst st']. destruct Hstep as [-> ->].
    assert (b ≠ a) by (intros ->; by apply Hne, (Hapart i j (s0, a) (s, a))).
    split; [set_solver|]. intros Htrue. specialize (Hs Htrue). destruct s0; set_solver.
  - destruct Hstep as [-> ->]. by apply (Hall j).
Qed.

(** The connections open after each operation. *)
Fixpoint apart_along (open : connection_map) (ops : list net_op) : Prop :=
  apart open ∧ match ops with [] => True | op :: ops => apart_along (conn_step open op) ops end.

Lemma run_net_ops_ok open st ops :
  table_ok (table st) → (0 ≤ sessionID (table st))%Z → (sessionID (table st) + Z.of_nat (length ops) < 2 ^ 64)%Z →
  (∀ i a, Connect i true a ∈ ops → colon_address a = true) →
  NoDup (ops ≫= connection_of) → (∀ i, i ∈ ops ≫= connection_of → open !! i = None) → tables_sound open st →
  ∃ st', run_net_ops open st ops = Ok st' ∧ table_ok (table st') ∧ tables_sound (foldl conn_step open ops) st' ∧
    (apart_along open ops → tables_complete open st → tables_complete (foldl conn_step open ops) st').
Proof.
  revert open st. induction ops as [|op ops IH]; intros open st Hok Hpos Hc Ha Hnd Hfresh Hsound.
  { by exists st. }
  cbn [mbind list_bind length] in *. apply NoDup_app in Hnd as (_ & Hdis & Hnd).
  assert (∀ i, i ∈ connection_of op → open !! i = None) as Hop by (intros i Hi; apply Hfresh; set_solver).
  destruct (run_net_op_ok open st op) as (st1 & Hr & Hok1 & Hc1 & Heff); [done|lia|intros i a ->; apply (Ha i); set_solver|].
  destruct (IH (conn_step open op) st1) as (st' & Hr' & Hok' & Hs' & Hcomp); [done|lia|lia| |done| | |].
  - intros i a Hin. apply (Ha i). set_solver.
  - intros i Hi. assert (open !! i = None) as Hn by (apply Hfresh; set_solver).
    destruct op as [j s a|j|m sid]; cbn [conn_step connection_of] in *; [| |done].
    + rewrite lookup_insert_ne; [done|]. intros ->. apply (Hdis i); [set_solver|done].
    + apply lookup_delete_None. by right.
  - by eapply tables_sound_step.
  - exists st'. cbn [run_net_ops foldl]. rewrite Hr, outcome_bind_ret. split_and!; [done..|].
    intros [Hap Halong] Hall. apply Hcomp; [done|]. eapply tables_complete_step; try done.
    by destruct ops as [|op' ops]; destruct Halong.
Qed.

(** ** Theorems *)

(** Both readings of the metadata agree: for a request whose headers have
    values, a name that no other header becomes when its colons are cut is read
    by QueryMetadata as the entry GetMetadata has for it, with the empty text for
    a missing one, provided it is not both a header and a name of the peer. *)
Theorem QueryMetadata_GetMetadata `{GoRange} (c : Context_) (headers : gmap string (list string)) (m : gmap string string)
    (ok : bool) (name : string) :
  incoming c = Some headers → map_Forall (λ _ v, v ≠ []) headers → GetMetadata c = Ok (m, ok) →
  map_Forall (λ k _, Trim is_colon k = name → k = name) headers →
  (is_Some (headers !! name) → Trim is_colon name = name ∧ (name ∉ peer_names ∨ peer c = None)) →
  QueryMetadata c name = Ok (default "" (m !! name), true).
Proof.
  intros Hin Hne Hget Hk Hself. unfold GetMetadata in Hget. rewrite Hin in Hget. unfold QueryMetadata. rewrite Hin.
  rewrite copy_headers_ok in Hget.
  2: { apply Forall_forall. intros [k v] Hkv%elem_of_go_range. by apply (Hne k). }
  rewrite outcome_bind_ret in Hget. set (m0 := foldl _ _ _) in Hget.
  assert (m0 !! name = match headers !! name with Some v => Some (default "" (head v)) | None => None end) as Hm0.
  { unfold m0. rewrite foldl_headers.
    - rewrite go_range_to_map. by destruct (headers !! name).
    - intros [k v] Hkv%elem_of_go_range Ht. by apply (Hk k v).
    - apply go_range_NoDup.
    - intros v Hv%elem_of_go_range. apply Hself. by exists v. }
  destruct (peer c) as [p|].
  - destruct (split_port (Addr_String p)) as [[address port]| | |] eqn:Hsp; try discriminate Hget.
    cbn in Hget. injection Hget as <- <-. unfold split_port in Hsp.
    destruct (LastIndex (Addr_String p) ":") as [i|] eqn:Hli; [|discriminate Hsp]. cbv [mret outcome_ret] in *.
    injection Hsp as <- <-. destruct (headers !! name) as [v|] eqn:Hh.
    + destruct (Hself ltac:(by exists v)) as [_ [Hnp|]]; [|done]. unfold peer_names in Hnp.
      rewrite !lookup_insert_ne by set_solver. rewrite Hm0. specialize (Hne _ _ Hh). by destruct v.
    + repeat case_bool_decide; subst; rewrite ?lookup_insert_eq, ?lookup_insert_ne, ?lookup_insert_eq by done; try done.
      by rewrite Hm0.
  - cbv [mret outcome_ret] in *. injection Hget as <- <-. rewrite Hm0.
    destruct (headers !! name) as [v|] eqn:Hh; [|done]. specialize (Hne _ _ Hh). by destruct v.
Qed.

Section login.
Context (getpwnam : string → option string) (getspnam : string → option (option string))
        (crypt : string → string → option string).
Abbreviation AuthenticateUser := (AuthenticateUser getpwnam getspnam crypt).

(** The password hash of an account that can log in. *)
Definition account_hash (user : string) : option string :=
  pw ← getpwnam user;
  if bool_decide (pw = "") then None
  else
    h ← (if first_is "x" pw then mjoin (getspnam user) else Some pw);
    if first_is "!" h || first_is "*" h then None else Some h.

(** The user is known, and the password is the cheat code or hashes to the
    stored hash. *)
Definition accepted (cheatcode username password : string) : Prop :=
  is_Some (getpwnam (C_CString username)) ∧
  (password = cheatcode ∨
   ∃ h, account_hash (C_CString username) = Some h ∧ crypt (C_CString password) h = Some h).

Lemma compare_password_zero passwd pw :
  compare_password crypt passwd pw = Ok 0%Z ↔
  ∃ h, pw = Some h ∧ first_is "!" h || first_is "*" h = false ∧ crypt passwd h = Some h.
Proof.
  unfold compare_password. cbv [mret outcome_ret]. split.
  - destruct pw as [h|]; [|done]. destruct (first_is "!" h || first_is "*" h) eqn:Hf; [done|].
    destruct (crypt passwd h) as [e|] eqn:Hc; [|done]. case_bool_decide as He; [|done]. intros _. subst e. by exists h.
  - intros (h & -> & -> & ->). by rewrite bool_decide_eq_true_2.
Qed.

Lemma usable_hash passwd h :
  (∃ h', Some h = Some h' ∧ first_is "!" h' || first_is "*" h' = false ∧ crypt passwd h' = Some h') ↔
  ∃ h', (if first_is "!" h || first_is "*" h then None else Some h) = Some h' ∧ crypt passwd h' = Some h'.
Proof.
  destruct (first_is "!" h || first_is "*" h) eqn:Hf; split.
  - intros (h' & [= <-] & Hf' & _). congruence.
  - by intros (h' & ? & _).
  - intros (h' & [= <-] & _ & Hc). by exists h.
  - intros (h' & [= <-] & Hc). by exists h.
Qed.

Lemma authenticate_zero user passwd :
  authenticate getpwnam getspnam crypt user passwd = Ok 0%Z ↔
  ∃ h, account_hash user = Some h ∧ crypt passwd h = Some h.
Proof.
  unfold authenticate, account_hash. cbv [mret outcome_ret].
  destruct (getpwnam user) as [pw|]; cbn [mbind option_bind]; [|naive_solver].
  case_bool_decide as Hpw; [naive_solver|].
  destruct (first_is "x" pw) eqn:Hx.
  - destruct (getspnam user) as [sp|]; cbn [mjoin option_join]; [|naive_solver].
    rewrite compare_password_zero. destruct sp as [h|]; cbn [mbind option_bind]; [apply usable_hash|naive_solver].
  - rewrite compare_password_zero. apply usable_hash.
Qed.

Lemma AuthenticateUser_accepted cheatcode username password :
  AuthenticateUser cheatcode username password = Ok None ↔ accepted cheatcode username password.
Proof.
  unfold Access.AuthenticateUser, accepted, check_username. case_bool_decide as Hp.
  - destruct (getpwnam _) as [pw|]; cbn; split; try done; [intros _; split; [by eexists|by left]|].
    by intros [[? ?] _].
  - rewrite <-authenticate_zero. split.
    + destruct (authenticate _ _ _ _ _) as [ret| | |] eqn:Ha; cbn; try done.
      destruct (Z.eqb_spec ret 0) as [->|]; [|by repeat case_match]. intros _. split; [|by right].
      unfold authenticate in Ha. destruct (getpwnam (C_CString username)); [by eexists|discriminate Ha].
    + intros [_ [Heq|Ha]]; [done|]. by rewrite Ha.
Qed.

(** The request carries a user and a password that are accepted. *)
Definition authenticated `{GoRange} (cheatcode : string) (c : Context_) : Prop :=
  ∃ m u p, GetMetadata c = Ok (m, true) ∧ m !! "username" = Some u ∧ m !! "password" = Some p ∧ accepted cheatcode u p.

(** Reading the metadata does not fail; it may panic. *)
Lemma copy_headers_results l m : copy_headers l m = Panic ∨ ∃ m', copy_headers l m = Ok m'.
Proof. revert m. induction l as [|[k [|v0 v]] l IH]; intros m; cbn; [right; by eexists|by left|apply IH]. Qed.

Lemma GetMetadata_results `{GoRange} c : GetMetadata c = Panic ∨ ∃ m ok, GetMetadata c = Ok (m, ok).
Proof.
  unfold GetMetadata, split_port. destruct (incoming c) as [headers|]; [|right; by eexists _, _].
  destruct (copy_headers_results (go_range headers) ∅) as [->|[m ->]]; [by left|]. cbn.
  destruct (peer c) as [p|]; [|right; by eexists _, _]. destruct (LastIndex _ _); [right; by eexists _, _|by left].
Qed.

Lemma AuthenticateUser_results cheatcode u p :
  AuthenticateUser cheatcode u p = Panic ∨ ∃ err, AuthenticateUser cheatcode u p = Ok err.
Proof.
  unfold Access.AuthenticateUser, authenticate, compare_password. cbv [mbind outcome_bind mret outcome_ret].
  repeat case_match; simplify_eq; (by left) || (right; by eexists).
Qed.

Lemma intercept_cases `{GoRange} cheatcode c :
  (authenticated cheatcode c ∧ intercept getpwnam getspnam crypt cheatcode c = Ok None) ∨
  (¬ authenticated cheatcode c ∧
   (intercept getpwnam getspnam crypt cheatcode c = Panic ∨
    ∃ m, intercept getpwnam getspnam crypt cheatcode c = Ok (Some (ErrGRPC codes.InvalidArgument m)))).
Proof.
  unfold intercept, authenticated. destruct (GetMetadata_results c) as [->|(m & ok & ->)]; cbn [mbind outcome_bind].
  { right. split; [naive_solver|by left]. }
  destruct ok; cbn [negb]; [|right; split; [naive_solver|right; by eexists]].
  destruct (m !! "username") as [u|] eqn:Hu; [|right; split; [naive_solver|right; by eexists]].
  destruct (m !! "password") as [p|] eqn:Hp; [|right; split; [naive_solver|right; by eexists]].
  pose proof (AuthenticateUser_accepted cheatcode u p) as Hacc.
  destruct (AuthenticateUser_results cheatcode u p) as [Ha|[[err|] Ha]]; rewrite Ha in Hacc |- *; cbn.
  - right. split; [|by left]. intros (m' & u' & p' & Hm & Hu' & Hp' & Hac). simplify_eq. by apply Hacc in Hac.
  - right. split; [|right; by eexists]. intros (m' & u' & p' & Hm & Hu' & Hp' & Hac). simplify_eq. by apply Hacc in Hac.
  - left. split; [|done]. exists m, u, p. split_and!; try done. by apply Hacc.
Qed.

(** C13. The interceptors guard the service: a unary call and a stream reach their
    handler, and are answered with its result, exactly if the request carries a
    user and a password that are accepted, that is the user is known and the
    password is the cheat code or hashes to the stored hash; any other request
    leaves the state of the server as it is and is answered with
    InvalidArgument, or its processing panics. *)
Theorem interceptors_guard `{GoRange} {St Req Resp Stream : Type} (cheatcode : string) (c : Context_) (req : Req)
    (ss : Stream) (handler : Context_ → Req → St → outcome error (St * (option Resp * option error)))
    (stream_handler : Stream → St → outcome error (St * option error)) (st : St) :
  let unary := UnaryInterceptor getpwnam getspnam crypt cheatcode c req handler st in
  let stream := StreamInterceptor getpwnam getspnam crypt cheatcode c ss stream_handler st in
  (authenticated cheatcode c → unary = handler c req st ∧ stream = stream_handler ss st) ∧
  (¬ authenticated cheatcode c →
     unary = Panic ∧ stream = Panic ∨
     ∃ m, unary = Ok (st, (None, Some (ErrGRPC codes.InvalidArgument m))) ∧
          stream = Ok (st, Some (ErrGRPC codes.InvalidArgument m))).
Proof.
  unfold UnaryInterceptor, StreamInterceptor.
  destruct (intercept_cases cheatcode c) as [[Ha ->]|[Ha [->|[m ->]]]]; cbn; split; try done.
  - intros _. by left.
  - intros _. right. by exists m.
Qed.

(** With the cheat code at its default, the empty text, every known user logs
    in with an empty password. *)
Theorem empty_password_accepted `{GoRange} (c : Context_) (m : gmap string string) (u : string) :
  GetMetadata c = Ok (m, true) → m !! "username" = Some u → m !! "password" = Some "" →
  is_Some (getpwnam (C_CString u)) → intercept getpwnam getspnam crypt "" c = Ok None.
Proof.
  intros Hm Hu Hp Hk. destruct (intercept_cases "" c) as [[_ ?]|[Hn _]]; [done|]. exfalso. apply Hn.
  exists m, u, "". split_and!; try done. split; [done|by left].
Qed.
End login.

(** C24. The connections and the sessions go together: over any connections,
    each with its own identity and, when its listener was given the server, an
    address of host and port, over requests and ends of connections, fewer than
    the counter's range, no step panics and the table of netsession and that of
    the server hold addresses of open connections only.  While no two open
    connections have one address they hold those of all of them, so that a
    request of an open connection finds its session. *)
Theorem connections_sessions (bound : gset string) (ops : list net_op) :
  NoDup (ops ≫= connection_of) → (Z.of_nat (length ops) < 2 ^ 64)%Z →
  (∀ i a, Connect i true a ∈ ops → colon_address a = true) →
  let open := foldl conn_step ∅ ops in
  ∃ st, run_net_ops ∅ (mkNet bound ∅ (mkTable 0 ∅)) ops = Ok st ∧ table_ok (table st) ∧
    (∀ a, a ∈ conns st → ∃ i s, open !! i = Some (s, a)) ∧
    (∀ a m, is_ok (updateSession m a (table st)) = true → ∃ i, open !! i = Some (true, a)) ∧
    (apart_along ∅ ops → ∀ i s a, open !! i = Some (s, a) →
       a ∈ conns st ∧ (s = true → ∀ m, is_ok (updateSession (Some m) a (table st)) = true)).
Proof.
  intros Hnd Hlen Ha. destruct (run_net_ops_ok ∅ (mkNet bound ∅ (mkTable 0 ∅)) ops)
    as (st & Hr & Hok & [Hconns Hsess] & Hcomp); try done; [by split..|].
  exists st. split_and!; try done.
  - intros a m Hu. apply Hsess, elem_of_dom. unfold updateSession in Hu. by destruct (sessions (table st) !! a).
  - intros Halong i s a Hi. destruct (Hcomp Halong ltac:(done) i s a Hi) as [Hc Hs]. split; [done|].
    intros Htrue m. apply Hs, elem_of_dom in Htrue as [s0 Hs0]. unfold updateSession. by rewrite Hs0.
Qed.

(** Two connections with one remote address, over two listeners, share an entry:
    the end of one takes the session of the other, which is still open. *)
Lemma shared_remote_address (bound : gset string) (a : string) (m : gmap string string) :
  colon_address a = true →
  let ops := [Connect 0 true a; Connect 1 true a; Disconnect 0] in
  foldl conn_step ∅ ops !! 1 = Some (true, a) ∧
  ∃ st err, run_net_ops ∅ (mkNet bound ∅ (mkTable 0 ∅)) ops = Ok st ∧ updateSession (Some m) a (table st) = Err err.
Proof.
  intros Ha ops. split; [done|]. unfold colon_address in Ha. destruct (LastIndex a ":") as [k|] eqn:Hk; [|done].
  destruct (Started a (mkTable 0 ∅)) as [t| | |] eqn:Ht; unfold Started in Ht; cbn [sessions] in Ht;
    rewrite lookup_empty, Hk in Ht; try discriminate Ht. injection Ht as Ht.
  assert (Started a t = Ok t) as Hagain by (unfold Started; rewrite <-Ht; cbn [sessions]; by rewrite lookup_insert_eq).
  assert (Started a (mkTable 0 ∅) = Ok t) as Hfirst.
  { unfold Started. cbn [sessions]. rewrite lookup_empty, Hk, <-Ht. done. }
  unfold ops. cbn [run_net_ops run_net_op conn_step]. unfold Accept. cbn [table]. rewrite Hfirst, outcome_bind_ret, !outcome_bind_mret.
  cbn [table listeners conns]. rewrite Hagain, outcome_bind_ret, !outcome_bind_mret.
  rewrite lookup_insert_ne, lookup_insert_eq by done. eexists _, _. split; [done|].
  unfold updateSession. cbn. by rewrite lookup_delete_eq.
Qed.

(** ** Evaluations *)
Definition example_headers : gmap string (list string) :=
  {[":authority" := ["target:57400"]; "username" := ["admin"]; "password" := ["admin"]]}.
Definition example_context : Context_ := mkContext (Some example_headers) (Some (mkAddr "tcp" "10.0.0.1:5000")).

Lemma QueryMetadata_GetMetadata_witness :
  ∃ m : gmap string string, QueryMetadata example_context "peer-port" = Ok (default "" (m !! "peer-port"), true) ∧ m !! "peer-port" = Some "5000".
Proof.
  destruct (ok_and_true (@GetMetadata canonical_range example_context)
              (λ r, bool_decide (r.1 !! "peer-port" = Some "5000"))) as ([m ok] & Hm & Hp); [by_vm|].
  apply bool_decide_eq_true in Hp. exists m. split; [|exact Hp].
  apply (@QueryMetadata_GetMetadata canonical_range example_context example_headers m ok "peer-port"); [reflexivity| |exact Hm| |].
  - apply (bool_decide_unpack _). vm_compute. exact I.
  - apply (bool_decide_unpack _). vm_compute. exact I.
  - intros [v Hv]. vm_compute in Hv. discriminate Hv.
Defined.

(** The first listener was given the server, the second was not; the address of
    a closed connection is used again. *)
Definition example_net_ops : list net_op :=
  [Connect 0 true "10.0.0.1:5000"; Connect 1 true "[::1]:6000"; Connect 2 false "10.0.0.2:7000";
   Message (Some {["username" := "admin"]}) "[::1]:6000"; Disconnect 0; Connect 3 true "10.0.0.1:5000"; Disconnect 2].

Lemma example_apart : apart_along ∅ example_net_ops.
Proof.
  assert (∀ m : connection_map, bool_decide (NoDup (map_to_list m).*2.*2) = true → apart m) as Hdec.
  { intros m Hnd%bool_decide_eq_true i j [s a] [s' a'] Hi Hj Ha. cbn in Ha. subst a'.
    apply elem_of_map_to_list in Hi, Hj. apply list_elem_of_lookup in Hi as [x Hx], Hj as [y Hy].
    assert (x = y) as ->; [|congruence]. apply (NoDup_lookup _ _ _ a Hnd); rewrite !list_lookup_fmap; by rewrite ?Hx, ?Hy. }
  cbn [apart_along example_net_ops]. split_and!; try done; apply Hdec; vm_compute; reflexivity.
Qed.

Lemma connections_sessions_witness :
  ∃ st, run_net_ops ∅ (mkNet {["0.0.0.0:57400"; "0.0.0.0:57401"]} ∅ (mkTable 0 ∅)) example_net_ops = Ok st ∧
    (∀ a, a ∈ conns st → a = "10.0.0.1:5000" ∨ a = "[::1]:6000") ∧
    "10.0.0.1:5000" ∈ conns st ∧ ∀ m, is_ok (updateSession (Some m) "10.0.0.1:5000" (table st)) = true.
Proof.
  destruct (connections_sessions {["0.0.0.0:57400"; "0.0.0.0:57401"]} example_net_ops) as (st & Hr & _ & Hsound & _ & Hcomp).
  - apply (bool_decide_unpack _). vm_compute. exact I.
  - cbn. lia.
  - intros i a. unfold example_net_ops. rewrite !elem_of_cons.
    intros [[= -> ->]|[[= -> ->]|[?|[?|[?|[[= -> ->]|[?|?%elem_of_nil]]]]]]]; done.
  - exists st. split; [exact Hr|]. split.
    + intros a (i & s & Hi)%Hsound.
      assert (foldl conn_step ∅ example_net_ops =
        <[1 := (true, "[::1]:6000")]> {[3 := (true, "10.0.0.1:5000")]}) as Hopen by (vm_compute; reflexivity).
      rewrite Hopen in Hi. apply lookup_insert_Some in Hi as [[_ [= _ <-]]|[_ [_ [= _ <-]]%lookup_singleton_Some]]; auto.
    + destruct (Hcomp example_apart 3 true "10.0.0.1:5000" eq_refl) as [Hc Hu]. by split; [|apply Hu].
Defined.
