(* ===== verification/Entity.v ===== *)
(** * Entity: certificates and keys

    Models [utilities/entity/entity.go]: templates, key identifiers, and the
    signing of one entity by another.  Key generation, random numbers, the hash
    and the functions of [crypto/x509] are arguments; the time is that of the
    two clock readings of a template. *)

From Stdlib Require Import ZArith.
From S2P Require Export Status.

(** ** Data of [crypto/x509] *)
Record Name : Type := mkSubject {
  n_Country : list string; n_Organization : list string; n_OrganizationalUnit : list string;
  n_Locality : list string; n_Province : list string; n_StreetAddress : list string; n_PostalCode : list string;
  n_CommonName : string
}.

(** Bits of [KeyUsage] and values of [ExtKeyUsage] and [SignatureAlgorithm]. *)
Definition KeyUsageDigitalSignature : Z := 1.
Definition KeyUsageKeyEncipherment : Z := 4.
Definition KeyUsageCertSign : Z := 32.
Definition KeyUsageCRLSign : Z := 64.
Definition ExtKeyUsageServerAuth : Z := 1.
Definition ExtKeyUsageClientAuth : Z := 2.
Definition SHA256WithRSA : Z := 4.

Definition certMaxPathLen : Z := 5.
(** 365 days in nanoseconds. *)
Definition certExpiration : Z := 365 * 24 * 3600 * 1000000000.
Definition bigInt : Z := 2 ^ 128.

Section entity.
(** RSA keys, an entity may be given a key of another kind; encoded certificates
    and signatures. *)
Context {rsa_private rsa_public other_key der signature : Type} (Public : rsa_private → rsa_public).

Inductive PrivateKey : Type := RSAPrivate (k : rsa_private) | OtherPrivate (k : other_key).
Inductive PublicKey : Type := RSAPublic (k : rsa_public) | OtherPublic (k : other_key).

(** [x509.Certificate]: the fields the program sets or reads. *)
Record x509_Certificate : Type := mkX509 {
  x_Subject : Name; x_Issuer : Name;
  x_SubjectKeyId : string; x_AuthorityKeyId : string;
  x_SerialNumber : Z;
  x_BasicConstraintsValid : bool; x_IsCA : bool; x_MaxPathLen : Z; x_MaxPathLenZero : bool;
  x_KeyUsage : Z; x_ExtKeyUsage : list Z;
  x_NotBefore : Z; x_NotAfter : Z;
  x_DNSNames : list string; x_EmailAddresses : list string; x_IPAddresses : list string;
  x_SignatureAlgorithm : Z;
  x_PublicKey : option PublicKey;
  x_Signature : option signature
}.

(** [x509.CertificateRequest], as the program reads it. *)
Record CertificateRequest : Type := mkCSR {
  cr_Subject : Name; cr_DNSNames : list string; cr_EmailAddresses : list string; cr_IPAddresses : list string;
  cr_SignatureAlgorithm : Z; cr_PublicKey : PublicKey; cr_Signature : option signature
}.

(** [tls.Certificate] with its leaf, and [Entity]. *)
Record tls_cert : Type := mkTLS { tls_Leaf : option x509_Certificate; tls_PrivateKey : option PrivateKey }.

Record Entity : Type := mkEntity {
  e_Template : option x509_Certificate;
  e_PrivateKey : option PrivateKey;
  e_PublicKey : option PublicKey;
  e_Certificate : option tls_cert
}.

(** ** Templates

    [now2] is the clock when [NotBefore] is read, after [NotAfter]. *)
Definition no_name : Name := mkSubject [] [] [] [] [] [] [] "".

Definition Template (cn : string) (now1 now2 : Z) : x509_Certificate :=
  let subject := mkSubject ["NZ"] ["gNxI"] ["gNxI"] ["gNxI"] ["gNxI"] ["gNxI"] [] cn in
  mkX509 subject no_name "" "" 0 true false 0 false
    (Z.lor KeyUsageDigitalSignature KeyUsageKeyEncipherment) [ExtKeyUsageClientAuth; ExtKeyUsageServerAuth]
    now2 (now1 + 24 * 365 * 3600 * 1000000000) [] [] [] SHA256WithRSA None None.

Definition TemplateCA (cn : string) (now1 now2 : Z) : x509_Certificate :=
  let ca := Template cn now1 now2 in
  mkX509 (x_Subject ca) (x_Issuer ca) (x_SubjectKeyId ca) (x_AuthorityKeyId ca) (x_SerialNumber ca)
    (x_BasicConstraintsValid ca) true certMaxPathLen true
    (Z.lor (Z.lor KeyUsageDigitalSignature KeyUsageCertSign) KeyUsageCRLSign) (x_ExtKeyUsage ca)
    (x_NotBefore ca) (x_NotAfter ca) (x_DNSNames ca) (x_EmailAddresses ca) (x_IPAddresses ca)
    (x_SignatureAlgorithm ca) (x_PublicKey ca) (x_Signature ca).

Definition set_ids (subjectKeyId : string) (serial : Z) (t : x509_Certificate) : x509_Certificate :=
  mkX509 (x_Subject t) (x_Issuer t) subjectKeyId (x_AuthorityKeyId t) serial (x_BasicConstraintsValid t) (x_IsCA t)
    (x_MaxPathLen t) (x_MaxPathLenZero t) (x_KeyUsage t) (x_ExtKeyUsage t) (x_NotBefore t) (x_NotAfter t)
    (x_DNSNames t) (x_EmailAddresses t) (x_IPAddresses t) (x_SignatureAlgorithm t) (x_PublicKey t) (x_Signature t).

Definition set_issuer (issuer : Name) (authorityKeyId : string) (t : x509_Certificate) : x509_Certificate :=
  mkX509 (x_Subject t) issuer (x_SubjectKeyId t) authorityKeyId (x_SerialNumber t) (x_BasicConstraintsValid t) (x_IsCA t)
    (x_MaxPathLen t) (x_MaxPathLenZero t) (x_KeyUsage t) (x_ExtKeyUsage t) (x_NotBefore t) (x_NotAfter t)
    (x_DNSNames t) (x_EmailAddresses t) (x_IPAddresses t) (x_SignatureAlgorithm t) (x_PublicKey t) (x_Signature t).

(** ** New entities *)
Context (asn1_Marshal : rsa_public → error + string) (sha1_Sum : string → string).

Definition keyID (pub : PublicKey) : error + string :=
  match pub with
  | OtherPublic _ => inl (Errorf_plain "failed to parse public key, not a rsa.PublicKey type" [])
  | RSAPublic pk =>
      match asn1_Marshal pk with
      | inl err => inl (Errorf_plain "failed to marshal public key: %v" [AMsg (error_text err)])
      | inr pkBytes => inr (sha1_Sum pkBytes)
      end
  end.

(** The key identifier and the serial number, read from [rand.Int] of [bigInt]. *)
Definition with_ids (pub : PublicKey) (serial : error + Z) (template : x509_Certificate) : error + x509_Certificate :=
  match keyID pub with
  | inl err => inl (Errorf_plain "failed to generate Subject Key ID: %v" [AMsg (error_text err)])
  | inr id =>
      match serial with
      | inl err => inl (Errorf_plain "failed to randomize a big int: %v" [AMsg (error_text err)])
      | inr n => inr (set_ids id n template)
      end
  end.

(** [generated] is the result of [rsa.GenerateKey]; a given key is asserted to
    be an RSA key. *)
Definition NewEntity (generated : error + rsa_private) (serial : error + Z) (template : x509_Certificate)
    (privateKey : option PrivateKey) : outcome error Entity :=
  match generated with
  | inl err => Err (Errorf_plain "failed to generate key: %v" [AMsg (error_text err)])
  | inr priv =>
      priv ← match privateKey with
             | None => mret priv
             | Some (RSAPrivate k) => mret k
             | Some (OtherPrivate _) => Panic
             end;
      match with_ids (RSAPublic (Public priv)) serial template with
      | inl err => Err err
      | inr template =>
          mret (mkEntity (Some template) (Some (RSAPrivate priv)) (Some (RSAPublic (Public priv))) None)
      end
  end.

Definition FromSigningRequest (csr : CertificateRequest) (now1 now2 : Z) (serial : error + Z) : error + Entity :=
  let template :=
    mkX509 (cr_Subject csr) no_name "" "" 0 true false 0 false
      (Z.lor KeyUsageDigitalSignature KeyUsageKeyEncipherment) [ExtKeyUsageClientAuth; ExtKeyUsageServerAuth]
      now2 (now1 + certExpiration) (cr_DNSNames csr) (cr_EmailAddresses csr) (cr_IPAddresses csr)
      (cr_SignatureAlgorithm csr) None (cr_Signature csr) in
  match with_ids (cr_PublicKey csr) serial template with
  | inl err => inl err
  | inr template => inr (mkEntity (Some template) None (Some (cr_PublicKey csr)) None)
  end.

(** A pair of files: the first certificate of the chain is indexed. *)
Definition FromFile (LoadX509KeyPair : error + (list der * PrivateKey))
    (ParseCertificate : der → error + x509_Certificate) : outcome error Entity :=
  match LoadX509KeyPair with
  | inl err => Err (Errorf_plain "failed to load x509 key pair: %v" [AMsg (error_text err)])
  | inr ([], _) => Panic
  | inr (der :: _, key) =>
      match ParseCertificate der with
      | inl err => Err (Errorf_plain "failed to parse certificate: %v" [AMsg (error_text err)])
      | inr leaf => mret (mkEntity None (Some key) None (Some (mkTLS (Some leaf) (Some key))))
      end
  end.

(** ** Signing *)
Context (CreateCertificate : x509_Certificate → x509_Certificate → option PublicKey → option PrivateKey → error + der)
        (ParseCertificate : der → error + x509_Certificate)
        (CheckSignatureFrom : x509_Certificate → x509_Certificate → option error).

(** The certificate a parent signs with: its leaf, or its template. *)
Definition parent_template (parent : Entity) : option x509_Certificate :=
  match e_Certificate parent with
  | Some (mkTLS (Some leaf) _) => Some leaf
  | _ => e_Template parent
  end.

(** [self]: the parent is the entity itself, whose template is then the parent's
    as it is written. *)
Definition SignWith (self : bool) (parent e : Entity) : outcome error Entity :=
  match parent_template parent with
  | None => Err (Errorf_plain "no template found for signing the certificate" [])
  | Some parentTemplate =>
      match e_Template e with
      | None => Panic
      | Some template =>
          let template := set_issuer (x_Subject parentTemplate) (x_SubjectKeyId parentTemplate) template in
          let parentTemplate :=
            match self, e_Certificate e with
            | true, Some (mkTLS (Some _) _) => parentTemplate
            | true, _ => template
            | false, _ => parentTemplate
            end in
          match CreateCertificate template parentTemplate (e_PublicKey e) (e_PrivateKey parent) with
          | inl err => Err (Errorf_plain "failed to create certificate: %v" [AMsg (error_text err)])
          | inr derCert =>
              match ParseCertificate derCert with
              | inl err => Err (Errorf_plain "failed to parse the certificate: %v" [AMsg (error_text err)])
              | inr leaf =>
                  mret (mkEntity (Some template) (e_PrivateKey e) (e_PublicKey e)
                          (Some (mkTLS (Some leaf) (e_PrivateKey e))))
              end
          end
      end
  end.

(** The errors of [NewEntity] and [SignWith] in the constructors. *)
Definition wrapping {A} (text : string) (o : outcome error A) : outcome error A :=
  match o with Err err => Err (Errorf_plain text [AMsg (error_text err)]) | _ => o end.

Definition create (generated : error + rsa_private) (serial : error + Z) (template : x509_Certificate)
    (priv : option PrivateKey) (parent : option Entity) : outcome error Entity :=
  ca ← wrapping "failed to create a new Entity: %v" (NewEntity generated serial template priv);
  wrapping "failed to sign Entity: %v"
    match parent with None => SignWith true ca ca | Some parent => SignWith false parent ca end.

Definition CreateSelfSigned (generated : error + rsa_private) (serial : error + Z) (now1 now2 : Z) (cn : string)
    (priv : option PrivateKey) : outcome error Entity :=
  create generated serial (TemplateCA cn now1 now2) priv None.

Definition CreateSignedCA (generated : error + rsa_private) (serial : error + Z) (now1 now2 : Z) (cn : string)
    (priv : option PrivateKey) (parent : Entity) : outcome error Entity :=
  create generated serial (TemplateCA cn now1 now2) priv (Some parent).

Definition CreateSigned (generated : error + rsa_private) (serial : error + Z) (now1 now2 : Z) (cn : string)
    (priv : option PrivateKey) (parent : Entity) : outcome error Entity :=
  create generated serial (Template cn now1 now2) priv (Some parent).

(** The request of an entity: what its template says. *)
Definition SigningRequest (CreateCertificateRequest : Name → list string → list string → list string → Z →
    option PrivateKey → error + string) (e : Entity) : outcome error (error + string) :=
  match e_Template e with
  | None => Panic
  | Some t =>
      mret (CreateCertificateRequest (x_Subject t) (x_DNSNames t) (x_EmailAddresses t) (x_IPAddresses t)
              (x_SignatureAlgorithm t) (e_PrivateKey e))
  end.

(** Without a certificate or a leaf a nil pointer is dereferenced. *)
Definition SignedBy (parent e : Entity) : outcome error (option error) :=
  match e_Certificate e, e_Certificate parent with
  | Some (mkTLS (Some leaf) _), Some (mkTLS (Some parent_leaf) _) => mret (CheckSignatureFrom leaf parent_leaf)
  | _, _ => Panic
  end.

(** The signer of [gnoi_cert.go]. *)
Definition signer (caEnt : Entity) (csr : CertificateRequest) (now1 now2 : Z) (serial : error + Z)
    : outcome error x509_Certificate :=
  match FromSigningRequest csr now1 now2 serial with
  | inl err => Err (Errorf_plain "failed generating a cert from a CSR: %v" [AMsg (error_text err)])
  | inr e =>
      e ← wrapping "failed to sign the certificate: %v" (SignWith false caEnt e);
      match e_Certificate e with
      | Some (mkTLS (Some leaf) _) => mret leaf
      | _ => Panic
      end
  end.

(** [gnoi.NewServer]: the certificate the target starts with. *)
Definition gnoi_NewServer (generated : error + rsa_private) (generated' : error + rsa_private) (serial : error + Z)
    (now1 now2 : Z) (privateKey : option PrivateKey) (defaultCertificate : option tls_cert) : outcome error tls_cert :=
  match defaultCertificate with
  | Some c => mret c
  | None =>
      privateKey ← match privateKey with
                   | Some k => mret k
                   | None =>
                       match generated with
                       | inl err => Err (Errorf_plain "failed to generate private key: %v" [AMsg (error_text err)])
                       | inr k => mret (RSAPrivate k)
                       end
                   end;
      e ← wrapping "failed to create self signed certificate: %v"
            (CreateSelfSigned generated' serial now1 now2 "gNOI server" (Some privateKey));
      match e_Certificate e with Some c => mret c | None => Panic end
  end.
End entity.
