(* ===== verification/EntitySpec.v ===== *)
(** * EntitySpec: chains of signed entities verify *)

From Stdlib Require Import ZArith Lia.
From S2P Require Export Entity.

Section spec.
Context {rsa_private rsa_public other_key der signature : Type} (Public : rsa_private → rsa_public).
Abbreviation x509_Certificate := (@x509_Certificate rsa_public other_key signature).
Abbreviation PrivateKey := (@PrivateKey rsa_private other_key).
Abbreviation PublicKey := (@PublicKey rsa_public other_key).
Abbreviation Entity := (@Entity rsa_private rsa_public other_key signature).
Context (asn1_Marshal : rsa_public → error + string) (sha1_Sum : string → string).
Context (CreateCertificate : x509_Certificate → x509_Certificate → option PublicKey → option PrivateKey → error + der)
        (ParseCertificate : der → error + x509_Certificate)
        (CheckSignatureFrom : x509_Certificate → x509_Certificate → option error).
Context (public_of : PrivateKey → PublicKey).

(** What [crypto/x509] documents: a certificate that was created carries the
    fields of its template, the subject of its parent as issuer, the public key
    it was made for, and is signed with the private key ([signed_by]); a parent
    that may sign certificates vouches for those signed with its key, and one
    that is no CA for none. *)
Record x509_laws (signed_by : x509_Certificate → PublicKey → Prop) : Prop := {
  law_public k : public_of (RSAPrivate k) = RSAPublic (Public k);
  law_create t p pub priv d : CreateCertificate t p pub priv = inr d →
    ∃ c k, ParseCertificate d = inr c ∧ priv = Some k ∧ signed_by c (public_of k) ∧
      x_Subject c = x_Subject t ∧ x_Issuer c = x_Subject p ∧ x_SubjectKeyId c = x_SubjectKeyId t ∧
      x_BasicConstraintsValid c = x_BasicConstraintsValid t ∧ x_IsCA c = x_IsCA t ∧ x_KeyUsage c = x_KeyUsage t ∧
      x_PublicKey c = pub;
  law_check c p pk : x_BasicConstraintsValid p = true → x_IsCA p = true → Z.testbit (x_KeyUsage p) 5 = true →
    x_PublicKey p = Some pk → signed_by c pk → CheckSignatureFrom c p = None;
  law_check_ca c p : x_BasicConstraintsValid p = true → x_IsCA p = false → CheckSignatureFrom c p ≠ None
}.

Context (signed_by : x509_Certificate → PublicKey → Prop) (laws : x509_laws signed_by).
Abbreviation NewEntity := (NewEntity Public asn1_Marshal sha1_Sum).
Abbreviation SignWith := (SignWith CreateCertificate ParseCertificate).
Abbreviation create := (create Public asn1_Marshal sha1_Sum CreateCertificate ParseCertificate).

(** The leaf of an entity. *)
Definition leaf_of (e : Entity) : option x509_Certificate :=
  match e_Certificate e with Some (mkTLS l _) => l | None => None end.

(** An entity that can sign: its key is that of its leaf. *)
Definition holds_key (e : Entity) (leaf : x509_Certificate) : Prop :=
  leaf_of e = Some leaf ∧ ∃ k, e_PrivateKey e = Some k ∧ x_PublicKey leaf = Some (public_of k).

Definition may_sign (leaf : x509_Certificate) : Prop :=
  x_BasicConstraintsValid leaf = true ∧ x_IsCA leaf = true ∧ Z.testbit (x_KeyUsage leaf) 5 = true.

Lemma wrapping_Ok {A} text (o : outcome error A) a : wrapping text o = Ok a → o = Ok a.
Proof. by destruct o. Qed.

Lemma parent_template_leaf (e : Entity) leaf : leaf_of e = Some leaf → parent_template e = Some leaf.
Proof. unfold leaf_of, parent_template. destruct (e_Certificate e) as [[[l|] k]|]; by intros [= ->]. Qed.

Lemma NewEntity_Ok gen serial (template : x509_Certificate) (priv : option PrivateKey) (e : Entity) :
  NewEntity gen serial template priv = Ok e →
  ∃ k id n, e = mkEntity (Some (set_ids id n template)) (Some (RSAPrivate k)) (Some (RSAPublic (Public k))) None.
Proof.
  unfold Entity.NewEntity, with_ids. intros He. destruct gen as [|g]; [done|].
  destruct priv as [[k|k]|]; cbv [mbind outcome_bind mret outcome_ret] in He;
    repeat case_match; simplify_eq; by eexists _, _, _.
Qed.

(** The certificate a signature makes. *)
Lemma SignWith_Ok self (parent e e' : Entity) :
  SignWith self parent e = Ok e' → (self = true → parent = e ∧ e_Certificate e = None) →
  ∃ t p leaf k, parent_template parent = Some p ∧ e_Template e = Some t ∧ e_PrivateKey parent = Some k ∧
    signed_by leaf (public_of k) ∧ leaf_of e' = Some leaf ∧ e_PrivateKey e' = e_PrivateKey e ∧
    e_PublicKey e' = e_PublicKey e ∧
    x_Subject leaf = x_Subject t ∧ x_Issuer leaf = x_Subject p ∧ x_SubjectKeyId leaf = x_SubjectKeyId t ∧
    x_BasicConstraintsValid leaf = x_BasicConstraintsValid t ∧ x_IsCA leaf = x_IsCA t ∧
    x_KeyUsage leaf = x_KeyUsage t ∧ x_PublicKey leaf = e_PublicKey e.
Proof.
  unfold Entity.SignWith. destruct (parent_template parent) as [p|] eqn:Hp; [|done].
  destruct (e_Template e) as [t|] eqn:Ht; [|done]. cbv zeta. intros Hs Hself.
  set (p' := match self, e_Certificate e with true, Some (mkTLS (Some _) _) => p | true, _ => _ | false, _ => p end) in Hs.
  assert (x_Subject p' = x_Subject p) as Hsub.
  { unfold p'. destruct self; [|done]. destruct (Hself eq_refl) as [-> Hc]. rewrite Hc. cbn.
    unfold parent_template in Hp. rewrite Hc in Hp. congruence. }
  destruct (CreateCertificate _ _ _ _) as [err|d] eqn:Hcr; [done|].
  destruct (law_create _ laws _ _ _ _ _ Hcr) as (c & k & Hpa & Hk & Hsig & H1 & H2 & H3 & H4 & H5 & H6 & H7).
  rewrite Hpa in Hs. cbv [mret outcome_ret] in Hs. injection Hs as <-.
  exists t, p, c, k. split_and!; try done. by rewrite H2.
Qed.

(** What the constructors make. *)
Lemma create_Ok gen serial (template : x509_Certificate) (priv : option PrivateKey) (parent : option Entity) (e : Entity) :
  create gen serial template priv parent = Ok e →
  ∃ leaf, holds_key e leaf ∧ x_Subject leaf = x_Subject template ∧
    x_BasicConstraintsValid leaf = x_BasicConstraintsValid template ∧ x_IsCA leaf = x_IsCA template ∧
    x_KeyUsage leaf = x_KeyUsage template ∧
    match parent with
    | None => x_Issuer leaf = x_Subject template ∧
        ∃ k, x_PublicKey leaf = Some (public_of k) ∧ signed_by leaf (public_of k)
    | Some parent => ∀ p, holds_key parent p → x_Issuer leaf = x_Subject p ∧
        ∃ k, x_PublicKey p = Some (public_of k) ∧ signed_by leaf (public_of k)
    end.
Proof.
  unfold Entity.create. intros (ca & Hca & Hs)%outcome_bind_Ok. apply wrapping_Ok, NewEntity_Ok in Hca as (k & id & n & ->).
  apply wrapping_Ok in Hs. pose proof (law_public _ laws k) as Hpub.
  destruct parent as [parent|]; apply SignWith_Ok in Hs as (t & p & leaf & k' & Hp & Ht & Hk & Hsig & Hl & Hpr & Hpu & H1 & H2 & _ & H4 & H5 & H6 & H7);
    try done; cbn in Ht, Hpr, Hpu, H7; injection Ht as <-; exists leaf;
    (split; [split; [done|]; exists (RSAPrivate k); by rewrite Hpr, H7, Hpub|]); split_and!; try done.
  - intros p' [Hp' (k'' & Hk'' & Hpk)]. apply parent_template_leaf in Hp'. rewrite Hp' in Hp. injection Hp as <-.
    rewrite Hk'' in Hk. injection Hk as <-. split; [done|]. by exists k''.
  - cbn in Hp. injection Hp as <-. exact H2.
  - cbn in Hk. injection Hk as <-. exists (RSAPrivate k). split; [by rewrite H7, Hpub|done].
Qed.

(** A leaf that may sign vouches for what it signed. *)
Lemma vouches (p leaf : x509_Certificate) (k : PrivateKey) :
  may_sign p → x_PublicKey p = Some (public_of k) → signed_by leaf (public_of k) → CheckSignatureFrom leaf p = None.
Proof. intros (? & ? & ?) ? ?. by eapply (law_check _ laws). Qed.

Lemma SignedBy_leaves (parent e : Entity) (p leaf : x509_Certificate) :
  leaf_of parent = Some p → leaf_of e = Some leaf →
  SignedBy CheckSignatureFrom parent e = Ok (CheckSignatureFrom leaf p).
Proof.
  unfold leaf_of, SignedBy. destruct (e_Certificate e) as [[[l|] k]|], (e_Certificate parent) as [[[l'|] k']|]; try done.
  by intros [= ->] [= ->].
Qed.

Lemma TemplateCA_may_sign cn now1 now2 (leaf : x509_Certificate) :
  x_BasicConstraintsValid leaf = x_BasicConstraintsValid (@TemplateCA rsa_public other_key signature cn now1 now2) →
  x_IsCA leaf = x_IsCA (@TemplateCA rsa_public other_key signature cn now1 now2) →
  x_KeyUsage leaf = x_KeyUsage (@TemplateCA rsa_public other_key signature cn now1 now2) → may_sign leaf.
Proof. intros H1 H2 H3. unfold may_sign. by rewrite H1, H2, H3. Qed.

(** ** Chains *)

(** Entities from the newest to the root: a self-signed CA, and CAs signed by
    the one before. *)
Abbreviation CreateSelfSigned := (CreateSelfSigned Public asn1_Marshal sha1_Sum CreateCertificate ParseCertificate).
Abbreviation CreateSignedCA := (CreateSignedCA Public asn1_Marshal sha1_Sum CreateCertificate ParseCertificate).
Abbreviation CreateSigned := (CreateSigned Public asn1_Marshal sha1_Sum CreateCertificate ParseCertificate).

Inductive ca_chain : list Entity → Prop :=
  | chain_root gen serial now1 now2 cn priv e :
      CreateSelfSigned gen serial now1 now2 cn priv = Ok e → ca_chain [e]
  | chain_ca gen serial now1 now2 cn priv p e l :
      ca_chain (p :: l) → CreateSignedCA gen serial now1 now2 cn priv p = Ok e → ca_chain (e :: p :: l).

(** Each entity is signed by the next one and names it as its issuer; the last
    one is signed by itself. *)
Fixpoint verifies (e : Entity) (l : list Entity) : Prop :=
  match l with
  | [] => SignedBy CheckSignatureFrom e e = Ok None
  | p :: l =>
      SignedBy CheckSignatureFrom p e = Ok None ∧ (x_Issuer <$> leaf_of e) = (x_Subject <$> leaf_of p) ∧ verifies p l
  end.

Lemma signed_verifies gen serial (template : x509_Certificate) (priv : option PrivateKey) (p e : Entity) leaf_p :
  create gen serial template priv (Some p) = Ok e → holds_key p leaf_p → may_sign leaf_p →
  SignedBy CheckSignatureFrom p e = Ok None ∧ (x_Issuer <$> leaf_of e) = (x_Subject <$> leaf_of p).
Proof using laws.
  intros He Hp Hm. apply create_Ok in He as (leaf & [Hl _] & _ & _ & _ & _ & Hpar).
  destruct (Hpar leaf_p Hp) as (Hi & k & Hpk & Hs). destruct Hp as [Hlp _].
  rewrite (SignedBy_leaves p e leaf_p leaf Hlp Hl), Hl, Hlp. cbn. rewrite Hi. split; [|done].
  f_equal. by eapply vouches.
Qed.

Lemma ca_chain_signs e l : ca_chain (e :: l) → ∃ leaf, holds_key e leaf ∧ may_sign leaf.
Proof using laws.
  inversion 1 as [gen serial now1 now2 cn priv e' He|gen serial now1 now2 cn priv p e' l' Hl He]; subst;
    apply create_Ok in He as (leaf & Hk & _ & H1 & H2 & H3 & _); exists leaf; (split; [done|]);
    by eapply TemplateCA_may_sign.
Qed.

Lemma ca_chain_verifies e l : ca_chain (e :: l) → verifies e l.
Proof using laws.
  intros Hc. remember (e :: l) as el eqn:Hel. revert e l Hel.
  induction Hc as [gen serial now1 now2 cn priv e0 He|gen serial now1 now2 cn priv p e0 l0 Hl IH He]; intros e l [= <- <-].
  - pose proof He as He'. apply create_Ok in He as (leaf & [Hl Hk] & Hs & H1 & H2 & H3 & Hi & k & Hpk & Hsig).
    cbn. rewrite (SignedBy_leaves e0 e0 leaf leaf Hl Hl). f_equal. eapply vouches; [|done|done].
    by eapply TemplateCA_may_sign.
  - destruct (ca_chain_signs p l0 Hl) as (leaf & Hk & Hm).
    destruct (signed_verifies _ _ _ _ _ _ _ He Hk Hm) as [Hs Hi]. cbn. split_and!; [done|done|by apply IH].
Qed.
End spec.

(** ** Theorems *)
Section theorems.
Context {rsa_private rsa_public other_key der signature : Type} (Public : rsa_private → rsa_public).
Abbreviation x509_Certificate := (@x509_Certificate rsa_public other_key signature).
Abbreviation PrivateKey := (@PrivateKey rsa_private other_key).
Abbreviation PublicKey := (@PublicKey rsa_public other_key).
Abbreviation Entity := (@Entity rsa_private rsa_public other_key signature).
Context (asn1_Marshal : rsa_public → error + string) (sha1_Sum : string → string).
Context (CreateCertificate : x509_Certificate → x509_Certificate → option PublicKey → option PrivateKey → error + der)
        (ParseCertificate : der → error + x509_Certificate)
        (CheckSignatureFrom : x509_Certificate → x509_Certificate → option error)
        (public_of : PrivateKey → PublicKey) (signed_by : x509_Certificate → PublicKey → Prop).
Abbreviation laws := (x509_laws Public CreateCertificate ParseCertificate CheckSignatureFrom public_of signed_by).
Abbreviation ca_chain := (ca_chain Public asn1_Marshal sha1_Sum CreateCertificate ParseCertificate).
Abbreviation create := (create Public asn1_Marshal sha1_Sum CreateCertificate ParseCertificate).
Abbreviation CreateSigned := (CreateSigned Public asn1_Marshal sha1_Sum CreateCertificate ParseCertificate).

(** C25. Entities form chains that verify: an entity that CreateSigned makes from
    the newest CA of a chain of CreateSelfSigned and CreateSignedCA carries the
    given common name, each entity of the chain verifies against the next one
    and names it as its issuer, and the root against itself; nothing that is
    signed with the last entity, which is no CA, verifies against it. *)
Theorem chain_verifies (l : list Entity) (p e : Entity) (gen : error + rsa_private) (serial : error + Z)
    (now1 now2 : Z) (cn : string) (priv : option PrivateKey) :
  laws → ca_chain (p :: l) → CreateSigned gen serial now1 now2 cn priv p = Ok e →
  verifies CheckSignatureFrom e (p :: l) ∧
  (∃ leaf, leaf_of e = Some leaf ∧ n_CommonName (x_Subject leaf) = cn) ∧
  ∀ gen' serial' template priv' e', create gen' serial' template priv' (Some e) = Ok e' →
    SignedBy CheckSignatureFrom e e' ≠ Ok None.
Proof.
  intros Hlaws Hc He. destruct (ca_chain_signs _ _ _ _ _ _ _ _ Hlaws p l Hc) as (leaf & Hk & Hm).
  destruct (signed_verifies _ _ _ _ _ _ _ _ Hlaws _ _ _ _ _ _ _ He Hk Hm) as [Hs Hi].
  pose proof (ca_chain_verifies _ _ _ _ _ _ _ _ Hlaws p l Hc) as Hv.
  apply (create_Ok _ _ _ _ _ _ _ _ Hlaws) in He as (leaf_e & Hke & Hsub & Hb & Hca & _ & _).
  split; [by split_and!|]. split; [exists leaf_e; split; [apply Hke|by rewrite Hsub]|].
  intros gen' serial' template priv' e' He'. apply (create_Ok _ _ _ _ _ _ _ _ Hlaws) in He' as (leaf' & [Hl' _] & _).
  rewrite (SignedBy_leaves _ e e' leaf_e leaf' (proj1 Hke) Hl'). intros [= Hn].
  by eapply (law_check_ca _ _ _ _ _ _ Hlaws).
Qed.

(** The signer of the certificate tool answers a signing request with a
    certificate for it: the certificate has the subject and the public key of
    the request, names the CA as its issuer, is no CA itself and verifies
    against the leaf of the CA. *)
Theorem signer_signs (caEnt : Entity) (leaf_ca c : x509_Certificate)
    (csr : @CertificateRequest rsa_public other_key signature) (now1 now2 : Z) (serial : error + Z) :
  laws → holds_key public_of caEnt leaf_ca → may_sign leaf_ca →
  signer asn1_Marshal sha1_Sum CreateCertificate ParseCertificate caEnt csr now1 now2 serial = Ok c →
  x_Subject c = cr_Subject csr ∧ x_PublicKey c = Some (cr_PublicKey csr) ∧ x_Issuer c = x_Subject leaf_ca ∧
  x_IsCA c = false ∧ CheckSignatureFrom c leaf_ca = None.
Proof.
  intros Hlaws [Hca (k & Hk & Hpk)] Hm. unfold signer, FromSigningRequest, with_ids.
  destruct (keyID _ _ _) as [|id]; [done|]. destruct serial as [|n]; [done|].
  intros (e & He & Hc)%outcome_bind_Ok. apply wrapping_Ok in He.
  apply (SignWith_Ok _ _ _ _ _ _ Hlaws) in He as
    (t & p & leaf & k' & Hp & Ht & Hk' & Hsig & Hl & _ & _ & H1 & H2 & _ & _ & H5 & _ & H7); [|done].
  cbn in Ht, H7. injection Ht as <-. cbn in H1, H5.
  rewrite (parent_template_leaf _ _ Hca) in Hp. injection Hp as <-. rewrite Hk in Hk'. injection Hk' as <-.
  assert (c = leaf) as ->.
  { unfold leaf_of in Hl. destruct (e_Certificate e) as [[[l|] kk]|]; try done. cbv [mret outcome_ret] in Hc. congruence. }
  split_and!; try done. by eapply vouches.
Qed.
End theorems.

(** ** Evaluations: keys are numbers, a certificate is its own encoding, and a
    signature is the public key of the signer. *)
Section toy.
Abbreviation key := (@PublicKey nat unit).
Abbreviation toy_cert := (@x509_Certificate nat unit key).
#[local] Instance toy_key_eq_dec : EqDecision key.
Proof. solve_decision. Defined.

Definition toy_public (k : @PrivateKey nat unit) : key :=
  match k with RSAPrivate k => RSAPublic k | OtherPrivate u => OtherPublic u end.

Definition toy_create (t p : toy_cert) (pub : option key) (priv : option (@PrivateKey nat unit)) : error + toy_cert :=
  match priv with
  | None => inl (Errorf_plain "x509: certificate private key does not implement crypto.Signer" [])
  | Some k =>
      inr (mkX509 (x_Subject t) (x_Subject p) (x_SubjectKeyId t) (x_SubjectKeyId p) (x_SerialNumber t)
             (x_BasicConstraintsValid t) (x_IsCA t) (x_MaxPathLen t) (x_MaxPathLenZero t) (x_KeyUsage t) (x_ExtKeyUsage t)
             (x_NotBefore t) (x_NotAfter t) (x_DNSNames t) (x_EmailAddresses t) (x_IPAddresses t)
             (x_SignatureAlgorithm t) pub (Some (toy_public k)))
  end.

Definition toy_check (c p : toy_cert) : option error :=
  if x_BasicConstraintsValid p && x_IsCA p && Z.testbit (x_KeyUsage p) 5 &&
     bool_decide (x_PublicKey p = x_Signature c) then None
  else Some (Errorf_plain "x509: invalid signature" []).

Definition toy_signed (c : toy_cert) (k : key) : Prop := x_Signature c = Some k.

Lemma toy_laws : x509_laws (λ k : nat, k) toy_create inr toy_check toy_public toy_signed.
Proof.
  split.
  - done.
  - intros t p pub [k|] d; [|done]. intros [= <-]. eexists _, k. by split_and!.
  - intros c p pk H1 H2 H3 H4 H5. unfold toy_check. rewrite H1, H2, H3, H4, H5. by rewrite bool_decide_eq_true_2.
  - intros c p H1 H2. unfold toy_check. by rewrite H1, H2.
Defined.
End toy.

Abbreviation toy_entity := (@Entity nat nat unit (@PublicKey nat unit)).
Definition toy_marshal (k : nat) : error + string := inr "key".
Definition toy_root : outcome error toy_entity :=
  CreateSelfSigned (λ k, k) toy_marshal id toy_create inr (inr 1) (inr 7%Z) 0 0 "root" None.

Definition toy_default : toy_entity := mkEntity None None None None.
Definition entity_or (o : outcome error toy_entity) : toy_entity := match o with Ok e => e | _ => toy_default end.
Definition toy_ca : toy_entity :=
  entity_or (CreateSignedCA (λ k, k) toy_marshal id toy_create inr (inr 2) (inr 8%Z) 0 0 "ca" None (entity_or toy_root)).
Definition toy_leaf : toy_entity :=
  entity_or (CreateSigned (λ k, k) toy_marshal id toy_create inr (inr 3) (inr 9%Z) 0 0 "target" None toy_ca).

Lemma toy_chain : ca_chain (λ k : nat, k) toy_marshal id toy_create inr [toy_ca; entity_or toy_root].
Proof.
  eapply (chain_ca _ _ _ _ _ (inr 2) (inr 8%Z) 0 0 "ca" None); [|reflexivity].
  eapply (chain_root _ _ _ _ _ (inr 1) (inr 7%Z) 0 0 "root" None). reflexivity.
Defined.

Lemma chain_verifies_witness :
  verifies toy_check toy_leaf [toy_ca; entity_or toy_root] ∧
  (∃ leaf, leaf_of toy_leaf = Some leaf ∧ n_CommonName (x_Subject leaf) = "target") ∧
  ∀ gen' serial' template priv' e',
    create (λ k : nat, k) toy_marshal id toy_create inr gen' serial' template priv' (Some toy_leaf) = Ok e' →
    SignedBy toy_check toy_leaf e' ≠ Ok None.
Proof.
  apply (chain_verifies (λ k : nat, k) toy_marshal id toy_create inr toy_check toy_public toy_signed
           [entity_or toy_root] toy_ca toy_leaf (inr 3) (inr 9%Z) 0 0 "target" None);
    [apply toy_laws|apply toy_chain|reflexivity].
Defined.

Definition toy_request : @CertificateRequest nat unit (@PublicKey nat unit) :=
  Entity.mkCSR (mkSubject ["US"] ["gNxI"] ["gNxI"] [] ["CA"] [] [] "target") [] [] [] SHA256WithRSA (RSAPublic 5) None.

Lemma signer_signs_witness :
  ∃ c leaf_ca, leaf_of toy_ca = Some leaf_ca ∧
    signer toy_marshal id toy_create inr toy_ca toy_request 0 0 (inr 3%Z) = Ok c ∧
    x_Subject c = cr_Subject toy_request ∧ x_PublicKey c = Some (cr_PublicKey toy_request) ∧
    x_Issuer c = x_Subject leaf_ca ∧ x_IsCA c = false ∧ toy_check c leaf_ca = None.
Proof.
  destruct (ok_and_true (signer toy_marshal id toy_create inr toy_ca toy_request 0 0 (inr 3%Z)) (λ _, true))
    as (c & Hc & _); [vm_compute; reflexivity|]. exists c. eexists. split; [reflexivity|]. split; [exact Hc|].
  eapply (signer_signs (λ k : nat, k) toy_marshal id toy_create inr toy_check toy_public toy_signed toy_ca);
    [apply toy_laws| |split_and!; reflexivity|exact Hc].
  split; [reflexivity|]. by exists (RSAPrivate 2).
Defined.
