(* ===== verification/Setup.v ===== *)
(** * Setup: how a model and a server are made

    Models the constructors of the modeled object ([NewMO], [NewRoot],
    [NewEmptyRoot] and the exports of [gnmi/model/mo.go]), of the model
    ([NewCustomModel] of [model.go]) and of the server (the options and
    [NewCustomServer] of [gnmi/server/server.go]), and the server of
    [gnmid/main.go] with its data block. *)

From Stdlib Require Import ZArith.
From S2P Require Import SetTxn.
From S2P Require Export Session Server Write.

(** ** Encodings of start-up data *)
Definition Encoding_YAML : Z := 5.

Definition encoding_name : gmap Z string := {[0%Z := "JSON"; 4%Z := "JSON_IETF"; 5%Z := "YAML"]}.
Definition encoding_value : gmap string Z := {["JSON" := 0%Z; "JSON_IETF" := 4%Z; "YAML" := 5%Z]}.
Definition Encoding_String (x : Z) : string := default "" (encoding_name !! x).

(** ** The modeled object *)
Section mo.
Context `{GoRange, ProtoClone, DataWrite}.
Context (json_Unmarshal : string → error + json).
(** [ydb]: a YAML document that does not parse, and its conversion into a tree. *)
Context (ydb_Parse : string → option error) (ydb_Convert : string → goval → goval * option error).

(** [schema] is the function of the generated code. *)
Definition NewMO (schema : error + MO) : error + MO := schema.

(** The start-up data is nil or bytes; a failed conversion keeps nothing.  The
    first step makes a value of the type of the root. *)
Definition NewRoot (mo : MO) (startup : option string) (encoding : Z) : outcome error goval :=
  _ ← GetRootType mo;
  let root := NewEmptyRoot in
  match startup with
  | None => mret root
  | Some startup =>
      if bool_decide (encoding = Encoding_YAML) then
        match ydb_Parse startup with
        | Some err =>
            Err (TaggedErrorf codes.InvalidArgument TagBadData "invalid startup data:: yaml: %v" [AMsg (error_text err)])
        | None =>
            match ydb_Convert startup root with
            | (_, Some err) =>
                Err (TaggedErrorf codes.Internal TagOperationFail "startup converting error:: %v" [AMsg (error_text err)])
            | (root, None) => mret root
            end
        end
      else if bool_decide (encoding = Encoding_JSON) then
        '(root, err) ← run_W (UnmarshalInternalJSON json_Unmarshal mo None startup) root;
        match err with
        | Some err =>
            Err (TaggedErrorf codes.InvalidArgument TagBadData "invalid startup data:: internal-json: %v"
                   [AMsg (error_text err)])
        | None => mret root
        end
      else
        match Unmarshal root root_node (Some startup) with
        | (_, Some err) =>
            Err (TaggedErrorf codes.InvalidArgument TagBadData "invalid startup data:: json: %v" [AMsg (error_text err)])
        | (root, None) => mret root
        end
  end.

(** The exports: the two encoders of ygot and the indentation of the standard
    library are arguments. *)
Section export.
Context {document : Type} (ConstructIETFJSON ConstructInternalJSON : goval → error + document).
Context (MarshalIndent : document → error + string).

Definition Export (root : goval) (rfc7951json : bool) : error + document :=
  match (if rfc7951json then ConstructIETFJSON root else ConstructInternalJSON root) with
  | inl err =>
      inl (TaggedErrorf codes.Internal TagBadData "json-constructing error:: %v" [AMsg (error_text err)])
  | inr jm => inr jm
  end.

Definition ExportToJSON (root : goval) (rfc7951json : bool) : error + string :=
  match (if rfc7951json then ConstructIETFJSON root else ConstructInternalJSON root) with
  | inl err =>
      inl (TaggedErrorf codes.Internal TagBadData "json-constructing error:: %v" [AMsg (error_text err)])
  | inr jm =>
      match MarshalIndent jm with
      | inl err => inl (TaggedErrorf codes.Internal TagBadData "json-marshaling error:: %v" [AMsg (error_text err)])
      | inr b => inr b
      end
  end.
End export.
End mo.

(** ** Options of the server

    The interface [StateSync] is known by its paths; an interface that is not
    installed is [None]. *)
Record Startup : Type := mkStartup { su_Encoding : Z; su_Bytes : option string }.

Inductive Option : Type :=
  | OptStartup (s : option Startup)
  | OptDisableSetRPC
  | OptCallback (sc : option StateConfig) (ss : option (list string))
  | OptAliases (a : option (gmap string string))
  | OptOther.

Fixpoint hasStartup (opts : list Option) : option Startup :=
  match opts with
  | [] => None
  | OptStartup v :: _ => v
  | _ :: opts => hasStartup opts
  end.

Fixpoint hasDisableSetRPC (opts : list Option) : bool :=
  match opts with
  | [] => false
  | OptDisableSetRPC :: _ => true
  | _ :: opts => hasDisableSetRPC opts
  end.

Fixpoint hasSetCallback (opts : list Option) : option StateConfig :=
  match opts with
  | [] => None
  | OptCallback sc _ :: _ => sc
  | _ :: opts => hasSetCallback opts
  end.

Fixpoint hasGetCallback (opts : list Option) : option (list string) :=
  match opts with
  | [] => None
  | OptCallback _ ss :: _ => ss
  | _ :: opts => hasGetCallback opts
  end.

Fixpoint hasAliases (opts : list Option) : option (gmap string string) :=
  match opts with
  | [] => None
  | OptAliases a :: _ => a
  | _ :: opts => hasAliases opts
  end.

(** ** The model and the server *)
Section server.
Context `{GoRange, ProtoClone, DataWrite, Gtrie} {value typed : Type} `{DataStore goval value typed}.
Context (json_Unmarshal : string → error + json).
Context (ydb_Parse : string → option error) (ydb_Convert : string → goval → goval * option error).

(** A server as it is made: what the Get and Subscribe RPCs read, the model of
    the Set RPC, the aliases of the target and the sessions. *)
Record NewServer_ : Type := mkNewServer {
  ns_server : Server;
  ns_model : Model goval value;
  ns_aliases : option (gmap string string);
  ns_sessions : gmap string Session
}.

(** [schema] gives the schema tree and the root of the generated code. *)
Definition NewCustomModel (schema : error + (MO * goval)) (modelData : list ModelData) (sc : option StateConfig)
    (ss : option (list string)) : outcome error (SchemaModel * Model goval value * option SyncState) :=
  match schema with
  | inl err =>
      Err (TaggedErrorf codes.Internal TagOperationFail "schema loading failed:: %v" [AMsg (error_text err)])
  | inr (mo, root) =>
      let m := mkSchemaModel mo modelData in
      sync ← match ss with
             | None => mret None
             | Some paths => st ← initStateSync m paths; mret (Some st)
             end;
      mret (m, mkModel root [] 0 sc [], sync)
  end.

(** The names and versions of the models, in order. *)
Definition SupportedModels (m : SchemaModel) : list string :=
  sort_strings ((λ md, md_Name md +:+ " " +:+ md_Version md) <$> GetModelData m).

(** [Server.Load]: the new root takes the place of the old one when the
    external system has accepted the differences. *)
Definition server_Load (startup : option string) (encoding : Z) (mo : MO) (m : Model goval value)
    : outcome error (Model goval value * option error) :=
  match NewRoot json_Unmarshal ydb_Parse ydb_Convert mo startup encoding with
  | Ok root => Load (inr root) true m
  | Err err => Load (inl err) true m
  | Panic => Panic
  | Diverge => Diverge
  end.

Definition NewCustomServer (schema : error + (MO * goval)) (supportedModels : list ModelData) (opts : list Option)
    : outcome error NewServer_ :=
  '(sm, m, sync) ← NewCustomModel schema supportedModels (hasSetCallback opts) (hasGetCallback opts);
  m ← match hasStartup opts with
      | None => mret m
      | Some startup =>
          '(m, err) ← server_Load (su_Bytes startup) (su_Encoding startup) (m_MO sm) m;
          match err with Some err => Err err | None => mret m end
      end;
  mret (mkNewServer (mkServer sm sync (m_root m) 0 (hasDisableSetRPC opts)) m (hasAliases opts) ∅).

(** [InternalUpdate]: a function of the caller runs on the root under the lock
    of the model. *)
Definition InternalUpdate (funcPtr : goval → goval * option error) (locked : bool) (root : goval)
    : outcome error (goval * option error) :=
  if locked then Diverge else mret (funcPtr root).

(** ** The server of [gnmid]

    The flags, and the data block that passes the changes of a Set on. *)
Record flags : Type := mkFlags { f_startup : string; f_startupYAML : string; f_syncPaths : list string }.

Context (ReadFile : string → error + string).
Context (WriteTo : string → string → option error) (DeleteFrom : string → option error).

Definition datablock_call (c : callback) : option error :=
  match c with
  | UpdateCreate path value => WriteTo path value
  | UpdateReplace path value => WriteTo path value
  | UpdateDelete path => DeleteFrom path
  | UpdateStart => None
  | UpdateEnd => None
  end.

Definition datablock_StateConfig : StateConfig := λ calls, last calls ≫= datablock_call.

Definition startup_option (file : string) (encoding : Z) : error + list Option :=
  if bool_decide (file = "") then inr []
  else
    match ReadFile file with
    | inl err => inl err
    | inr startbyte => inr [OptStartup (Some (mkStartup encoding (Some startbyte)))]
    end.

Definition gnmid_NewServer (schema : error + (MO * goval)) (models : list ModelData) (f : flags)
    : outcome error NewServer_ :=
  match startup_option (f_startup f) Encoding_JSON_IETF with
  | inl err => Err err
  | inr opts =>
      match startup_option (f_startupYAML f) Encoding_YAML with
      | inl err => Err err
      | inr opts' =>
          NewCustomServer schema models
            (opts ++ opts' ++ [OptCallback (Some datablock_StateConfig) (Some (f_syncPaths f))])
      end
  end.
End server.
