(* ===== verification/SetupSpec.v ===== *)
(** * SetupSpec: the theorems on the construction of servers *)

From Stdlib Require Import ZArith Lia.
From S2P Require Import SetTxn StateSyncSpec WriteSpec SetDataSpec.
From S2P Require Export Setup.

Section calls.
Context {value : Type}.
Implicit Types (m : Model goval value).

(** The external system accepts every one of the calls [cs] after [before]. *)
Fixpoint accepts (sc : StateConfig) (before cs : list callback) : bool :=
  match cs with
  | [] => true
  | c :: cs => bool_decide (sc (before ++ [c]) = None) && accepts sc (before ++ [c]) cs
  end.

Lemma calls_until_error_cases sc what cs m :
  if accepts sc (m_calls m) cs
  then calls_until_error sc what cs m =
         (mkModel (m_root m) (m_setBackup m) (m_setSeq m) (m_StateConfig m) (m_calls m ++ cs), None)
  else ∃ m' err, calls_until_error sc what cs m = (m', Some err).
Proof.
  revert m. induction cs as [|c cs IH]; intros m; cbn [accepts calls_until_error].
  { rewrite List.app_nil_r. by destruct m. }
  unfold call. destruct (sc (m_calls m ++ [c])) as [err|]; cbn.
  - eauto.
  - specialize (IH (mkModel (m_root m) (m_setBackup m) (m_setSeq m) (m_StateConfig m) (m_calls m ++ [c]))).
    cbn in IH. by rewrite <-(assoc_L (++)) in IH.
Qed.
End calls.

(** ** Theorems *)
Section theorems.
Context `{GoRange, ProtoClone, DataWrite, Gtrie} {value typed : Type} `{DataStore goval value typed}.
Context (json_Unmarshal : string → error + json).
Context (ydb_Parse : string → option error) (ydb_Convert : string → goval → goval * option error).
Abbreviation NewRoot := (NewRoot json_Unmarshal ydb_Parse ydb_Convert).
Abbreviation NewCustomServer := (NewCustomServer (value:=value) (typed:=typed) json_Unmarshal ydb_Parse ydb_Convert).

(** The calls of a start: every path listed in the start-up data is created. *)
Definition startup_calls (leaves : list (string * string)) : list callback :=
  UpdateStart :: ((λ '(p, v), UpdateCreate p v) <$> go_range (mapDataAndPath leaves)) ++ [UpdateEnd].

Lemma writes_on_empty (kvs : list (string * string)) :
  write_calls kvs ∅ = (λ '(p, v), UpdateCreate p v) <$> kvs.
Proof. unfold write_calls. apply list_fmap_ext. intros i [p v] _. by rewrite lookup_empty. Qed.


(** The YAML file of [gnmid] is read and ignored when a JSON file is given. *)
Theorem gnmid_YAML_ignored (ReadFile : string → error + string) (WriteTo : string → string → option error)
    (DeleteFrom : string → option error) (schema : error + (MO * goval)) (models : list ModelData)
    (js yaml : string) (paths : list string) b b' :
  js ≠ "" → ReadFile js = inr b → ReadFile yaml = inr b' →
  gnmid_NewServer (value:=value) (typed:=typed) json_Unmarshal ydb_Parse ydb_Convert ReadFile WriteTo DeleteFrom schema models
    (mkFlags js yaml paths) =
  gnmid_NewServer (value:=value) (typed:=typed) json_Unmarshal ydb_Parse ydb_Convert ReadFile WriteTo DeleteFrom schema models
    (mkFlags js "" paths).
Proof.
  intros Hjs Hb Hb'. unfold gnmid_NewServer, startup_option. cbn [f_startup f_startupYAML f_syncPaths].
  rewrite (bool_decide_eq_false_2 _ Hjs), Hb, Hb'. by case_bool_decide.
Qed.
End theorems.

(** ** An example: a device that starts with one leaf

    On the tree of [SetDataSpec]; the containers of the data are announced with
    an empty text. *)
Definition example_document (j : string) : error + json :=
  inr (JObject [("system", JObject [("count", JNumber j)])]).
Definition example_options : list Option :=
  [OptOther; OptCallback (Some (λ _, None)) (Some []); OptStartup (Some (mkStartup Encoding_JSON (Some "12")));
   OptStartup None; OptDisableSetRPC].

Definition example_made : outcome error (@NewServer_ map_trie goval) :=
  @NewCustomServer canonical_range identity_clone nest_write map_trie goval string nest_store
    example_document (λ _, None) (λ _ r, (r, None)) (inr (example_write_mo, nest "Device" [])) [] example_options.

Definition example_started : goval := nest "Device" [("system", Some "system", nest "system" [("count", Some "count", leaf_of "12")])].

