(* ===== verification/Subsystem.v ===== *)
(** * Subsystem: the interface statistics of [gnmid/subsystem/main.go]

    The parser of the output of ifconfig, the YAML text of the statistics, the
    collection, and the answers to a request for synchronisation.  Running the
    command, the data block and the syslog server are third-party code: the
    output of the command is an argument, and what is written to the data block
    is a result. *)

From Stdlib Require Import Ascii ZArith.
From stdpp Require Import pretty.
From S2P Require Export GoStrings Status.
From S2P Require Import Session Subscribe.

(** The fields no line sets ([Type], [Mtu], [Enabled], [Broadcast]) are left out. *)
Record IfStats : Type := mkIfStats {
  if_Name : string;
  InetAddr : string; Netmask : string; Inet6Addr : string; Inet6Prefixlen : Z; Ether : string;
  RxPacket : Z; RxBytes : Z; RxError : Z; RxDrop : Z; RxOverruns : Z; RxFrame : Z;
  TxPacket : Z; TxBytes : Z; TxError : Z; TxDrop : Z; TxOverruns : Z; TxCarrier : Z; TxCollisions : Z
}.

Definition lf : ascii := "010"%char.
Definition nl : string := String lf "".

Definition is_space (c : ascii) : bool := Ascii.eqb c " "%char.
Definition is_blank (c : ascii) : bool := is_space c || Ascii.eqb c lf.

(** The words of a line. *)
Definition split (s : string) : list string :=
  base.filter (λ trimeds, trimeds ≠ "") (Trim is_blank <$> Split s " "%char).

Definition ParseUint64 (s : string) : Z := ParseUint0 s 64.

(** One line: [item] is read by index, and an index out of range is a panic. *)
Definition read_item (ifs : IfStats) (item : list string) : option IfStats :=
  match item with
  | [] => Some ifs
  | "inet" :: _ =>
      a ← item !! 1; m ← item !! 3;
      Some (mkIfStats (if_Name ifs) a m (Inet6Addr ifs) (Inet6Prefixlen ifs) (Ether ifs)
        (RxPacket ifs) (RxBytes ifs) (RxError ifs) (RxDrop ifs) (RxOverruns ifs) (RxFrame ifs)
        (TxPacket ifs) (TxBytes ifs) (TxError ifs) (TxDrop ifs) (TxOverruns ifs) (TxCarrier ifs) (TxCollisions ifs))
  | "inet6" :: _ =>
      a ← item !! 1; l ← item !! 3;
      Some (mkIfStats (if_Name ifs) (InetAddr ifs) (Netmask ifs) a (Atoi l) (Ether ifs)
        (RxPacket ifs) (RxBytes ifs) (RxError ifs) (RxDrop ifs) (RxOverruns ifs) (RxFrame ifs)
        (TxPacket ifs) (TxBytes ifs) (TxError ifs) (TxDrop ifs) (TxOverruns ifs) (TxCarrier ifs) (TxCollisions ifs))
  | "ether" :: _ =>
      e ← item !! 1;
      Some (mkIfStats (if_Name ifs) (InetAddr ifs) (Netmask ifs) (Inet6Addr ifs) (Inet6Prefixlen ifs) e
        (RxPacket ifs) (RxBytes ifs) (RxError ifs) (RxDrop ifs) (RxOverruns ifs) (RxFrame ifs)
        (TxPacket ifs) (TxBytes ifs) (TxError ifs) (TxDrop ifs) (TxOverruns ifs) (TxCarrier ifs) (TxCollisions ifs))
  | "RX" :: _ =>
      kind ← item !! 1;
      if bool_decide (kind = "packets") then
        p ← item !! 2; b ← item !! 4;
        Some (mkIfStats (if_Name ifs) (InetAddr ifs) (Netmask ifs) (Inet6Addr ifs) (Inet6Prefixlen ifs) (Ether ifs)
          (ParseUint64 p) (ParseUint64 b) (RxError ifs) (RxDrop ifs) (RxOverruns ifs) (RxFrame ifs)
          (TxPacket ifs) (TxBytes ifs) (TxError ifs) (TxDrop ifs) (TxOverruns ifs) (TxCarrier ifs) (TxCollisions ifs))
      else
        e ← item !! 2; d ← item !! 4; o ← item !! 6; f ← item !! 8;
        Some (mkIfStats (if_Name ifs) (InetAddr ifs) (Netmask ifs) (Inet6Addr ifs) (Inet6Prefixlen ifs) (Ether ifs)
          (RxPacket ifs) (RxBytes ifs) (ParseUint64 e) (ParseUint64 d) (ParseUint64 o) (ParseUint64 f)
          (TxPacket ifs) (TxBytes ifs) (TxError ifs) (TxDrop ifs) (TxOverruns ifs) (TxCarrier ifs) (TxCollisions ifs))
  | "TX" :: _ =>
      kind ← item !! 1;
      if bool_decide (kind = "packets") then
        p ← item !! 2; b ← item !! 4;
        Some (mkIfStats (if_Name ifs) (InetAddr ifs) (Netmask ifs) (Inet6Addr ifs) (Inet6Prefixlen ifs) (Ether ifs)
          (RxPacket ifs) (RxBytes ifs) (RxError ifs) (RxDrop ifs) (RxOverruns ifs) (RxFrame ifs)
          (ParseUint64 p) (ParseUint64 b) (TxError ifs) (TxDrop ifs) (TxOverruns ifs) (TxCarrier ifs) (TxCollisions ifs))
      else
        e ← item !! 2; d ← item !! 4; o ← item !! 6; c ← item !! 8; x ← item !! 10;
        Some (mkIfStats (if_Name ifs) (InetAddr ifs) (Netmask ifs) (Inet6Addr ifs) (Inet6Prefixlen ifs) (Ether ifs)
          (RxPacket ifs) (RxBytes ifs) (RxError ifs) (RxDrop ifs) (RxOverruns ifs) (RxFrame ifs)
          (TxPacket ifs) (TxBytes ifs) (ParseUint64 e) (ParseUint64 d) (ParseUint64 o) (ParseUint64 c) (ParseUint64 x))
  | _ => Some ifs
  end.

Fixpoint read_lines (ifs : IfStats) (lines : list string) : option IfStats :=
  match lines with
  | [] => Some ifs
  | s :: lines => ifs ← read_item ifs (split s); read_lines ifs lines
  end.

(** A record with its name only. *)
Definition named (name : string) : IfStats := mkIfStats name "" "" "" 0 "" 0 0 0 0 0 0 0 0 0 0 0 0 0.

(** A panic in the function is recovered and gives nil, like an empty text. *)
Definition newIfStats (ifinfo : string) : option IfStats :=
  if bool_decide (ifinfo = "") then None
  else
    let ifinfo := Trim is_space ifinfo in
    found ← Index ifinfo ": ";
    read_lines (named (String.substring 0 found ifinfo)) (tail (Split ifinfo lf)).

(** [strings.Split] at an empty line. *)
Fixpoint split_blank (cur : string) (s : string) : list string :=
  match s with
  | "" => [cur]
  | String "010" (String "010" s) => cur :: split_blank "" s
  | String c s => split_blank (snoc cur c) s
  end.

(** [run] is the command ifconfig with its arguments. *)
Definition collectStats (run : list string → error + string) (name : string) : error + list IfStats :=
  if bool_decide (name = "") then
    match run [] with
    | inl err => inl err
    | inr output =>
        match omap newIfStats (split_blank "" output) with
        | [] => inl (Errorf_plain "no entry" [])
        | ifstats => inr ifstats
        end
    end
  else
    match run [name] with
    | inl err => inl err
    | inr output =>
        match newIfStats output with
        | Some e => inr [e]
        | None => inl (Errorf_plain "%s not found" [AStr name])
        end
    end.

Definition counter_line (name : string) (n : Z) : string := "        " +:+ name +:+ ": " +:+ pretty n +:+ nl.

Definition marshal (s : IfStats) : string :=
  nl +:+ "interfaces:" +:+ nl +:+ "  interface[name=" +:+ if_Name s +:+ "]:" +:+ nl +:+
  "    name: " +:+ if_Name s +:+ nl +:+ "    state:" +:+ nl +:+ "      name: " +:+ if_Name s +:+ nl +:+
  "      counters:" +:+ nl +:+
  counter_line "in-pkts" (RxPacket s) +:+ counter_line "in-octets" (RxBytes s) +:+
  counter_line "in-errors" (RxError s) +:+ counter_line "in-discards" (RxDrop s) +:+
  counter_line "out-pkts" (TxPacket s) +:+ counter_line "out-octets" (TxBytes s) +:+
  counter_line "out-errors" (TxError s) +:+ counter_line "out-discards" (TxDrop s).

(** *** The table of the interfaces and the data block *)
Definition IfInfo : Type := gmap string IfStats.

(** The answer to a request for synchronisation: [key] is the name of the node
    with its keys, as [ydb] takes them apart. *)
Definition SyncResponse (run : list string → error + string)
    (ExtractStrKeyNameAndValue : string → error + (string * gmap string string))
    (key : string) (sinfo : IfInfo) : IfInfo * option string :=
  match ExtractStrKeyNameAndValue key with
  | inl _ => (sinfo, None)
  | inr (sname, klist) =>
      if negb (bool_decide (sname = "interface")) then (sinfo, None)
      else
        match klist !! "name" with
        | None => (sinfo, None)
        | Some kvalue =>
            match collectStats run kvalue with
            | inr (ns :: _) => (<[kvalue := ns]> sinfo, Some (marshal ns))
            | _ => (sinfo, None)
            end
        end
  end.

Definition sync_path (s : IfStats) : string := "/interfaces/interface[name=" +:+ if_Name s +:+ "]".

(** The start of [pollStats], and one tick of it; a failed collection is an
    empty one. *)
Definition poll_start (run : list string → error + string) (sinfo : IfInfo) : IfInfo * list string :=
  let stats := match collectStats run "" with inr stats => stats | inl _ => [] end in
  (foldl (λ m s, <[if_Name s := s]> m) sinfo stats, sync_path <$> stats).

Definition poll_tick (run : list string → error + string) : list string :=
  match collectStats run "" with inr stats => marshal <$> stats | inl _ => [] end.

Definition syncStats (run : list string → error + string) (name : string) : list string :=
  match collectStats run name with inr stats => marshal <$> stats | inl _ => [] end.

(** *** Log messages

    [content], [priority] and [tag] are entries of a log record; [content] is
    asserted to be a text. *)
Definition quote : string := String "034" "".
Definition SendMessage (content : option string) (priority tag : string) : option string :=
  content ← content;
  let msg := ReplaceAll content quote ("\" +:+ quote) in
  Some (nl +:+ "messages:" +:+ nl +:+ "  state:" +:+ nl +:+ "    message:" +:+ nl +:+
        "      msg: " +:+ quote +:+ msg +:+ quote +:+ nl +:+ "      priority: " +:+ priority +:+ nl +:+
        "      app-name: " +:+ tag +:+ nl +:+ "      msgid: " +:+ nl).
