(* ===== verification/SubsystemSpec.v ===== *)
(** * SubsystemSpec: what the statistics of an interface are read from *)

From Stdlib Require Import Ascii ZArith Lia.
From stdpp Require Import pretty.
From S2P Require Import Session Subscribe SubscribeSpec.
From S2P Require Export Subsystem.

(** ** Numbers *)
Section numbers.
Local Open Scope Z_scope.

Lemma base_digit_pretty x : (x < 10)%N → base_digit (pretty_N_char x) = Some (Z.of_N x).
Proof.
  intros Hx. assert (x = 0 ∨ x = 1 ∨ x = 2 ∨ x = 3 ∨ x = 4 ∨ x = 5 ∨ x = 6 ∨ x = 7 ∨ x = 8 ∨ x = 9)%N as Hc by lia.
  destruct_or! Hc; subst x; reflexivity.
Qed.

Lemma pretty_N_char_not_underscore x : (x < 10)%N → pretty_N_char x ≠ "_"%char.
Proof.
  intros Hx. assert (x = 0 ∨ x = 1 ∨ x = 2 ∨ x = 3 ∨ x = 4 ∨ x = 5 ∨ x = 6 ∨ x = 7 ∨ x = 8 ∨ x = 9)%N as Hc by lia.
  destruct_or! Hc; subst x; done.
Qed.

Lemma base_digits_char max acc x s :
  (x < 10)%N → base_digits 10 max acc (String (pretty_N_char x) s) =
    let n := acc * 10 + Z.of_N x in if max <? n then Some (max, true) else base_digits 10 max n s.
Proof.
  intros Hx. pose proof (base_digit_pretty x Hx) as Hd.
  assert (x = 0 ∨ x = 1 ∨ x = 2 ∨ x = 3 ∨ x = 4 ∨ x = 5 ∨ x = 6 ∨ x = 7 ∨ x = 8 ∨ x = 9)%N as Hc by lia.
  destruct_or! Hc; subst x; reflexivity.
Qed.

Lemma base_digits_pretty max x s :
  Z.of_N x ≤ max → base_digits 10 max 0 (pretty_N_go x s) = base_digits 10 max (Z.of_N x) s.
Proof.
  revert s. induction (N.lt_wf_0 x) as [x _ IH]; intros s Hmax. destruct (decide (x = 0%N)) as [->|Hx].
  { by rewrite pretty_N_go_0. }
  rewrite pretty_N_go_step by lia. rewrite IH; [|apply N.div_lt; lia|].
  2: { transitivity (Z.of_N x); [|done]. apply N2Z.inj_le. apply N.Div0.div_le_upper_bound. lia. }
  rewrite base_digits_char by (apply N.mod_lt; lia).
  assert (Z.of_N (x `div` 10) * 10 + Z.of_N (x `mod` 10) = Z.of_N x) as ->.
  { rewrite <-(N2Z.inj_mul _ 10), <-N2Z.inj_add. f_equal. pose proof (N.div_mod x 10 ltac:(lia)). lia. }
  cbn zeta. by rewrite (proj2 (Z.ltb_ge _ _) Hmax).
Qed.

(** The text of a positive number starts with a digit that is not zero. *)
Lemma pretty_N_go_head x s : (0 < x)%N → ∃ d t, (0 < d < 10)%N ∧ pretty_N_go x s = String (pretty_N_char d) t.
Proof.
  revert s. induction (N.lt_wf_0 x) as [x _ IH]; intros s Hx. rewrite pretty_N_go_step by done.
  destruct (decide (x < 10)%N) as [Hl|Hl].
  - rewrite N.div_small, N.mod_small, pretty_N_go_0 by done. by eexists x, s.
  - apply IH; [apply N.div_lt; lia|]. apply N.div_str_pos. lia.
Qed.

Lemma underscores_ok_digits b s : all_digits s → underscores_ok b s = true.
Proof.
  unfold all_digits. revert b. induction s as [|c s IH]; intros b Hs; [done|]. cbn [str_forallb] in Hs.
  apply andb_true_iff in Hs as [Hc Hs]. 
  assert (underscores_ok b (String c s) = underscores_ok true s ∨ c = "_"%char) as [->| ->]; [|by apply IH|discriminate Hc].
  destruct c as [[] [] [] [] [] [] [] []]; auto.
Qed.

Lemma ParseUint64_pretty n : 0 ≤ n < 2 ^ 64 → ParseUint64 (pretty n) = n.
Proof.
  intros Hn. destruct n as [|p|p]; [done| |lia]. unfold ParseUint64.
  assert (pretty (Z.pos p) = pretty_N_go (N.pos p) "") as ->.
  { change (pretty (Z.pos p)) with (pretty (N.pos p)). unfold pretty, pretty_N. by case_decide. }
  destruct (pretty_N_go_head (N.pos p) "") as (d & t & Hd & Ht); [done|].
  pose proof (base_digits_pretty (2 ^ 64 - 1) (N.pos p) "" ltac:(lia)) as Hb. rewrite Ht in Hb |- *.
  assert (all_digits (String (pretty_N_char d) t)) as Hdig by (rewrite <-Ht; by apply pretty_N_go_digits).
  assert (ParseUint0 (String (pretty_N_char d) t) 64 =
    match base_digits 10 (2 ^ 64 - 1) 0 (String (pretty_N_char d) t) with
    | Some (n, true) => n
    | Some (n, false) => if underscores_ok false (String (pretty_N_char d) t) then n else 0
    | None => 0 end) as ->.
  { assert (d = 1 ∨ d = 2 ∨ d = 3 ∨ d = 4 ∨ d = 5 ∨ d = 6 ∨ d = 7 ∨ d = 8 ∨ d = 9)%N as Hc by lia.
    clear -Hc. destruct_or! Hc; subst d; reflexivity. }
  rewrite Hb. cbn [base_digits]. by rewrite underscores_ok_digits.
Qed.
End numbers.

(** ** Lines

    The lines that the parser reads, with the number of words it indexes; a line
    of counters that does not continue with [packets] is one of errors. *)
Inductive line_kind : Type := Inet | Inet6 | HwAddr | RxPackets | RxErrors | TxPackets | TxErrors.

#[global] Instance line_kind_eq_dec : EqDecision line_kind.
Proof. solve_decision. Defined.

Definition kind_of (words : list string) : option line_kind :=
  let counters packets errors := if bool_decide (words !! 1 = Some "packets") then packets else errors in
  w ← head words;
  if bool_decide (w = "inet") then Some Inet
  else if bool_decide (w = "inet6") then Some Inet6
  else if bool_decide (w = "ether") then Some HwAddr
  else if bool_decide (w = "RX") then Some (counters RxPackets RxErrors)
  else if bool_decide (w = "TX") then Some (counters TxPackets TxErrors)
  else None.

Definition needed (k : line_kind) : nat :=
  match k with
  | Inet | Inet6 => 4
  | HwAddr => 2
  | RxPackets | TxPackets => 5
  | RxErrors => 9
  | TxErrors => 11
  end.

Definition complete (words : list string) : bool :=
  match kind_of words with Some k => needed k <=? length words | None => true end.

(** Word [i] of the last line of a kind. *)
Definition word_of (k : line_kind) (i : nat) (lines : list (list string)) : option string :=
  last (base.filter (λ ws, kind_of ws = Some k) lines) ≫= lookup i.
Definition text_of k i lines : string := default "" (word_of k i lines).
Definition number_of k i lines : Z := match word_of k i lines with Some w => ParseUint64 w | None => 0 end.

(** What the lines say of an interface. *)
Definition described (name : string) (lines : list (list string)) : IfStats :=
  mkIfStats name (text_of Inet 1 lines) (text_of Inet 3 lines) (text_of Inet6 1 lines)
    (match word_of Inet6 3 lines with Some w => Atoi w | None => 0%Z end) (text_of HwAddr 1 lines)
    (number_of RxPackets 2 lines) (number_of RxPackets 4 lines)
    (number_of RxErrors 2 lines) (number_of RxErrors 4 lines) (number_of RxErrors 6 lines) (number_of RxErrors 8 lines)
    (number_of TxPackets 2 lines) (number_of TxPackets 4 lines)
    (number_of TxErrors 2 lines) (number_of TxErrors 4 lines) (number_of TxErrors 6 lines) (number_of TxErrors 8 lines)
    (number_of TxErrors 10 lines).

Lemma word_of_snoc k i lines ws :
  word_of k i (lines ++ [ws]) = if decide (kind_of ws = Some k) then ws !! i else word_of k i lines.
Proof.
  unfold word_of. rewrite filter_app. case_decide as Hk.
  - by rewrite filter_cons_True, filter_nil, last_snoc.
  - rewrite filter_cons_False by done. by rewrite filter_nil, List.app_nil_r.
Qed.

Lemma read_item_other ifs ws : kind_of ws = None → read_item ifs ws = Some ifs.
Proof.
  destruct ws as [|w ws]; [done|]. unfold kind_of. cbn [head mbind option_bind].
  intros Hk. repeat (case_bool_decide; [discriminate Hk|]).
  unfold read_item. repeat (case_match; try done).
Qed.

(** One line, read into what the lines before it say. *)
Lemma read_item_described name lines ws :
  read_item (described name lines) ws = if complete ws then Some (described name (lines ++ [ws])) else None.
Proof.
  unfold complete. destruct (kind_of ws) as [k|] eqn:Hk.
  2: { rewrite read_item_other by done. f_equal. unfold described, text_of, number_of.
       by rewrite !word_of_snoc, !decide_False by congruence. }
  unfold described, text_of, number_of. rewrite !word_of_snoc, !Hk.
  destruct ws as [|w ws]; [done|]. unfold kind_of in Hk. cbn [head mbind option_bind] in Hk.
  case_bool_decide; [subst w; simplify_eq; do 3 (destruct ws as [|? ws]; [reflexivity|]); reflexivity|].
  case_bool_decide; [subst w; simplify_eq; do 3 (destruct ws as [|? ws]; [reflexivity|]); reflexivity|].
  case_bool_decide; [subst w; simplify_eq; destruct ws; reflexivity|].
  assert (∀ l, w = l → l = "RX" ∨ l = "TX" → ws = [] ∨ ∃ p ws', ws = p :: ws' ∧ (p = "packets" ∨ p ≠ "packets")) as Hcase.
  { intros _ _ _. destruct ws as [|p ws]; [by left|]. right. exists p, ws. split; [done|]. destruct (decide (p = "packets")); auto. }
  destruct (decide (w = "RX")) as [->|Hrx]; [|rewrite (bool_decide_eq_false_2 (w = "RX")) in Hk by done;
    destruct (decide (w = "TX")) as [->|Htx]; [|by rewrite bool_decide_eq_false_2 in Hk]].
  all: destruct (Hcase _ eq_refl) as [->|(p & ws' & -> & [->|Hp])]; [auto|vm_compute in Hk; simplify_eq; reflexivity| |].
  1, 3: vm_compute in Hk; simplify_eq; do 3 (destruct ws' as [|? ws']; [reflexivity|]); reflexivity.
  all: rewrite (bool_decide_eq_true_2 (_ = _)) in Hk by done;
    rewrite bool_decide_eq_false_2 in Hk by (by intros [= ?]); simplify_eq; unfold read_item; cbn [mbind option_bind];
    change ((_ :: p :: ws') !! 1) with (Some p); cbn [mbind option_bind]; rewrite bool_decide_eq_false_2 by done;
    do 9 (destruct ws' as [|? ws']; [reflexivity|]); reflexivity.
Qed.

Lemma read_lines_described name lines texts :
  read_lines (described name lines) texts =
  if forallb complete (split <$> texts) then Some (described name (lines ++ (split <$> texts))) else None.
Proof.
  revert lines. induction texts as [|s texts IH]; intros lines; cbn [read_lines fmap list_fmap forallb].
  { by rewrite List.app_nil_r. }
  rewrite read_item_described. destruct (complete (split s)); cbn [mbind option_bind andb]; [|done].
  rewrite IH. by rewrite <-(assoc_L (++)).
Qed.

(** ** Theorems *)

(** C37. The statistics of an interface are what the last lines of its text say:
    for any text, newIfStats gives nil exactly if the text is empty, or it panics
    and recovers because there is no colon followed by a space, or some line with
    a known label has too few words for it; otherwise the name is what precedes the first such
    colon and every field is read from the last line with its label, or left at
    its zero value.  A counter of 64 bits printed in decimal is read exactly. *)
Theorem newIfStats_described (ifinfo : string) :
  let text := Trim is_space ifinfo in
  let lines := split <$> tail (Split text lf) in
  newIfStats ifinfo =
    (if bool_decide (ifinfo = "") then None
     else found ← Index text ": ";
          if forallb complete lines then Some (described (String.substring 0 found text) lines) else None) ∧
  ∀ k i n, (0 ≤ n < 2 ^ 64)%Z → word_of k i lines = Some (pretty n) → number_of k i lines = n.
Proof.
  intros text lines. split.
  - unfold newIfStats. case_bool_decide; [done|]. fold text. destruct (Index text ": ") as [found|]; [|done].
    cbn [mbind option_bind]. change (named ?n) with (described n []). by rewrite read_lines_described.
  - intros k i n Hn Hw. unfold number_of. rewrite Hw. by apply ParseUint64_pretty.
Qed.

(** The text of ifconfig for an interface, with a line that is not read, and
    with two addresses: the last one stays. *)
Definition eth0_text : string :=
  GoStrings.Join
    ["eth0: flags=4163<UP,BROADCAST,RUNNING,MULTICAST>  mtu 1500";
     "        inet 172.17.0.2  netmask 255.255.0.0  broadcast 172.17.255.255";
     "        inet6 2001:db8::2  prefixlen 48  scopeid 0x0<global>";
     "        inet6 fe80::42  prefixlen 64  scopeid 0x20<link>";
     "        ether 02:42:ac:11:00:02  txqueuelen 0  (Ethernet)";
     "        RX packets 18446744073709551615  bytes 2048 (2.0 KiB)";
     "        RX errors 0  dropped 1  overruns 2  frame 3";
     "        TX packets 7  bytes 900 (900.0 B)";
     "        TX errors 0  dropped 0 overruns 5  carrier 0  collisions 0";
     "        device interrupt 17"; ""; ""] nl.

Definition eth0 : IfStats :=
  mkIfStats "eth0" "172.17.0.2" "255.255.0.0" "fe80::42" 64 "02:42:ac:11:00:02"
    18446744073709551615 2048 0 1 2 3 7 900 0 0 5 0 0.

Lemma newIfStats_described_witness :
  newIfStats eth0_text = Some eth0 ∧
  number_of RxPackets 2 (split <$> tail (Split (Trim is_space eth0_text) lf)) = 18446744073709551615%Z.
Proof.
  destruct (newIfStats_described eth0_text) as [Htext Hnumber]. split.
  - rewrite Htext. by_vm.
  - apply Hnumber; [lia|by_vm].
Defined.
